(* ===== verification/_CoqProject ===== *)
-Q . S2P
Prelude.v
Float.v
Codec.v
Text.v
Utf8.v
Duration.v
Order.v
Sha256.v
Types.v
Cache.v
Keychain.v
Services.v
Emitter.v
Observability.v
Server.v
ServerSafety.v
ServerConfig.v
ServerApp.v
ServerToy.v
ServerRace.v
ServerExamples.v
Host.v
HostSafety.v
HostExamples.v
Selector.v
Pool.v
PoolSafety.v
Lifecycle.v
Tracker.v
TrackerExamples.v
PoolExamples.v
EvmAddress.v
Relay.v
Dispatcher.v
RelayResponse.v
RelayExamples.v
Fetcher.v
Resources.v
HostMetrics.v
HostMetricsSafety.v
Egress.v
EgressSafety.v
Outbound.v
HttpApp.v
HttpAppSafety.v
BlockTracker.v
Contracts.v
ReserveManager.v
MessageEmitter.v
ContractsSafety.v
ContractsExamples.v
Storage.v
Workflow.v
Guest.v
PublicData.v
HostHttp.v
HostHttpSafety.v
HostMain.v
HostProcess.v
Boot.v
Wiring.v
Attestation.v
WorkflowSafety.v
WorkflowExamples.v
Executor.v
ExecutorSafety.v
SecretShares.v
Membership.v
Reconfiguration.v
System.v
Actions.v
ActionLife.v
Support.v
EndToEnd.v
Reporting.v
ErrorPath.v
ExecutorExamples.v
ErrorPathExamples.v
EndToEndExamples.v
ReportingExamples.v
