(* ===== verification/Prelude.v ===== *)
(** * Confidential compute: a verification of the framework

    ** The program

    Workflows of a decentralised oracle network (a DON, of nodes of which at most
    [F] are faulty) run code on secrets in AWS Nitro enclaves.  A workflow calls a
    capability on every node ([src/enclave/apps/*/capability], over
    [src/capabilities/framework]).  The node's executor picks an enclave from its
    pool ([src/enclave-client]), obtains from the vault DON the encrypted secrets and
    decryption shares sealed to a key of that enclave, signs a compute request and
    sends it.  The host outside the enclave ([src/enclave/nitro/host]) collects the
    requests of a quorum into a batch and forwards it.  The server inside
    ([src/enclave/server]) checks hashes, signatures, quorum and replay, recovers the
    secrets and runs the application ([src/enclave/apps]); the response carries an
    attestation over request, output and configuration, which the pool validates and
    the executor checks against the DON's membership.  An application reaches out
    through a proxy in the parent instance and, for secrets and capabilities, through
    a relay DON whose answers it believes on a quorum.  A tracker
    ([src/enclave/config-tracker]) installs the first configuration, and votes of the
    nodes change it later.

    ** How the code is modelled

    The embedding is shallow: a function of the source is a function here, with the
    source's name where it is free; a struct is a record; a handler maps its state,
    its decoded request and the clock readings it makes to a response and a new
    state.  Fallible code returns [result] or [option], and a Go panic or a blocked
    channel is a value of the result type, so that its absence is proved and not
    assumed.  Machine integers are [Z] with their wrap-around written out ([u32],
    [u64], [i64]), [[]byte] is a list of bytes, maps are [gmap], and a float64 is a
    [spec_float] with the IEEE-754 operations of [SpecFloat].  Where Go visits a map,
    the order is an argument.  What code emits (metrics, events, log lines that are
    modelled) is a list in its result.  Code that runs concurrently is also given as atomic steps between
    its lock operations, and the theorems hold for every interleaving.

    Code outside the repository is a parameter with what is documented of it as named
    hypotheses: SHA-256 in general (a class with a FIPS 180-4 instance; injectivity is
    never assumed, theorems end in an explicit collision instead), ed25519, NaCl
    boxes, TDH2, AES-GCM, Keccak-256, Nitro attestation documents, protobuf and JSON,
    text templates, the WASM engine, HTTP clients and the SOCKS protocol.

    ** Files

    Shared: [Prelude] (this file: bytes, integers, results, list lemmas, the hint
    database and tactics), [Float] (float64 and its conversions), [Codec] (hexadecimal,
    base64), [Text] and [Utf8] (string functions of the Go library), [Duration]
    ([time.ParseDuration] and printing, and the settings' JSON durations), [Order] (sorting of byte strings), [Sha256],
    [Types] ([src/types/types.go] and the libocr domain separation: wire types and
    their hashes as the bytes written).

    Inside the enclave: [Cache] ([src/util/cache.go]), [Keychain]
    ([services/keychain]), [Services] (signature verifier, share combiner,
    [src/util/tdh2_nacl_box.go], [symmetric_key_encrypt.go]), [Emitter]
    ([server/response_emitter.go]), [Server] with [ServerSafety], [ServerConfig],
    [ServerRace] and [ServerApp] ([server/server.go]), [Resources]
    ([server/memory.go], [cpu.go]), [Egress] with [EgressSafety]
    ([nitro/proxy-client], [nitro/host/proxy-server]), [Outbound]
    ([src/util/http_error.go], [httpfetch]), [HttpApp] with [HttpAppSafety]
    ([confidential-http/app], [confidential-echo/app]), [Fetcher], [Storage],
    [Workflow] with [WorkflowSafety] ([confidential-workflows/app], [memlimit]),
    [Guest] (the guest's secrets, logs and metrics in [execution_helper.go]),
    [Relay], [Dispatcher] and [RelayResponse] ([remote_dispatcher.go],
    [gateway/client.go], [relay_response.go]), [Boot] ([nitro/starter.go],
    [entropy.go], [vsock/vsock.go] and the wiring of the outbound connections), [Wiring]
    (the six enclave binaries under [apps/*/environments], [fake/runner], the restricted
    clients of [src/util/http_restricted.go], and the dial of [proxy-client] to the parent),
    [Attestation] ([services/attestor], [attestation-validator], [nitro/types.go], and the
    attested requests of [gateway/client.go]).

    Outside it: [Host] with [HostSafety] (the batching of [nitro/host/host.go]),
    [HostHttp] with [HostHttpSafety] (the process around it: requests, calls to the
    enclave and answers, proved to refine [Host]), [HostMain] (flags, routes,
    [telemetry.go] and the instruments), [HostProcess] ([main] from start to shutdown),
    [PublicData] ([public_data.go]),
    [HostMetrics] with [HostMetricsSafety] ([nitro/host/metrics.go]), [Tracker]
    ([config-tracker], and the host's configuration endpoints).

    On the node: [Selector], [Pool] with [PoolSafety] ([src/enclave-client]),
    [Lifecycle] (the background loops of pool and executor, and [Close]),
    [Observability] ([src/capabilities/framework/metrics.go] and the workflow events),
    [EvmAddress] ([src/util/evm_address.go]), [Executor] with [ExecutorSafety],
    [SecretShares], [Membership] and [Reconfiguration]
    ([src/capabilities/framework/executor.go]), [Actions] ([base_action.go] and the
    capabilities' [action.go] and [validator.go]) with [ActionLife] (their construction,
    initialisation and closing), [BlockTracker] (the sample workflow), [Contracts],
    [ReserveManager] and [MessageEmitter] with [ContractsSafety] (the generated contract
    bindings, against the go-ethereum ABI library and a chain client).

    Together: [Support] (the calls between the processes and the routes they reach, the
    cache's collector, the host's resource poll, the tracker's process and small helpers),
    [System], [EndToEnd], [Reporting] (what a guest reports, from its calls
    to the node's events and metrics) and [ErrorPath] (a failure, from the application
    to the node's verdict).  The [*Examples] files and [ServerToy] run the
    definitions on concrete inputs: witnesses that the hypotheses of the theorems hold
    somewhere, and runs that show the findings.

    ** What is proved

    - End to end ([EndToEnd], [System]): an answer the engine receives is the result of
      the binary the execution names, run in an attested enclave, under the identity of
      the request, on a request that an honest member of the DON signed.
    - The server: quorum and honest backing of executions, no replay within the
      retention time, recovery of exactly the right secrets, attestation of what is
      returned, and changes of the configuration only by vote of an honest signer.
      [ServerRace] splits the execute handler at its accesses to shared state and
      interleaves calls with each other and with configuration changes: answers stay
      backed by the configuration their call copied, and replay protection holds
      unless two calls with one hash meet between check and mark, where a run shows
      that it fails.
    - Keys and hashes: under all schedules of calls with the steps of the rotation and
      the collectors, calls for a request within a mapping's life get one keypair (a
      run shows how keypairs that live shorter break this); hashes that bind
      every field, separation of the kinds of hashed values.
    - The host: every waiter is answered (a batch's timer is a goroutine of its own that
      may fire late; a run shows it failing a later batch), batches pass the enclave's checks, the
      metrics are exact and count the calls in flight, the log does not disclose
      outputs, and a shutdown releases the waiters and ends within twice its timeout.
    - Between processes: every call reaches the handler meant for it, and the privileged
      ones are out of reach of the public port when they have a port of their own.
    - The client and the executor: accepted responses are genuine, cached keys are
      usable, secrets and shares line up with names, nodes agree on the enclave and
      adopt a membership only when it is attested, reconfiguration completes, errors
      are blamed on the user exactly when they are the user's, and closing stops the
      background loops under every interleaving.
    - Reports and failures: what a guest logs and calls reaches the DON exactly when
      the execution succeeds, a guest cannot forge the labels of metrics, and the text
      of an application's failure decides the node's error.
    - Start-up: an enclave serves exactly after its machine passed the checks in order,
      its gateway client can dial exactly its configured endpoints, no binary lets a
      request or a workflow out of the public web, and no dial to the parent leaks a
      connection, or panics but on the typed nil of a failed vsock dial.
    - Attestation: gateway requests carry an attestation over exactly their body, under
      identifiers that are version 4 UUIDs.
    - Contracts: reads return the contract's value, emitted logs decode to what was
      emitted, and the sample workflow's report reaches its contract with its number.
    - Applications and egress: verified binaries, bounded admission, settings and
      configuration that reach the dispatcher, relay results and reports backed by a
      quorum, durations that survive JSON, secrets answered in order, requests and outputs of the HTTP application with
      the key confined to encryption, and connections to public addresses only.

    ** Fuel and bounds

    Structural recursion is used wherever the source loops over a list.  The other
    loops have fuel that is proved enough or cannot run out: [GetKeyPairForRequest]
    (a linear number of steps reaches the sequential result), [sendWithRetry] (the
    retry window divided by the backoff), the selector (one turn of the ring), the
    executor's retries (the configured maximum), decimal printing (20 digits of a
    64-bit number) and trimming (the length of the string).  Lengths are assumed to
    fit in 64 bits where they are written as such.

    ** Not modelled

    Sockets and device I/O, JSON and protobuf parsing (inputs arrive decoded, but for
    durations and the texts the host and the node look into), logs other than those of
    decoded requests and outputs, export of metrics by the OpenTelemetry library, tickers
    (a tick is an explicit step), the metrics of refreshes, generated protobuf code,
    one-line entry points that hand a service to a library, examples and test helpers
    (the echo server, mocks, [src/tests]): they are I/O, third-party or generated, or
    decide nothing about a request.  A workflow's fetch, compilation and run are
    parameters that end, and its grace period, which only delays it, is left out.  The parameter hashes of relay requests live in a
    library and are parameters. *)

(** ** Prelude: shared data, arithmetic and automation *)

From Stdlib Require Export ZArith Lia List Bool.
From Stdlib Require Export Strings.String.
From Stdlib Require Strings.Byte.
From stdpp Require Export base tactics decidable numbers option list strings gmap sets fin_sets fin_maps.

Declare Scope cc_scope.
Delimit Scope cc_scope with cc.
#[global] Open Scope Z_scope.
#[global] Open Scope cc_scope.

(** ** Bytes and strings

    A Go [[]byte] is a list of bytes; the nil slice and the empty slice are the
    same value, as every use in the code goes through [len], [range], [append]
    or [copy].  A Go [string] is a byte string. *)

Abbreviation byte := Byte.byte.
Abbreviation bytes := (list Byte.byte).

#[export] Instance byte_eq_decision : EqDecision byte := Byte.byte_eq_dec.

#[export] Program Instance byte_countable : Countable byte :=
  inj_countable Byte.to_N Byte.of_N _.
Next Obligation. intros b. apply Byte.of_to_N. Qed.

#[export] Instance byte_inhabited : Inhabited byte := populate Byte.x00.

(** The conversion [[]byte(s)]. *)
Definition bs (s : string) : bytes := String.list_byte_of_string s.

(** The conversion [string(b)]. *)
Definition string_of (b : bytes) : string := String.string_of_list_byte b.

Lemma bs_inj (s t : string) : bs s = bs t -> s = t.
Proof.
  intros H. apply (f_equal String.string_of_list_byte) in H.
  unfold bs in H. rewrite !String.string_of_list_byte_of_string in H. done.
Qed.

Lemma bs_append a b : bs (a ++ b)%string = bs a ++ bs b.
Proof. unfold bs, String.list_byte_of_string. induction a as [|c a IH]; [done|]. exact (f_equal (cons _) IH). Qed.

Lemma bs_string_of (b : bytes) : bs (string_of b) = b.
Proof. apply String.list_byte_of_string_of_list_byte. Qed.

Lemma string_of_bs (s : string) : string_of (bs s) = s.
Proof. apply String.string_of_list_byte_of_string. Qed.

Lemma string_of_inj (a b : bytes) : string_of a = string_of b -> a = b.
Proof.
  intros H. apply (f_equal bs) in H. by rewrite !bs_string_of in H.
Qed.

(** Length of a slice as the Go [int] it is. *)
Definition glen {A} (l : list A) : Z := Z.of_nat (length l).

Lemma glen_nonneg {A} (l : list A) : 0 <= glen l.
Proof. unfold glen. lia. Qed.

Lemma glen_app {A} (l k : list A) : glen (l ++ k) = glen l + glen k.
Proof. unfold glen. rewrite length_app. lia. Qed.

Lemma glen_nil {A} : glen (@nil A) = 0.
Proof. done. Qed.

Lemma glen_cons {A} (x : A) (l : list A) : glen (x :: l) = 1 + glen l.
Proof. unfold glen. simpl. lia. Qed.

Lemma glen_snoc {A} (l : list A) (x : A) : glen (l ++ [x]) = glen l + 1.
Proof. unfold glen. rewrite length_app. simpl. lia. Qed.

(** A slice that exists in memory: its length is a non-negative Go [int]. *)
Definition fits {A} (l : list A) : Prop := glen l < 2 ^ 63.

#[export] Instance fits_dec {A} (l : list A) : Decision (fits l).
Proof. unfold fits. apply _. Defined.

(** ** Machine integers *)

Definition u32 (z : Z) : Z := z mod 2 ^ 32.
Definition u64 (z : Z) : Z := z mod 2 ^ 64.

(** Two's complement reinterpretation of the low 64 bits. *)
Definition i64 (z : Z) : Z :=
  let m := z mod 2 ^ 64 in if m <? 2 ^ 63 then m else m - 2 ^ 64.

Definition is_u32 (z : Z) : Prop := 0 <= z < 2 ^ 32.
Definition is_u64 (z : Z) : Prop := 0 <= z < 2 ^ 64.
Definition is_i64 (z : Z) : Prop := - 2 ^ 63 <= z < 2 ^ 63.

Lemma u64_range z : is_u64 (u64 z).
Proof. unfold is_u64, u64. apply Z.mod_pos_bound. lia. Qed.

Lemma u32_range z : is_u32 (u32 z).
Proof. unfold is_u32, u32. apply Z.mod_pos_bound. lia. Qed.

Lemma u64_id z : is_u64 z -> u64 z = z.
Proof. intros. apply Z.mod_small. done. Qed.

Lemma u32_id z : is_u32 z -> u32 z = z.
Proof. intros. apply Z.mod_small. done. Qed.

Lemma i64_range z : is_i64 (i64 z).
Proof.
  unfold is_i64, i64. pose proof (Z.mod_pos_bound z (2 ^ 64)).
  destruct (Z.ltb_spec (z mod 2 ^ 64) (2 ^ 63)); lia.
Qed.

Lemma i64_id z : is_i64 z -> i64 z = z.
Proof.
  unfold is_i64, i64. intros Hz.
  destruct (decide (0 <= z)) as [Hp|Hn].
  - rewrite Z.mod_small by lia. destruct (Z.ltb_spec z (2 ^ 63)); lia.
  - replace (z mod 2 ^ 64) with (z + 2 ^ 64).
    + destruct (Z.ltb_spec (z + 2 ^ 64) (2 ^ 63)); lia.
    + symmetry. rewrite <- (Z.mod_add z 1 (2 ^ 64)) by lia.
      rewrite Z.mod_small; lia.
Qed.

(** [uint64(x)] of an [int64] loses nothing. *)
Lemma u64_i64_inj x y : is_i64 x -> is_i64 y -> u64 x = u64 y -> x = y.
Proof.
  intros Hx Hy H. rewrite <- (i64_id x Hx), <- (i64_id y Hy).
  unfold i64. unfold u64 in H. by rewrite H.
Qed.

(** ** Time

    An instant and a [time.Duration] are numbers of nanoseconds; a duration is
    an [int64] and [time.Time.Sub] saturates at its bounds. *)

Definition max_duration : Z := 2 ^ 63 - 1.
Definition min_duration : Z := - 2 ^ 63.

Definition time_sub (t u : Z) : Z :=
  Z.max min_duration (Z.min max_duration (t - u)).

Lemma time_sub_range t u : is_i64 (time_sub t u).
Proof. unfold is_i64, time_sub, min_duration, max_duration. lia. Qed.

(** Saturation never changes the comparison of an age with a duration. *)
Lemma time_sub_gt t u d : is_i64 d -> (d < time_sub t u <-> d < t - u /\ d < max_duration).
Proof. unfold is_i64, time_sub, min_duration, max_duration. lia. Qed.

Lemma time_sub_mono t t' u : t <= t' -> time_sub t u <= time_sub t' u.
Proof. unfold time_sub, min_duration, max_duration. lia. Qed.

Definition nanosecond : Z := 1.
Definition millisecond : Z := 1000000.
Definition second : Z := 1000000000.
Definition minute : Z := 60 * second.
Definition hour : Z := 60 * minute.

(** ** Fallible computations *)

Inductive result (E A : Type) : Type :=
| Ok (a : A)
| Err (e : E).

Arguments Ok {E A} a.
Arguments Err {E A} e.

Definition rbind {E A B} (m : result E A) (k : A -> result E B) : result E B :=
  match m with Ok a => k a | Err e => Err e end.

Definition rmap {E A B} (f : A -> B) (m : result E A) : result E B :=
  rbind m (fun a => Ok (f a)).

Definition is_ok {E A} (m : result E A) : bool :=
  match m with Ok _ => true | Err _ => false end.

Notation "'let?' x ':=' m 'in' k" := (rbind m (fun x => k))
  (at level 10, x pattern, m at level 100, k at level 200) : cc_scope.

(** [if c { return err }] in front of the rest of a function. *)
Notation "'fail_if' c 'with' e 'then' k" := (if c then Err e else k)
  (at level 10, c at level 100, e at level 100, k at level 200) : cc_scope.

Lemma rbind_Ok_inv {E A B} (m : result E A) (k : A -> result E B) b :
  rbind m k = Ok b -> exists a, m = Ok a /\ k a = Ok b.
Proof. destruct m; simpl; [eauto | discriminate]. Qed.

Lemma rbind_Err_inv {E A B} (m : result E A) (k : A -> result E B) e :
  rbind m k = Err e -> m = Err e \/ exists a, m = Ok a /\ k a = Err e.
Proof. destruct m; simpl; [eauto | intros [= ->]; auto]. Qed.

(** ** Big-endian encodings ([binary.BigEndian.PutUint32], [PutUint64]) *)

Definition byte_of_Z (z : Z) : byte :=
  default Byte.x00 (Byte.of_N (Z.to_N (z mod 256))).

Definition Z_of_byte (b : byte) : Z := Z.of_N (Byte.to_N b).

Fixpoint be (n : nat) (z : Z) : bytes :=
  match n with
  | O => []
  | S n' => be n' (z / 256) ++ [byte_of_Z z]
  end.

Definition be_decode (b : bytes) : Z :=
  fold_left (fun acc x => 256 * acc + Z_of_byte x) b 0.

Definition be32 : Z -> bytes := be 4.
Definition be64 : Z -> bytes := be 8.

Lemma Z_of_byte_of_Z z : Z_of_byte (byte_of_Z z) = z mod 256.
Proof.
  unfold Z_of_byte, byte_of_Z. pose proof (Z.mod_pos_bound z 256 ltac:(lia)) as Hb.
  destruct (Byte.of_N (Z.to_N (z mod 256))) as [b|] eqn:E.
  - apply Byte.to_of_N in E. simpl. rewrite E. lia.
  - apply Byte.of_N_None_iff in E. lia.
Qed.

Lemma byte_of_Z_of_byte b : byte_of_Z (Z_of_byte b) = b.
Proof.
  unfold Z_of_byte, byte_of_Z. pose proof (Byte.to_N_bounded b).
  rewrite Z.mod_small by lia. by rewrite N2Z.id, Byte.of_to_N.
Qed.

Lemma Z_of_byte_range b : 0 <= Z_of_byte b < 256.
Proof. unfold Z_of_byte. pose proof (Byte.to_N_bounded b). lia. Qed.

Lemma length_be n z : length (be n z) = n.
Proof. revert z. induction n as [|n IH]; intros z; [done|]. simpl. rewrite length_app, IH. simpl. lia. Qed.

Lemma be_decode_app b x : be_decode (b ++ [x]) = 256 * be_decode b + Z_of_byte x.
Proof. unfold be_decode. by rewrite fold_left_app. Qed.

Lemma be_decode_be n z : be_decode (be n z) = z mod 256 ^ Z.of_nat n.
Proof.
  revert z. induction n as [|n IH]; intros z.
  - by rewrite Z.mod_1_r.
  - simpl be. rewrite be_decode_app, IH, Z_of_byte_of_Z.
    rewrite Nat2Z.inj_succ, Z.pow_succ_r by lia.
    rewrite (Z.rem_mul_r z 256 (256 ^ Z.of_nat n)) by lia. lia.
Qed.

Lemma be_inj n x y :
  0 <= x < 256 ^ Z.of_nat n -> 0 <= y < 256 ^ Z.of_nat n -> be n x = be n y -> x = y.
Proof.
  intros Hx Hy H. apply (f_equal be_decode) in H.
  rewrite !be_decode_be, !Z.mod_small in H by done. done.
Qed.

Lemma be_mod n z : be n (z mod 256 ^ Z.of_nat n) = be n z.
Proof.
  revert z. induction n as [|n IH]; intros z; [done|].
  simpl be. rewrite Nat2Z.inj_succ, Z.pow_succ_r by lia.
  assert (0 < 256 ^ Z.of_nat n) as Hpos by lia.
  rewrite (Z.rem_mul_r z 256 (256 ^ Z.of_nat n)) by lia.
  f_equal.
  - rewrite (Z.mul_comm 256), Z.div_add, Z.div_small by (try lia; apply Z.mod_pos_bound; lia).
    rewrite Z.add_0_l. apply IH.
  - unfold byte_of_Z. do 3 f_equal. rewrite (Z.mul_comm 256), Z.mod_add, Z.mod_mod by lia. done.
Qed.

Lemma be64_inj x y : is_u64 x -> is_u64 y -> be64 x = be64 y -> x = y.
Proof. intros Hx Hy. apply be_inj; simpl; unfold is_u64 in *; lia. Qed.

Lemma be32_inj x y : is_u32 x -> is_u32 y -> be32 x = be32 y -> x = y.
Proof. intros Hx Hy. apply be_inj; simpl; unfold is_u32 in *; lia. Qed.

(** ** Splitting equal concatenations *)

Lemma app_split {A} (a b x y : list A) :
  length a = length b -> a ++ x = b ++ y -> a = b /\ x = y.
Proof. intros Hl H. by apply app_inj_1. Qed.

(** A common prefix with different continuations cannot be extended to equal lists. *)
Lemma app_head_neq {A} (p a b : list A) : a <> b -> p ++ a <> p ++ b.
Proof. intros Hn H. apply Hn. by simplify_list_eq. Qed.

(** ** Loops that look for the first success *)

(** [for _, x := range l { if y, ok := f(x); ok { return y } }]. *)
Fixpoint find_some {A B} (f : A -> option B) (l : list A) : option B :=
  match l with
  | [] => None
  | x :: l' => match f x with Some y => Some y | None => find_some f l' end
  end.

Lemma find_some_spec {A B} (f : A -> option B) l y :
  find_some f l = Some y <->
  exists l1 x l2, l = l1 ++ x :: l2 /\ f x = Some y /\ Forall (fun z => f z = None) l1.
Proof.
  induction l as [|x l IH]; simpl.
  - split; [done|]. intros (l1 & x & l2 & E & _). by destruct l1.
  - destruct (f x) as [y'|] eqn:E; split.
    + intros [= ->]. exists [], x, l. auto.
    + intros ([|z l1] & x' & l2 & [= -> ->] & Hx & Hf); [congruence|].
      inversion Hf; congruence.
    + intros H. apply IH in H as (l1 & x' & l2 & -> & Hx & Hf). exists (x :: l1), x', l2. auto.
    + intros ([|z l1] & x' & l2 & [= -> ->] & Hx & Hf); [congruence|].
      apply IH. inversion Hf; subst. eauto 6.
Qed.

Lemma find_some_None {A B} (f : A -> option B) l :
  find_some f l = None <-> Forall (fun x => f x = None) l.
Proof.
  induction l as [|x l IH]; simpl; [by split|].
  destruct (f x) eqn:E; rewrite Forall_cons, <- IH; [|tauto].
  split; [done | intros [? ?]; congruence].
Qed.

(** ** Closed decidable facts by evaluation *)

#[export] Instance is_u32_dec z : Decision (is_u32 z).
Proof. unfold is_u32. apply _. Defined.
#[export] Instance is_u64_dec z : Decision (is_u64 z).
Proof. unfold is_u64. apply _. Defined.
#[export] Instance is_i64_dec z : Decision (is_i64 z).
Proof. unfold is_i64. apply _. Defined.

Ltac by_compute := apply (bool_decide_unpack _); vm_compute; exact I.

(** [lia] with division and remainder by constants. *)
Ltac dlia := Z.to_euclidean_division_equations; lia.

(** ** Counting distinct elements *)

Lemma size_list_to_set_le {A} `{Countable A} (l : list A) :
  (size (list_to_set l : gset A) <= length l)%nat.
Proof.
  induction l as [|x l IH]; cbn [length]; [by rewrite list_to_set_nil, size_empty|].
  rewrite list_to_set_cons.
  rewrite size_union_alt. rewrite size_singleton.
  assert (size (list_to_set l ∖ {[x]} : gset A) <= size (list_to_set l : gset A))%nat
    by (apply subseteq_size, subseteq_difference_l; done). lia.
Qed.

(** The image of a list under a function has no more elements than the list has distinct ones. *)
Lemma image_size_le {A B} `{EqDecision A} `{Countable B} (f : A -> B) (l : list A) :
  (size (list_to_set (map f l) : gset B) <= length (remove_dups l))%nat.
Proof.
  assert (list_to_set (map f l) = (list_to_set (map f (remove_dups l)) : gset B)) as ->.
  { apply set_eq. intros y. rewrite !elem_of_list_to_set, !list_elem_of_fmap.
    split; intros (x & -> & Hx); exists x; (split; [done|]);
      [by apply elem_of_remove_dups | by rewrite elem_of_remove_dups in Hx]. }
  etransitivity; [apply size_list_to_set_le|]. by rewrite length_map.
Qed.

(** Pigeonhole: more distinct elements than [bad] has leaves one outside [bad]. *)
Lemma exists_outside {A} `{Countable A} (l : list A) (bad : gset A) :
  NoDup l -> (size bad < length l)%nat -> exists x, x ∈ l /\ (x ∉ bad).
Proof.
  intros Hnd Hlt. destruct (decide (Exists (fun x => x ∉ bad) l)) as [He|He].
  - apply Exists_exists in He. done.
  - apply not_Exists_Forall in He; [|intros x; apply _].
    assert (list_to_set l ⊆ bad) as Hsub.
    { intros x Hx. apply elem_of_list_to_set in Hx. rewrite Forall_forall in He.
      specialize (He x Hx). cbn in He. by apply dec_stable in He. }
    apply subseteq_size in Hsub. rewrite size_list_to_set in Hsub by done. lia.
Qed.

(** Distinct preimages of the elements of a set. *)
Lemma set_preimages {A B} `{Countable B} (f : A -> B) (P : A -> Prop) (X : gset B) :
  (forall x, x ∈ X -> exists a, x = f a /\ P a) ->
  exists l, NoDup l /\ length l = size X /\ Forall P l.
Proof.
  intros HX.
  assert (exists l, map f l = elements X /\ Forall P l) as (l & Hm & HP).
  { assert (forall x, x ∈ elements X -> exists a, x = f a /\ P a) as HE
      by (intros x Hx; apply HX; by apply elem_of_elements).
    induction (elements X) as [|x k IH]; [exists []; auto|].
    destruct (HE x) as (a & -> & Ha); [apply elem_of_cons; auto|].
    destruct IH as (l & <- & Hl); [intros; apply HE, elem_of_cons; auto|].
    exists (a :: l). auto. }
  exists l. split; [|split; [|done]].
  - apply NoDup_ListNoDup. apply (NoDup_map_inv f). rewrite Hm. apply NoDup_ListNoDup, NoDup_elements.
  - unfold size, set_size. cbn. by rewrite <- Hm, length_map.
Qed.
