(* ===== verification/Float.v ===== *)
(** * Float: exact float64 arithmetic on integers

    The [float64] operations the Go sources use, in [SpecFloat] at 53 bits of
    precision.  A conversion from an integer below [2^53] is exact, so is a product
    of two integers that stays below it, and conversion back gives the integer. *)

From Stdlib Require Import SpecFloat.
From S2P Require Import Prelude.

Definition float_of_int (z : Z) : spec_float := binary_normalize 53 1024 z 0 false.
Definition float_mul : spec_float -> spec_float -> spec_float := SFmul 53 1024.
Definition float_div : spec_float -> spec_float -> spec_float := SFdiv 53 1024.
Definition float_add : spec_float -> spec_float -> spec_float := SFadd 53 1024.

(** [math.Round]: half away from zero; an integer below [2^53] again. *)
Definition float_round (f : spec_float) : spec_float :=
  match f with
  | S754_finite s m e =>
      if 0 <=? e then f
      else match (Z.pos m + 2 ^ (- e - 1)) / 2 ^ (- e) with
           | Z.pos n => binary_normalize 53 1024 (if s then Z.neg n else Z.pos n) 0 false
           | _ => S754_zero s
           end
  | _ => f
  end.

(** [Duration.Seconds]. *)
Definition seconds_of (d : Z) : spec_float :=
  float_add (float_of_int (Z.quot d second)) (float_div (float_of_int (Z.rem d second)) (float_of_int 1000000000)).

#[export] Instance spec_float_eq_decision : EqDecision spec_float.
Proof. solve_decision. Defined.

(** Truncation of a finite number; [None] for infinities and NaN. *)
Definition float_trunc (f : spec_float) : option Z :=
  match f with
  | S754_zero _ => Some 0
  | S754_finite s m e =>
      let a := if 0 <=? e then Z.pos m * 2 ^ e else Z.pos m / 2 ^ (- e) in
      Some (if s then - a else a)
  | _ => None
  end.

(** Conversion to an integer type truncates; outside the range of the type the
    result is up to the implementation, here [out_of_range]. *)
Definition int_of_float (out_of_range : Z) (f : spec_float) : Z :=
  match float_trunc f with
  | Some z => if (min_duration <=? z) && (z <=? max_duration) then z else out_of_range
  | None => out_of_range
  end.

(** ** Binary digits *)

Definition digits (p : positive) : Z := Z.pos (digits2_pos p).

Lemma digits_spec p : 0 < digits p /\ 2 ^ (digits p - 1) <= Z.pos p < 2 ^ digits p.
Proof.
  unfold digits. induction p as [p IH|p IH|]; cbn [digits2_pos]; [| |by vm_compute].
  all: rewrite Pos2Z.inj_succ; destruct IH as (IH0 & IH1 & IH2).
  all: replace (Z.succ (Z.pos (digits2_pos p)) - 1) with (Z.succ (Z.pos (digits2_pos p) - 1)) by lia.
  all: rewrite !Z.pow_succ_r by lia; lia.
Qed.

Lemma digits_unique p d : 0 < d -> 2 ^ (d - 1) <= Z.pos p < 2 ^ d -> digits p = d.
Proof.
  intros Hd [H1 H2]. destruct (digits_spec p) as (H0 & H3 & H4).
  assert (digits p - 1 < d) by (apply (Z.pow_lt_mono_r_iff 2); lia).
  assert (d - 1 < digits p) by (apply (Z.pow_lt_mono_r_iff 2); lia). lia.
Qed.

Lemma digits_le p n : 0 <= n -> Z.pos p < 2 ^ n -> digits p <= n.
Proof.
  intros Hn H. destruct (digits_spec p) as (H0 & H3 & _).
  assert (digits p - 1 < n); [|lia]. apply (Z.pow_lt_mono_r_iff 2); lia.
Qed.

(** [p] shifted left. *)
Definition shl (p : positive) (n : nat) : positive := Nat.iter n xO p.

Lemma shl_value p n : Z.pos (shl p n) = Z.pos p * 2 ^ Z.of_nat n.
Proof.
  induction n as [|n IH]; [cbn; lia|]. change (shl p (S n)) with (xO (shl p n)).
  rewrite Pos2Z.inj_xO, IH, Nat2Z.inj_succ, Z.pow_succ_r by lia. lia.
Qed.

Lemma digits_shl p n : digits (shl p n) = digits p + Z.of_nat n.
Proof.
  induction n as [|n IH]; [cbn; lia|]. change (shl p (S n)) with (xO (shl p n)).
  unfold digits in *. cbn [digits2_pos]. rewrite Pos2Z.inj_succ, IH. lia.
Qed.

(** ** Rounding of exact values *)

Lemma iter_pos_nat {A} (f : A -> A) n x : SpecFloat.iter_pos f n x = Nat.iter (Pos.to_nat n) f x.
Proof.
  revert x. induction n as [n IH|n IH|]; intros x; cbn [SpecFloat.iter_pos]; [| |done].
  - rewrite !IH, Pos2Nat.inj_xI. rewrite <- Nat.iter_add, Nat.iter_succ_r. f_equal. lia.
  - rewrite !IH, Pos2Nat.inj_xO, <- Nat.iter_add. f_equal. lia.
Qed.

Lemma shr_shl p n : Nat.iter n shr_1 (Build_shr_record (Z.pos (shl p n)) false false) = Build_shr_record (Z.pos p) false false.
Proof. induction n as [|n IH]; [done|]. rewrite Nat.iter_succ_r. exact IH. Qed.

Lemma round_exact s p n e :
  fexp 53 1024 (digits p + (e + Z.of_nat n)) = e + Z.of_nat n -> e + Z.of_nat n <= 971 ->
  binary_round_aux 53 1024 s (Z.pos (shl p n)) e loc_Exact = S754_finite s p (e + Z.of_nat n).
Proof.
  intros Hf He. unfold binary_round_aux, shr_fexp. cbn [Zdigits2 shr_record_of_loc]. fold (digits (shl p n)).
  rewrite digits_shl. replace (digits p + Z.of_nat n + e) with (digits p + (e + Z.of_nat n)) by lia. rewrite Hf.
  assert (shr (Build_shr_record (Z.pos (shl p n)) false false) e (e + Z.of_nat n - e)
          = (Build_shr_record (Z.pos p) false false, e + Z.of_nat n)) as ->.
  { replace (e + Z.of_nat n - e) with (Z.of_nat n) by lia. destruct n as [|n]; [cbn [shr Z.of_nat shl Nat.iter]; by rewrite Z.add_0_r|].
    unfold shr. change (Z.of_nat (S n)) with (Z.pos (Pos.of_succ_nat n)). cbv iota beta.
    by rewrite iter_pos_nat, SuccNat2Pos.id_succ, shr_shl. }
  cbn [shr_m loc_of_shr_record round_nearest_even Zdigits2 shr_record_of_loc]. fold (digits p).
  rewrite Hf, Z.sub_diag. cbn [shr shr_m]. by rewrite (proj2 (Z.leb_le _ (1024 - 53))) by lia.
Qed.

Lemma pos_iter_nat {A} (f : A -> A) x n : Pos.iter f x n = Nat.iter (Pos.to_nat n) f x.
Proof. apply Pos2Nat.inj_iter. Qed.

(** The float of an integer below [2^53], in its normal form. *)
Definition normal (s : bool) (p : positive) : spec_float :=
  S754_finite s (shl p (Z.to_nat (53 - digits p))) (digits p - 53).

Lemma fexp_normal d : 0 < d -> fexp 53 1024 d = d - 53.
Proof. unfold fexp, emin. lia. Qed.

Lemma binary_round_normal s p : digits p <= 53 -> binary_round 53 1024 s p 0 = normal s p.
Proof.
  intros Hd. pose proof (digits_spec p) as (H0 & _). unfold binary_round. fold (digits p). rewrite Z.add_0_r, fexp_normal by done.
  assert (shl_align p 0 (digits p - 53) = (shl p (Z.to_nat (53 - digits p)), digits p - 53)) as ->.
  { unfold shl_align. rewrite Z.sub_0_r. destruct (digits p - 53) as [|k|k] eqn:E; [|lia|].
    - by replace (53 - digits p) with 0 by lia.
    - rewrite pos_iter_nat. unfold shl. do 2 f_equal. lia. }
  change (shl p (Z.to_nat (53 - digits p))) with (shl (shl p (Z.to_nat (53 - digits p))) 0) at 1.
  rewrite round_exact; [unfold normal; f_equal; lia| |lia].
  rewrite digits_shl, Z2Nat.id, fexp_normal by lia. lia.
Qed.

Lemma float_of_int_normal p : Z.pos p < 2 ^ 53 ->
  float_of_int (Z.pos p) = normal false p /\ float_of_int (Z.neg p) = normal true p.
Proof. intros H. unfold float_of_int. cbn [binary_normalize]. rewrite !binary_round_normal by (apply digits_le; lia). done. Qed.

Lemma float_trunc_normal s p : digits p <= 53 -> float_trunc (normal s p) = Some (if s then Z.neg p else Z.pos p).
Proof.
  intros Hd. cbn [float_trunc normal]. rewrite shl_value, Z2Nat.id by lia.
  destruct (0 <=? digits p - 53) eqn:E.
  - apply Z.leb_le in E. replace (digits p) with 53 by lia. cbn [Z.sub Z.add Z.opp Z.pos_sub]. rewrite !Z.pow_0_r, !Z.mul_1_r.
    by destruct s.
  - apply Z.leb_gt in E. replace (- (digits p - 53)) with (53 - digits p) by lia.
    rewrite Z.div_mul by (apply Z.pow_nonzero; lia). by destruct s.
Qed.

(** Conversion there and back. *)
Lemma float_of_int_trunc z : Z.abs z < 2 ^ 53 -> float_trunc (float_of_int z) = Some z.
Proof.
  intros H. destruct z as [|p|p]; [done| |]; destruct (float_of_int_normal p) as [E1 E2]; try lia;
    rewrite ?E1, ?E2; apply float_trunc_normal; apply digits_le; lia.
Qed.

Lemma int_of_float_of_int oor z : Z.abs z < 2 ^ 53 -> int_of_float oor (float_of_int z) = z.
Proof.
  intros H. unfold int_of_float. rewrite float_of_int_trunc by done.
  unfold min_duration, max_duration. destruct (_ && _) eqn:E; [done|]. exfalso.
  apply andb_false_iff in E as [E|E]; apply Z.leb_gt in E; lia.
Qed.

(** Products. *)
Lemma digits_mul p q : digits p + digits q - 1 <= digits (p * q) <= digits p + digits q.
Proof.
  destruct (digits_spec p) as (P0 & P1 & P2), (digits_spec q) as (Q0 & Q1 & Q2), (digits_spec (p * q)) as (R0 & R1 & R2).
  rewrite Pos2Z.inj_mul in *.
  assert (2 ^ (digits p - 1 + (digits q - 1)) <= Z.pos p * Z.pos q) by (rewrite Z.pow_add_r by lia; nia).
  assert (Z.pos p * Z.pos q < 2 ^ (digits p + digits q)) by (rewrite Z.pow_add_r by lia; nia).
  split.
  - assert (digits p - 1 + (digits q - 1) < digits (p * q)); [|lia]. apply (Z.pow_lt_mono_r_iff 2); lia.
  - assert (digits (p * q) - 1 < digits p + digits q); [|lia]. apply (Z.pow_lt_mono_r_iff 2); lia.
Qed.

Lemma float_mul_normal p q : digits (p * q) <= 53 -> float_mul (normal false p) (normal false q) = normal false (p * q).
Proof.
  intros Hd. pose proof (digits_mul p q). pose proof (digits_spec p) as (P0 & _). pose proof (digits_spec q) as (Q0 & _).
  pose proof (digits_spec (p * q)) as (R0 & _).
  assert (digits p <= 53 /\ digits q <= 53) as [Hp Hq] by lia.
  cbn [float_mul SFmul normal xorb].
  set (k := Z.to_nat (53 - digits p - digits q + digits (p * q))).
  assert (shl p (Z.to_nat (53 - digits p)) * shl q (Z.to_nat (53 - digits q)) = shl (shl (p * q) (Z.to_nat (53 - digits (p * q)))) k)%positive as ->.
  { apply Pos2Z.inj. rewrite Pos2Z.inj_mul, !shl_value, Pos2Z.inj_mul. unfold k. rewrite !Z2Nat.id by lia.
    replace (Z.pos p * 2 ^ (53 - digits p) * (Z.pos q * 2 ^ (53 - digits q)))
      with (Z.pos p * Z.pos q * (2 ^ (53 - digits p) * 2 ^ (53 - digits q))) by ring.
    rewrite <- (Z.mul_assoc (Z.pos p * Z.pos q) (2 ^ (53 - digits (p * q)))), <- !Z.pow_add_r by lia. do 2 f_equal. lia. }
  rewrite round_exact; unfold k; rewrite ?digits_shl, ?Z2Nat.id by lia.
  - unfold normal. f_equal. lia.
  - rewrite fexp_normal by lia. lia.
  - lia.
Qed.

Lemma float_mul_int a b : 0 <= a < 2 ^ 53 -> 0 <= b < 2 ^ 53 -> a * b < 2 ^ 53 ->
  float_mul (float_of_int a) (float_of_int b) = float_of_int (a * b).
Proof.
  intros Ha Hb H. destruct a as [|p|p], b as [|q|q]; try lia; try done.
  - destruct (float_of_int_normal q) as [-> _]; [lia|done].
  - destruct (float_of_int_normal p) as [-> _]; [lia|done].
  - destruct (float_of_int_normal p) as [-> _]; [lia|]. destruct (float_of_int_normal q) as [-> _]; [lia|].
    destruct (float_of_int_normal (p * q)) as [E _]; [lia|].
    change (Z.pos p * Z.pos q) with (Z.pos (p * q)). rewrite E. apply float_mul_normal. apply digits_le; lia.
Qed.
