(* ===== verification/Codec.v ===== *)
(** * Codec: hexadecimal and base64, as the handlers use them

    [encoding/hex] and [encoding/base64] (standard alphabet with padding) of the
    Go library, on byte strings.  Decoders return [None] where the library
    returns an error. *)

From S2P Require Import Prelude.

(** ** Hexadecimal *)

Definition hex_digit (n : Z) : byte := byte_of_Z (if n <? 10 then 48 + n else 87 + n).

Definition hex_value (b : byte) : option Z :=
  let z := Z_of_byte b in
  if (48 <=? z) && (z <=? 57) then Some (z - 48)
  else if (97 <=? z) && (z <=? 102) then Some (z - 87)
  else if (65 <=? z) && (z <=? 70) then Some (z - 55)
  else None.

Fixpoint hex_encode (b : bytes) : bytes :=
  match b with
  | [] => []
  | x :: b' => hex_digit (Z_of_byte x / 16) :: hex_digit (Z_of_byte x mod 16) :: hex_encode b'
  end.

Fixpoint hex_decode (b : bytes) : option bytes :=
  match b with
  | [] => Some []
  | [_] => None
  | x :: y :: b' =>
      match hex_value x, hex_value y, hex_decode b' with
      | Some hi, Some lo, Some r => Some (byte_of_Z (16 * hi + lo) :: r)
      | _, _, _ => None
      end
  end.

Lemma hex_value_digit n : 0 <= n < 16 -> hex_value (hex_digit n) = Some n.
Proof.
  intros Hn. assert (n ∈ seqZ 0 16) as Hin by (apply elem_of_seqZ; lia).
  clear Hn. revert n Hin. apply Forall_forall. by_compute.
Qed.

Lemma hex_decode_encode b : hex_decode (hex_encode b) = Some b.
Proof.
  induction b as [|x b IH]; [done|]. cbn [hex_encode hex_decode].
  pose proof (Z_of_byte_range x) as Hr.
  rewrite !hex_value_digit by (split; [try apply Z.div_pos; try apply Z.mod_pos_bound; lia |
    try apply Z.div_lt_upper_bound; try apply Z.mod_pos_bound; lia]).
  rewrite IH. do 2 f_equal. rewrite <- Z.div_mod by lia. apply byte_of_Z_of_byte.
Qed.

Lemma hex_encode_length b : length (hex_encode b) = (2 * length b)%nat.
Proof. induction b; simpl in *; lia. Qed.

Lemma hex_decode_length b : forall r, hex_decode b = Some r -> length b = (2 * length r)%nat.
Proof.
  assert (forall n b, (length b <= n)%nat -> forall r, hex_decode b = Some r -> length b = (2 * length r)%nat) as Hgen.
  { induction n as [|n IH]; intros [|x [|y b']] Hl r H; simpl in Hl; try lia; try discriminate;
      try (by injection H as <-).
    cbn [hex_decode] in H. destruct (hex_value x), (hex_value y); try discriminate.
    destruct (hex_decode b') as [r'|] eqn:E; [|discriminate]. injection H as <-.
    simpl. rewrite (IH b' ltac:(lia) r' E). lia. }
  intros. by eapply Hgen.
Qed.

(** ** Base64 *)

Definition b64_alphabet : bytes := bs "ABCDEFGHIJKLMNOPQRSTUVWXYZabcdefghijklmnopqrstuvwxyz0123456789+/".
Definition b64_pad : byte := byte_of_Z 61.

Definition b64_digit (n : Z) : byte := nth (Z.to_nat n) b64_alphabet b64_pad.

Fixpoint index_of (b : byte) (l : bytes) (i : Z) : option Z :=
  match l with
  | [] => None
  | x :: l' => if decide (x = b) then Some i else index_of b l' (i + 1)
  end.

Definition b64_value (b : byte) : option Z := index_of b b64_alphabet 0.

Fixpoint b64_encode (b : bytes) : bytes :=
  match b with
  | [] => []
  | [x] => let a := Z_of_byte x in [b64_digit (a / 4); b64_digit (a mod 4 * 16); b64_pad; b64_pad]
  | [x; y] =>
      let a := Z_of_byte x in let b := Z_of_byte y in
      [b64_digit (a / 4); b64_digit (a mod 4 * 16 + b / 16); b64_digit (b mod 16 * 4); b64_pad]
  | x :: y :: z :: rest =>
      let a := Z_of_byte x in let b := Z_of_byte y in let c := Z_of_byte z in
      b64_digit (a / 4) :: b64_digit (a mod 4 * 16 + b / 16) ::
      b64_digit (b mod 16 * 4 + c / 64) :: b64_digit (c mod 64) :: b64_encode rest
  end.

(** Quanta of four characters; only the last may be padded. *)
Fixpoint b64_quanta (l : bytes) : option bytes :=
  match l with
  | [] => Some []
  | p :: q :: r :: s :: rest =>
      match b64_value p, b64_value q with
      | Some a, Some b =>
          if decide (r = b64_pad) then
            match rest with
            | [] => if decide (s = b64_pad) then Some [byte_of_Z (4 * a + b / 16)] else None
            | _ => None
            end
          else match b64_value r with
          | None => None
          | Some c =>
              if decide (s = b64_pad) then
                match rest with
                | [] => Some [byte_of_Z (4 * a + b / 16); byte_of_Z (b mod 16 * 16 + c / 4)]
                | _ => None
                end
              else match b64_value s, b64_quanta rest with
              | Some d, Some t =>
                  Some (byte_of_Z (4 * a + b / 16) :: byte_of_Z (b mod 16 * 16 + c / 4)
                        :: byte_of_Z (c mod 4 * 64 + d) :: t)
              | _, _ => None
              end
          end
      | _, _ => None
      end
  | _ => None
  end.

(** [StdEncoding.DecodeString]: carriage returns and line feeds are skipped. *)
Definition b64_decode (b : bytes) : option bytes :=
  b64_quanta (List.filter (fun x => negb (bool_decide (x = byte_of_Z 10) || bool_decide (x = byte_of_Z 13))) b).

Lemma b64_value_digit n : 0 <= n < 64 -> b64_value (b64_digit n) = Some n /\ b64_digit n <> b64_pad /\
  b64_digit n <> byte_of_Z 10 /\ b64_digit n <> byte_of_Z 13.
Proof.
  intros Hn. assert (n ∈ seqZ 0 64) as Hin by (apply elem_of_seqZ; lia).
  clear Hn. revert n Hin. apply Forall_forall. by_compute.
Qed.

Lemma b64_encode_clean b :
  List.filter (fun x => negb (bool_decide (x = byte_of_Z 10) || bool_decide (x = byte_of_Z 13))) (b64_encode b)
  = b64_encode b.
Proof.
  assert (forall n b, (length b <= n)%nat ->
    Forall (fun x => x <> byte_of_Z 10 /\ x <> byte_of_Z 13) (b64_encode b)) as Hgen.
  { assert (b64_pad <> byte_of_Z 10 /\ b64_pad <> byte_of_Z 13) as Hpad by by_compute.
    assert (forall m, 0 <= m < 64 -> b64_digit m <> byte_of_Z 10 /\ b64_digit m <> byte_of_Z 13) as Hd
      by (intros m Hm; by destruct (b64_value_digit m Hm) as (_ & _ & ?)).
    induction n as [|n IH]; intros [|x [|y [|z b']]] Hl; simpl in Hl; try lia; cbn [b64_encode];
      try pose proof (Z_of_byte_range x); try pose proof (Z_of_byte_range y); try pose proof (Z_of_byte_range z);
      repeat (apply Forall_cons; split; [first [exact Hpad | apply Hd; dlia]|]); try constructor.
    apply IH. lia. }
  specialize (Hgen (length b) b ltac:(lia)). induction Hgen as [|x l [H1 H2] Hl IH]; [done|].
  cbn [List.filter]. rewrite !bool_decide_false by done. cbn [orb negb]. by rewrite IH.
Qed.

Lemma b64_quanta_encode b : b64_quanta (b64_encode b) = Some b.
Proof.
  assert (forall n b, (length b <= n)%nat -> b64_quanta (b64_encode b) = Some b) as Hgen; [|by eapply Hgen].
  assert (forall m, 0 <= m < 64 -> b64_value (b64_digit m) = Some m) as Hv
    by (intros m Hm; by destruct (b64_value_digit m Hm)).
  assert (forall m (P : Type) (a c : P), 0 <= m < 64 -> (if decide (b64_digit m = b64_pad) then a else c) = c) as Hp
    by (intros m P a c Hm; destruct (b64_value_digit m Hm) as (_ & ? & _); by rewrite decide_False).
  assert (forall m w, m = Z_of_byte w -> byte_of_Z m = w) as Hb by (intros ? ? ->; apply byte_of_Z_of_byte).
  induction n as [|n IH]; intros [|x [|y [|z b']]] Hl; simpl in Hl; try lia; try done; cbn [b64_encode b64_quanta];
    try pose proof (Z_of_byte_range x); try pose proof (Z_of_byte_range y); try pose proof (Z_of_byte_range z);
    rewrite !Hv by dlia; rewrite ?Hp by dlia; rewrite ?(decide_True (P := b64_pad = b64_pad)) by done;
    rewrite ?Hv by dlia; rewrite ?IH by lia; f_equal; repeat (f_equal; [apply Hb; dlia|]); try done;
    f_equal; apply Hb; dlia.
Qed.

Lemma b64_decode_encode b : b64_decode (b64_encode b) = Some b.
Proof. unfold b64_decode. by rewrite b64_encode_clean, b64_quanta_encode. Qed.

Lemma b64_encode_length b : length (b64_encode b) = (4 * ((length b + 2) / 3))%nat.
Proof.
  assert (forall n b, (length b <= n)%nat -> length (b64_encode b) = (4 * ((length b + 2) / 3))%nat) as Hgen; [|by eapply Hgen].
  induction n as [|n IH]; intros [|x [|y [|z b']]] Hl; simpl in Hl; try lia; try done.
  cbn [b64_encode length]. rewrite IH by lia.
  replace (S (S (S (length b'))) + 2)%nat with (length b' + 2 + 1 * 3)%nat by lia.
  rewrite Nat.div_add by lia. lia.
Qed.

(** ** String functions *)

(** [strings.Split(s, sep)] for a one-byte separator. *)
Fixpoint split_on (sep : byte) (s : bytes) : list bytes :=
  match s with
  | [] => [[]]
  | c :: s' =>
      if bool_decide (c = sep) then [] :: split_on sep s'
      else match split_on sep s' with
           | [] => [[c]]
           | w :: ws => (c :: w) :: ws
           end
  end.

(** [strings.Contains]. *)
Definition contains (s sub : string) : bool :=
  match String.index 0 sub s with Some _ => true | None => false end.
