(* ===== verification/Text.v ===== *)
(** * Text: the string functions of the Go library that the code uses

    [strings.Cut], [strings.TrimSpace], [strings.ToLower], [strconv.ParseUint],
    [strconv.FormatUint], [net.SplitHostPort] and [net.JoinHostPort] on byte
    strings.  [ToLower] takes the Unicode tables, which it consults only for
    strings that are not ASCII, as an argument. *)

From S2P Require Import Prelude.

Definition colon : byte := byte_of_Z 58.
Definition lbracket : byte := byte_of_Z 91.
Definition rbracket : byte := byte_of_Z 93.

(** ** Cutting *)

(** [strings.Cut] at a one-byte separator. *)
Fixpoint cut (sep : byte) (s : bytes) : option (bytes * bytes) :=
  match s with
  | [] => None
  | c :: s' =>
      if bool_decide (c = sep) then Some ([], s')
      else match cut sep s' with None => None | Some (a, b) => Some (c :: a, b) end
  end.

(** What is before and after the last separator. *)
Fixpoint cut_last (sep : byte) (s : bytes) : option (bytes * bytes) :=
  match s with
  | [] => None
  | c :: s' =>
      match cut_last sep s' with
      | Some (a, b) => Some (c :: a, b)
      | None => if bool_decide (c = sep) then Some ([], s') else None
      end
  end.

Lemma cut_last_None sep s : cut_last sep s = None <-> sep ∉ s.
Proof.
  induction s as [|c s IH]; cbn [cut_last]; [split; [intros _; apply not_elem_of_nil|done]|].
  rewrite not_elem_of_cons, <- IH. destruct (cut_last sep s) as [[]|]; [split; [done|intros [_ ?]; done]|].
  case_bool_decide; split; try done; intros [? _]; congruence.
Qed.

Lemma cut_last_Some sep s a b : cut_last sep s = Some (a, b) <-> s = a ++ sep :: b /\ sep ∉ b.
Proof.
  revert a b. induction s as [|c s IH]; intros a b; cbn [cut_last].
  { split; [done|]. by intros [?%app_cons_not_nil _]. }
  destruct (cut_last sep s) as [[a' b']|] eqn:E.
  - destruct (IH a' b') as [[Hs Hb] _]; [done|]. split.
    + intros [= <- <-]. by rewrite Hs.
    + intros [Hc Hn]. destruct a as [|x a]; cbn [app] in Hc; injection Hc as -> Hc.
      * rewrite <- Hc in Hn. exfalso. apply Hn. rewrite Hs. apply elem_of_app. right. by left.
      * assert (Some (a', b') = Some (a, b)) as [= -> ->]; [by apply IH|done].
  - apply cut_last_None in E. case_bool_decide as Hc.
    + split; [by intros [= <- <-]; subst|]. intros [Hs Hn].
      destruct a as [|x a]; cbn [app] in Hs; injection Hs as -> ->; [done|].
      destruct E. apply elem_of_app. right. by left.
    + split; [done|]. intros [Hs Hn]. destruct a as [|x a]; cbn [app] in Hs; injection Hs as -> ->; [done|].
      destruct E. apply elem_of_app. right. by left.
Qed.

Lemma cut_spec sep s a b : cut sep s = Some (a, b) <-> s = a ++ sep :: b /\ sep ∉ a.
Proof.
  revert a. induction s as [|c s IH]; intros a; cbn [cut].
  { split; [done|]. by intros [?%app_cons_not_nil _]. }
  case_bool_decide as Hc.
  - subst. split; [intros [= <- <-]; split; [done|apply not_elem_of_nil]|].
    intros [Hs Hn]. destruct a as [|x a]; cbn [app] in Hs; [by injection Hs as ->|].
    injection Hs as <- _. destruct Hn. by left.
  - destruct (cut sep s) as [[a' b']|] eqn:E; split; try done.
    + intros [= <- <-]. destruct (IH a') as [H _]. destruct H as [-> Hn]; [done|].
      split; [done|]. by apply not_elem_of_cons.
    + intros [Hs Hn]. destruct a as [|x a]; cbn [app] in Hs; injection Hs as -> Hs; [done|].
      apply not_elem_of_cons in Hn as [_ Hn]. destruct (IH a) as [_ H].
      specialize (H (conj Hs Hn)). by injection H as -> ->.
    + intros [Hs Hn]. destruct a as [|x a]; cbn [app] in Hs; injection Hs as -> Hs; [done|].
      apply not_elem_of_cons in Hn as [_ Hn]. destruct (IH a) as [_ H]. by specialize (H (conj Hs Hn)).
Qed.

(** [strings.TrimSuffix]. *)
Definition strip_suffix (suffix s : bytes) : option bytes :=
  if bool_decide (suffix `suffix_of` s) then Some (take (length s - length suffix) s) else None.
Definition TrimSuffix (suffix s : bytes) : bytes := default s (strip_suffix suffix s).
Definition strip_prefix (prefix s : bytes) : option bytes :=
  if bool_decide (prefix `prefix_of` s) then Some (drop (length prefix) s) else None.
Definition TrimPrefix (prefix s : bytes) : bytes := default s (strip_prefix prefix s).
Definition HasSuffix (s suffix : bytes) : bool := bool_decide (suffix `suffix_of` s).
Definition HasPrefix (s prefix : bytes) : bool := bool_decide (prefix `prefix_of` s).

(** [strings.Join]. *)
Fixpoint strings_Join (sep : bytes) (elems : list bytes) : bytes :=
  match elems with
  | [] => []
  | [e] => e
  | e :: rest => e ++ sep ++ strings_Join sep rest
  end.

(** ** White space *)

(** The UTF-8 encodings of the runes of [unicode.IsSpace]. *)
Definition space_runes : list bytes :=
  map (map byte_of_Z)
    ([[9]; [10]; [11]; [12]; [13]; [32]; [194; 133]; [194; 160]; [225; 154; 128]] ++
     map (fun z => [226; 128; 128 + z]) [0; 1; 2; 3; 4; 5; 6; 7; 8; 9; 10] ++
     [[226; 128; 168]; [226; 128; 169]; [226; 128; 175]; [226; 129; 159]; [227; 128; 128]]).

Fixpoint trim_left (fuel : nat) (s : bytes) : bytes :=
  match fuel with
  | O => s
  | S fuel => match find_some (fun r => strip_prefix r s) space_runes with Some s' => trim_left fuel s' | None => s end
  end.
Fixpoint trim_right (fuel : nat) (s : bytes) : bytes :=
  match fuel with
  | O => s
  | S fuel => match find_some (fun r => strip_suffix r s) space_runes with Some s' => trim_right fuel s' | None => s end
  end.

(** [strings.TrimSpace]: each step removes at least a byte. *)
Definition TrimSpace (s : bytes) : bytes :=
  let s := trim_left (length s) s in trim_right (length s) s.

(** ** Case *)

Definition is_ascii (s : bytes) : bool := forallb (fun c => Z_of_byte c <? 128) s.
Definition lower_byte (c : byte) : byte :=
  let z := Z_of_byte c in if (65 <=? z) && (z <=? 90) then byte_of_Z (z + 32) else c.
Definition ToLower (unicode : bytes -> bytes) (s : bytes) : bytes :=
  if is_ascii s then map lower_byte s else unicode s.

Definition upper_byte (c : byte) : byte :=
  let z := Z_of_byte c in if (97 <=? z) && (z <=? 122) then byte_of_Z (z - 32) else c.
Definition ToUpper (unicode : bytes -> bytes) (s : bytes) : bytes :=
  if is_ascii s then map upper_byte s else unicode s.

(** ** Numbers *)

Definition digit_value (c : byte) : option Z :=
  let z := Z_of_byte c in if (48 <=? z) && (z <=? 57) then Some (z - 48) else None.

Fixpoint digits_from (s : bytes) (acc : Z) : option Z :=
  match s with
  | [] => Some acc
  | c :: s' => match digit_value c with None => None | Some d => digits_from s' (acc * 10 + d) end
  end.

(** [strconv.ParseUint(s, 10, bits)]. *)
Definition ParseUint_bits (bits : Z) (s : bytes) : option Z :=
  match s with
  | [] => None
  | _ => match digits_from s 0 with
         | Some n => if n <? 2 ^ bits then Some n else None
         | None => None
         end
  end.
Definition ParseUint : bytes -> option Z := ParseUint_bits 64.

(** [strconv.FormatUint(n, 10)]; a 64-bit number has at most twenty digits. *)
Fixpoint decimal (fuel : nat) (n : Z) : bytes :=
  match fuel with
  | O => []
  | S fuel => (if n <? 10 then [] else decimal fuel (n / 10)) ++ [byte_of_Z (48 + n mod 10)]
  end.
Definition FormatUint (n : Z) : bytes := decimal 20 n.

Lemma digits_from_app s t acc :
  digits_from (s ++ t) acc = match digits_from s acc with Some n => digits_from t n | None => None end.
Proof. revert acc. induction s as [|c s IH]; intros acc; cbn [digits_from app]; [done|]. by destruct (digit_value c). Qed.

Lemma digit_value_of d : 0 <= d < 10 -> digit_value (byte_of_Z (48 + d)) = Some d.
Proof.
  intros H. unfold digit_value. rewrite Z_of_byte_of_Z, Z.mod_small by lia.
  rewrite (proj2 (andb_true_iff _ _)); [f_equal; lia|]. split; apply Z.leb_le; lia.
Qed.

Lemma decimal_spec fuel : forall n, 0 <= n < 10 ^ Z.of_nat fuel -> digits_from (decimal fuel n) 0 = Some n.
Proof.
  induction fuel as [|fuel IH]; intros n Hn; cbn [decimal]; [cbn in *; f_equal; lia|].
  rewrite digits_from_app. rewrite Nat2Z.inj_succ, Z.pow_succ_r in Hn by lia.
  destruct (n <? 10) eqn:E; cbn [digits_from].
  - apply Z.ltb_lt in E. rewrite digit_value_of; [|dlia]. f_equal. rewrite Z.mod_small; lia.
  - rewrite IH by dlia. cbn [digits_from]. rewrite digit_value_of by dlia. f_equal. dlia.
Qed.

Lemma FormatUint_spec n : is_u64 n -> digits_from (FormatUint n) 0 = Some n.
Proof. intros H. apply decimal_spec. split; [apply H|]. eapply Z.lt_le_trans; [apply H|]. by_compute. Qed.

Lemma FormatUint_inj n m : is_u64 n -> is_u64 m -> FormatUint n = FormatUint m -> n = m.
Proof. intros Hn Hm E. apply FormatUint_spec in Hn, Hm. congruence. Qed.

Lemma digits_from_nonneg s : forall acc n, 0 <= acc -> digits_from s acc = Some n -> 0 <= n.
Proof.
  induction s as [|c s IH]; intros acc n Ha; cbn [digits_from]; [by intros [= <-]|].
  destruct (digit_value c) as [d|] eqn:E; [|done]. intros H. eapply IH; [|done]. unfold digit_value in E.
  destruct (_ && _) eqn:Ec; [|done]. injection E as <-. apply andb_true_iff in Ec as [?%Z.leb_le _]. lia.
Qed.

Lemma ParseUint_bits_Some bits s n :
  ParseUint_bits bits s = Some n <-> s <> [] /\ digits_from s 0 = Some n /\ 0 <= n < 2 ^ bits.
Proof.
  unfold ParseUint_bits. destruct s as [|c s]; [split; [done|by intros [? _]]|].
  destruct (digits_from (c :: s) 0) as [m|] eqn:E; [|split; [done|by intros (_ & ? & _)]].
  pose proof (digits_from_nonneg _ 0 m ltac:(lia) E).
  destruct (Z.ltb_spec m (2 ^ bits)); split; try done.
  - intros [= <-]. done.
  - by intros (_ & [= ->] & _).
  - intros (_ & [= ->] & ?). lia.
Qed.

Lemma ParseUint_range s n : ParseUint s = Some n -> 0 <= n < 2 ^ 64.
Proof. by intros (_ & _ & ?)%ParseUint_bits_Some. Qed.

(** A decimal number consists of digits. *)
Lemma decimal_digits fuel n : 0 <= n -> Forall (fun c => is_Some (digit_value c)) (decimal fuel n).
Proof.
  revert n. induction fuel as [|fuel IH]; intros n Hn; cbn [decimal]; [constructor|].
  apply Forall_app. split; [destruct (n <? 10); [constructor|apply IH; dlia]|].
  repeat constructor. rewrite digit_value_of by dlia. eauto.
Qed.

Lemma FormatUint_no_colon n : is_u64 n -> colon ∉ FormatUint n.
Proof.
  intros [H _] Hin. pose proof (decimal_digits 20 n H) as Hd. rewrite Forall_forall in Hd.
  destruct (Hd _ Hin) as [d Hc]. vm_compute in Hc. discriminate Hc.
Qed.

(** ** Host and port *)

(** [net.JoinHostPort]. *)
Definition JoinHostPort (host port : bytes) : bytes :=
  if bool_decide (colon ∈ host) then lbracket :: host ++ rbracket :: colon :: port else host ++ colon :: port.

(** [net.SplitHostPort]. *)
Definition SplitHostPort (hostport : bytes) : option (bytes * bytes) :=
  match cut_last colon hostport with
  | None => None
  | Some (before, port) =>
      match hostport with
      | c :: rest =>
          if bool_decide (c = lbracket) then
            match cut rbracket hostport with
            | None => None
            | Some (open, after) =>
                if bool_decide (after = colon :: port) && negb (bool_decide (lbracket ∈ rest)) &&
                   negb (bool_decide (rbracket ∈ after))
                then Some (drop 1 open, port) else None
            end
          else if bool_decide (colon ∈ before) || bool_decide (lbracket ∈ hostport) || bool_decide (rbracket ∈ hostport)
          then None else Some (before, port)
      | [] => None
      end
  end.

(** Two hosts with ports are written alike only if they are the same. *)
Lemma JoinHostPort_inj h p h' p' : colon ∉ p -> colon ∉ p' -> JoinHostPort h p = JoinHostPort h' p' -> h = h' /\ p = p'.
Proof.
  assert (forall h p, colon ∉ p -> cut_last colon (JoinHostPort h p) =
    Some (if bool_decide (colon ∈ h) then lbracket :: h ++ [rbracket] else h, p)) as Hcut.
  { intros h0 p0 Hp. apply cut_last_Some. unfold JoinHostPort. case_bool_decide; [|done].
    split; [|done]. cbn [app]. by rewrite <- app_assoc. }
  intros Hp Hp' E. apply (f_equal (cut_last colon)) in E. rewrite !Hcut in E by done.
  injection E as E ->. split; [|done]. do 2 case_bool_decide; try done.
  - injection E as E. by apply app_inj_tail in E as [-> _].
  - subst h'. destruct H0. apply elem_of_cons. right. apply elem_of_app. by left.
  - subst h. destruct H. apply elem_of_cons. right. apply elem_of_app. by left.
Qed.

(** Splitting undoes joining, for hosts and ports without brackets. *)
Lemma split_join h p : lbracket ∉ h -> rbracket ∉ h -> colon ∉ p -> lbracket ∉ p -> rbracket ∉ p ->
  SplitHostPort (JoinHostPort h p) = Some (h, p).
Proof.
  intros Hl Hr Hp Hlp Hrp. unfold SplitHostPort, JoinHostPort. destruct (bool_decide (colon ∈ h)) eqn:Eh.
  - rewrite (proj2 (cut_last_Some colon _ (lbracket :: h ++ [rbracket]) p)).
    2:{ split; [|done]. cbn [app]. by rewrite <- app_assoc. }
    rewrite bool_decide_eq_true_2 by done.
    rewrite (proj2 (cut_spec rbracket _ (lbracket :: h) (colon :: p))).
    2:{ split; [done|]. apply not_elem_of_cons. split; [discriminate|done]. }
    rewrite (bool_decide_eq_true_2 (colon :: p = colon :: p)) by done.
    rewrite (bool_decide_eq_false_2 (rbracket ∈ colon :: p)) by (rewrite not_elem_of_cons; split; [discriminate|done]).
    rewrite bool_decide_eq_false_2; [done|]. rewrite not_elem_of_app, !not_elem_of_cons. by split_and!.
  - apply bool_decide_eq_false in Eh. rewrite (proj2 (cut_last_Some colon _ h p)) by done.
    destruct (h ++ colon :: p) as [|c rest] eqn:E; [by destruct h|].
    assert ((lbracket ∉ c :: rest) /\ (rbracket ∉ c :: rest)) as [H1 H2].
    { rewrite <- E, !not_elem_of_app, !not_elem_of_cons. split_and!; done. }
    rewrite !bool_decide_eq_false_2; try done. by apply not_elem_of_cons in H1 as [? _].
Qed.
