(* ===== verification/Utf8.v ===== *)
(** * Utf8: valid UTF-8 and its repair

    The parts of [unicode/utf8] and [strings] that the HTTP application uses on
    secrets and response headers: [utf8.Valid], [strings.ToValidUTF8], and
    [sanitizeUTF8] of [src/enclave/apps/confidential-http/app/app.go].  The decoder's
    tables are related to the encoding they stand for: a string is valid exactly
    when it is the encoding of a sequence of Unicode scalar values. *)

From S2P Require Import Prelude Codec.

(** What a first byte announces: how many continuation bytes, and the range of the
    first of them. *)
Definition lead (c : Z) : option (nat * Z * Z) :=
  if c <? 128 then Some (0%nat, 0, 0)
  else if c <? 194 then None
  else if c <? 224 then Some (1%nat, 128, 191)
  else if c =? 224 then Some (2%nat, 160, 191)
  else if c =? 237 then Some (2%nat, 128, 159)
  else if c <? 240 then Some (2%nat, 128, 191)
  else if c =? 240 then Some (3%nat, 144, 191)
  else if c <? 244 then Some (3%nat, 128, 191)
  else if c =? 244 then Some (3%nat, 128, 143)
  else None.

Definition within (lo hi : Z) (c : byte) : bool := (lo <=? Z_of_byte c) && (Z_of_byte c <=? hi).
Definition continuation : byte -> bool := within 128 191.

(** The continuation bytes of the rune [s] starts with; none when it starts with no
    rune and decoding consumes one byte as [RuneError]. *)
Definition rune_tail (s : bytes) : option nat :=
  match s with
  | [] => None
  | c0 :: t =>
      match lead (Z_of_byte c0) with
      | None => None
      | Some (k, lo, hi) =>
          let ok := match k, t with
                    | 0%nat, _ => true
                    | 1%nat, c1 :: _ => within lo hi c1
                    | 2%nat, c1 :: c2 :: _ => within lo hi c1 && continuation c2
                    | 3%nat, c1 :: c2 :: c3 :: _ => within lo hi c1 && continuation c2 && continuation c3
                    | _, _ => false
                    end in
          if ok then Some k else None
      end
  end.

(** The loops of [utf8.Valid] and [strings.ToValidUTF8]; [skip] bytes of the current
    rune are still to be passed, [invalid] says that the previous byte was not part
    of a rune. *)
Fixpoint valid_from (skip : nat) (s : bytes) : bool :=
  match s with
  | [] => true
  | _ :: t =>
      match skip with
      | S skip => valid_from skip t
      | O => match rune_tail s with None => false | Some k => valid_from k t end
      end
  end.
Definition utf8_Valid (s : bytes) : bool := valid_from 0 s.

Fixpoint to_valid (replacement : bytes) (skip : nat) (invalid : bool) (s : bytes) : bytes :=
  match s with
  | [] => []
  | c :: t =>
      match skip with
      | S skip => c :: to_valid replacement skip false t
      | O =>
          match rune_tail s with
          | None => (if invalid then [] else replacement) ++ to_valid replacement 0 true t
          | Some k => c :: to_valid replacement k false t
          end
      end
  end.
Definition ToValidUTF8 (s replacement : bytes) : bytes := to_valid replacement 0 false s.

(** U+FFFD. *)
Definition replacement_character : bytes := map byte_of_Z [239; 191; 189].

Definition sanitizeUTF8 (s : bytes) : bytes :=
  if utf8_Valid s then s else ToValidUTF8 s replacement_character.

(** ** The encoding *)

(** A Unicode scalar value: a code point that is not a surrogate. *)
Definition scalar (z : Z) : Prop := 0 <= z < 55296 \/ 57344 <= z < 1114112.

Definition encode_rune (z : Z) : bytes :=
  map byte_of_Z
    (if z <? 128 then [z]
     else if z <? 2048 then [192 + z / 64; 128 + z mod 64]
     else if z <? 65536 then [224 + z / 4096; 128 + z / 64 mod 64; 128 + z mod 64]
     else [240 + z / 262144; 128 + z / 4096 mod 64; 128 + z / 64 mod 64; 128 + z mod 64]).

Definition encode (runes : list Z) : bytes := concat (map encode_rune runes).

Lemma within_spec lo hi c : within lo hi c = true <-> lo <= Z_of_byte c <= hi.
Proof. unfold within. rewrite andb_true_iff, !Z.leb_le. done. Qed.

Ltac split_lead :=
  unfold lead in *; repeat match goal with
  | H : context [if ?a <? ?b then _ else _] |- _ => destruct (Z.ltb_spec a b)
  | H : context [if ?a =? ?b then _ else _] |- _ => destruct (Z.eqb_spec a b)
  | |- context [if ?a <? ?b then _ else _] => destruct (Z.ltb_spec a b)
  | |- context [if ?a =? ?b then _ else _] => destruct (Z.eqb_spec a b)
  end; try lia.

(** Every rune decodes to its own length. *)
Lemma rune_tail_encode z t : scalar z ->
  rune_tail (encode_rune z ++ t) = Some (pred (length (encode_rune z))).
Proof.
  unfold scalar, encode_rune, rune_tail, continuation. intros Hz.
  destruct (Z.ltb_spec z 128), (Z.ltb_spec z 2048), (Z.ltb_spec z 65536); try lia; cbn [map app];
    rewrite Z_of_byte_of_Z, Z.mod_small by dlia; split_lead; cbn [length pred];
    repeat match goal with
    | |- context [within ?lo ?hi (byte_of_Z ?v)] =>
        rewrite (proj2 (within_spec lo hi (byte_of_Z v))) by (rewrite Z_of_byte_of_Z, Z.mod_small; dlia)
    end; try done; dlia.
Qed.

Lemma byte_eq c v : Z_of_byte c = v -> c = byte_of_Z v.
Proof. intros <-. by rewrite byte_of_Z_of_byte. Qed.

(** The scalar value of a decoded sequence. *)
Definition rune_of (l : list Z) : Z :=
  match l with
  | [c0] => c0
  | [c0; c1] => 64 * (c0 - 192) + (c1 - 128)
  | [c0; c1; c2] => 4096 * (c0 - 224) + 64 * (c1 - 128) + (c2 - 128)
  | [c0; c1; c2; c3] => 262144 * (c0 - 240) + 4096 * (c1 - 128) + 64 * (c2 - 128) + (c3 - 128)
  | _ => 0
  end.

(** What decoding accepts is the encoding of a scalar value. *)
Lemma rune_tail_decode s k : rune_tail s = Some k ->
  exists z t, scalar z /\ s = encode_rune z ++ t /\ length (encode_rune z) = S k.
Proof.
  intros H. destruct s as [|c0 s]; [done|]. cbn [rune_tail] in H.
  pose proof (Z_of_byte_range c0). split_lead; cbn in H; try done;
    repeat match type of H with
    | context [match ?l with [] => false | _ => _ end] => destruct l as [|? l]; [done|]
    end; try (case_match; [|done]); injection H as <-; unfold continuation in *;
    repeat match goal with
    | E : _ && _ = true |- _ => apply andb_true_iff in E as [? ?]
    | E : within _ _ _ = true |- _ => apply within_spec in E
    end.
  all: match goal with
    | |- exists z t, _ /\ ?c0 :: ?c1 :: ?c2 :: ?c3 :: ?r = _ ++ t /\ _ = 4%nat =>
        exists (rune_of [Z_of_byte c0; Z_of_byte c1; Z_of_byte c2; Z_of_byte c3]), r
    | |- exists z t, _ /\ ?c0 :: ?c1 :: ?c2 :: ?r = _ ++ t /\ _ = 3%nat =>
        exists (rune_of [Z_of_byte c0; Z_of_byte c1; Z_of_byte c2]), r
    | |- exists z t, _ /\ ?c0 :: ?c1 :: ?r = _ ++ t /\ _ = 2%nat =>
        exists (rune_of [Z_of_byte c0; Z_of_byte c1]), r
    | |- exists z t, _ /\ ?c0 :: ?r = _ ++ t /\ _ = 1%nat => exists (rune_of [Z_of_byte c0]), r
    end; cbn [rune_of]; (split; [unfold scalar; lia|]); unfold encode_rune;
    split_lead; cbn [map app length]; (split; [|done]); repeat (f_equal; try (apply byte_eq; dlia)).
Qed.

(** ** Skipping *)

Lemma valid_from_skip k s t : length s = k -> valid_from k (s ++ t) = valid_from 0 t.
Proof. intros <-. induction s as [|c s IH]; [done|]. exact IH. Qed.

Lemma to_valid_skip r k b s t : length s = S k -> to_valid r (S k) b (s ++ t) = s ++ to_valid r 0 false t.
Proof.
  revert k b. induction s as [|c s IH]; intros k b Hs; [done|]. injection Hs as Hs. cbn [app to_valid].
  f_equal. destruct k; [by destruct s | by apply IH].
Qed.

Lemma valid_rune z t : scalar z -> utf8_Valid (encode_rune z ++ t) = utf8_Valid t.
Proof.
  intros Hz. pose proof (rune_tail_encode z t Hz) as H. unfold utf8_Valid. destruct (encode_rune z) as [|c s] eqn:E.
  { unfold encode_rune in E. by repeat case_match. }
  cbn [app length pred] in *. cbn [valid_from]. rewrite H. by apply valid_from_skip.
Qed.

Lemma to_valid_rune r b z t : scalar z -> to_valid r 0 b (encode_rune z ++ t) = encode_rune z ++ to_valid r 0 false t.
Proof.
  intros Hz. pose proof (rune_tail_encode z t Hz) as H. destruct (encode_rune z) as [|c s] eqn:E.
  { unfold encode_rune in E. by repeat case_match. }
  cbn [app length pred] in *. cbn [to_valid]. rewrite H. destruct s as [|c' s]; [done|].
  f_equal. exact (to_valid_skip r (length s) false (c' :: s) t eq_refl).
Qed.

(** A string is empty, starts with a rune, or starts with a byte of no rune. *)
Lemma rune_cases s : s = [] \/ (exists z t, scalar z /\ s = encode_rune z ++ t) \/ (exists c t, s = c :: t /\ rune_tail s = None).
Proof.
  destruct s as [|c t]; [by left|]. destruct (rune_tail (c :: t)) as [k|] eqn:E; [|by right; right; eauto].
  apply rune_tail_decode in E as (z & u & Hz & -> & _). right; left; eauto.
Qed.

Lemma encode_rune_nonempty z : (0 < length (encode_rune z))%nat.
Proof. unfold encode_rune. repeat case_match; cbn; lia. Qed.

Lemma encode_cons z rs : encode (z :: rs) = encode_rune z ++ encode rs.
Proof. done. Qed.

Lemma Valid_encode rs : Forall scalar rs -> utf8_Valid (encode rs) = true.
Proof. induction 1 as [|z rs Hz _ IH]; [done|]. by rewrite encode_cons, valid_rune. Qed.

(** [utf8.Valid] recognises the encodings of scalar values. *)
Lemma Valid_iff s : utf8_Valid s = true <-> exists rs, Forall scalar rs /\ s = encode rs.
Proof.
  split; [|by intros (rs & H & ->); apply Valid_encode].
  remember (length s) as n eqn:Hn. revert s Hn.
  induction (lt_wf n) as [n _ IH]. intros s -> H.
  destruct (rune_cases s) as [->|[(z & t & Hz & ->)|(c & t & -> & E)]].
  - by exists [].
  - rewrite valid_rune in H by done. pose proof (encode_rune_nonempty z).
    destruct (IH (length t) ltac:(rewrite length_app; lia) t eq_refl H) as (rs & ? & ->).
    exists (z :: rs). by rewrite encode_cons; auto.
  - unfold utf8_Valid in H. cbn [valid_from] in H. by rewrite E in H.
Qed.

Lemma Valid_app s t : utf8_Valid s = true -> utf8_Valid t = true -> utf8_Valid (s ++ t) = true.
Proof.
  rewrite !Valid_iff. intros (rs & Hr & ->) (rt & Ht & ->). exists (rs ++ rt). split; [by apply Forall_app|].
  unfold encode. by rewrite map_app, concat_app.
Qed.

Lemma Valid_ascii s : Forall (fun c => Z_of_byte c < 128) s -> utf8_Valid s = true.
Proof.
  induction 1 as [|c s Hc Hs IH]; [done|]. change (c :: s) with ([c] ++ s). apply Valid_app; [|done].
  pose proof (Z_of_byte_range c). assert ([c] = encode_rune (Z_of_byte c)) as ->.
  { unfold encode_rune. destruct (Z.ltb_spec (Z_of_byte c) 128); [|lia]. cbn [map]. by rewrite byte_of_Z_of_byte. }
  rewrite <- (app_nil_r (encode_rune _)), valid_rune; [done|]. unfold scalar. lia.
Qed.

(** Induction along the runes and the stray bytes of a string. *)
Lemma rune_ind (P : bytes -> Prop) : P [] ->
  (forall z t, scalar z -> P t -> P (encode_rune z ++ t)) ->
  (forall c t, rune_tail (c :: t) = None -> P t -> P (c :: t)) -> forall s, P s.
Proof.
  intros Hnil Hrune Hbad s. remember (length s) as n eqn:Hn. revert s Hn.
  induction (lt_wf n) as [n _ IH]. intros s ->.
  destruct (rune_cases s) as [->|[(z & t & Hz & ->)|(c & t & -> & E)]]; [done| |].
  - pose proof (encode_rune_nonempty z). apply Hrune; [done|]. apply (IH (length t)); [rewrite length_app; lia|done].
  - apply Hbad; [done|]. apply (IH (length t)); [cbn; lia|done].
Qed.

Lemma to_valid_bad r b c t : rune_tail (c :: t) = None ->
  to_valid r 0 b (c :: t) = (if b then [] else r) ++ to_valid r 0 true t.
Proof. intros E. cbn [to_valid]. by rewrite E. Qed.

Lemma scalar_replacement : scalar 65533 /\ replacement_character = encode_rune 65533.
Proof. by_compute. Qed.

Lemma to_valid_valid b s : utf8_Valid (to_valid replacement_character 0 b s) = true.
Proof.
  revert b. induction s as [|z t Hz IH|c t E IH] using rune_ind; intros b; [done| |].
  - by rewrite to_valid_rune, valid_rune.
  - rewrite to_valid_bad by done. destruct b; [apply IH|].
    destruct scalar_replacement as [Hs ->]. by rewrite valid_rune.
Qed.

Lemma to_valid_length b s : (length (to_valid replacement_character 0 b s) <= 3 * length s)%nat.
Proof.
  revert b. induction s as [|z t Hz IH|c t E IH] using rune_ind; intros b; [by cbn| |].
  - rewrite to_valid_rune, !length_app by done. specialize (IH false). lia.
  - rewrite to_valid_bad, length_app by done. specialize (IH true).
    assert (length (if b then [] else replacement_character) <= 3)%nat by (destruct b; cbn; lia). cbn [length]. lia.
Qed.

Lemma to_valid_encode r b rs t : Forall scalar rs -> rs <> [] ->
  to_valid r 0 b (encode rs ++ t) = encode rs ++ to_valid r 0 false t.
Proof.
  intros H. revert b. induction H as [|z rs Hz _ IH]; [done|]. intros b _. rewrite encode_cons, <- app_assoc, to_valid_rune by done.
  rewrite <- app_assoc. f_equal. destruct rs; [done|]. by apply IH.
Qed.

(** Bytes that start no rune, whatever follows them. *)
Definition stray (c : byte) : Prop := lead (Z_of_byte c) = None.

Lemma stray_tail c t : stray c -> rune_tail (c :: t) = None.
Proof. unfold stray. intros H. cbn [rune_tail]. by rewrite H. Qed.

Lemma to_valid_stray r bad t : Forall stray bad -> to_valid r 0 true (bad ++ t) = to_valid r 0 true t.
Proof. induction 1 as [|c bad Hc _ IH]; [done|]. cbn [app]. by rewrite to_valid_bad by by apply stray_tail. Qed.

Lemma sanitize_valid s : utf8_Valid (sanitizeUTF8 s) = true.
Proof. unfold sanitizeUTF8. destruct (utf8_Valid s) eqn:E; [done|]. apply to_valid_valid. Qed.

Lemma Valid_stray rs bad t : Forall scalar rs -> bad <> [] -> Forall stray bad -> utf8_Valid (encode rs ++ bad ++ t) = false.
Proof.
  intros Hrs Hne Hb. induction Hrs as [|z rs Hz _ IH].
  - destruct Hb as [|c bad Hc _]; [done|]. unfold utf8_Valid. cbn [encode map concat app valid_from].
    by rewrite stray_tail.
  - by rewrite encode_cons, <- app_assoc, valid_rune.
Qed.

(** [sanitizeUTF8] always returns valid UTF-8, that is the encoding of a sequence
    of Unicode scalar values; it returns a valid string as it was, changes an invalid
    one, and never more than triples the length.  A run of bytes that belong to no
    rune becomes a single replacement character, however long the run is. *)
Theorem sanitize_exact (s : bytes) :
  (exists runes, Forall scalar runes /\ sanitizeUTF8 s = encode runes) /\
  (sanitizeUTF8 s = s <-> exists runes, Forall scalar runes /\ s = encode runes) /\
  (length (sanitizeUTF8 s) <= 3 * length s)%nat /\
  (forall before bad after, Forall scalar before -> Forall scalar after -> bad <> [] -> Forall stray bad ->
     s = encode before ++ bad ++ encode after ->
     sanitizeUTF8 s = encode before ++ replacement_character ++ encode after).
Proof.
  rewrite <- !Valid_iff. split; [apply sanitize_valid|]. split.
  { unfold sanitizeUTF8. destruct (utf8_Valid s) eqn:E; [done|]. split; [|done]. intros H.
    pose proof (to_valid_valid false s) as Hv. unfold ToValidUTF8 in H. rewrite H in Hv. congruence. }
  split; [unfold sanitizeUTF8; case_match; [lia | apply to_valid_length]|].
  intros before bad after Hb Ha Hne Hs ->. unfold sanitizeUTF8. rewrite Valid_stray by done.
  assert (to_valid replacement_character 0 false (bad ++ encode after) = replacement_character ++ encode after) as Hbad.
  { destruct Hs as [|c bad Hc Hs]; [done|]. cbn [app]. rewrite to_valid_bad by by apply stray_tail.
    rewrite to_valid_stray by done. f_equal. destruct after as [|z after]; [done|].
    rewrite <- (app_nil_r (encode _)), to_valid_encode by done. done. }
  unfold ToValidUTF8. destruct before as [|z before]; [done|]. by rewrite to_valid_encode, Hbad by done.
Qed.
