(* ===== verification/Duration.v ===== *)
(** * Duration: durations as text

    [time.ParseDuration] and [Duration.String] of the Go library, with the float64
    arithmetic of fractions, and the [Duration] of the workflow settings
    ([src/enclave/apps/confidential-workflows/app/settings.go]), which is written as
    text and read as text or as a number of nanoseconds. *)

From Stdlib Require Import SpecFloat.
From S2P Require Import Prelude Float Codec Text Utf8.

Definition dot : byte := byte_of_Z 46.
Definition minus : byte := byte_of_Z 45.
Definition plus_sign : byte := byte_of_Z 43.

Definition microsecond : Z := 1000.
Definition hour : Z := 60 * minute.

(** ** Printing *)

(** [fmtInt]: the decimal digits, written from the last one. *)
Definition fmtInt : Z -> bytes := FormatUint.

(** [fmtFrac]: [prec] digits of [v], without trailing zeros, in front of [tail]; the
    rest of [v]. *)
Fixpoint fmtFrac (prec : nat) (v : Z) (print : bool) (tail : bytes) : bytes * Z :=
  match prec with
  | O => (if print then dot :: tail else tail, v)
  | S prec =>
      let digit := v mod 10 in
      let print := print || negb (digit =? 0) in
      fmtFrac prec (v / 10) print (if print then byte_of_Z (48 + digit) :: tail else tail)
  end.

Definition unit_ns : bytes := bs "ns".
Definition unit_us : bytes := map byte_of_Z [194; 181; 115].
Definition unit_mu : bytes := map byte_of_Z [206; 188; 115].
Definition unit_ms : bytes := bs "ms".
Definition unit_s : bytes := bs "s".
Definition unit_m : bytes := bs "m".
Definition unit_h : bytes := bs "h".

(** A number of [10^prec] units, with its fraction. *)
Definition with_fraction (prec : nat) (u : Z) (unit : bytes) : bytes :=
  let '(tail, u) := fmtFrac prec u false unit in fmtInt u ++ tail.

Definition format_abs (u : Z) : bytes :=
  if u <? second then
    if u =? 0 then bs "0s"
    else if u <? microsecond then with_fraction 0 u unit_ns
    else if u <? millisecond then with_fraction 3 u unit_us
    else with_fraction 6 u unit_ms
  else
    let '(tail, u) := fmtFrac 9 u false unit_s in
    let text := fmtInt (u mod 60) ++ tail in
    let u := u / 60 in
    if 0 <? u then
      let text := fmtInt (u mod 60) ++ unit_m ++ text in
      let u := u / 60 in
      if 0 <? u then fmtInt u ++ unit_h ++ text else text
    else text.

Definition Duration_String (d : Z) : bytes :=
  if d <? 0 then minus :: format_abs (u64 (- d)) else format_abs d.

(** ** Parsing *)

Inductive duration_error :=
| InvalidDuration
| MissingUnit
| UnknownUnit (unit : bytes).

Definition unitMap (u : bytes) : option Z :=
  if bool_decide (u = unit_ns) then Some 1
  else if bool_decide (u = bs "us") || bool_decide (u = unit_us) || bool_decide (u = unit_mu) then Some microsecond
  else if bool_decide (u = unit_ms) then Some millisecond
  else if bool_decide (u = unit_s) then Some second
  else if bool_decide (u = unit_m) then Some minute
  else if bool_decide (u = unit_h) then Some hour
  else None.

(** [leadingInt]: the value and the rest; none on overflow. *)
Fixpoint leadingInt (x : Z) (s : bytes) : option (Z * bytes) :=
  match s with
  | [] => Some (x, s)
  | c :: s' =>
      match digit_value c with
      | None => Some (x, s)
      | Some d =>
          if 2 ^ 63 / 10 <? x then None
          else let x := x * 10 + d in if 2 ^ 63 <? x then None else leadingInt x s'
      end
  end.

(** [leadingFraction]: digits after an overflow are passed over. *)
Fixpoint leadingFraction (overflow : bool) (x : Z) (scale : spec_float) (s : bytes) : Z * spec_float * bytes :=
  match s with
  | [] => (x, scale, s)
  | c :: s' =>
      match digit_value c with
      | None => (x, scale, s)
      | Some d =>
          if overflow then leadingFraction true x scale s'
          else if (2 ^ 63 - 1) / 10 <? x then leadingFraction true x scale s'
          else let y := x * 10 + d in
               if 2 ^ 63 <? y then leadingFraction true x scale s'
               else leadingFraction false y (float_mul scale (float_of_int 10)) s'
      end
  end.

(** Up to the next digit or point. *)
Definition starts_number (c : byte) : bool := bool_decide (c = dot) || match digit_value c with Some _ => true | None => false end.
Fixpoint span_unit (s : bytes) : bytes * bytes :=
  match s with
  | [] => ([], [])
  | c :: s' => if starts_number c then ([], s) else let '(u, rest) := span_unit s' in (c :: u, rest)
  end.

(** Conversion to [uint64]; out of its range the result is up to the implementation,
    here zero. *)
Definition uint_of_float (f : spec_float) : Z :=
  match float_trunc f with Some z => if (0 <=? z) && (z <? 2 ^ 64) then z else 0 | None => 0 end.

(** The fraction, in nanoseconds. *)
Definition fraction_ns (f unit : Z) (scale : spec_float) : Z :=
  uint_of_float (float_mul (float_of_int f) (float_div (float_of_int unit) scale)).

(** A point and digits, if there is a point: the fraction, its scale, the rest, and
    whether there were digits. *)
Definition parse_fraction (s : bytes) : Z * spec_float * bytes * bool :=
  match s with
  | c :: t => if bool_decide (c = dot)
              then let '(f, scale, rest) := leadingFraction false 0 (float_of_int 1) t in
                   (f, scale, rest, negb (length t =? length rest)%nat)
              else (0, float_of_int 1, s, false)
  | [] => (0, float_of_int 1, s, false)
  end.

(** The unit of [v] and a fraction: the nanoseconds and the rest of the text. *)
Definition parse_unit (v f : Z) (scale : spec_float) (s : bytes) : result duration_error (Z * bytes) :=
  let '(u, rest) := span_unit s in
  if bool_decide (u = []) then Err MissingUnit
  else match unitMap u with
  | None => Err (UnknownUnit u)
  | Some unit =>
      if 2 ^ 63 / unit <? v then Err InvalidDuration
      else if 0 <? f then
        let v := u64 (v * unit + fraction_ns f unit scale) in
        if 2 ^ 63 <? v then Err InvalidDuration else Ok (v, rest)
      else Ok (v * unit, rest)
  end.

(** One number with its unit. *)
Definition parse_one (s : bytes) : result duration_error (Z * bytes) :=
  match s with
  | [] => Err InvalidDuration
  | c :: _ =>
      if negb (starts_number c) then Err InvalidDuration
      else match leadingInt 0 s with
      | None => Err InvalidDuration
      | Some (v, s1) =>
          let '(f, scale, s2, post) := parse_fraction s1 in
          if negb (negb (length s =? length s1)%nat) && negb post then Err InvalidDuration
          else parse_unit v f scale s2
      end
  end.

(** The loop; every number takes at least a byte. *)
Fixpoint parse_numbers (fuel : nat) (s : bytes) (d : Z) : result duration_error Z :=
  match s with
  | [] => Ok d
  | _ =>
      match fuel with
      | O => Err InvalidDuration
      | S fuel =>
          let? r := parse_one s in
          let d := u64 (d + r.1) in
          if 2 ^ 63 <? d then Err InvalidDuration else parse_numbers fuel r.2 d
      end
  end.

Definition ParseDuration (orig : bytes) : result duration_error Z :=
  let '(neg, s) :=
    match orig with
    | c :: s => if bool_decide (c = minus) then (true, s) else if bool_decide (c = plus_sign) then (false, s) else (false, orig)
    | [] => (false, orig)
    end in
  if bool_decide (s = bs "0") then Ok 0
  else if bool_decide (s = []) then Err InvalidDuration
  else
    let? d := parse_numbers (length s) s 0 in
    if neg then Ok (i64 (- i64 d))
    else if 2 ^ 63 - 1 <? d then Err InvalidDuration
    else Ok (i64 d).

(** ** What printing writes *)

Definition all_digits (s : bytes) : Prop := Forall (fun c => is_Some (digit_value c)) s.

(** No digit and no point in front. *)
Definition no_number (s : bytes) : Prop := match s with c :: _ => starts_number c = false | [] => True end.

(** No digit in front. *)
Definition no_digit (s : bytes) : Prop := match s with c :: _ => digit_value c = None | [] => True end.

Lemma no_number_digit s : no_number s -> no_digit s.
Proof.
  destruct s as [|c s]; [done|]. cbn. unfold starts_number. destruct (digit_value c); [|done]. by rewrite orb_true_r.
Qed.

(** The text of the fraction [u / 10^prec]. *)
Definition fraction_text (prec : nat) (u : Z) (ds : bytes) : Prop :=
  (0 < length ds <= prec)%nat /\ exists f, digits_from ds 0 = Some f /\ f * 10 ^ Z.of_nat (prec - length ds) = u.

Lemma pow10_S n : 10 ^ Z.of_nat (S n) = 10 * 10 ^ Z.of_nat n.
Proof. rewrite Nat2Z.inj_succ, Z.pow_succ_r by lia. done. Qed.

Lemma pow10_pos n : 0 < 10 ^ Z.of_nat n.
Proof. apply Z.pow_pos_nonneg; lia. Qed.

Lemma mod_pow10_S v n : 0 <= v -> v mod 10 ^ Z.of_nat (S n) = v mod 10 + 10 * ((v / 10) mod 10 ^ Z.of_nat n).
Proof. intros H. pose proof (pow10_pos n). rewrite pow10_S, Z.rem_mul_r by lia. done. Qed.

Lemma div_pow10_S v n : v / 10 ^ Z.of_nat (S n) = v / 10 / 10 ^ Z.of_nat n.
Proof. rewrite pow10_S, Z.div_div; [done|lia|apply pow10_pos]. Qed.

Lemma fmtFrac_true prec : forall v tail, 0 <= v ->
  exists ds, fmtFrac prec v true tail = (dot :: ds ++ tail, v / 10 ^ Z.of_nat prec) /\
    length ds = prec /\ digits_from ds 0 = Some (v mod 10 ^ Z.of_nat prec).
Proof.
  induction prec as [|prec IH]; intros v tail Hv; cbn [fmtFrac orb].
  - exists []. cbn [app length digits_from Z.of_nat]. rewrite Z.pow_0_r, Z.div_1_r, Z.mod_1_r. done.
  - destruct (IH (v / 10) (byte_of_Z (48 + v mod 10) :: tail)) as (ds & -> & Hl & Hd); [dlia|].
    exists (ds ++ [byte_of_Z (48 + v mod 10)]). rewrite div_pow10_S, mod_pow10_S, <- app_assoc, length_app, Hl by done.
    split; [done|]. split; [cbn; lia|]. rewrite digits_from_app, Hd. cbn [digits_from]. rewrite digit_value_of by dlia. f_equal. lia.
Qed.

Lemma fmtFrac_spec prec : forall v tail, 0 <= v ->
  exists t, fmtFrac prec v false tail = (t, v / 10 ^ Z.of_nat prec) /\
    (v mod 10 ^ Z.of_nat prec = 0 /\ t = tail \/
     exists ds, t = dot :: ds ++ tail /\ fraction_text prec (v mod 10 ^ Z.of_nat prec) ds).
Proof.
  induction prec as [|prec IH]; intros v tail Hv; cbn [fmtFrac orb].
  - exists tail. cbn [Z.of_nat]. rewrite Z.pow_0_r, Z.div_1_r, Z.mod_1_r. eauto.
  - rewrite div_pow10_S, mod_pow10_S by done. destruct (Z.eqb_spec (v mod 10) 0) as [E|E]; cbn [negb].
    + destruct (IH (v / 10) tail) as (t & -> & H); [dlia|]. exists t. split; [done|]. rewrite E.
      destruct H as [[H ->]|(ds & -> & Hl & f & Hd & Hf)]; [left; split; [lia|done]|].
      right. exists ds. split; [done|]. split; [lia|]. exists f. split; [done|].
      replace (S prec - length ds)%nat with (S (prec - length ds)) by lia. rewrite pow10_S. lia.
    + destruct (fmtFrac_true prec (v / 10) (byte_of_Z (48 + v mod 10) :: tail)) as (ds & -> & Hl & Hd); [dlia|].
      eexists. split; [done|]. right. exists (ds ++ [byte_of_Z (48 + v mod 10)]). rewrite <- app_assoc. split; [done|].
      split; [rewrite length_app, Hl; cbn; lia|]. exists (v mod 10 + 10 * ((v / 10) mod 10 ^ Z.of_nat prec)). split.
      * rewrite digits_from_app, Hd. cbn [digits_from]. rewrite digit_value_of by dlia. f_equal. lia.
      * rewrite length_app, Hl. replace (S prec - (prec + length [byte_of_Z (48 + v mod 10)]))%nat with 0%nat by (cbn; lia).
        cbn [Z.of_nat]. lia.
Qed.

(** ** Reading it back *)

Lemma digit_value_range c d : digit_value c = Some d -> 0 <= d < 10.
Proof.
  unfold digit_value. destruct (_ && _) eqn:E; [|done]. intros [= <-].
  apply andb_true_iff in E as [?%Z.leb_le ?%Z.leb_le]. lia.
Qed.

Lemma digits_from_bounds s : forall x n, 0 <= x -> digits_from s x = Some n ->
  x * 10 ^ Z.of_nat (length s) <= n < (x + 1) * 10 ^ Z.of_nat (length s).
Proof.
  induction s as [|c s IH]; intros x n Hx; cbn [digits_from length].
  - intros [= <-]. cbn [Z.of_nat]. lia.
  - destruct (digit_value c) as [d|] eqn:E; [|done]. apply digit_value_range in E. intros H.
    apply IH in H; [|lia]. rewrite pow10_S. pose proof (pow10_pos (length s)). nia.
Qed.

Lemma leadingInt_digits s : forall x v t, 0 <= x -> digits_from s x = Some v -> v <= 2 ^ 63 -> no_digit t ->
  leadingInt x (s ++ t) = Some (v, t).
Proof.
  induction s as [|c s IH]; intros x v t Hx; cbn [digits_from app].
  - intros [= <-] _ Ht. destruct t as [|c t]; [done|]. cbn [leadingInt]. cbn in Ht. by rewrite Ht.
  - cbn [leadingInt]. destruct (digit_value c) as [d|] eqn:E; [|done]. apply digit_value_range in E. intros Hd Hv Ht.
    pose proof (digits_from_bounds s (x * 10 + d) v ltac:(lia) Hd) as [Hb _]. pose proof (pow10_pos (length s)).
    assert (x * 10 + d <= v) by nia.
    destruct (Z.ltb_spec (2 ^ 63 / 10) x); [dlia|]. destruct (Z.ltb_spec (2 ^ 63) (x * 10 + d)); [lia|]. apply IH; [lia|done..].
Qed.


Lemma leadingFraction_digits s : forall x n v t, 0 <= x < 10 ^ Z.of_nat n -> digits_from s x = Some v -> (n + length s <= 15)%nat -> no_digit t ->
  leadingFraction false x (float_of_int (10 ^ Z.of_nat n)) (s ++ t) = (v, float_of_int (10 ^ Z.of_nat (n + length s)), t).
Proof.
  induction s as [|c s IH]; intros x n v t Hx; cbn [digits_from app length].
  - intros [= <-] _ Ht. rewrite Nat.add_0_r. destruct t as [|c t]; [done|]. cbn [leadingFraction]. cbn in Ht. by rewrite Ht.
  - cbn [leadingFraction]. destruct (digit_value c) as [d|] eqn:E; [|done]. apply digit_value_range in E. intros Hd Hn Ht.
    assert (10 ^ Z.of_nat (S n) <= 10 ^ 15) by (apply Z.pow_le_mono_r; lia). pose proof (pow10_S n).
    change (10 ^ 15) with 1000000000000000 in *.
    destruct (Z.ltb_spec ((2 ^ 63 - 1) / 10) x); [dlia|]. destruct (Z.ltb_spec (2 ^ 63) (x * 10 + d)); [lia|].
    rewrite float_mul_int by lia. replace (10 ^ Z.of_nat n * 10) with (10 ^ Z.of_nat (S n)) by lia.
    rewrite (IH (x * 10 + d) (S n) v t); [|lia|done|lia|done]. by rewrite Nat.add_succ_r.
Qed.

(** The fractions that printing writes are exact in float64. *)
Lemma float_div_pow10 prec k : prec ∈ [3; 6; 9]%nat -> (0 < k <= prec)%nat ->
  float_div (float_of_int (10 ^ Z.of_nat prec)) (float_of_int (10 ^ Z.of_nat k)) = float_of_int (10 ^ Z.of_nat (prec - k)).
Proof.
  intros Hp Hk.
  assert (Forall (fun p => Forall (fun k => float_div (float_of_int (10 ^ Z.of_nat p)) (float_of_int (10 ^ Z.of_nat k))
            = float_of_int (10 ^ Z.of_nat (p - k))) (seq 1 p)) [3; 6; 9]%nat) as H by (repeat constructor).
  rewrite Forall_forall in H. specialize (H _ Hp). rewrite Forall_forall in H. apply H. apply elem_of_seq. lia.
Qed.

Lemma fraction_ns_exact prec k f u : prec ∈ [3; 6; 9]%nat -> (0 < k <= prec)%nat -> 0 <= f ->
  f * 10 ^ Z.of_nat (prec - k) = u -> u < 10 ^ Z.of_nat prec ->
  fraction_ns f (10 ^ Z.of_nat prec) (float_of_int (10 ^ Z.of_nat k)) = u.
Proof.
  intros Hp Hk Hf Hu Hlt. unfold fraction_ns. rewrite float_div_pow10 by done. pose proof (pow10_pos (prec - k)).
  assert (prec <= 9)%nat by (rewrite !elem_of_cons, elem_of_nil in Hp; lia).
  assert (10 ^ Z.of_nat prec <= 10 ^ 9) by (apply Z.pow_le_mono_r; lia).
  assert (10 ^ Z.of_nat (prec - k) <= 10 ^ 9) by (apply Z.pow_le_mono_r; lia).
  change (10 ^ 9) with 1000000000 in *.
  rewrite float_mul_int by nia. unfold uint_of_float. rewrite Hu, float_of_int_trunc by nia.
  rewrite (proj2 (andb_true_iff _ _)); [done|]. split; [apply Z.leb_le|apply Z.ltb_lt]; nia.
Qed.

Lemma span_unit_app u rest : Forall (fun c => starts_number c = false) u ->
  match rest with c :: _ => starts_number c = true | [] => True end -> span_unit (u ++ rest) = (u, rest).
Proof.
  intros Hu Hr. induction Hu as [|c u Hc Hu IH]; cbn [app span_unit].
  - destruct rest as [|c rest]; [done|]. cbn [span_unit]. by rewrite Hr.
  - by rewrite Hc, IH.
Qed.

Lemma FormatUint_head n t : is_u64 n -> exists c s, FormatUint n = c :: s /\ is_Some (digit_value c) /\ FormatUint n ++ t = c :: s ++ t.
Proof.
  intros H. pose proof (FormatUint_spec n H) as Hs. pose proof (decimal_digits 20 n (proj1 H)) as Hd. fold (FormatUint n) in Hd.
  destruct (FormatUint n) as [|c s] eqn:E; [|inversion Hd; eauto 6].
  exfalso. revert E. unfold FormatUint. cbn [decimal]. intros [_ E]%app_eq_nil. done.
Qed.

(** What can follow a unit. *)
Definition numbers (s : bytes) : Prop := match s with c :: _ => starts_number c = true | [] => True end.

Lemma FormatUint_numbers n t : is_u64 n -> numbers (FormatUint n ++ t).
Proof.
  intros H. destruct (FormatUint_head n t H) as (c & s & _ & [d Hd] & ->). cbn. unfold starts_number. rewrite Hd. apply orb_true_r.
Qed.

Lemma parse_unit_text v f scale u rest unit : unitMap u = Some unit -> u <> [] -> Forall (fun c => starts_number c = false) u -> numbers rest ->
  0 < unit -> 0 <= v -> 0 <= f -> let ns := if 0 <? f then fraction_ns f unit scale else 0 in 0 <= ns -> v * unit + ns <= 2 ^ 63 ->
  parse_unit v f scale (u ++ rest) = Ok (v * unit + ns, rest).
Proof.
  intros Hu Hne Hnn Hrest Hpos Hv Hf ns Hns Hle. unfold parse_unit. rewrite span_unit_app, bool_decide_false, Hu by done.
  assert (v <= 2 ^ 63 / unit) by (apply Z.div_le_lower_bound; lia).
  destruct (Z.ltb_spec (2 ^ 63 / unit) v); [lia|]. unfold ns in *. destruct (Z.ltb_spec 0 f); [|by rewrite Z.add_0_r].
  rewrite u64_id by (split; lia). destruct (Z.ltb_spec (2 ^ 63) (v * unit + fraction_ns f unit scale)); [lia|done].
Qed.

Lemma parse_one_start v t v' s1 : is_u64 v -> leadingInt 0 (FormatUint v ++ t) = Some (v', s1) -> (length s1 <= length t)%nat ->
  parse_one (fmtInt v ++ t) = let '(f, scale, s2, _) := parse_fraction s1 in parse_unit v' f scale s2.
Proof.
  intros Hv El Hlen. destruct (FormatUint_head v t Hv) as (c & s & Ec & [d Hd] & Es). unfold parse_one, fmtInt. rewrite Es.
  unfold starts_number at 1. rewrite Hd, orb_true_r. cbn [negb]. rewrite <- Es, El.
  destruct (parse_fraction s1) as [[[f scale] s2] post].
  assert ((length (FormatUint v ++ t) =? length s1)%nat = false) as -> by (apply Nat.eqb_neq; rewrite length_app, Ec; cbn; lia). done.
Qed.

(** A printed number with its unit reads back as its nanoseconds: without a fraction, *)
Lemma parse_one_plain v u rest unit : unitMap u = Some unit -> u <> [] -> Forall (fun c => starts_number c = false) u -> numbers rest ->
  0 < unit -> 0 <= v -> v * unit <= 2 ^ 63 -> parse_one (fmtInt v ++ u ++ rest) = Ok (v * unit, rest).
Proof.
  intros Hu Hne Hnn Hrest Hpos Hv Hle. assert (v <= 2 ^ 63) as Hv63 by nia. assert (is_u64 v) as Hv64 by (split; lia).
  assert (no_number (u ++ rest)) as Hnu by (destruct u; [done|]; by inversion Hnn).
  rewrite (parse_one_start v (u ++ rest) v (u ++ rest)); [|done| |done].
  2:{ apply leadingInt_digits; [lia|by apply FormatUint_spec|done|by apply no_number_digit]. }
  assert (parse_fraction (u ++ rest) = (0, float_of_int 1, u ++ rest, false)) as ->.
  { destruct (u ++ rest) as [|c1 r]; [done|]. cbn [parse_fraction]. cbn in Hnu. unfold starts_number in Hnu.
    apply orb_false_iff in Hnu as [Hnu _]. by rewrite Hnu. }
  rewrite (parse_unit_text v 0 _ _ _ unit); try done; cbn [Z.ltb Z.compare]; [by rewrite Z.add_0_r|lia].
Qed.

(** and with one. *)
Lemma parse_one_text prec v w u rest : prec ∈ [0; 3; 6; 9]%nat -> unitMap u = Some (10 ^ Z.of_nat prec) ->
  u <> [] -> Forall (fun c => starts_number c = false) u -> numbers rest -> 0 <= v -> 0 <= w ->
  v * 10 ^ Z.of_nat prec + w mod 10 ^ Z.of_nat prec <= 2 ^ 63 ->
  parse_one (fmtInt v ++ (fmtFrac prec w false u).1 ++ rest) = Ok (v * 10 ^ Z.of_nat prec + w mod 10 ^ Z.of_nat prec, rest).
Proof.
  intros Hp Hu Hne Hnn Hrest Hv Hw Hle. set (unit := 10 ^ Z.of_nat prec) in *. pose proof (pow10_pos prec) as Hpos. fold unit in Hpos.
  pose proof (Z.mod_pos_bound w unit Hpos) as Hm. assert (v <= 2 ^ 63) as Hv63 by nia. assert (is_u64 v) as Hv64 by (split; lia).
  destruct (fmtFrac_spec prec w u Hw) as (t & -> & Ht). fold unit in Ht. cbn [fst].
  destruct Ht as [[H0 ->]|(ds & -> & [Hlen (f & Hf & Hfu)])].
  - rewrite H0, Z.add_0_r. apply parse_one_plain; done || lia.
  - cbn [app]. rewrite <- app_assoc, (parse_one_start v (dot :: ds ++ u ++ rest) v (dot :: ds ++ u ++ rest)); [|done| |done].
    2:{ apply leadingInt_digits; [lia|by apply FormatUint_spec|done|done]. }
    cbn [parse_fraction]. rewrite bool_decide_true by done. change (float_of_int 1) with (float_of_int (10 ^ Z.of_nat 0)).
    assert (prec ∈ [3; 6; 9]%nat /\ (prec <= 9)%nat) as [Hp' Hp9] by (rewrite !elem_of_cons, elem_of_nil in *; lia).
    rewrite (leadingFraction_digits ds 0 0 f) by (cbn; lia || done || (apply no_number_digit; destruct u; [done|]; by inversion Hnn)).
    cbn [Nat.add]. pose proof (digits_from_nonneg _ 0 f ltac:(lia) Hf) as Hf0.
    assert (fraction_ns f unit (float_of_int (10 ^ Z.of_nat (length ds))) = w mod unit) as Hns by (apply fraction_ns_exact; done || lia).
    assert (0 < f \/ w mod unit = 0) as Hpf by (pose proof (pow10_pos (prec - length ds)); nia).
    rewrite (parse_unit_text _ _ _ _ _ unit) by (done || (rewrite ?Hns; destruct (0 <? f); lia)).
    rewrite Hns. do 2 f_equal. destruct (Z.ltb_spec 0 f); lia.
Qed.

(** ** The loop ends *)

Lemma leadingInt_rest s : forall x v t, leadingInt x s = Some (v, t) -> (length t <= length s)%nat.
Proof.
  induction s as [|c s IH]; intros x v t; cbn [leadingInt]; [by intros [= <- <-]|].
  destruct (digit_value c) as [d|]; [|by intros [= <- <-]]. destruct (_ <? x); [done|]. destruct (_ <? _); [done|].
  intros H%IH. cbn. lia.
Qed.

Lemma leadingFraction_rest s : forall o x scale, (length (leadingFraction o x scale s).2 <= length s)%nat.
Proof.
  induction s as [|c s IH]; intros o x scale; cbn [leadingFraction]; [done|].
  destruct (digit_value c) as [d|]; [|done]. cbn [length]. destruct o; [|destruct (_ <? x); [|destruct (_ <? _)]]; apply le_S, IH.
Qed.

Lemma span_unit_rest s : length (span_unit s).2 = (length s - length (span_unit s).1)%nat /\ (length (span_unit s).1 <= length s)%nat.
Proof.
  induction s as [|c s IH]; cbn [span_unit]; [done|]. destruct (starts_number c); [cbn; lia|].
  destruct (span_unit s) as [u rest]. cbn in *. lia.
Qed.

Lemma parse_unit_shorter v f scale s ns rest : parse_unit v f scale s = Ok (ns, rest) -> (length rest < length s)%nat.
Proof.
  unfold parse_unit. pose proof (span_unit_rest s) as [H1 H2]. destruct (span_unit s) as [u r]. cbn in H1, H2.
  case_bool_decide as Hu; [done|]. destruct u; [done|]. cbn in *. destruct (unitMap _); [|done].
  destruct (_ <? v); [done|]. destruct (0 <? f); [destruct (_ <? u64 _); [done|]|]; intros [= <- <-]; lia.
Qed.

Lemma parse_one_shorter s v rest : parse_one s = Ok (v, rest) -> (length rest < length s)%nat.
Proof.
  unfold parse_one. destruct s as [|c s]; [done|]. destruct (negb (starts_number c)); [done|]. set (s0 := c :: s).
  destruct (leadingInt 0 s0) as [[v0 s1]|] eqn:E; [|done]. apply leadingInt_rest in E.
  assert (length (parse_fraction s1).1.2 <= length s1)%nat as Hf.
  { unfold parse_fraction. destruct s1 as [|c1 t]; [done|]. case_bool_decide; [|done].
    pose proof (leadingFraction_rest t false 0 (float_of_int 1)). destruct (leadingFraction _ _ _ t) as [[f scale] r]. cbn in *. lia. }
  destruct (parse_fraction s1) as [[[f scale] s2] post]. cbn in Hf. destruct (_ && _); [done|]. intros H%parse_unit_shorter. lia.
Qed.

(** The length of the text is fuel enough. *)
Lemma parse_numbers_fuel n : forall m s d, (length s <= n)%nat -> (length s <= m)%nat -> parse_numbers n s d = parse_numbers m s d.
Proof.
  induction n as [|n IH]; intros m s d Hn Hm; (destruct s as [|c s]; [by destruct m|]); cbn [length] in *; [lia|].
  destruct m as [|m]; [lia|]. cbn [parse_numbers]. destruct (parse_one (c :: s)) as [[v rest]|] eqn:E; [|done].
  apply parse_one_shorter in E. cbn [length] in E. cbn [rbind fst snd]. destruct (_ <? _); [done|]. apply IH; lia.
Qed.

Lemma parse_numbers_step n s d v rest : s <> [] -> parse_one s = Ok (v, rest) -> 0 <= d -> 0 <= v -> d + v <= 2 ^ 63 ->
  parse_numbers (S n) s d = parse_numbers n rest (d + v).
Proof.
  intros Hs E Hd Hv Hle. cbn [parse_numbers]. destruct s as [|c s]; [done|]. rewrite E. cbn [rbind fst snd].
  rewrite u64_id by (split; lia). by destruct (Z.ltb_spec (2 ^ 63) (d + v)); [lia|].
Qed.

Lemma fmtInt_cons v t : is_u64 v -> fmtInt v ++ t <> [].
Proof. intros Hv. destruct (FormatUint_head v t Hv) as (c & s & _ & _ & E). unfold fmtInt. by rewrite E. Qed.

(** ** Round trip *)

Lemma unit_chars u : u ∈ [unit_ns; unit_us; unit_ms; unit_s; unit_m; unit_h] ->
  u <> [] /\ Forall (fun c => starts_number c = false) u.
Proof.
  intros H. assert (Forall (fun u => u <> [] /\ Forall (fun c => starts_number c = false) u)
    [unit_ns; unit_us; unit_ms; unit_s; unit_m; unit_h]) as G by (repeat (constructor; [by split; [|repeat constructor]|]); constructor).
  rewrite Forall_forall in G. by apply G.
Qed.

Lemma parse_fraction_step n prec v w u rest d : prec ∈ [0; 3; 6; 9]%nat -> unitMap u = Some (10 ^ Z.of_nat prec) ->
  u ∈ [unit_ns; unit_us; unit_ms; unit_s; unit_m; unit_h] -> numbers rest -> 0 <= v -> 0 <= w -> 0 <= d ->
  d + (v * 10 ^ Z.of_nat prec + w mod 10 ^ Z.of_nat prec) <= 2 ^ 63 ->
  parse_numbers (S n) (fmtInt v ++ (fmtFrac prec w false u).1 ++ rest) d =
  parse_numbers n rest (d + (v * 10 ^ Z.of_nat prec + w mod 10 ^ Z.of_nat prec)).
Proof.
  intros Hp Hu Hin Hrest Hv Hw Hd Hle. apply unit_chars in Hin as [Hne Hnn]. pose proof (pow10_pos prec).
  pose proof (Z.mod_pos_bound w (10 ^ Z.of_nat prec) ltac:(lia)).
  apply parse_numbers_step; [apply fmtInt_cons; split; nia|apply parse_one_text; done || lia|nia..].
Qed.

Lemma parse_plain_step n v u rest unit d : unitMap u = Some unit -> u ∈ [unit_ns; unit_us; unit_ms; unit_s; unit_m; unit_h] -> numbers rest ->
  0 < unit -> 0 <= v -> 0 <= d -> d + v * unit <= 2 ^ 63 ->
  parse_numbers (S n) (fmtInt v ++ u ++ rest) d = parse_numbers n rest (d + v * unit).
Proof.
  intros Hu Hin Hrest Hpos Hv Hd Hle. apply unit_chars in Hin as [Hne Hnn].
  apply parse_numbers_step; [apply fmtInt_cons; split; nia|apply parse_one_plain; done || lia|nia..].
Qed.

Lemma with_fraction_parses n prec u unit : prec ∈ [0; 3; 6; 9]%nat -> unitMap unit = Some (10 ^ Z.of_nat prec) ->
  unit ∈ [unit_ns; unit_us; unit_ms; unit_s; unit_m; unit_h] -> 0 <= u <= 2 ^ 63 ->
  parse_numbers (S n) (with_fraction prec u unit) 0 = Ok u.
Proof.
  intros Hp Hu Hin Hr. pose proof (pow10_pos prec). unfold with_fraction.
  pose proof (fmtFrac_spec prec u unit ltac:(lia)) as (t & E & _). rewrite E. pose proof (Z.div_mod u (10 ^ Z.of_nat prec) ltac:(lia)) as Hdm.
  rewrite <- (app_nil_r t). change t with (t, u / 10 ^ Z.of_nat prec).1. rewrite <- E.
  rewrite (parse_fraction_step n prec (u / 10 ^ Z.of_nat prec) u unit [] 0) by (done || (apply Z.div_pos; lia) || lia).
  cbn [parse_numbers]. destruct n; cbn [parse_numbers]; f_equal; lia.
Qed.

Lemma div_mod_60 x : 0 <= x -> 0 <= x mod 60 < 60 /\ 0 <= x / 60 /\ x = 60 * (x / 60) + x mod 60.
Proof. intros H. dlia. Qed.

Lemma unit_in u : bool_decide (u ∈ [unit_ns; unit_us; unit_ms; unit_s; unit_m; unit_h]) = true ->
  u ∈ [unit_ns; unit_us; unit_ms; unit_s; unit_m; unit_h].
Proof. apply bool_decide_eq_true_1. Qed.

(** Seconds and more. *)
Lemma format_seconds_parses n u : second <= u <= 2 ^ 63 -> parse_numbers (S (S (S n))) (format_abs u) 0 = Ok u.
Proof.
  intros Hu. unfold format_abs. destruct (Z.ltb_spec u second); [lia|].
  assert (0 <= u) as Hu0 by (unfold second in *; lia).
  pose proof (fmtFrac_spec 9 u unit_s Hu0) as (t & E & _). rewrite E. change (10 ^ Z.of_nat 9) with second in *.
  pose proof (Z.mod_pos_bound u second ltac:(done)) as Hm. pose proof (Z.div_mod u second ltac:(done)) as Hdm.
  pose proof (Z.div_pos u second ltac:(lia) ltac:(done)) as Hs0. set (s := u / second) in *. set (ns := u mod second) in *.
  assert (forall n d, 0 <= d -> d + ((s mod 60) * second + ns) <= 2 ^ 63 ->
            parse_numbers (S n) (fmtInt (s mod 60) ++ t) d = Ok (d + ((s mod 60) * second + ns))) as Hsec.
  { intros k d Hd Hle. rewrite <- (app_nil_r t). change t with (t, s).1. rewrite <- E.
    rewrite (parse_fraction_step k 9 (s mod 60) u unit_s [] d); [by destruct k|set_solver|done|by apply unit_in|done| |lia|done|done].
    apply div_mod_60. done. }
  destruct (div_mod_60 s Hs0) as (Hs60 & Hm0 & Es). destruct (div_mod_60 (s / 60) Hm0) as (Hm60 & Hh0 & Em).
  assert (numbers (fmtInt (s mod 60) ++ t)) as Hn1 by (apply FormatUint_numbers; split; lia).
  assert (numbers (fmtInt ((s / 60) mod 60) ++ unit_m ++ fmtInt (s mod 60) ++ t)) as Hn2 by (apply FormatUint_numbers; split; lia).
  set (h := s / 60 / 60) in *. set (m60 := (s / 60) mod 60) in *. set (m := s / 60) in *. set (s60 := s mod 60) in *.
  clearbody h m60 m s60 s ns. change second with 1000000000 in *.
  destruct (Z.ltb_spec 0 m); [|rewrite Hsec by lia; f_equal; lia]. destruct (Z.ltb_spec 0 h).
  - rewrite (parse_plain_step _ _ unit_h _ 3600000000000); [|done|by apply unit_in|done|lia..].
    rewrite (parse_plain_step _ _ unit_m _ 60000000000); [|done|by apply unit_in|done|lia..]. rewrite Hsec by lia. f_equal. lia.
  - rewrite (parse_plain_step _ _ unit_m _ 60000000000); [|done|by apply unit_in|done|lia..]. rewrite Hsec by lia. f_equal. lia.
Qed.

Lemma format_abs_parses n u : 0 < u <= 2 ^ 63 -> parse_numbers (S (S (S n))) (format_abs u) 0 = Ok u.
Proof.
  intros Hu. destruct (Z.ltb_spec u second) as [Hs|Hs]; [|apply format_seconds_parses; lia]. unfold format_abs.
  rewrite (proj2 (Z.ltb_lt _ _) Hs). destruct (Z.eqb_spec u 0); [lia|].
  destruct (u <? microsecond); [|destruct (u <? millisecond)]; apply with_fraction_parses; try (by apply unit_in); try done; try lia; set_solver.
Qed.

(** Printed durations are read back exactly, the smallest one included. *)
Lemma parse_string d : is_i64 d -> ParseDuration (Duration_String d) = Ok d.
Proof.
  intros Hd. unfold is_i64 in Hd.
  assert (forall u, 0 < u <= 2 ^ 63 -> parse_numbers (length (format_abs u)) (format_abs u) 0 = Ok u) as Hp.
  { intros u Hu. rewrite (parse_numbers_fuel _ (S (S (S (length (format_abs u)))))) by lia. by apply format_abs_parses. }
  assert (forall u, 0 < u <= 2 ^ 63 -> format_abs u <> bs "0" /\ format_abs u <> []) as Hz.
  { intros u Hu. split; intros E; specialize (Hp u Hu); rewrite E in Hp; vm_compute in Hp; [done|]. injection Hp as <-. lia. }
  unfold ParseDuration, Duration_String. destruct (Z.ltb_spec d 0) as [Hneg|Hnn].
  - rewrite u64_id by (split; lia). destruct (Hz (- d) ltac:(lia)) as [H0 H1].
    rewrite bool_decide_true, !bool_decide_false, Hp by (done || lia). cbn [rbind]. f_equal.
    destruct (Z.eq_dec d (- 2 ^ 63)) as [->|]; [done|]. rewrite (i64_id (- d)), Z.opp_involutive by (split; lia). apply i64_id. split; lia.
  - destruct (Z.eq_dec d 0) as [->|Hne]; [done|]. destruct (Hz d ltac:(lia)) as [H0 H1].
    specialize (Hp d ltac:(lia)). destruct (format_abs d) as [|c s]; [done|].
    assert (starts_number c = true) as Hc by (destruct (starts_number c) eqn:Ec; [done|]; cbn [parse_numbers length parse_one] in Hp; by rewrite Ec in Hp).
    rewrite !(bool_decide_false (c = _)) by (intros ->; done).
    rewrite !bool_decide_false, Hp by (done || lia). cbn [rbind]. destruct (Z.ltb_spec (2 ^ 63 - 1) d); [lia|]. f_equal. apply i64_id. split; lia.
Qed.

(** ** Printed durations are text *)

Lemma Valid_cons c s : Z_of_byte c < 128 -> utf8_Valid s = true -> utf8_Valid (c :: s) = true.
Proof. intros Hc Hs. change (c :: s) with ([c] ++ s). apply Valid_app; [apply Valid_ascii; by constructor|done]. Qed.

Lemma digit_ascii v : Z_of_byte (byte_of_Z (48 + v mod 10)) < 128.
Proof. rewrite Z_of_byte_of_Z. dlia. Qed.

Lemma fmtFrac_valid prec : forall v print tail, utf8_Valid tail = true -> utf8_Valid (fmtFrac prec v print tail).1 = true.
Proof.
  induction prec as [|prec IH]; intros v print tail Ht; cbn [fmtFrac].
  - destruct print; [by apply Valid_cons|done].
  - apply IH. destruct (print || _); [apply Valid_cons; [apply digit_ascii|done]|done].
Qed.

Lemma fmtInt_valid v t : utf8_Valid t = true -> utf8_Valid (fmtInt v ++ t) = true.
Proof.
  intros Ht. apply Valid_app; [|done]. apply Valid_ascii. unfold fmtInt, FormatUint. generalize 20%nat as fuel. intros fuel. revert v.
  induction fuel as [|fuel IH]; intros v; cbn [decimal]; [constructor|]. apply Forall_app. split; [destruct (v <? 10); [constructor|apply IH]|].
  repeat constructor. apply digit_ascii.
Qed.

Lemma format_abs_valid u : utf8_Valid (format_abs u) = true.
Proof.
  assert (forall prec v unit, utf8_Valid unit = true -> utf8_Valid (with_fraction prec v unit) = true) as Hf.
  { intros prec v unit H. unfold with_fraction. pose proof (fmtFrac_valid prec v false unit H).
    destruct (fmtFrac prec v false unit). by apply fmtInt_valid. }
  unfold format_abs. destruct (u <? second).
  - destruct (u =? 0); [done|]. destruct (u <? microsecond); [|destruct (u <? millisecond)]; by apply Hf.
  - pose proof (fmtFrac_valid 9 u false unit_s eq_refl) as H. destruct (fmtFrac 9 u false unit_s) as [tail s]. cbn in H.
    destruct (0 <? s / 60); [destruct (0 <? s / 60 / 60)|]; repeat (apply fmtInt_valid; try apply Valid_cons; try done).
Qed.

Lemma Duration_String_valid d : utf8_Valid (Duration_String d) = true.
Proof. unfold Duration_String. destruct (d <? 0); [apply Valid_cons; [done|]|]; apply format_abs_valid. Qed.

(** ** The settings' [Duration] *)

Section SettingsDuration.
(** [encoding/json] on strings and on [int64]s. *)
Variables (unmarshal_string : bytes -> option bytes) (unmarshal_int64 : bytes -> option Z) (marshal_string : bytes -> option bytes).

Definition quote_char : byte := byte_of_Z 34.

Inductive unmarshal_error :=
| BadJSONString
| BadDuration (text : bytes) (e : duration_error)
| BadNumber.

Definition UnmarshalJSON (b : bytes) : result unmarshal_error Z :=
  match b with
  | c :: _ =>
      if bool_decide (c = quote_char) then
        match unmarshal_string b with
        | None => Err BadJSONString
        | Some s => match ParseDuration s with Ok parsed => Ok parsed | Err e => Err (BadDuration s e) end
        end
      else match unmarshal_int64 b with Some ns => Ok ns | None => Err BadNumber end
  | [] => match unmarshal_int64 b with Some ns => Ok ns | None => Err BadNumber end
  end.

Definition MarshalJSON (d : Z) : option bytes := marshal_string (Duration_String d).

(** Encoded text is a string literal that decodes to the text. *)
Hypothesis json_strings : forall s, utf8_Valid s = true ->
  exists b, marshal_string s = Some (quote_char :: b) /\ unmarshal_string (quote_char :: b) = Some s.

(** A duration written into settings is read back exactly, for every 64-bit
    number of nanoseconds: no unit, fraction or sign is lost, and the float64
    arithmetic of the parser is exact on everything the printer writes. *)
Theorem duration_round_trip (d : Z) : is_i64 d ->
  exists b, MarshalJSON d = Some b /\ UnmarshalJSON b = Ok d.
Proof.
  intros Hd. destruct (json_strings (Duration_String d) (Duration_String_valid d)) as (b & Hm & Hu).
  exists (quote_char :: b). split; [exact Hm|]. cbn [UnmarshalJSON]. by rewrite bool_decide_true, Hu, parse_string.
Qed.

End SettingsDuration.

(** JSON strings without escapes, which is all that durations need. *)
Definition plain_marshal (s : bytes) : option bytes := Some (quote_char :: s ++ [quote_char]).
Definition plain_unmarshal (b : bytes) : option bytes := Some (take (length b - 2) (drop 1 b)).

Lemma duration_round_trip_witness :
  exists b, MarshalJSON plain_marshal (- 2 ^ 63) = Some b /\ UnmarshalJSON plain_unmarshal (fun _ => None) b = Ok (- 2 ^ 63).
Proof.
  apply (duration_round_trip plain_unmarshal (fun _ => None) plain_marshal).
  - intros s _. exists (s ++ [quote_char]). split; [reflexivity|]. unfold plain_unmarshal. f_equal. cbn [length]. change (drop 1 (quote_char :: s ++ [quote_char])) with (s ++ [quote_char]).
    rewrite length_app. cbn [length]. replace (S (length s + 1) - 2)%nat with (length s) by lia. apply take_app_length.
  - unfold is_i64. lia.
Defined.

(** Boundaries and refusals. *)
Example duration_texts :
  Duration_String (- 2 ^ 63) = bs "-2562047h47m16.854775808s" /\ Duration_String 1500000 = bs "1.5ms" /\
  ParseDuration (bs "1.5h") = Ok (5400 * second) /\ ParseDuration (bs "9223372036854775808ns") = Err InvalidDuration /\
  ParseDuration (bs "-9223372036854775808ns") = Ok (- 2 ^ 63) /\ ParseDuration (bs "3") = Err MissingUnit /\
  ParseDuration (bs "3d") = Err (UnknownUnit (bs "d")) /\ ParseDuration (bs ".s") = Err InvalidDuration.
Proof. by vm_compute. Qed.
