(* ===== verification/Order.v ===== *)
(** * Order: byte strings in lexicographic order

    [bytes.Compare] of the Go library and sorting by it.  Two sorted lists with the
    same elements are equal, whatever the algorithm, so sorting is a function of
    the multiset: nodes that hold the same members in different orders sort them
    into the same list. *)

From stdpp Require Import sorting.
From S2P Require Import Prelude.

(** [bytes.Compare(a, b) < 0]. *)
Fixpoint bytes_lt (a b : bytes) : bool :=
  match a, b with
  | _, [] => false
  | [], _ :: _ => true
  | x :: a', y :: b' =>
      if Z_of_byte x <? Z_of_byte y then true
      else if Z_of_byte y <? Z_of_byte x then false
      else bytes_lt a' b'
  end.

(** [bytes.Compare(a, b) <= 0]. *)
Definition bytes_le (a b : bytes) : Prop := bytes_lt b a = false.

#[export] Instance bytes_le_dec : RelDecision bytes_le.
Proof. intros a b. unfold bytes_le. apply _. Defined.

Lemma Z_of_byte_inj x y : Z_of_byte x = Z_of_byte y -> x = y.
Proof. intros H. rewrite <- (byte_of_Z_of_byte x), <- (byte_of_Z_of_byte y). by rewrite H. Qed.

Lemma bytes_lt_cons x y a b :
  bytes_lt (x :: a) (y :: b) = true <-> Z_of_byte x < Z_of_byte y \/ x = y /\ bytes_lt a b = true.
Proof.
  cbn [bytes_lt]. destruct (Z.ltb_spec (Z_of_byte x) (Z_of_byte y)); [tauto|].
  destruct (Z.ltb_spec (Z_of_byte y) (Z_of_byte x)).
  - split; [done|]. intros [?|[-> _]]; lia.
  - assert (x = y) as -> by (apply Z_of_byte_inj; lia). split; [by right|]. by intros [?|[_ ?]]; [lia|].
Qed.

Lemma bytes_lt_irrefl a : bytes_lt a a = false.
Proof. induction a as [|x a IH]; [done|]. cbn [bytes_lt]. by rewrite Z.ltb_irrefl. Qed.

Lemma bytes_lt_trans a b c : bytes_lt a b = true -> bytes_lt b c = true -> bytes_lt a c = true.
Proof.
  revert b c. induction a as [|x a IH]; intros [|y b] [|z c]; try done.
  rewrite !bytes_lt_cons. intros [H1|[-> H1]] [H2|[-> H2]]; [left; lia|by left|by left|right; eauto].
Qed.

Lemma bytes_lt_total a b : bytes_lt a b = true \/ a = b \/ bytes_lt b a = true.
Proof.
  revert b. induction a as [|x a IH]; intros [|y b]; [by right; left|by left|by right; right|].
  rewrite !bytes_lt_cons. destruct (IH b) as [H|[->|H]];
    (destruct (Z.lt_trichotomy (Z_of_byte x) (Z_of_byte y)) as [?|[?%Z_of_byte_inj|?]]; [by left; left| |by right; right; left]);
    subst; tauto.
Qed.

#[export] Instance bytes_le_total : Total bytes_le.
Proof.
  intros a b. unfold bytes_le. destruct (bytes_lt b a) eqn:E; [right|by left].
  apply not_true_iff_false. intros E'. pose proof (bytes_lt_trans _ _ _ E E') as H.
  by rewrite bytes_lt_irrefl in H.
Qed.

#[export] Instance bytes_le_antisymm : AntiSymm eq bytes_le.
Proof. intros a b. unfold bytes_le. intros H1 H2. destruct (bytes_lt_total a b) as [?|[?|?]]; congruence. Qed.

#[export] Instance bytes_le_trans : Transitive bytes_le.
Proof.
  intros a b c. unfold bytes_le. intros H1 H2. apply not_true_iff_false. intros H.
  destruct (bytes_lt_total a b) as [Hab|[->|Hab]]; [|congruence|congruence].
  rewrite (bytes_lt_trans c a b) in H2; done.
Qed.

(** [slices.SortFunc(l, bytes.Compare)]. *)
Definition sort_bytes (l : list bytes) : list bytes := merge_sort bytes_le l.

Lemma sort_bytes_perm l : sort_bytes l ≡ₚ l.
Proof. apply merge_sort_Permutation. Qed.

Lemma sort_bytes_unique l k : l ≡ₚ k -> sort_bytes l = sort_bytes k.
Proof.
  intros H. apply (StronglySorted_unique bytes_le); [apply (StronglySorted_merge_sort bytes_le)..|].
  by rewrite !sort_bytes_perm.
Qed.

Lemma sort_bytes_eq l k : sort_bytes l = sort_bytes k <-> l ≡ₚ k.
Proof.
  split; [|apply sort_bytes_unique]. intros H. rewrite <- (sort_bytes_perm l), H. apply sort_bytes_perm.
Qed.

Lemma sort_bytes_idemp l : sort_bytes (sort_bytes l) = sort_bytes l.
Proof. apply sort_bytes_unique, sort_bytes_perm. Qed.
