(* ===== verification/Sha256.v ===== *)
(** * SHA-256: the hash of Go's [crypto/sha256], as the code uses it

    [sha256.New()] followed by [Write]s and one [Sum], and [sha256.Sum256],
    compute the FIPS 180-4 digest of the concatenation of what was written.
    The components are proved against the interface [Sha256], a function with
    32-byte results, so that what they guarantee does not depend on the rounds;
    [sha256_fips] is the algorithm itself and discharges the interface. *)

From S2P Require Import Prelude.

Class Sha256 := {
  sha256 : bytes -> bytes;
  length_sha256 : forall m, length (sha256 m) = 32%nat;
}.

(** Two different messages with the same digest, named explicitly: theorems on
    hashed data end in "the data are equal, or this pair is a collision". *)
Definition collision `{Sha256} (x y : bytes) : Prop := x <> y /\ sha256 x = sha256 y.

Lemma sha256_eq_or_collision `{Sha256} (x y : bytes) :
  sha256 x = sha256 y -> x = y \/ collision x y.
Proof. intros E. destruct (decide (x = y)); [by left | by right]. Qed.

(** Distinct values have distinct hashes, or two of them collide. *)
Lemma hashes_distinct `{Sha256} (l : list bytes) : NoDup l ->
  (exists x y, x ∈ l /\ y ∈ l /\ collision x y) \/ NoDup (map sha256 l).
Proof.
  induction 1 as [|x l Hx Hnd [(a & b & Ha & Hb & Hc)|IH]]; [right; constructor|left; exists a, b; set_solver|].
  destruct (decide (sha256 x ∈ map sha256 l)) as [(y & Hy & Hin)%list_elem_of_fmap|Hnin].
  - left. exists x, y. split_and!; [set_solver..|]. split; [|done]. by intros ->.
  - right. by constructor.
Qed.

Module Fips180.

Definition add32 (x y : Z) : Z := (x + y) mod 2 ^ 32.

Definition rotr (n x : Z) : Z :=
  Z.lor (Z.shiftr x n) (Z.land (Z.shiftl x (32 - n)) (2 ^ 32 - 1)).

Definition Ch (x y z : Z) : Z := Z.lxor (Z.land x y) (Z.land (Z.lxor x (2 ^ 32 - 1)) z).
Definition Maj (x y z : Z) : Z := Z.lxor (Z.lxor (Z.land x y) (Z.land x z)) (Z.land y z).
Definition Sigma0 (x : Z) : Z := Z.lxor (Z.lxor (rotr 2 x) (rotr 13 x)) (rotr 22 x).
Definition Sigma1 (x : Z) : Z := Z.lxor (Z.lxor (rotr 6 x) (rotr 11 x)) (rotr 25 x).
Definition sigma0 (x : Z) : Z := Z.lxor (Z.lxor (rotr 7 x) (rotr 18 x)) (Z.shiftr x 3).
Definition sigma1 (x : Z) : Z := Z.lxor (Z.lxor (rotr 17 x) (rotr 19 x)) (Z.shiftr x 10).

(** The constants are the leading fractional bits of cube and square roots of primes. *)

Definition is_prime (n : Z) : bool :=
  forallb (fun d => negb (n mod d =? 0)) (map Z.of_nat (seq 2 (Z.to_nat n - 2))).

Definition primes_up_to (n : nat) : list Z :=
  List.filter is_prime (map Z.of_nat (seq 2 (n - 1))).

(** The largest [x] below [acc + 2 ^ bits] with [x ^ 3 <= n], by bisection. *)
Fixpoint cube_root (bits : nat) (acc n : Z) : Z :=
  match bits with
  | O => acc
  | S b => let x := acc + 2 ^ Z.of_nat b in
           cube_root b (if x * x * x <=? n then x else acc) n
  end.

Definition K : list Z :=
  Eval vm_compute in
    map (fun p => cube_root 36 0 (p * 2 ^ 96) mod 2 ^ 32) (primes_up_to 311).

Definition H0 : list Z :=
  Eval vm_compute in map (fun p => Z.sqrt (p * 2 ^ 64) mod 2 ^ 32) (primes_up_to 19).

(** Padding: one bit, zeros up to 56 modulo 64, the length in bits. *)
Definition pad (m : bytes) : bytes :=
  m ++ [byte_of_Z 128]
    ++ repeat (byte_of_Z 0) (Z.to_nat ((55 - glen m) mod 64))
    ++ be64 (8 * glen m).

(** The message schedule, newest word first: 16 words of the block extended to 64. *)
Fixpoint extend (n : nat) (w : list Z) : list Z :=
  match n with
  | O => w
  | S n' =>
      let x := add32 (add32 (sigma1 (nth 1 w 0)) (nth 6 w 0))
                     (add32 (sigma0 (nth 14 w 0)) (nth 15 w 0)) in
      extend n' (x :: w)
  end.

Fixpoint words (n : nat) (b : bytes) : list Z :=
  match n with
  | O => []
  | S n' => be_decode (firstn 4 b) :: words n' (skipn 4 b)
  end.

Definition schedule (block : bytes) : list Z := rev (extend 48 (rev (words 16 block))).

Definition round (s : list Z) (kw : Z * Z) : list Z :=
  match s with
  | [a; b; c; d; e; f; g; h] =>
      let t1 := add32 h (add32 (Sigma1 e) (add32 (Ch e f g) (add32 (fst kw) (snd kw)))) in
      let t2 := add32 (Sigma0 a) (Maj a b c) in
      [add32 t1 t2; a; b; c; add32 d t1; e; f; g]
  | _ => s
  end.

Definition compress (s : list Z) (block : bytes) : list Z :=
  zip_with add32 s (fold_left round (combine K (schedule block)) s).

Fixpoint blocks (n : nat) (s : list Z) (b : bytes) : list Z :=
  match n with
  | O => s
  | S n' => blocks n' (compress s (firstn 64 b)) (skipn 64 b)
  end.

Definition digest (m : bytes) : bytes :=
  let p := pad m in
  concat (map be32 (blocks (length p / 64)%nat H0 p)).

Lemma length_round s kw : length (round s kw) = length s.
Proof. by do 9 (destruct s as [|? s]; [done|]). Qed.

Lemma length_rounds l s : length (fold_left round l s) = length s.
Proof.
  revert s. induction l as [|kw l IH]; intros s; [done|]. simpl. by rewrite IH, length_round.
Qed.

Lemma length_blocks n s b : length (blocks n s b) = length s.
Proof.
  revert s b. induction n as [|n IH]; intros s b; [done|]. simpl.
  rewrite IH. unfold compress. rewrite length_zip_with, length_rounds. lia.
Qed.

Lemma length_concat_be32 l : length (concat (map be32 l)) = (4 * length l)%nat.
Proof.
  induction l as [|x l IH]; [done|]. cbn [map concat].
  rewrite length_app, IH. unfold be32. rewrite length_be. simpl. lia.
Qed.

Lemma length_digest m : length (digest m) = 32%nat.
Proof. unfold digest. by rewrite length_concat_be32, length_blocks. Qed.

End Fips180.

#[export] Instance sha256_fips : Sha256 :=
  {| sha256 := Fips180.digest; length_sha256 := Fips180.length_digest |}.

(** The published test vector for the message [abc]. *)
Example fips_abc :
  be_decode (Fips180.digest (bs "abc")) =
  0xba7816bf8f01cfea414140de5dae2223b00361a396177a9cb410ff61f20015ad.
Proof. vm_compute. reflexivity. Qed.

(** The published test vector for the empty message. *)
Example fips_empty :
  be_decode (Fips180.digest []) =
  0xe3b0c44298fc1c149afbf4c8996fb92427ae41e4649b934ca495991b7852b855.
Proof. vm_compute. reflexivity. Qed.
