(* ===== verification/Types.v ===== *)
(** * Types: the wire types and their canonical hashes

    Models [src/types/types.go] and the domain-separated signing payload of
    [src/types/copied/libocr/domain_separation.go].  A [hash.Hash] is the bytes
    written to it so far; [Sum] is the digest of them.  Every [Hash] method is
    split into its writes (the preimage) and the final [Sum], so that the
    theorems speak of preimages: two values with the same hash have the same
    covered fields, or their preimages are a SHA-256 collision. *)

From Stdlib Require Import SpecFloat.
From S2P Require Import Prelude Float Sha256.

(** ** Constants *)

(** The string [s] between two line feeds. *)
Definition nl_tag (s : string) : string :=
  String.String (Ascii.ascii_of_nat 10) (String.append s (String.String (Ascii.ascii_of_nat 10) "")).

Definition DomainSeparator : string := "CONFIDENTIAL_COMPUTE_PAYLOAD".
Definition ServiceConfidentialComputeVersionLegacy : string := "0.0.6".

Definition DefaultKeypairRotationFrequency : Z := 12 * hour.
Definition DefaultKeypairExpiration : Z := 24 * hour.
Definition MaxRequestKeyMapEntries : Z := 100000.
Definition PublicKeyAttestationCacheTTL : Z := 5 * second.
Definition MaxReplayCacheEntries : Z := 500000.
Definition DefaultCacheTTL : Z := 24 * hour.
Definition InboundProxyRequestCacheTTL : Z := 5 * minute.
Definition QuorumTimeout : Z := 20 * second.
Definition ConfigVoteTTL : Z := 10 * minute.

(** ** [hash.Hash] *)

Definition hasher : Type := bytes.
Definition h_new : hasher := [].
Definition h_write (h : hasher) (b : bytes) : hasher := h ++ b.
Definition h_sum `{Sha256} (h : hasher) : bytes := sha256 h.

Definition writeLengthPrefix (h : hasher) (length : Z) : hasher :=
  h_write h (be64 (u64 length)).

Definition writeWithLength (h : hasher) (data : bytes) : hasher :=
  h_write (writeLengthPrefix h (glen data)) data.

(** ** Enclaves *)

Record Enclave := mkEnclave {
  EnclaveID : bytes;
  EnclaveURL : string;
  TrustedValues : list bytes;
  EnclaveType : string;
  EnclaveAuthHeader : string;
  EnclaveExtraData : bytes;
  Region : string;
}.

Definition writeEnclave (h : hasher) (e : Enclave) : hasher :=
  let h := h_write h (EnclaveID e) in
  let h := writeWithLength h (bs (EnclaveURL e)) in
  let h := writeLengthPrefix h (glen (TrustedValues e)) in
  let h := fold_left writeWithLength (TrustedValues e) h in
  let h := writeWithLength h (bs (EnclaveType e)) in
  let h := writeWithLength h (bs (EnclaveAuthHeader e)) in
  let h := writeWithLength h (EnclaveExtraData e) in
  writeWithLength h (bs (Region e)).

Definition EnclavesList_writes (el : list Enclave) : hasher :=
  let h := h_new in
  let h := h_write h (bs DomainSeparator) in
  let h := h_write h (bs (nl_tag "EnclavesList")) in
  let h := writeLengthPrefix h (glen el) in
  fold_left writeEnclave el h.

Definition EnclavesList_Hash `{Sha256} (el : list Enclave) : bytes := h_sum (EnclavesList_writes el).

(** ** Compute requests *)

Record ComputeRequest := mkComputeRequest {
  RequestID : bytes;
  ApplicationRequestID : string;
  PublicData : bytes;
  Ciphertexts : list bytes;
  CiphertextNames : list string;
  EncryptedDecryptionKeyShares : list (list bytes);
  EnclaveEphemeralPublicKey : bytes;
  MasterPublicKey : bytes;
  AppID : string;
  Version : string;
}.

Definition ComputeRequest_writes (cr : ComputeRequest) : hasher :=
  let h := h_new in
  let h := h_write h (bs DomainSeparator) in
  let h := h_write h (bs (nl_tag "ComputeRequest")) in
  let h := h_write h (RequestID cr) in
  let h := writeWithLength h (PublicData cr) in
  let h := writeLengthPrefix h (glen (CiphertextNames cr)) in
  let h := fold_left (fun h name => writeWithLength h (bs name)) (CiphertextNames cr) h in
  let h := writeLengthPrefix h (glen (Ciphertexts cr)) in
  let h := fold_left writeWithLength (Ciphertexts cr) h in
  let h := writeWithLength h (EnclaveEphemeralPublicKey cr) in
  let h := writeWithLength h (MasterPublicKey cr) in
  let h := writeWithLength h (bs (AppID cr)) in
  if decide (Version cr = ServiceConfidentialComputeVersionLegacy)
  then writeWithLength h (bs (Version cr))
  else writeWithLength h (bs (ApplicationRequestID cr)).

Definition ComputeRequest_Hash `{Sha256} (cr : ComputeRequest) : bytes :=
  h_sum (ComputeRequest_writes cr).

Record SignedComputeRequest := mkSigned {
  Request :> ComputeRequest;
  Signature : bytes;
}.

(** ** Enclave configuration *)

Record EnclaveConfig := mkConfig {
  Signers : list bytes;
  cfg_MasterPublicKey : bytes;
  T : Z;
  F : Z;
}.

Definition zeroConfig : EnclaveConfig := mkConfig [] [] 0 0.

Definition IsZero (ec : EnclaveConfig) : bool :=
  (T ec =? 0) && (F ec =? 0) && (glen (Signers ec) =? 0) && (glen (cfg_MasterPublicKey ec) =? 0).

Definition EnclaveConfig_writes (ec : EnclaveConfig) : hasher :=
  let h := h_new in
  let h := h_write h (bs DomainSeparator) in
  let h := h_write h (bs (nl_tag "EnclaveConfig")) in
  let h := writeLengthPrefix h (glen (Signers ec)) in
  let h := fold_left writeWithLength (Signers ec) h in
  let h := writeWithLength h (cfg_MasterPublicKey ec) in
  let h := h_write h (be32 (T ec)) in
  h_write h (be32 (F ec)).

Definition EnclaveConfig_Hash `{Sha256} (ec : EnclaveConfig) : bytes := h_sum (EnclaveConfig_writes ec).

(** [Copy] allocates fresh slices; as values they are what was copied. *)
Definition EnclaveConfig_Copy (ec : EnclaveConfig) : EnclaveConfig :=
  mkConfig (map (fun s => s) (Signers ec)) (cfg_MasterPublicKey ec) (T ec) (F ec).

Definition SetConfigResponse_writes `{Sha256} (c : EnclaveConfig) : bytes :=
  bs DomainSeparator ++ bs (nl_tag "SetConfigResponse") ++ EnclaveConfig_Hash c.

Definition SetConfigResponse_UserDataHash `{Sha256} (c : EnclaveConfig) : bytes :=
  sha256 (SetConfigResponse_writes c).

(** ** Metric events

    The values of a details map. *)

Abbreviation float64 := spec_float.

Inductive any :=
| AString (s : string)
| AInt (z : Z)
| AFloat (f : float64)
| AExecuteError (msg : string) (code : Z)
| ABool (b : bool).

#[export] Instance any_eq_decision : EqDecision any.
Proof. solve_decision. Defined.

Record MetricEvent := mkEvent {
  Event : string;
  Details : gmap string any;
}.

(** ** Execute responses *)

Record ExecuteResponse := mkExecuteResponse {
  er_RequestID : bytes;
  er_ApplicationRequestID : string;
  er_RequestHash : bytes;
  er_Output : bytes;
  er_Config : EnclaveConfig;
  er_Attestation : bytes;
  er_Metrics : gmap string (gmap string any);
  er_MetricEvents : list MetricEvent;
}.

Definition ExecuteResponse_writes `{Sha256} (er : ExecuteResponse) (requestVersion : string) : hasher :=
  let h := h_new in
  let h := h_write h (er_RequestID er) in
  let h := h_write h (bs DomainSeparator) in
  let h := h_write h (bs (nl_tag "ExecuteResponse")) in
  let h := writeWithLength h (er_Output er) in
  let h := h_write h (EnclaveConfig_Hash (er_Config er)) in
  let h := h_write h (er_RequestHash er) in
  if decide (requestVersion = ServiceConfidentialComputeVersionLegacy) then h
  else writeWithLength h (bs (er_ApplicationRequestID er)).

Definition ExecuteResponse_UserDataHash `{Sha256} (er : ExecuteResponse) (requestVersion : string) : bytes :=
  h_sum (ExecuteResponse_writes er requestVersion).

(** ** Public-key responses: creation times are instants in nanoseconds since
    the epoch, TTLs are [time.Duration]s. *)

Record PublicKeyResponse := mkPublicKeyResponse {
  pkr_PublicKeys : list bytes;
  pkr_CreationTimes : list Z;
  pkr_TTLs : list Z;
  pkr_Config : EnclaveConfig;
  pkr_Attestation : bytes;
}.

Definition writeInt64 (h : hasher) (z : Z) : hasher := h_write h (be64 (u64 z)).

Definition PublicKeyResponse_writes `{Sha256} (pkr : PublicKeyResponse) : hasher :=
  let h := h_new in
  let h := h_write h (bs DomainSeparator) in
  let h := h_write h (bs (nl_tag "PublicKeyResponse")) in
  let h := writeLengthPrefix h (glen (pkr_PublicKeys pkr)) in
  let h := fold_left writeWithLength (pkr_PublicKeys pkr) h in
  let h := writeLengthPrefix h (glen (pkr_CreationTimes pkr)) in
  let h := fold_left writeInt64 (pkr_CreationTimes pkr) h in
  let h := writeLengthPrefix h (glen (pkr_TTLs pkr)) in
  let h := fold_left writeInt64 (pkr_TTLs pkr) h in
  h_write h (EnclaveConfig_Hash (pkr_Config pkr)).

Definition PublicKeyHash `{Sha256} (pkr : PublicKeyResponse) : bytes :=
  h_sum (PublicKeyResponse_writes pkr).

Record EnclavePublicKeyData := mkEnclavePublicKeyData {
  epk_Response : PublicKeyResponse;
  epk_EnclaveID : bytes;
}.

(** ** Domain-separated signing payload *)

Definition peerid_context : string := "ragep2p arbitrary message signing".
Definition shortMessageMax : Z := 1024.

Definition MakePeerIDSignatureDomainSeparatedPayload `{Sha256}
    (domainSeparator : string) (message : bytes) : bytes :=
  let payload := repeat (byte_of_Z 0x20) 64 in
  let payload := payload ++ bs peerid_context in
  let payload := payload ++ [byte_of_Z 0] in
  let payload := payload ++ be64 (u64 (glen (bs domainSeparator))) in
  let payload := payload ++ bs domainSeparator in
  if glen message <=? shortMessageMax then
    let payload := payload ++ [byte_of_Z 0] in
    let payload := payload ++ be64 (u64 (glen message)) in
    payload ++ message
  else
    let payload := payload ++ [byte_of_Z 1] in
    payload ++ sha256 message.

Definition GetConfidentialComputePayloadPrefix : string := "CONFIDENTIAL_COMPUTE_PAYLOAD_".
Definition GetConfidentialComputeConfigUpdatePrefix : string := "CONFIDENTIAL_COMPUTE_CONFIG_UPDATE_".

(** What a signer signs for a compute request and for a config-update vote. *)
Definition compute_payload `{Sha256} (hash : bytes) : bytes :=
  MakePeerIDSignatureDomainSeparatedPayload GetConfidentialComputePayloadPrefix hash.
Definition config_payload `{Sha256} (hash : bytes) : bytes :=
  MakePeerIDSignatureDomainSeparatedPayload GetConfidentialComputeConfigUpdatePrefix hash.

(** ** Preimages as concatenations *)

Definition lp (data : bytes) : bytes := be64 (u64 (glen data)) ++ data.
Definition lps (l : list bytes) : bytes := concat (map lp l).
Definition i64s (l : list Z) : bytes := concat (map (fun z => be64 (u64 z)) l).
Definition count {A} (l : list A) : bytes := be64 (u64 (glen l)).

Lemma writeLengthPrefix_nf {A} h (l : list A) : writeLengthPrefix h (glen l) = h ++ count l.
Proof. done. Qed.

Lemma writeWithLength_nf h d : writeWithLength h d = h ++ lp d.
Proof. unfold writeWithLength, writeLengthPrefix, h_write, lp. by rewrite app_assoc. Qed.

Lemma fold_write_nf {A} (f : hasher -> A -> hasher) (g : A -> bytes) :
  (forall h x, f h x = h ++ g x) ->
  forall l h, fold_left f l h = h ++ concat (map g l).
Proof.
  intros Hf l. induction l as [|x l IH]; intros h; simpl; [by rewrite app_nil_r|].
  by rewrite IH, Hf, <- app_assoc.
Qed.

Lemma fold_writeWithLength l h : fold_left writeWithLength l h = h ++ lps l.
Proof. apply fold_write_nf, writeWithLength_nf. Qed.

Lemma fold_writeNames l h :
  fold_left (fun h name => writeWithLength h (bs name)) l h = h ++ lps (map bs l).
Proof.
  unfold lps. rewrite map_map.
  apply (fold_write_nf (fun h name => writeWithLength h (bs name)) (fun name => lp (bs name))).
  intros. apply writeWithLength_nf.
Qed.

Lemma fold_writeInt64 l h : fold_left writeInt64 l h = h ++ i64s l.
Proof. by apply (fold_write_nf writeInt64 (fun z => be64 (u64 z))). Qed.

Create Rewrite HintDb cc_writes.
#[export] Hint Rewrite @writeLengthPrefix_nf writeWithLength_nf fold_writeWithLength
  fold_writeNames fold_writeInt64 : cc_writes.

(** Put the writes of a [Hash] method in the form [a ++ (b ++ ...)]. *)
Ltac writes_nf :=
  unfold h_sum, h_write, h_new in *; autorewrite with cc_writes in *;
  rewrite <- ?app_assoc in *; cbn [app] in *.

(** ** Unique parsing *)

Lemma fits_u64 {A} (l : list A) : fits l -> is_u64 (glen l).
Proof. unfold fits, is_u64. pose proof (glen_nonneg l). lia. Qed.

Lemma count_parse {A} (l k : list A) x y :
  fits l -> fits k -> count l ++ x = count k ++ y -> length l = length k /\ x = y.
Proof.
  intros Hl Hk H. apply app_split in H as [H ->]; [|by unfold count, be64; rewrite !length_be].
  apply fits_u64 in Hl, Hk. unfold count in H. rewrite !u64_id in H by done.
  apply be64_inj in H; [|done..]. unfold glen in H. split; [lia | done].
Qed.

Lemma lp_parse a b x y : fits a -> fits b -> lp a ++ x = lp b ++ y -> a = b /\ x = y.
Proof.
  intros Ha Hb H. unfold lp in H. rewrite <- !app_assoc in H.
  apply (count_parse a b) in H as [Hl H]; [|done..]. by apply app_split.
Qed.

Lemma concat_parse {A} (g : A -> bytes) (P : A -> Prop) :
  (forall a b x y, P a -> P b -> g a ++ x = g b ++ y -> a = b /\ x = y) ->
  forall l k x y, length l = length k -> Forall P l -> Forall P k ->
  concat (map g l) ++ x = concat (map g k) ++ y -> l = k /\ x = y.
Proof.
  intros Hg l. induction l as [|a l IH]; intros [|b k] x y Hlen HPl HPk H; try done.
  cbn [map concat] in H. rewrite <- !app_assoc in H.
  inversion HPl; inversion HPk; subst.
  apply Hg in H as [-> H]; [|done..].
  apply IH in H as [-> ->]; [done| |done..]. by injection Hlen.
Qed.

Lemma lps_parse l k x y :
  length l = length k -> Forall fits l -> Forall fits k ->
  lps l ++ x = lps k ++ y -> l = k /\ x = y.
Proof. apply concat_parse. intros. by apply lp_parse. Qed.

Lemma lp_list_parse l k x y :
  fits l -> fits k -> Forall fits l -> Forall fits k ->
  count l ++ lps l ++ x = count k ++ lps k ++ y -> l = k /\ x = y.
Proof. intros ???? H. apply count_parse in H as [Hl H]; [|done..]. by apply lps_parse. Qed.

Lemma i64s_parse l k x y :
  fits l -> fits k -> Forall is_i64 l -> Forall is_i64 k ->
  count l ++ i64s l ++ x = count k ++ i64s k ++ y -> l = k /\ x = y.
Proof.
  intros Hl Hk ? ? H. apply count_parse in H as [Hn H]; [|done..].
  revert H. apply (concat_parse _ is_i64); [|done..].
  intros a b x' y' Ha Hb H.
  apply app_split in H as [H ->]; [|by unfold be64; rewrite !length_be].
  apply be64_inj in H; [|apply u64_range..]. split; [by apply u64_i64_inj | done].
Qed.

Lemma map_bs_inj l k : map bs l = map bs k -> l = k.
Proof.
  revert k. induction l as [|s l IH]; intros [|t k] H; try done.
  cbn [map] in H. injection H as H1 H2. by rewrite (bs_inj _ _ H1), (IH _ H2).
Qed.

(** ** Values that exist in memory

    Fixed-size arrays have their size, slices and strings have lengths that are
    non-negative Go [int]s, integers are in the range of their type. *)

Record Enclave_ok (e : Enclave) : Prop := {
  eok_id : length (EnclaveID e) = 32%nat;
  eok_url : fits (bs (EnclaveURL e));
  eok_tvs : fits (TrustedValues e);
  eok_tv : Forall fits (TrustedValues e);
  eok_type : fits (bs (EnclaveType e));
  eok_auth : fits (bs (EnclaveAuthHeader e));
  eok_extra : fits (EnclaveExtraData e);
  eok_region : fits (bs (Region e));
}.

Record ComputeRequest_ok (cr : ComputeRequest) : Prop := {
  cok_id : length (RequestID cr) = 32%nat;
  cok_public : fits (PublicData cr);
  cok_names : fits (map bs (CiphertextNames cr));
  cok_name : Forall fits (map bs (CiphertextNames cr));
  cok_cts : fits (Ciphertexts cr);
  cok_ct : Forall fits (Ciphertexts cr);
  cok_epk : fits (EnclaveEphemeralPublicKey cr);
  cok_mpk : fits (MasterPublicKey cr);
  cok_app : fits (bs (AppID cr));
  cok_version : fits (bs (Version cr));
  cok_appreq : fits (bs (ApplicationRequestID cr));
}.

Record EnclaveConfig_ok (ec : EnclaveConfig) : Prop := {
  ecok_signers : fits (Signers ec);
  ecok_signer : Forall fits (Signers ec);
  ecok_mpk : fits (cfg_MasterPublicKey ec);
  ecok_T : is_u32 (T ec);
  ecok_F : is_u32 (F ec);
}.

Record ExecuteResponse_ok (er : ExecuteResponse) : Prop := {
  erok_id : length (er_RequestID er) = 32%nat;
  erok_hash : length (er_RequestHash er) = 32%nat;
  erok_output : fits (er_Output er);
  erok_config : EnclaveConfig_ok (er_Config er);
  erok_appreq : fits (bs (er_ApplicationRequestID er));
}.

Record PublicKeyResponse_ok (p : PublicKeyResponse) : Prop := {
  pkok_keys : fits (pkr_PublicKeys p);
  pkok_key : Forall fits (pkr_PublicKeys p);
  pkok_times : fits (pkr_CreationTimes p);
  pkok_time : Forall is_i64 (pkr_CreationTimes p);
  pkok_ttls : fits (pkr_TTLs p);
  pkok_ttl : Forall is_i64 (pkr_TTLs p);
  pkok_config : EnclaveConfig_ok (pkr_Config p);
}.

Create HintDb cc_ok.
#[export] Hint Resolve eok_id eok_url eok_tvs eok_tv eok_type eok_auth eok_extra eok_region
  cok_id cok_public cok_names cok_name cok_cts cok_ct cok_epk cok_mpk cok_app cok_version cok_appreq
  ecok_signers ecok_signer ecok_mpk ecok_T ecok_F
  erok_id erok_hash erok_output erok_config erok_appreq
  pkok_keys pkok_key pkok_times pkok_time pkok_ttls pkok_ttl pkok_config : cc_ok.

(** The part of a request its hash covers: everything but the encrypted shares
    and, depending on the version, the version or the application request ID. *)
Definition hash_tail (cr : ComputeRequest) : string :=
  if decide (Version cr = ServiceConfidentialComputeVersionLegacy)
  then Version cr else ApplicationRequestID cr.

Definition covered (cr : ComputeRequest) :=
  (RequestID cr, PublicData cr, CiphertextNames cr, Ciphertexts cr,
   EnclaveEphemeralPublicKey cr, MasterPublicKey cr, AppID cr, hash_tail cr).

(** ** Normal forms of the preimages *)

Lemma glen_map {A B} (f : A -> B) l : glen (map f l) = glen l.
Proof. unfold glen. by rewrite length_map. Qed.

Lemma count_map {A B} (f : A -> B) l : count (map f l) = count l.
Proof. unfold count. by rewrite glen_map. Qed.

Lemma ComputeRequest_writes_nf cr :
  ComputeRequest_writes cr =
  bs DomainSeparator ++ bs (nl_tag "ComputeRequest") ++ RequestID cr ++ lp (PublicData cr)
  ++ count (map bs (CiphertextNames cr)) ++ lps (map bs (CiphertextNames cr))
  ++ count (Ciphertexts cr) ++ lps (Ciphertexts cr)
  ++ lp (EnclaveEphemeralPublicKey cr) ++ lp (MasterPublicKey cr) ++ lp (bs (AppID cr))
  ++ lp (bs (hash_tail cr)).
Proof.
  unfold ComputeRequest_writes, hash_tail. rewrite count_map.
  destruct (decide _); writes_nf; done.
Qed.

Lemma EnclaveConfig_writes_nf ec :
  EnclaveConfig_writes ec =
  bs DomainSeparator ++ bs (nl_tag "EnclaveConfig") ++ count (Signers ec) ++ lps (Signers ec)
  ++ lp (cfg_MasterPublicKey ec) ++ be32 (T ec) ++ be32 (F ec).
Proof. unfold EnclaveConfig_writes. writes_nf. done. Qed.

Lemma ExecuteResponse_writes_nf `{Sha256} er v :
  ExecuteResponse_writes er v =
  er_RequestID er ++ bs DomainSeparator ++ bs (nl_tag "ExecuteResponse") ++ lp (er_Output er)
  ++ EnclaveConfig_Hash (er_Config er) ++ er_RequestHash er
  ++ (if decide (v = ServiceConfidentialComputeVersionLegacy) then []
      else lp (bs (er_ApplicationRequestID er))).
Proof.
  unfold ExecuteResponse_writes. destruct (decide _); writes_nf; by rewrite ?app_nil_r.
Qed.

Lemma PublicKeyResponse_writes_nf `{Sha256} p :
  PublicKeyResponse_writes p =
  bs DomainSeparator ++ bs (nl_tag "PublicKeyResponse")
  ++ count (pkr_PublicKeys p) ++ lps (pkr_PublicKeys p)
  ++ count (pkr_CreationTimes p) ++ i64s (pkr_CreationTimes p)
  ++ count (pkr_TTLs p) ++ i64s (pkr_TTLs p) ++ EnclaveConfig_Hash (pkr_Config p).
Proof. unfold PublicKeyResponse_writes. writes_nf. done. Qed.

Definition enc_Enclave (e : Enclave) : bytes :=
  EnclaveID e ++ lp (bs (EnclaveURL e)) ++ count (TrustedValues e) ++ lps (TrustedValues e)
  ++ lp (bs (EnclaveType e)) ++ lp (bs (EnclaveAuthHeader e)) ++ lp (EnclaveExtraData e)
  ++ lp (bs (Region e)).

Lemma EnclavesList_writes_nf el :
  EnclavesList_writes el =
  bs DomainSeparator ++ bs (nl_tag "EnclavesList") ++ count el ++ concat (map enc_Enclave el).
Proof.
  unfold EnclavesList_writes. rewrite (fold_write_nf writeEnclave enc_Enclave).
  - writes_nf. done.
  - intros h e. unfold writeEnclave, enc_Enclave. writes_nf. done.
Qed.

(** ** Preimages determine the covered fields *)

Lemma len32_eq (a b : bytes) : length a = 32%nat -> length b = 32%nat -> length a = length b.
Proof. congruence. Qed.

Lemma length_EnclaveConfig_Hash `{Sha256} c : length (EnclaveConfig_Hash c) = 32%nat.
Proof. apply length_sha256. Qed.

Lemma length_ComputeRequest_Hash `{Sha256} c : length (ComputeRequest_Hash c) = 32%nat.
Proof. apply length_sha256. Qed.
#[export] Hint Resolve length_EnclaveConfig_Hash length_ComputeRequest_Hash : cc_ok.

(** Strip one field from both sides of an equation between preimages. *)
Ltac peel_one H :=
  lazymatch type of H with
  | count _ ++ lps _ ++ _ = count _ ++ lps _ ++ _ => apply lp_list_parse in H as [? H]; [|solve [eauto with cc_ok]..]
  | count _ ++ i64s _ ++ _ = count _ ++ i64s _ ++ _ => apply i64s_parse in H as [? H]; [|solve [eauto with cc_ok]..]
  | lp _ ++ _ = lp _ ++ _ => apply lp_parse in H as [? H]; [|solve [eauto with cc_ok]..]
  | bs ?s ++ _ = bs ?s ++ _ => apply app_inv_head in H
  | be32 _ ++ _ = be32 _ ++ _ => apply app_split in H as [? H]; [|by unfold be32; rewrite !length_be]
  | count _ ++ _ = count _ ++ _ => fail
  | lp ?a = lp ?b => fail
  | ?a ++ _ = ?b ++ _ => apply app_split in H as [? H]; [|apply len32_eq; eauto with cc_ok]
  end.
Ltac peel H := repeat peel_one H.

Lemma hash_tail_fits cr : ComputeRequest_ok cr -> fits (bs (hash_tail cr)).
Proof. intros. unfold hash_tail. destruct (decide _); eauto with cc_ok. Qed.
#[export] Hint Resolve hash_tail_fits : cc_ok.

Lemma lp_inj a b : fits a -> fits b -> lp a = lp b -> a = b.
Proof.
  intros Ha Hb H. apply (f_equal (fun l => l ++ [])) in H. by apply lp_parse in H as [-> _].
Qed.

Lemma ComputeRequest_writes_inj a b :
  ComputeRequest_ok a -> ComputeRequest_ok b ->
  ComputeRequest_writes a = ComputeRequest_writes b -> covered a = covered b.
Proof.
  intros Ha Hb H. rewrite !ComputeRequest_writes_nf in H. peel H.
  apply lp_inj in H; [|eauto with cc_ok..].
  repeat match goal with E : bs _ = bs _ |- _ => apply bs_inj in E end.
  repeat match goal with E : map bs _ = map bs _ |- _ => apply map_bs_inj in E end.
  unfold covered. congruence.
Qed.

Lemma EnclaveConfig_writes_inj a b :
  EnclaveConfig_ok a -> EnclaveConfig_ok b ->
  EnclaveConfig_writes a = EnclaveConfig_writes b -> a = b.
Proof.
  intros Ha Hb H. rewrite !EnclaveConfig_writes_nf in H. peel H.
  apply be32_inj in H; [|eauto with cc_ok..].
  apply be32_inj in H2; [|eauto with cc_ok..].
  destruct a, b. simpl in *. congruence.
Qed.

Lemma enc_Enclave_parse a b x y :
  Enclave_ok a -> Enclave_ok b -> enc_Enclave a ++ x = enc_Enclave b ++ y -> a = b /\ x = y.
Proof.
  intros Ha Hb H. unfold enc_Enclave in H. rewrite <- !app_assoc in H. peel H.
  repeat match goal with E : bs _ = bs _ |- _ => apply bs_inj in E end.
  destruct a, b. simpl in *. split; congruence.
Qed.

Lemma EnclavesList_writes_inj a b :
  fits a -> fits b -> Forall Enclave_ok a -> Forall Enclave_ok b ->
  EnclavesList_writes a = EnclavesList_writes b -> a = b.
Proof.
  intros Ha Hb Ha' Hb' H. rewrite !EnclavesList_writes_nf in H. peel H.
  apply count_parse in H as [Hl H]; [|done..].
  apply (f_equal (fun l => l ++ [])) in H.
  by apply (concat_parse enc_Enclave Enclave_ok) in H as [-> _]; [|apply enc_Enclave_parse|..].
Qed.

Section Binding.
Context `{Sha256}.

(** Equal configuration hashes: equal configurations, or a collision. *)
Lemma EnclaveConfig_Hash_inj a b :
  EnclaveConfig_ok a -> EnclaveConfig_ok b -> EnclaveConfig_Hash a = EnclaveConfig_Hash b ->
  a = b \/ collision (EnclaveConfig_writes a) (EnclaveConfig_writes b).
Proof.
  intros Ha Hb E. apply sha256_eq_or_collision in E as [E|E]; [left | by right].
  by apply EnclaveConfig_writes_inj.
Qed.

(** C30 Two compute requests with the same hash agree on every field the hash is
    meant to bind (request ID, public data, names and ciphertexts with their
    order and boundaries, both public keys, application, and the version slot),
    unless their preimages are a SHA-256 collision. *)
Theorem request_hash_binds a b :
  ComputeRequest_ok a -> ComputeRequest_ok b ->
  ComputeRequest_Hash a = ComputeRequest_Hash b ->
  covered a = covered b \/ collision (ComputeRequest_writes a) (ComputeRequest_writes b).
Proof.
  intros Ha Hb E. apply sha256_eq_or_collision in E as [E|E]; [left | by right].
  by apply ComputeRequest_writes_inj.
Qed.

(** What an attested execution response is bound to. *)
Definition er_bound (er : ExecuteResponse) :=
  (er_RequestID er, er_RequestHash er, er_Output er, er_Config er).

Lemma ExecuteResponse_writes_inj a b v w :
  ExecuteResponse_ok a -> ExecuteResponse_ok b ->
  ExecuteResponse_writes a v = ExecuteResponse_writes b w ->
  er_RequestID a = er_RequestID b /\ er_RequestHash a = er_RequestHash b /\
  er_Output a = er_Output b /\
  EnclaveConfig_Hash (er_Config a) = EnclaveConfig_Hash (er_Config b) /\
  (v = ServiceConfidentialComputeVersionLegacy <-> w = ServiceConfidentialComputeVersionLegacy) /\
  (v <> ServiceConfidentialComputeVersionLegacy ->
   er_ApplicationRequestID a = er_ApplicationRequestID b).
Proof.
  intros Ha Hb E. rewrite !ExecuteResponse_writes_nf in E. peel E.
  assert (forall s, lp s <> []) as Hlp.
  { intros s Hs. apply (f_equal length) in Hs. unfold lp, be64 in Hs.
    rewrite length_app, length_be in Hs. simpl in Hs. lia. }
  destruct (decide (v = _)), (decide (w = _)); split_and!; try done; try tauto;
    try (by exfalso; eapply Hlp; eauto).
  intros _. apply lp_inj in E; eauto with cc_ok. by apply bs_inj.
Qed.

Lemma response_preimage_binds a b v w :
  ExecuteResponse_ok a -> ExecuteResponse_ok b ->
  ExecuteResponse_writes a v = ExecuteResponse_writes b w ->
  (er_bound a = er_bound b /\
   (v = ServiceConfidentialComputeVersionLegacy <-> w = ServiceConfidentialComputeVersionLegacy) /\
   (v <> ServiceConfidentialComputeVersionLegacy ->
    er_ApplicationRequestID a = er_ApplicationRequestID b))
  \/ collision (EnclaveConfig_writes (er_Config a)) (EnclaveConfig_writes (er_Config b)).
Proof.
  intros Ha Hb E. apply ExecuteResponse_writes_inj in E as (E1 & E2 & E3 & E4 & E5 & E6); [|done..].
  apply EnclaveConfig_Hash_inj in E4 as [E4|E4]; eauto with cc_ok.
  left. unfold er_bound. split; [congruence | done].
Qed.

(** The user data of an execution attestation determines the request ID, the
    request hash, the output, the enclave configuration, whether the legacy
    format was used and, outside it, the application request ID.  The only
    alternatives are explicit SHA-256 collisions of the two responses' or of
    the two configurations' preimages. *)
Theorem response_hash_binds a b v w :
  ExecuteResponse_ok a -> ExecuteResponse_ok b ->
  ExecuteResponse_UserDataHash a v = ExecuteResponse_UserDataHash b w ->
  (er_bound a = er_bound b /\
   (v = ServiceConfidentialComputeVersionLegacy <-> w = ServiceConfidentialComputeVersionLegacy) /\
   (v <> ServiceConfidentialComputeVersionLegacy ->
    er_ApplicationRequestID a = er_ApplicationRequestID b))
  \/ collision (ExecuteResponse_writes a v) (ExecuteResponse_writes b w)
  \/ collision (EnclaveConfig_writes (er_Config a)) (EnclaveConfig_writes (er_Config b)).
Proof.
  intros Ha Hb E. apply sha256_eq_or_collision in E as [E|E]; [|by right; left].
  apply response_preimage_binds in E as [E|E]; auto.
Qed.

(** The user data of a public-key attestation determines the keys, their
    creation times and lifetimes (as sequences, with their lengths) and the
    enclave configuration, up to explicit SHA-256 collisions. *)
Theorem publickey_hash_binds a b :
  PublicKeyResponse_ok a -> PublicKeyResponse_ok b ->
  PublicKeyHash a = PublicKeyHash b ->
  (pkr_PublicKeys a = pkr_PublicKeys b /\ pkr_CreationTimes a = pkr_CreationTimes b /\
   pkr_TTLs a = pkr_TTLs b /\ pkr_Config a = pkr_Config b)
  \/ collision (PublicKeyResponse_writes a) (PublicKeyResponse_writes b)
  \/ collision (EnclaveConfig_writes (pkr_Config a)) (EnclaveConfig_writes (pkr_Config b)).
Proof.
  intros Ha Hb E. apply sha256_eq_or_collision in E as [E|E]; [|by right; left].
  rewrite !PublicKeyResponse_writes_nf in E. peel E.
  apply EnclaveConfig_Hash_inj in E as [E|E]; eauto with cc_ok.
Qed.

(** ** Domain separation *)

(** Everything the system hashes with its own domain separator. *)
Inductive hashed :=
| HEnclaves (el : list Enclave)
| HRequest (cr : ComputeRequest)
| HResponse (er : ExecuteResponse) (v : string)
| HPublicKeys (p : PublicKeyResponse)
| HConfig (c : EnclaveConfig)
| HSetConfig (c : EnclaveConfig).

Definition preimage (x : hashed) : bytes :=
  match x with
  | HEnclaves el => EnclavesList_writes el
  | HRequest cr => ComputeRequest_writes cr
  | HResponse er v => ExecuteResponse_writes er v
  | HPublicKeys p => PublicKeyResponse_writes p
  | HConfig c => EnclaveConfig_writes c
  | HSetConfig c => SetConfigResponse_writes c
  end.

Definition tag_of (x : hashed) : string :=
  match x with
  | HEnclaves _ => "EnclavesList"
  | HRequest _ => "ComputeRequest"
  | HResponse _ _ => "ExecuteResponse"
  | HPublicKeys _ => "PublicKeyResponse"
  | HConfig _ => "EnclaveConfig"
  | HSetConfig _ => "SetConfigResponse"
  end.

(** The request ID of a response is a [[32]byte]. *)
Definition id_ok (x : hashed) : bool :=
  match x with HResponse er _ => Nat.eqb (length (er_RequestID er)) 32 | _ => true end.

Definition hash_of (x : hashed) : bytes := sha256 (preimage x).

(** The bytes of a preimage at offset 29, and at offset 32, that tell the kinds apart. *)
Lemma preimage_plain x :
  (forall er v, x <> HResponse er v) ->
  exists rest, preimage x = bs DomainSeparator ++ bs (nl_tag (tag_of x)) ++ rest.
Proof.
  intros Hx. destruct x; simpl;
    rewrite ?EnclavesList_writes_nf, ?ComputeRequest_writes_nf, ?PublicKeyResponse_writes_nf,
      ?EnclaveConfig_writes_nf; unfold SetConfigResponse_writes; eauto.
  by exfalso; eapply Hx.
Qed.

Lemma preimage_response er v :
  length (er_RequestID er) = 32%nat ->
  exists rest, drop 32 (preimage (HResponse er v)) = bs DomainSeparator ++ rest.
Proof.
  intros Hl. cbn [preimage]. rewrite ExecuteResponse_writes_nf.
  rewrite drop_app_length' by done. eauto.
Qed.

Lemma preimage_tag x y : id_ok x = true -> id_ok y = true -> preimage x = preimage y -> tag_of x = tag_of y.
Proof.
  intros Hx Hy E.
  assert (forall z, (exists er v, z = HResponse er v) \/ (forall er v, z <> HResponse er v)) as Hz.
  { intros []; try (right; congruence). left; eauto. }
  assert (forall z er v, length (er_RequestID er) = 32%nat ->
          preimage z = preimage (HResponse er v) -> tag_of z = "ExecuteResponse"%string) as Hmix.
  { intros z er v Hl Ez. destruct (Hz z) as [(er' & v' & ->)|Hp]; [done|].
    destruct (preimage_plain z Hp) as [r Er]. destruct (preimage_response er v Hl) as [r' Er'].
    rewrite <- Ez, Er in Er'. apply (f_equal (take 2)) in Er'.
    destruct z; try done; vm_compute in Er'; discriminate. }
  destruct (Hz x) as [(er & v & ->)|Hpx]; [symmetry; eapply Hmix; eauto; by apply Nat.eqb_eq|].
  destruct (Hz y) as [(er & v & ->)|Hpy]; [eapply Hmix; eauto; by apply Nat.eqb_eq|].
  destruct (preimage_plain x Hpx) as [r Er], (preimage_plain y Hpy) as [r' Er'].
  rewrite Er, Er' in E. apply (f_equal (take 40)) in E.
  destruct x, y; try done; vm_compute in E; discriminate.
Qed.

(** Domain separation: hashed values of different kinds (enclave lists,
    requests, execution responses, public-key responses, configurations,
    configuration acknowledgements) never share a preimage, although execution
    responses put the request ID in front of the domain separator; so an
    attestation or signature on one kind is never valid for another. *)
Theorem domain_separation x y :
  id_ok x = true -> id_ok y = true -> hash_of x = hash_of y ->
  tag_of x = tag_of y \/ collision (preimage x) (preimage y).
Proof.
  intros Hx Hy E. apply sha256_eq_or_collision in E as [E|E]; [left | by right]. by apply preimage_tag.
Qed.

Lemma payload_nf ds m :
  MakePeerIDSignatureDomainSeparatedPayload ds m =
  (repeat (byte_of_Z 0x20) 64 ++ bs peerid_context ++ [byte_of_Z 0]) ++
  lp (bs ds) ++
  (if glen m <=? shortMessageMax then byte_of_Z 0 :: lp m else byte_of_Z 1 :: sha256 m).
Proof.
  unfold MakePeerIDSignatureDomainSeparatedPayload, lp.
  destruct (_ <=? _); rewrite <- ?app_assoc; done.
Qed.

(** The signing payload is injective: equal payloads come from the same domain
    separator and the same message, or from two long messages that are a
    SHA-256 collision.  In particular a signature on one application's payload
    says nothing about another's. *)
Theorem signing_payload_binds ds ds' m m' :
  fits (bs ds) -> fits (bs ds') -> fits m -> fits m' ->
  MakePeerIDSignatureDomainSeparatedPayload ds m =
  MakePeerIDSignatureDomainSeparatedPayload ds' m' ->
  ds = ds' /\ (m = m' \/ collision m m').
Proof.
  intros Hd Hd' Hm Hm' E. rewrite !payload_nf in E. apply app_inv_head in E.
  apply lp_parse in E as [Ed E]; [|done..]. apply bs_inj in Ed. split; [done|].
  assert (byte_of_Z 0 <> byte_of_Z 1) as Hb by (vm_compute; discriminate).
  destruct (glen m <=? shortMessageMax), (glen m' <=? shortMessageMax).
  - left. apply app_inv_head with (l := [byte_of_Z 0]) in E. by apply lp_inj.
  - exfalso. apply Hb. congruence.
  - exfalso. apply Hb. congruence.
  - apply app_inv_head with (l := [byte_of_Z 1]) in E. by apply sha256_eq_or_collision.
Qed.

Lemma payload_short ds m :
  glen m <= shortMessageMax ->
  MakePeerIDSignatureDomainSeparatedPayload ds m =
  (repeat (byte_of_Z 0x20) 64 ++ bs peerid_context ++ [byte_of_Z 0]) ++
  lp (bs ds) ++ byte_of_Z 0 :: lp m.
Proof. intros Hm. rewrite payload_nf. by rewrite (proj2 (Z.leb_le _ _) Hm). Qed.

(** Signing a 32-byte hash is injective outright. *)
Lemma compute_payload_inj h h' :
  length h = 32%nat -> length h' = 32%nat -> compute_payload h = compute_payload h' -> h = h'.
Proof.
  intros Hl Hl' E. unfold compute_payload in E.
  assert (forall x : bytes, length x = 32%nat -> glen x = 32) as Hg by (unfold glen; lia).
  rewrite !payload_short in E by (rewrite Hg by done; done).
  do 2 apply app_inv_head in E. apply app_inv_head with (l := [byte_of_Z 0]) in E.
  apply lp_inj in E; [done| |]; unfold fits; rewrite Hg by done; lia.
Qed.

Lemma compute_config_payload_neq h h' : compute_payload h <> config_payload h'.
Proof.
  intros E. unfold compute_payload, config_payload in E. rewrite !payload_nf in E.
  apply app_inv_head in E. apply lp_parse in E as [E _]; [|vm_compute; done..].
  vm_compute in E. discriminate.
Qed.

(** Replace the version and the application request ID of a request. *)
Definition with_version (cr : ComputeRequest) (version appReqID : string) : ComputeRequest :=
  mkComputeRequest (RequestID cr) appReqID (PublicData cr) (Ciphertexts cr) (CiphertextNames cr)
    (EncryptedDecryptionKeyShares cr) (EnclaveEphemeralPublicKey cr) (MasterPublicKey cr)
    (AppID cr) version.

(** What the request hash leaves open: the last slot carries either the
    version or the application request ID without saying which.  Outside the
    legacy version the version is not bound at all, under the legacy version
    the application request ID is not, and a request whose application request
    ID reads as the legacy version has the hash of the legacy request. *)
Theorem request_hash_version_slot cr v v' id id' :
  v <> ServiceConfidentialComputeVersionLegacy ->
  v' <> ServiceConfidentialComputeVersionLegacy ->
  ComputeRequest_Hash (with_version cr v id) = ComputeRequest_Hash (with_version cr v' id) /\
  ComputeRequest_Hash (with_version cr ServiceConfidentialComputeVersionLegacy id) =
  ComputeRequest_Hash (with_version cr ServiceConfidentialComputeVersionLegacy id') /\
  ComputeRequest_Hash (with_version cr v ServiceConfidentialComputeVersionLegacy) =
  ComputeRequest_Hash (with_version cr ServiceConfidentialComputeVersionLegacy id).
Proof.
  intros Hv Hv'. unfold ComputeRequest_Hash, h_sum. rewrite !ComputeRequest_writes_nf.
  unfold hash_tail, with_version; simpl.
  repeat (destruct (decide _); try done).
Qed.

(** The key shares are transport data: nodes that send different shares sign the same hash. *)
Lemma request_hash_ignores_shares cr cr' :
  covered cr = covered cr' -> ComputeRequest_Hash cr = ComputeRequest_Hash cr'.
Proof.
  intros E. unfold covered in E. injection E as E1 E2 E3 E4 E5 E6 E7 E8.
  unfold ComputeRequest_Hash, h_sum. rewrite !ComputeRequest_writes_nf. congruence.
Qed.

End Binding.

(** Two enclave lists with the same hash are the same list, field by field, or
    their preimages are a SHA-256 collision. *)
Theorem enclaves_hash_binds `{Sha256} a b :
  fits a -> fits b -> Forall Enclave_ok a -> Forall Enclave_ok b ->
  EnclavesList_Hash a = EnclavesList_Hash b ->
  a = b \/ collision (EnclavesList_writes a) (EnclavesList_writes b).
Proof.
  intros ???? E. apply sha256_eq_or_collision in E as [E|E]; [left | by right].
  by apply EnclavesList_writes_inj.
Qed.

(** ** Witnesses *)

Definition zero32 : bytes := repeat (byte_of_Z 0) 32.

Definition sample_request : ComputeRequest :=
  mkComputeRequest zero32 "exec-1" (bs "data") [bs "c1"; bs "c2"] ["n1"; "n2"] [[bs "s"]; []]
    (repeat (byte_of_Z 7) 32) [] "confidential-echo@1.0.0-alpha" "1.0.0".

Definition sample_config : EnclaveConfig :=
  mkConfig [repeat (byte_of_Z 1) 32; repeat (byte_of_Z 2) 32] (bs "mpk") 3 1.

Lemma sample_request_ok : ComputeRequest_ok sample_request.
Proof. split; by_compute. Qed.

Lemma sample_config_ok : EnclaveConfig_ok sample_config.
Proof. split; by_compute. Qed.

Lemma request_hash_binds_witness :
  covered sample_request = covered (with_version sample_request "1.0.1" "exec-1") \/
  collision (H := sha256_fips) (ComputeRequest_writes sample_request)
    (ComputeRequest_writes (with_version sample_request "1.0.1" "exec-1")).
Proof.
  apply (request_hash_binds (H := sha256_fips)).
  - apply sample_request_ok.
  - split; by_compute.
  - vm_compute. reflexivity.
Defined.

Definition sample_response (att : string) : ExecuteResponse :=
  mkExecuteResponse zero32 "exec-1" zero32 (bs "out") sample_config (bs att) ∅ [].

Lemma sample_response_ok att : ExecuteResponse_ok (sample_response att).
Proof. split; try by_compute. apply sample_config_ok. Qed.

Lemma response_hash_binds_witness :
  er_bound (sample_response "a") = er_bound (sample_response "b") /\
  ("1.0.0"%string = ServiceConfidentialComputeVersionLegacy <->
   "1.0.1"%string = ServiceConfidentialComputeVersionLegacy) /\
  ("1.0.0"%string <> ServiceConfidentialComputeVersionLegacy ->
   er_ApplicationRequestID (sample_response "a") = er_ApplicationRequestID (sample_response "b"))
  \/ collision (H := sha256_fips)
       (ExecuteResponse_writes (H := sha256_fips) (sample_response "a") "1.0.0")
       (ExecuteResponse_writes (H := sha256_fips) (sample_response "b") "1.0.1")
  \/ collision (H := sha256_fips) (EnclaveConfig_writes sample_config) (EnclaveConfig_writes sample_config).
Proof.
  apply (response_hash_binds (H := sha256_fips) (sample_response "a") (sample_response "b")).
  - apply sample_response_ok.
  - apply sample_response_ok.
  - vm_compute. reflexivity.
Defined.

Definition sample_keys (att : string) : PublicKeyResponse :=
  mkPublicKeyResponse [zero32; zero32] [1000; 2000] [hour; hour] sample_config (bs att).

Lemma sample_keys_ok att : PublicKeyResponse_ok (sample_keys att).
Proof. split; try by_compute. apply sample_config_ok. Qed.

Lemma publickey_hash_binds_witness :
  (pkr_PublicKeys (sample_keys "a") = pkr_PublicKeys (sample_keys "b") /\
   pkr_CreationTimes (sample_keys "a") = pkr_CreationTimes (sample_keys "b") /\
   pkr_TTLs (sample_keys "a") = pkr_TTLs (sample_keys "b") /\
   pkr_Config (sample_keys "a") = pkr_Config (sample_keys "b"))
  \/ collision (H := sha256_fips) (PublicKeyResponse_writes (H := sha256_fips) (sample_keys "a"))
       (PublicKeyResponse_writes (H := sha256_fips) (sample_keys "b"))
  \/ collision (H := sha256_fips) (EnclaveConfig_writes sample_config) (EnclaveConfig_writes sample_config).
Proof.
  apply (publickey_hash_binds (H := sha256_fips) (sample_keys "a") (sample_keys "b")).
  - apply sample_keys_ok.
  - apply sample_keys_ok.
  - vm_compute. reflexivity.
Defined.

Lemma domain_separation_witness :
  tag_of (HResponse (sample_response "a") "1.0.0") = tag_of (HResponse (sample_response "b") "1.0.1") \/
  collision (H := sha256_fips) (preimage (H := sha256_fips) (HResponse (sample_response "a") "1.0.0"))
    (preimage (H := sha256_fips) (HResponse (sample_response "b") "1.0.1")).
Proof.
  apply (domain_separation (H := sha256_fips)).
  - reflexivity.
  - reflexivity.
  - vm_compute. reflexivity.
Defined.

Lemma signing_payload_binds_witness :
  GetConfidentialComputePayloadPrefix = GetConfidentialComputePayloadPrefix /\
  (zero32 = zero32 \/ collision (H := sha256_fips) zero32 zero32).
Proof. apply (signing_payload_binds (H := sha256_fips)); by_compute. Defined.

Lemma request_hash_version_slot_witness :
  "1.0.0"%string <> ServiceConfidentialComputeVersionLegacy /\
  ComputeRequest_Hash (H := sha256_fips)
    (with_version sample_request "1.0.0" ServiceConfidentialComputeVersionLegacy) =
  ComputeRequest_Hash (H := sha256_fips)
    (with_version sample_request ServiceConfidentialComputeVersionLegacy "exec-1").
Proof.
  split; [by_compute|].
  apply (request_hash_version_slot (H := sha256_fips) sample_request "1.0.0" "1.0.1" "exec-1" "exec-2");
    by_compute.
Defined.

Definition sample_enclave : Enclave :=
  mkEnclave zero32 "https://e1" [bs "m"] "NITRO" "key" [] "us-west-2".

Lemma enclaves_hash_binds_witness :
  [sample_enclave] = [sample_enclave] \/
  collision (H := sha256_fips) (EnclavesList_writes [sample_enclave]) (EnclavesList_writes [sample_enclave]).
Proof.
  apply (enclaves_hash_binds (H := sha256_fips)); try by_compute; try reflexivity;
    (constructor; [split; by_compute | constructor]).
Defined.
