(* ===== verification/Cache.v ===== *)
(** * Cache: the bounded expiring cache

    Models [src/util/cache.go].  [Cache] keeps its entries in a map and their
    insertion order in [keyList]; every operation runs under the cache's mutex,
    so an operation is one function of the state and of the instant at which it
    reads the clock.  The ticker goroutine only calls [garbageCollect]; it is an
    operation that may run between any two others. *)

From S2P Require Import Prelude Types.

Record CacheItem (V : Type) := mkItem {
  Value : V;
  CreationTime : Z;
  TimeToLive : Z;
}.
Arguments mkItem {V} _ _ _.
Arguments Value {V} _.
Arguments CreationTime {V} _.
Arguments TimeToLive {V} _.

Record Cache (V : Type) := mkCache {
  items : gmap bytes (CacheItem V);
  keyList : list bytes;
  timeToLive : Z;
  gcInterval : Z;
  maxEntries : Z;
}.
Arguments mkCache {V} _ _ _ _ _.
Arguments items {V} _.
Arguments keyList {V} _.
Arguments timeToLive {V} _.
Arguments gcInterval {V} _.
Arguments maxEntries {V} _.

Definition defaultGCInterval : Z := 1 * minute.
Definition evictionBatchDivisor : Z := 10.

(** ** Operations *)

Section Operations.
Context {V : Type}.
Implicit Types (c : Cache V) (key : bytes) (now : Z).

Definition NewBoundedCache (ttl gcInterval : option Z) (maxEntries : Z) : Cache V :=
  mkCache ∅ [] (default DefaultCacheTTL ttl) (default defaultGCInterval gcInterval) maxEntries.

Definition NewCache (ttl gcInterval : option Z) : Cache V := NewBoundedCache ttl gcInterval 0.

(** [time.Since(item.CreationTime) > item.TimeToLive]. *)
Definition expired now (it : CacheItem V) : bool :=
  TimeToLive it <? time_sub now (CreationTime it).

Definition with_entries c (m : gmap bytes (CacheItem V)) (l : list bytes) : Cache V :=
  mkCache m l (timeToLive c) (gcInterval c) (maxEntries c).

Definition delete_all (ks : list bytes) (m : gmap bytes (CacheItem V)) : gmap bytes (CacheItem V) :=
  fold_left (fun m k => delete k m) ks m.

Definition setLocked now c key (value : V) (ttl : option Z) : Cache V :=
  let itemTTL := default (timeToLive c) ttl in
  let item := mkItem value now itemTTL in
  let exists_ := bool_decide (is_Some (items c !! key)) in
  let items' := <[key := item]> (items c) in
  let keyList' := if exists_ then keyList c else keyList c ++ [key] in
  if (0 <? maxEntries c) && (maxEntries c <? glen keyList') then
    let evict := glen keyList' - maxEntries c + Z.quot (maxEntries c) evictionBatchDivisor in
    let evict := if glen keyList' <? evict then glen keyList' else evict in
    let items'' := delete_all (take (Z.to_nat evict) keyList') items' in
    with_entries c items'' (drop (Z.to_nat evict) keyList')
  else with_entries c items' keyList'.

Definition Set_ now c key (value : V) (ttl : option Z) : Cache V := setLocked now c key value ttl.

Definition GetOrSet now c key (value : V) (ttl : option Z) : V * bool * Cache V :=
  match items c !! key with
  | Some item =>
      if time_sub now (CreationTime item) <=? TimeToLive item then (Value item, true, c)
      else (value, false, setLocked now c key value ttl)
  | None => (value, false, setLocked now c key value ttl)
  end.

Definition Get now c key : option V :=
  match items c !! key with
  | None => None
  | Some item => if expired now item then None else Some (Value item)
  end.

(** The loop of [Delete]: remove the first occurrence and stop. *)
Fixpoint remove_first key (l : list bytes) : list bytes :=
  match l with
  | [] => []
  | k :: l' => if decide (k = key) then l' else k :: remove_first key l'
  end.

Definition Delete c key : Cache V :=
  with_entries c (delete key (items c)) (remove_first key (keyList c)).

Definition Keys c : list bytes := keyList c.

Definition Size c : Z := Z.of_nat (size (items c)).

Definition Flush c : Cache V := with_entries c ∅ [].

(** The loop of [garbageCollect], from index [i - 1] down to 0. *)
Fixpoint gc_loop now (i : nat) (m : gmap bytes (CacheItem V)) (l : list bytes) (removed : Z)
    : gmap bytes (CacheItem V) * list bytes * Z :=
  match i with
  | O => (m, l, removed)
  | S i' =>
      match l !! i' with
      | None => (m, l, removed)
      | Some key =>
          let dead := match m !! key with None => true | Some item => expired now item end in
          if dead then gc_loop now i' (delete key m) (take i' l ++ drop (S i') l) (removed + 1)
          else gc_loop now i' m l removed
      end
  end.

Definition garbageCollect now c : Z * Cache V :=
  let '(m, l, removed) := gc_loop now (length (keyList c)) (items c) (keyList c) 0 in
  (removed, with_entries c m l).

End Operations.

(** ** Invariant *)

Record cache_inv {V} (c : Cache V) : Prop := {
  inv_nodup : NoDup (keyList c);
  inv_dom : forall k, k ∈ keyList c <-> is_Some (items c !! k);
  inv_bound : 0 < maxEntries c -> glen (keyList c) <= maxEntries c;
}.

Section Lemmas.
Context {V : Type}.
Implicit Types (c : Cache V) (key k : bytes) (now : Z).

Lemma delete_all_lookup (ks : list bytes) (m : gmap bytes (CacheItem V)) k :
  delete_all ks m !! k = if decide (k ∈ ks) then None else m !! k.
Proof.
  revert m. induction ks as [|x ks IH]; intros m; unfold delete_all in *; cbn [fold_left].
  - by rewrite decide_False by apply not_elem_of_nil.
  - rewrite IH. destruct (decide (k ∈ ks)) as [Hin|Hin].
    + by rewrite decide_True by (apply elem_of_cons; auto).
    + destruct (decide (k = x)) as [->|Hne].
      * rewrite lookup_delete_eq, decide_True by (apply elem_of_cons; auto). done.
      * rewrite lookup_delete_ne, decide_False by (rewrite ?elem_of_cons; by intuition). done.
Qed.

Lemma inv_absent c key : cache_inv c -> items c !! key = None -> key ∉ keyList c.
Proof. intros Hc Hk Hin. apply (inv_dom c Hc) in Hin as [x Hx]. congruence. Qed.

Lemma inv_size c : cache_inv c -> Size c = glen (keyList c).
Proof.
  intros Hc. unfold Size, glen. f_equal.
  rewrite <- (size_dom (D := gset bytes)).
  rewrite <- (size_list_to_set (C := gset bytes) (keyList c)) by apply Hc.
  f_equal. apply set_eq. intros k.
  rewrite elem_of_dom, elem_of_list_to_set. symmetry. apply (inv_dom c Hc).
Qed.

(** The keys a [Set] drops: the oldest ones, when the cache is full and the key is new. *)
Definition evictees c key : list bytes :=
  if decide (items c !! key = None /\ 0 < maxEntries c /\ glen (keyList c) = maxEntries c)
  then take (Z.to_nat (1 + maxEntries c / evictionBatchDivisor)) (keyList c)
  else [].

Lemma take_drop_evict (l : list bytes) key n :
  (n <= length l)%nat -> take n (l ++ [key]) = take n l /\ drop n (l ++ [key]) = drop n l ++ [key].
Proof. intros Hn. by rewrite take_app_le, drop_app_le. Qed.

(** [setLocked] in closed form, on a cache that satisfies the invariant. *)
Lemma setLocked_eq now c key v ttl :
  cache_inv c ->
  setLocked now c key v ttl =
  with_entries c
    (delete_all (evictees c key) (<[key := mkItem v now (default (timeToLive c) ttl)]> (items c)))
    (if bool_decide (is_Some (items c !! key)) then keyList c
     else drop (length (evictees c key)) (keyList c) ++ [key]).
Proof.
  intros Hc. unfold setLocked, evictees.
  destruct (items c !! key) as [it|] eqn:Ek.
  - rewrite bool_decide_true by eauto. rewrite decide_False by (by intros [? _]).
    destruct ((0 <? maxEntries c) && (maxEntries c <? glen (keyList c))) eqn:Eb; [|done].
    apply andb_true_iff in Eb as [H1 H2]. apply Z.ltb_lt in H1, H2.
    pose proof (inv_bound c Hc H1). lia.
  - rewrite bool_decide_false by (intros [? ?]; congruence).
    rewrite glen_snoc.
    destruct (decide _) as [(_ & Hm & Hl)|Hn].
    + rewrite (proj2 (Z.ltb_lt _ _)) by done. rewrite (proj2 (Z.ltb_lt _ _)) by lia.
      unfold evictionBatchDivisor. rewrite Z.quot_div_nonneg by lia.
      assert (maxEntries c / 10 < maxEntries c) by (apply Z.div_lt; lia).
      assert (0 <= maxEntries c / 10) by (apply Z.div_pos; lia).
      rewrite (proj2 (Z.ltb_ge _ _)) by lia. simpl andb. cbv iota.
      replace (glen (keyList c) + 1 - maxEntries c + maxEntries c / 10)
        with (1 + maxEntries c / 10) by lia.
      assert (Z.to_nat (1 + maxEntries c / 10) <= length (keyList c))%nat
        by (unfold glen in *; lia).
      destruct (take_drop_evict (keyList c) key (Z.to_nat (1 + maxEntries c / 10))) as [-> ->]; [done|].
      by rewrite length_take_le.
    + destruct ((0 <? maxEntries c) && _) eqn:Eb; [|done].
      apply andb_true_iff in Eb as [H1 H2]. apply Z.ltb_lt in H1, H2.
      pose proof (inv_bound c Hc H1). exfalso. apply Hn. split_and!; [done..|lia].
Qed.

Lemma evictees_sub c key k : k ∈ evictees c key -> k ∈ keyList c.
Proof.
  unfold evictees. destruct (decide _); [|by rewrite elem_of_nil].
  intros H. eapply elem_of_take in H as (i & H & _). by apply list_elem_of_lookup_2 in H.
Qed.

Lemma evictees_not_key c key : cache_inv c -> key ∉ evictees c key.
Proof.
  intros Hc Hin. pose proof (evictees_sub _ _ _ Hin) as Hk.
  unfold evictees in Hin. destruct (decide _) as [(Hn & _)|]; [|by apply elem_of_nil in Hin].
  by apply (inv_absent c key Hc Hn).
Qed.

(** Nothing is dropped while there is room for all the keys that are ever used. *)
Lemma evictees_none c key (S : gset bytes) :
  cache_inv c -> (forall k, k ∈ Keys c -> k ∈ S) -> key ∈ S -> Z.of_nat (size S) <= maxEntries c -> evictees c key = [].
Proof.
  intros Hc HS Hin Hmax. unfold evictees. apply decide_False. intros (Hn & _ & Hfull).
  assert (list_to_set (key :: keyList c) ⊆ S) as Hsub.
  { intros x. rewrite elem_of_list_to_set, elem_of_cons. intros [->|Hx]; [done|]. by apply HS. }
  apply subseteq_size in Hsub. rewrite size_list_to_set in Hsub.
  - cbn in Hsub. unfold glen in Hfull. lia.
  - apply NoDup_cons. split; [|apply Hc]. by apply inv_absent.
Qed.

Lemma evictees_prefix c key :
  keyList c = evictees c key ++ drop (length (evictees c key)) (keyList c).
Proof.
  unfold evictees. destruct (decide _) as [(_ & Hm & Hl)|]; [|done].
  rewrite length_take. symmetry.
  destruct (le_gt_dec (Z.to_nat (1 + maxEntries c / evictionBatchDivisor)) (length (keyList c))).
  - rewrite Nat.min_l by done. apply take_drop.
  - rewrite Nat.min_r by lia. rewrite take_ge, drop_all by lia. apply app_nil_r.
Qed.

(** What [Set] does to every key. *)
Lemma setLocked_lookup now c key v ttl k :
  cache_inv c ->
  items (setLocked now c key v ttl) !! k =
  if decide (k = key) then Some (mkItem v now (default (timeToLive c) ttl))
  else if decide (k ∈ evictees c key) then None else items c !! k.
Proof.
  intros Hc. rewrite setLocked_eq by done. cbn [items with_entries].
  rewrite delete_all_lookup. destruct (decide (k = key)) as [->|Hne].
  - rewrite decide_False by (by apply evictees_not_key). by rewrite lookup_insert_eq.
  - by rewrite lookup_insert_ne.
Qed.

Lemma setLocked_max now c key v ttl : cache_inv c -> maxEntries (setLocked now c key v ttl) = maxEntries c.
Proof. intros Hc. by rewrite setLocked_eq. Qed.

Lemma setLocked_inv now c key v ttl : cache_inv c -> cache_inv (setLocked now c key v ttl).
Proof.
  intros Hc. pose proof (setLocked_lookup now c key v ttl) as Hlk.
  pose proof (evictees_prefix c key) as Hp. pose proof (inv_nodup c Hc) as Hnd.
  rewrite Hp in Hnd. apply NoDup_app in Hnd as (Hnd1 & Hdis & Hnd2).
  split.
  - rewrite setLocked_eq by done. cbn [keyList with_entries].
    destruct (bool_decide_reflect (is_Some (items c !! key))) as [Hs|Hn]; [apply Hc|].
    apply NoDup_app. split_and!; [done| |apply NoDup_singleton].
    intros k Hk ->%list_elem_of_singleton. apply eq_None_not_Some in Hn.
    apply (inv_absent c key Hc Hn). rewrite Hp. apply elem_of_app. by right.
  - intros k. rewrite Hlk by done. rewrite setLocked_eq by done. cbn [keyList with_entries].
    destruct (bool_decide_reflect (is_Some (items c !! key))) as [Hs|Hn].
    + assert (evictees c key = []) as ->.
      { unfold evictees. rewrite decide_False; [done|]. intros [? _]. destruct Hs. congruence. }
      rewrite (inv_dom c Hc). rewrite (decide_False (P := k ∈ [])) by apply not_elem_of_nil.
      destruct (decide (k = key)) as [->|]; [|done]. split; eauto.
    + rewrite elem_of_app, list_elem_of_singleton.
      destruct (decide (k = key)) as [->|Hne]; [split; eauto|].
      destruct (decide (k ∈ evictees c key)) as [He|He].
      * split; [|by intros [? ?]]. intros [H|H]; [|done]. by destruct (Hdis k He).
      * rewrite <- (inv_dom c Hc). rewrite Hp at 2. rewrite elem_of_app. tauto.
  - rewrite setLocked_max by done. intros Hm. pose proof (inv_bound c Hc Hm) as Hb.
    rewrite setLocked_eq by done. cbn [keyList with_entries].
    destruct (bool_decide_reflect (is_Some (items c !! key))) as [Hs|Hn]; [done|].
    apply eq_None_not_Some in Hn.
    rewrite glen_snoc. unfold glen in *. rewrite length_drop.
    destruct (decide (glen (keyList c) = maxEntries c)) as [Hfull|]; [|unfold glen in *; lia].
    unfold evictees. rewrite decide_True by done.
    assert (0 <= maxEntries c / evictionBatchDivisor) by (apply Z.div_pos; unfold evictionBatchDivisor; lia).
    rewrite length_take. unfold glen in *. lia.
Qed.

Lemma remove_first_elem key l k : NoDup l -> (k ∈ remove_first key l <-> k ∈ l /\ k <> key).
Proof.
  induction l as [|x l IH]; intros Hnd; simpl.
  - rewrite elem_of_nil. tauto.
  - apply NoDup_cons in Hnd as [Hx Hnd]. destruct (decide (x = key)) as [->|Hne].
    + rewrite elem_of_cons. split; [intros H; split; [by right | by intros ->] | intros [[->|H] Hk]; done].
    + rewrite !elem_of_cons, (IH Hnd). split; [|tauto]. intros [->|[? ?]]; auto.
Qed.

Lemma remove_first_sublist key l : sublist (remove_first key l) l.
Proof. induction l as [|x l IH]; simpl; [constructor|]. destruct (decide _); by constructor. Qed.

Lemma remove_first_length key l : (length (remove_first key l) <= length l)%nat.
Proof. apply sublist_length, remove_first_sublist. Qed.

Lemma Delete_inv c key : cache_inv c -> cache_inv (Delete c key).
Proof.
  intros Hc. split; cbn [keyList items maxEntries Delete with_entries].
  - eapply sublist_NoDup; [apply Hc | apply remove_first_sublist].
  - intros k. rewrite remove_first_elem by apply Hc. rewrite (inv_dom c Hc).
    destruct (decide (k = key)) as [->|Hne].
    + rewrite lookup_delete_eq. split; [tauto | by intros [? ?]].
    + rewrite lookup_delete_ne by done. tauto.
  - intros Hm. pose proof (inv_bound c Hc Hm). pose proof (remove_first_length key (keyList c)).
    unfold glen in *. lia.
Qed.

Lemma Flush_inv c : cache_inv (Flush c).
Proof.
  split; cbn [keyList items maxEntries Flush with_entries].
  - constructor.
  - intros k. rewrite elem_of_nil, lookup_empty. split; [done | by intros [? ?]].
  - unfold glen. simpl. lia.
Qed.

Lemma New_inv ttl gc n : cache_inv (NewBoundedCache (V := V) ttl gc n).
Proof. apply (Flush_inv (NewBoundedCache ttl gc n)). Qed.

Lemma New_lookup ttl gc n k : items (NewBoundedCache (V := V) ttl gc n) !! k = None.
Proof. apply lookup_empty. Qed.

(** ** Garbage collection against its specification: keep the unexpired entries *)

Definition live now (m : gmap bytes (CacheItem V)) (k : bytes) : bool :=
  match m !! k with Some it => negb (expired now it) | None => false end.

Lemma drop_app_cons_length {A} (l1 l2 : list A) (x : A) : drop (S (length l1)) (l1 ++ x :: l2) = l2.
Proof. induction l1; [done|]. simpl. done. Qed.

Lemma gc_loop_spec now l1 : forall l2 m r,
  NoDup (l1 ++ l2) ->
  gc_loop now (length l1) m (l1 ++ l2) r =
  (delete_all (List.filter (fun k => negb (live now m k)) l1) m,
   List.filter (live now m) l1 ++ l2,
   r + glen (List.filter (fun k => negb (live now m k)) l1)).
Proof.
  induction l1 as [|k l1 IH] using rev_ind; intros l2 m r Hnd.
  - simpl. unfold glen. simpl. by rewrite Z.add_0_r.
  - rewrite length_app, Nat.add_comm, <- app_assoc. cbn [length plus gc_loop app].
    rewrite <- app_assoc in Hnd. cbn [app] in Hnd.
    rewrite list_lookup_middle by done.
    assert (Hk : (k ∉ l1) /\ NoDup (l1 ++ l2)).
    { rewrite NoDup_app in Hnd. destruct Hnd as (H1 & H2 & H3). apply NoDup_cons in H3 as [H3 H4].
      split; [intros Hin; apply (H2 k Hin); apply elem_of_cons; auto|].
      apply NoDup_app. split_and!; [done| |done]. intros x Hx Hx2. apply (H2 x Hx); apply elem_of_cons; auto. }
    destruct Hk as [Hk Hnd2].
    assert (Hdel : forall f : bool -> bool, List.filter (fun x => f (live now (delete k m) x)) l1 =
                   List.filter (fun x => f (live now m x)) l1).
    { intros f. clear -Hk. induction l1 as [|y l1 IH]; [done|]. cbn [List.filter].
      apply not_elem_of_cons in Hk as [Hy Hk]. rewrite (IH Hk).
      unfold live at 1 3. by rewrite lookup_delete_ne. }
    replace (match m !! k with Some item => expired now item | None => true end)
      with (negb (live now m k)) by (unfold live; destruct (m !! k); [apply negb_involutive | done]).
    rewrite !List.filter_app. cbn [List.filter]. destruct (live now m k); cbn [negb].
    + rewrite IH by done. rewrite <- app_assoc, !app_nil_r. done.
    + rewrite take_app_length, drop_app_cons_length, IH by done.
      assert (List.filter (live now (delete k m)) l1 = List.filter (live now m) l1) as ->
        by exact (Hdel (fun b => b)).
      rewrite (Hdel negb), app_nil_r, glen_snoc.
      f_equal; [f_equal|lia]. apply map_eq. intros x. rewrite !delete_all_lookup.
      assert (x ∈ List.filter (fun y => negb (live now m y)) l1 ++ [k] <->
              x ∈ List.filter (fun y => negb (live now m y)) l1 \/ x = k) as Hx
        by (rewrite elem_of_app, list_elem_of_singleton; done).
      destruct (decide (x = k)) as [->|Hxk].
      * rewrite lookup_delete_eq, (decide_True (P := k ∈ _ ++ [k])) by tauto. by destruct (decide _).
      * rewrite lookup_delete_ne by done. do 2 destruct (decide _); tauto.
Qed.

Lemma garbageCollect_eq now c :
  cache_inv c ->
  garbageCollect now c =
  (glen (List.filter (fun k => negb (live now (items c) k)) (keyList c)),
   with_entries c
     (delete_all (List.filter (fun k => negb (live now (items c) k)) (keyList c)) (items c))
     (List.filter (live now (items c)) (keyList c))).
Proof.
  intros Hc. unfold garbageCollect.
  pose proof (gc_loop_spec now (keyList c) [] (items c) 0) as H. rewrite !app_nil_r in H.
  rewrite H by apply Hc. by rewrite Z.add_0_l.
Qed.

Lemma elem_of_filter_bool {A} (f : A -> bool) (l : list A) x :
  x ∈ List.filter f l <-> x ∈ l /\ f x = true.
Proof. rewrite !list_elem_of_In. apply filter_In. Qed.

Lemma gc_lookup now c k :
  cache_inv c ->
  items (garbageCollect now c).2 !! k =
  match items c !! k with
  | Some it => if expired now it then None else Some it
  | None => None
  end.
Proof.
  intros Hc. rewrite garbageCollect_eq by done. cbn [snd items with_entries].
  rewrite delete_all_lookup. destruct (decide _) as [Hd|Hd]; rewrite elem_of_filter_bool in Hd;
    unfold live in Hd; destruct (items c !! k) as [it|] eqn:E; try done.
  - destruct Hd as [_ Hd]. by destruct (expired now it).
  - destruct (expired now it); [|done]. exfalso. apply Hd. split; [|done].
    apply (inv_dom c Hc). eauto.
Qed.

Lemma gc_inv now c : cache_inv c -> cache_inv (garbageCollect now c).2.
Proof.
  intros Hc. split.
  - rewrite garbageCollect_eq by done. apply NoDup_ListNoDup, List.NoDup_filter, NoDup_ListNoDup, Hc.
  - intros k. rewrite gc_lookup by done. rewrite garbageCollect_eq by done.
    cbn [snd keyList with_entries]. rewrite elem_of_filter_bool. unfold live.
    rewrite (inv_dom c Hc). destruct (items c !! k) as [it|]; [|split; [by intros [_ ?]|by intros [? ?]]].
    destruct (expired now it); simpl; split; eauto; [by intros [_ ?] | by intros [? ?]].
  - rewrite garbageCollect_eq by done. cbn [snd keyList maxEntries with_entries]. intros Hm.
    pose proof (inv_bound c Hc Hm). unfold glen in *.
    pose proof (List.filter_length_le (live now (items c)) (keyList c)). lia.
Qed.

Lemma GetOrSet_spec now c key v ttl :
  GetOrSet now c key v ttl =
  match Get now c key with
  | Some w => (w, true, c)
  | None => (v, false, setLocked now c key v ttl)
  end.
Proof.
  unfold GetOrSet, Get, expired. destruct (items c !! key) as [it|]; [|done].
  destruct (Z.ltb_spec (TimeToLive it) (time_sub now (CreationTime it))),
    (Z.leb_spec (time_sub now (CreationTime it)) (TimeToLive it)); done || lia.
Qed.

Lemma expired_mono now now' (it : CacheItem V) :
  now <= now' -> expired now it = true -> expired now' it = true.
Proof.
  unfold expired. rewrite !Z.ltb_lt. intros H.
  pose proof (time_sub_mono now now' (CreationTime it) H). lia.
Qed.

(** Get after Set, on every key. *)
Lemma Get_Set now now' c key v ttl k :
  cache_inv c ->
  Get now' (Set_ now c key v ttl) k =
  if decide (k = key) then
    (if default (timeToLive c) ttl <? time_sub now' now then None else Some v)
  else if decide (k ∈ evictees c key) then None else Get now' c k.
Proof.
  intros Hc. unfold Get, Set_. rewrite setLocked_lookup by done.
  destruct (decide (k = key)); [done|]. by destruct (decide _).
Qed.

Lemma Get_Delete now c key k :
  Get now (Delete c key) k = if decide (k = key) then None else Get now c k.
Proof.
  unfold Get, Delete. cbn [items with_entries]. destruct (decide (k = key)) as [->|].
  - by rewrite lookup_delete_eq.
  - by rewrite lookup_delete_ne.
Qed.

Lemma Get_gc now now' c k :
  cache_inv c -> now <= now' -> Get now' (garbageCollect now c).2 k = Get now' c k.
Proof.
  intros Hc Hle. unfold Get. rewrite gc_lookup by done.
  destruct (items c !! k) as [it|]; [|done]. destruct (expired now it) eqn:E; [|done].
  by rewrite (expired_mono now now' it Hle E).
Qed.

Lemma Get_Some_Keys now c k v : cache_inv c -> Get now c k = Some v -> k ∈ Keys c.
Proof.
  unfold Get. intros Hc H. apply (inv_dom c Hc). destruct (items c !! k); [eauto|done].
Qed.
End Lemmas.

Create HintDb cc_cache.
#[export] Hint Resolve setLocked_inv Delete_inv Flush_inv New_inv gc_inv : cc_cache.

Lemma GetOrSet_inv {V} now (c : Cache V) key v ttl :
  cache_inv c -> cache_inv (GetOrSet now c key v ttl).2.
Proof. intros Hc. rewrite GetOrSet_spec. destruct (Get now c key); simpl; auto with cc_cache. Qed.
#[export] Hint Resolve GetOrSet_inv : cc_cache.

(** ** Histories of operations *)

Inductive cache_op (V : Type) :=
| OGet (key : bytes)
| OSet (key : bytes) (v : V) (ttl : option Z)
| OGetOrSet (key : bytes) (v : V) (ttl : option Z)
| ODelete (key : bytes)
| OFlush
| OCollect.
Arguments OGet {V} _.
Arguments OSet {V} _ _ _.
Arguments OGetOrSet {V} _ _ _.
Arguments ODelete {V} _.
Arguments OFlush {V}.
Arguments OCollect {V}.

(** What the caller of an operation sees. *)
Inductive cache_out (V : Type) :=
| RGet (v : option V)
| RGetOrSet (v : V) (loaded : bool)
| RNone.
Arguments RGet {V} _.
Arguments RGetOrSet {V} _ _.
Arguments RNone {V}.

Section Histories.
Context {V : Type}.

Definition cache_step (c : Cache V) (o : Z * cache_op V) : Cache V * cache_out V :=
  let '(now, op) := o in
  match op with
  | OGet k => (c, RGet (Get now c k))
  | OSet k v ttl => (Set_ now c k v ttl, RNone)
  | OGetOrSet k v ttl => let '(w, loaded, c') := GetOrSet now c k v ttl in (c', RGetOrSet w loaded)
  | ODelete k => (Delete c k, RNone)
  | OFlush => (Flush c, RNone)
  | OCollect => ((garbageCollect now c).2, RNone)
  end.

Fixpoint cache_run (c : Cache V) (ops : list (Z * cache_op V)) : Cache V * list (cache_out V) :=
  match ops with
  | [] => (c, [])
  | o :: ops' => let '(c', r) := cache_step c o in
                 let '(c'', rs) := cache_run c' ops' in (c'', r :: rs)
  end.

Lemma cache_step_inv c o : cache_inv c -> cache_inv (cache_step c o).1.
Proof.
  intros Hc. destruct o as [now []]; simpl; auto with cc_cache.
  pose proof (GetOrSet_inv now c key v ttl Hc). by destruct (GetOrSet now c key v ttl) as [[w l] c'].
Qed.

Lemma cache_step_max c o : cache_inv c -> maxEntries (cache_step c o).1 = maxEntries c.
Proof.
  intros Hc. destruct o as [now []]; simpl; try done; [by apply setLocked_max| |].
  - rewrite GetOrSet_spec. destruct (Get now c key); [done|]. simpl. by apply setLocked_max.
  - by rewrite garbageCollect_eq.
Qed.

Lemma cache_run_inv ops : forall c, cache_inv c ->
  cache_inv (cache_run c ops).1 /\ maxEntries (cache_run c ops).1 = maxEntries c.
Proof.
  induction ops as [|o ops IH]; intros c Hc; [done|]. simpl.
  pose proof (cache_step_inv c o Hc) as Hi. pose proof (cache_step_max c o Hc) as Hm.
  destruct (cache_step c o) as [c' r]. specialize (IH c' Hi).
  destruct (cache_run c' ops) as [c'' rs]. simpl in *. destruct IH as [H1 H2]. split; [done | congruence].
Qed.

(** After any history of operations on a fresh cache, the key list has no
    duplicates, holds exactly the stored keys, agrees with [Size], and a
    bounded cache never holds more than [maxEntries] entries. *)
Theorem cache_invariant ttl gc n ops :
  let c := (cache_run (NewBoundedCache ttl gc n) ops).1 in
  NoDup (Keys c) /\ (forall k, k ∈ Keys c <-> is_Some (items c !! k)) /\
  Size c = glen (Keys c) /\ (0 < n -> Size c <= n).
Proof.
  intros c. destruct (cache_run_inv ops (NewBoundedCache ttl gc n) (New_inv ttl gc n)) as [Hi Hm].
  fold c in Hi, Hm. split; [apply Hi|]. split; [apply Hi|]. split; [by apply inv_size|].
  intros Hn. rewrite inv_size by done. pose proof (inv_bound c Hi) as Hb.
  rewrite Hm in Hb. by apply Hb.
Qed.

(** ** Refinement: an unbounded cache is an expiring map

    The specification keeps only the map of entries: no key list, and
    collection does nothing. *)

Definition spec_state : Type := Z * gmap bytes (CacheItem V).

Definition spec_get (now : Z) (m : gmap bytes (CacheItem V)) (k : bytes) : option V :=
  match m !! k with
  | Some it => if expired now it then None else Some (Value it)
  | None => None
  end.

Definition spec_step (s : spec_state) (o : Z * cache_op V) : spec_state * cache_out V :=
  let '(dttl, m) := s in
  let '(now, op) := o in
  let put k v ttl := (dttl, <[k := mkItem v now (default dttl ttl)]> m) in
  match op with
  | OGet k => (s, RGet (spec_get now m k))
  | OSet k v ttl => (put k v ttl, RNone)
  | OGetOrSet k v ttl =>
      match spec_get now m k with
      | Some w => (s, RGetOrSet w true)
      | None => (put k v ttl, RGetOrSet v false)
      end
  | ODelete k => ((dttl, delete k m), RNone)
  | OFlush => ((dttl, ∅), RNone)
  | OCollect => (s, RNone)
  end.

Fixpoint spec_run (s : spec_state) (ops : list (Z * cache_op V)) : list (cache_out V) :=
  match ops with
  | [] => []
  | o :: ops' => let '(s', r) := spec_step s o in r :: spec_run s' ops'
  end.

(** The clock read by successive operations does not go back. *)
Fixpoint clock_from (t : Z) (ops : list (Z * cache_op V)) : Prop :=
  match ops with
  | [] => True
  | (now, _) :: ops' => t <= now /\ clock_from now ops'
  end.

(** Simulation relation: from [t] on, both sides answer [Get] alike. *)
Record sim (t : Z) (c : Cache V) (s : spec_state) : Prop := {
  sim_inv : cache_inv c;
  sim_unbounded : maxEntries c <= 0;
  sim_ttl : s.1 = timeToLive c;
  sim_get : forall t' k, t <= t' -> Get t' c k = spec_get t' s.2 k;
}.

Lemma evictees_unbounded (c : Cache V) k : maxEntries c <= 0 -> evictees c k = [].
Proof. intros H. unfold evictees. rewrite decide_False; [done | lia]. Qed.

Lemma sim_set t now c dttl m k v ttl :
  t <= now -> sim t c (dttl, m) ->
  sim now (setLocked now c k v ttl) (dttl, <[k := mkItem v now (default dttl ttl)]> m).
Proof.
  intros Hle [Hi Hu Ht Hg]. cbn [fst snd] in *. split; cbn [fst snd].
  - by apply setLocked_inv.
  - by rewrite setLocked_max.
  - by rewrite setLocked_eq.
  - intros t' k' Ht'. pose proof (Get_Set now t' c k v ttl k' Hi) as E. unfold Set_ in E. rewrite E.
    rewrite evictees_unbounded, (decide_False (P := k' ∈ [])) by (done || apply not_elem_of_nil).
    unfold spec_get. destruct (decide (k' = k)) as [->|Hne].
    + by rewrite lookup_insert_eq, Ht.
    + rewrite lookup_insert_ne by done. apply Hg. lia.
Qed.

Lemma sim_step t now op c s :
  t <= now -> sim t c s ->
  sim now (cache_step c (now, op)).1 (spec_step s (now, op)).1 /\
  (cache_step c (now, op)).2 = (spec_step s (now, op)).2.
Proof.
  intros Hle Hs. assert (sim now c s) as Hs'.
  { destruct Hs as [Hi Hu Ht Hg]. split; [done..|]. intros. apply Hg. lia. }
  destruct s as [dttl m]. destruct op as [k|k v ttl|k v ttl|k| |]; cbn [cache_step spec_step fst snd].
  - split; [done|]. f_equal. by apply (sim_get _ _ _ Hs').
  - split; [by eapply sim_set | done].
  - rewrite GetOrSet_spec, (sim_get _ _ _ Hs' now k) by lia. cbn [snd].
    destruct (spec_get now m k); split; try done; by eapply sim_set.
  - split; [|done]. destruct Hs' as [Hi Hu Ht Hg]. split; try done; [by apply Delete_inv|].
    intros t' k' Ht'. rewrite Get_Delete, Hg by done. cbn [snd]. unfold spec_get.
    destruct (decide (k' = k)) as [->|]; [by rewrite lookup_delete_eq | by rewrite lookup_delete_ne].
  - split; [|done]. destruct Hs' as [Hi Hu Ht Hg]. split; try done. apply Flush_inv.
  - split; [|done]. destruct Hs' as [Hi Hu Ht Hg]. split; [by apply gc_inv| | |].
    + by rewrite garbageCollect_eq.
    + by rewrite garbageCollect_eq.
    + intros t' k' Ht'. rewrite Get_gc by done. by apply Hg.
Qed.

Lemma sim_run ops : forall t c s, sim t c s -> clock_from t ops ->
  (cache_run c ops).2 = spec_run s ops.
Proof.
  induction ops as [|[now op] ops IH]; intros t c s Hs Hclk; [done|].
  destruct Hclk as [Hle Hclk]. cbn [cache_run spec_run].
  destruct (sim_step t now op c s Hle Hs) as [Hs' Hr].
  destruct (cache_step c (now, op)) as [c' r], (spec_step s (now, op)) as [s' r'].
  simpl in Hs', Hr. subst r'. specialize (IH now c' s' Hs' Hclk).
  destruct (cache_run c' ops) as [c'' rs]. simpl in *. by rewrite IH.
Qed.

(** C19 Refinement: whatever the history of operations and whenever collections
    run in between, an unbounded cache ([NewCache]) gives the answers of an
    expiring map, as long as the clock does not go back. *)
Theorem cache_refines_map ttl gc t ops :
  clock_from t ops ->
  (cache_run (NewCache ttl gc) ops).2 = spec_run (default DefaultCacheTTL ttl, ∅) ops.
Proof.
  intros Hclk. apply (sim_run ops t); [|done]. split; [apply New_inv|done|done|].
  intros t' k _. unfold Get, spec_get. simpl. by rewrite !lookup_empty.
Qed.

(** Setting a key makes it readable for its lifetime; the other keys keep
    their answers, except the evicted ones, which are the oldest-inserted keys:
    none unless the key is new and the cache full, and then exactly one more
    than a tenth of the capacity. *)
Theorem set_evicts_oldest now now' ttl c key (v : V) k :
  cache_inv c ->
  Get now' (Set_ now c key v ttl) key =
    (if default (timeToLive c) ttl <? time_sub now' now then None else Some v) /\
  (exists kept, Keys c = evictees c key ++ kept) /\
  (evictees c key <> [] -> items c !! key = None /\ Size c = maxEntries c /\
     glen (evictees c key) = 1 + maxEntries c / evictionBatchDivisor) /\
  (k <> key -> Get now' (Set_ now c key v ttl) k =
     if decide (k ∈ evictees c key) then None else Get now' c k).
Proof.
  intros Hc. split; [|split; [|split]].
  - rewrite Get_Set by done. by rewrite decide_True.
  - eexists. apply evictees_prefix.
  - unfold evictees. destruct (decide _) as [(Hn & Hm & Hl)|]; [|done]. intros _.
    rewrite inv_size by done. split; [done|]. split; [done|].
    assert (maxEntries c / evictionBatchDivisor < maxEntries c) by (apply Z.div_lt; done).
    assert (0 <= maxEntries c / evictionBatchDivisor) by (apply Z.div_pos; unfold evictionBatchDivisor; lia).
    unfold glen in *. rewrite length_take. lia.
  - intros Hne. rewrite Get_Set by done. by rewrite decide_False.
Qed.
End Histories.

(** ** Witnesses *)

Definition sample_key (z : Z) : bytes := repeat (byte_of_Z z) 32.

Lemma cache_refines_map_witness :
  (cache_run (NewCache (Some 10) None)
     [(0, OSet (sample_key 1) 7 None); (5, OCollect); (6, OGetOrSet (sample_key 1) 8 None);
      (20, OCollect); (20, OGet (sample_key 1))]).2 =
  spec_run (10, ∅)
     [(0, OSet (sample_key 1) 7 None); (5, OCollect); (6, OGetOrSet (sample_key 1) 8 None);
      (20, OCollect); (20, OGet (sample_key 1))].
Proof. apply (cache_refines_map (Some 10) None 0). simpl. lia. Defined.

(** A cache of capacity 2 that is full: the third key evicts the first. *)
Definition full_cache : Cache Z :=
  (cache_run (NewBoundedCache (Some 10) None 2)
     [(0, OSet (sample_key 1) 1 None); (1, OSet (sample_key 2) 2 None)]).1.

Lemma full_cache_inv : cache_inv full_cache.
Proof. apply (cache_run_inv (V := Z)). apply New_inv. Qed.

Lemma set_evicts_oldest_witness :
  evictees full_cache (sample_key 3) = [sample_key 1] /\
  (sample_key 2 <> sample_key 3 ->
   Get 5 (Set_ 4 full_cache (sample_key 3) 3 None) (sample_key 2) =
   if decide (sample_key 2 ∈ evictees full_cache (sample_key 3)) then None
   else Get 5 full_cache (sample_key 2)).
Proof.
  split; [vm_compute; reflexivity|].
  apply (set_evicts_oldest 4 5 None full_cache (sample_key 3) 3 (sample_key 2)).
  apply full_cache_inv.
Defined.
