(* ===== verification/Keychain.v ===== *)
(** * Keychain: ephemeral box keypairs and their pinning to requests

    Models [src/enclave/services/keychain/box_keychain.go] on top of [Cache].
    NaCl box ([golang.org/x/crypto/nacl/box]) is not part of the sources: opening
    a sealed box is a parameter of [Decrypt], and a key generation is an input
    of [CreateKeyPair] (the keypair, or the failure of the random source).

    [GetKeyPairForRequest] runs concurrently with other calls, with rotation and
    with garbage collection, and only its cache operations are atomic.  It is
    written as a program of atomic steps, [gk_step]; the sequential call is the
    iteration of the steps, and [kstep] interleaves the steps of any number of
    calls with the other operations. *)

From S2P Require Import Prelude Types Cache.

Record boxKeypair := mkKeypair {
  publicKey : bytes;
  privateKey : bytes;
  kp_ttl : Z;
  creationTime : Z;
}.

#[export] Instance boxKeypair_eq_decision : EqDecision boxKeypair.
Proof. solve_decision. Defined.

Record boxKeychain := mkKeychain {
  keypairCache : Cache boxKeypair;
  requestKeyMap : Cache bytes;
  rotationFrequency : Z;
  expiration : Z;
}.

Inductive keychain_error :=
| KeypairExpired
| DecryptionFailed
| InvalidPublicKeyLength (n : Z)
| KeypairNotFound
| NoKeypairs
| MappedKeypairExpired (requestID : bytes)
| GenerateFailed
| DeleteNotImplemented.

Definition garbageCollectionInterval : Z := 30 * second.
Definition requestKeyMapTTL : Z := 1 * hour.

Definition NewBoxKeychain (rotationFrequencyOverride expirationOverride gcIntervalOverride : option Z)
    : boxKeychain :=
  let rotFreq := default DefaultKeypairRotationFrequency rotationFrequencyOverride in
  let exp := default DefaultKeypairExpiration expirationOverride in
  let gcInterval := default garbageCollectionInterval gcIntervalOverride in
  mkKeychain (NewCache (Some exp) (Some gcInterval))
    (NewBoundedCache (Some requestKeyMapTTL) (Some gcInterval) MaxRequestKeyMapEntries)
    rotFreq exp.

(** [[32]byte(publicKey)]: the first 32 bytes. *)
Definition getKeyID (pk : bytes) : bytes := take 32 pk.

(** ** Keypair *)

Definition Decrypt (OpenAnonymous : bytes -> bytes -> bytes -> option bytes)
    (now : Z) (kp : boxKeypair) (ciphertext : bytes) : result keychain_error bytes :=
  if creationTime kp + kp_ttl kp <? now then Err KeypairExpired
  else match OpenAnonymous ciphertext (publicKey kp) (privateKey kp) with
       | Some decrypted => Ok decrypted
       | None => Err DecryptionFailed
       end.

(** ** Keychain operations *)

Definition generateKeypair (now : Z) (skc : boxKeychain) (gen : option (bytes * bytes))
    : result keychain_error boxKeypair :=
  match gen with
  | None => Err GenerateFailed
  | Some (pub, priv) => Ok (mkKeypair pub priv (expiration skc) now)
  end.

Definition CreateKeyPair (now : Z) (skc : boxKeychain) (gen : option (bytes * bytes))
    : result keychain_error boxKeypair * boxKeychain :=
  match generateKeypair now skc gen with
  | Err e => (Err e, skc)
  | Ok newKey =>
      (Ok newKey,
       mkKeychain (Set_ now (keypairCache skc) (getKeyID (publicKey newKey)) newKey None)
         (requestKeyMap skc) (rotationFrequency skc) (expiration skc))
  end.

Definition GetKeyPair (now : Z) (skc : boxKeychain) (pk : bytes) : result keychain_error boxKeypair :=
  if negb (glen pk =? 32) then Err (InvalidPublicKeyLength (glen pk))
  else match Get now (keypairCache skc) (getKeyID pk) with
       | None => Err KeypairNotFound
       | Some key => Ok key
       end.

Definition GetKeyPairs (now : Z) (skc : boxKeychain) : list boxKeypair :=
  omap (Get now (keypairCache skc)) (Keys (keypairCache skc)).

(** The loop that keeps the keypair with the latest creation time. *)
Definition newest_step (newest : option boxKeypair) (kp : boxKeypair) : option boxKeypair :=
  match newest with
  | None => Some kp
  | Some n => if creationTime n <? creationTime kp then Some kp else newest
  end.

Definition newest_of (keypairs : list boxKeypair) : option boxKeypair :=
  fold_left newest_step keypairs None.

Definition DeleteKeyPair (pk : bytes) : result keychain_error unit := Err DeleteNotImplemented.

Definition set_requestKeyMap (skc : boxKeychain) (m : Cache bytes) : boxKeychain :=
  mkKeychain (keypairCache skc) m (rotationFrequency skc) (expiration skc).

(** One turn of the sweep loop, and the sweep. *)
Definition sweep_one (now : Z) (skc : boxKeychain) (requestID : bytes) : boxKeychain :=
  match Get now (requestKeyMap skc) requestID with
  | Some pk =>
      match Get now (keypairCache skc) pk with
      | Some _ => skc
      | None => set_requestKeyMap skc (Delete (requestKeyMap skc) requestID)
      end
  | None => skc
  end.

Definition sweepRequestKeyMap (now : Z) (skc : boxKeychain) : boxKeychain :=
  fold_left (sweep_one now) (Keys (requestKeyMap skc)) skc.

(** One tick of the rotation loop; a failed generation panics. *)
Definition rotation_tick (now : Z) (skc : boxKeychain) (gen : option (bytes * bytes))
    : option boxKeychain :=
  match CreateKeyPair now skc gen with
  | (Err _, _) => None
  | (Ok _, skc') => Some (sweepRequestKeyMap now skc')
  end.

(** [GetKeyPairForRequest] when nothing runs in between, at one instant. *)
Definition GetKeyPairForRequest (now : Z) (skc : boxKeychain) (requestID : bytes)
    : result keychain_error boxKeypair * boxKeychain :=
  match Get now (requestKeyMap skc) requestID with
  | Some keyID =>
      match Get now (keypairCache skc) keyID with
      | Some kp => (Ok kp, skc)
      | None => (Err (MappedKeypairExpired requestID),
                 set_requestKeyMap skc (Delete (requestKeyMap skc) requestID))
      end
  | None =>
      match newest_of (GetKeyPairs now skc) with
      | None => (Err NoKeypairs, skc)
      | Some newest =>
          let '(keyID, loaded, m) :=
            GetOrSet now (requestKeyMap skc) requestID (getKeyID (publicKey newest)) None in
          let skc' := set_requestKeyMap skc m in
          if loaded then
            match Get now (keypairCache skc') keyID with
            | Some kp => (Ok kp, skc')
            | None => (Err (MappedKeypairExpired requestID),
                       set_requestKeyMap skc' (Delete (requestKeyMap skc') requestID))
            end
          else (Ok newest, skc')
      end
  end.

(** ** [GetKeyPairForRequest] as a program of atomic steps *)

Inductive gk_pc :=
| GStart                                    (* about to read the mapping *)
| GMapped (keyID : bytes)                   (* a mapping was read: fetch its keypair *)
| GUnmap                                    (* its keypair is gone: drop the mapping *)
| GKeys                                     (* no mapping: list the keypairs *)
| GScan (todo : list bytes) (keypairs : list boxKeypair)
| GPin (newest : boxKeypair)                (* GetOrSet of the newest keypair *)
| GDone (r : result keychain_error boxKeypair).

Definition gk_step (now : Z) (requestID : bytes) (skc : boxKeychain) (pc : gk_pc) : boxKeychain * gk_pc :=
  match pc with
  | GStart =>
      match Get now (requestKeyMap skc) requestID with
      | Some keyID => (skc, GMapped keyID)
      | None => (skc, GKeys)
      end
  | GMapped keyID =>
      match Get now (keypairCache skc) keyID with
      | Some kp => (skc, GDone (Ok kp))
      | None => (skc, GUnmap)
      end
  | GUnmap =>
      (set_requestKeyMap skc (Delete (requestKeyMap skc) requestID),
       GDone (Err (MappedKeypairExpired requestID)))
  | GKeys => (skc, GScan (Keys (keypairCache skc)) [])
  | GScan (k :: todo) keypairs =>
      match Get now (keypairCache skc) k with
      | Some kp => (skc, GScan todo (keypairs ++ [kp]))
      | None => (skc, GScan todo keypairs)
      end
  | GScan [] keypairs =>
      match newest_of keypairs with
      | None => (skc, GDone (Err NoKeypairs))
      | Some newest => (skc, GPin newest)
      end
  | GPin newest =>
      let '(keyID, loaded, m) :=
        GetOrSet now (requestKeyMap skc) requestID (getKeyID (publicKey newest)) None in
      if loaded then (set_requestKeyMap skc m, GMapped keyID)
      else (set_requestKeyMap skc m, GDone (Ok newest))
  | GDone r => (skc, GDone r)
  end.

(** Steps a call still needs at most. *)
Definition gk_fuel (skc : boxKeychain) (pc : gk_pc) : nat :=
  match pc with
  | GStart => 7 + length (Keys (keypairCache skc))
  | GKeys => 5 + length (Keys (keypairCache skc))
  | GScan todo _ => 4 + length todo
  | GPin _ => 3
  | GMapped _ => 2
  | GUnmap => 1
  | GDone _ => 0
  end.

(** Iterating the steps of a call at one instant. *)
Fixpoint gk_run (n : nat) (now : Z) (requestID : bytes) (skc : boxKeychain) (pc : gk_pc)
    : boxKeychain * gk_pc :=
  match n with
  | O => (skc, pc)
  | S n' => let '(skc', pc') := gk_step now requestID skc pc in gk_run n' now requestID skc' pc'
  end.

(** ** The rotation goroutine as a program of atomic steps *)

Inductive rotation_pc :=
| RFirst                                    (* the first keypair is not created yet *)
| RWait                                     (* in the select *)
| RSweep                                    (* a keypair was created: list the requests *)
| RRead (todo : list bytes)                 (* the loop over the listed requests *)
| RLookup (requestID pk : bytes) (todo : list bytes)
| RDrop (requestID : bytes) (todo : list bytes)
| RStopped
| RPanicked.                                (* a failed generation ends the process *)

#[export] Instance rotation_pc_eq_decision : EqDecision rotation_pc.
Proof. solve_decision. Defined.

Definition rotation_step (now : Z) (gen : option (bytes * bytes)) (skc : boxKeychain) (pc : rotation_pc)
    : boxKeychain * rotation_pc :=
  match pc with
  | RFirst =>
      match CreateKeyPair now skc gen with
      | (Err _, _) => (skc, RPanicked)
      | (Ok _, skc') => (skc', RWait)
      end
  | RWait =>
      match CreateKeyPair now skc gen with
      | (Err _, _) => (skc, RPanicked)
      | (Ok _, skc') => (skc', RSweep)
      end
  | RSweep => (skc, RRead (Keys (requestKeyMap skc)))
  | RRead [] => (skc, RWait)
  | RRead (requestID :: todo) =>
      match Get now (requestKeyMap skc) requestID with
      | Some pk => (skc, RLookup requestID pk todo)
      | None => (skc, RRead todo)
      end
  | RLookup requestID pk todo =>
      match Get now (keypairCache skc) pk with
      | Some _ => (skc, RRead todo)
      | None => (skc, RDrop requestID todo)
      end
  | RDrop requestID todo => (set_requestKeyMap skc (Delete (requestKeyMap skc) requestID), RRead todo)
  | RStopped => (skc, RStopped)
  | RPanicked => (skc, RPanicked)
  end.

Fixpoint rotation_run (n : nat) (now : Z) (gen : option (bytes * bytes)) (skc : boxKeychain) (pc : rotation_pc)
    : boxKeychain * rotation_pc :=
  match n with
  | O => (skc, pc)
  | S n' => let '(skc', pc') := rotation_step now gen skc pc in rotation_run n' now gen skc' pc'
  end.

(** ** Interleavings

    Calls are numbered; a label starts a call, advances one call or the rotation goroutine by
    one atomic step ([gen] is what a key generation in that step gives), stops the rotation, or
    runs the garbage collection of one of the two caches. *)

Inductive klabel :=
| LCall (tid : nat) (requestID : bytes)
| LStep (tid : nat)
| LRotate (gen : option (bytes * bytes))
| LStop
| LCollectKeys
| LCollectRequests.

Record ksys := mkSys {
  ks_chain : boxKeychain;
  ks_calls : gmap nat (bytes * gk_pc);
  ks_rotation : rotation_pc;
}.

(** A fresh keychain; its constructor has started the rotation goroutine. *)
Definition keychain_start (r e g : option Z) : ksys := mkSys (NewBoxKeychain r e g) ∅ RFirst.

Definition set_keypairCache (skc : boxKeychain) (c : Cache boxKeypair) : boxKeychain :=
  mkKeychain c (requestKeyMap skc) (rotationFrequency skc) (expiration skc).

Definition kstep (s : ksys) (e : Z * klabel) : ksys :=
  let '(now, l) := e in
  let '(mkSys skc calls rot) := s in
  if decide (rot = RPanicked) then s else
  match l with
  | LCall tid rid =>
      match calls !! tid with
      | None => mkSys skc (<[tid := (rid, GStart)]> calls) rot
      | Some _ => s
      end
  | LStep tid =>
      match calls !! tid with
      | None => s
      | Some (rid, pc) =>
          let '(skc', pc') := gk_step now rid skc pc in mkSys skc' (<[tid := (rid, pc')]> calls) rot
      end
  | LRotate gen => let '(skc', rot') := rotation_step now gen skc rot in mkSys skc' calls rot'
  | LStop => match rot with RWait => mkSys skc calls RStopped | _ => s end
  | LCollectKeys => mkSys (set_keypairCache skc (garbageCollect now (keypairCache skc)).2) calls rot
  | LCollectRequests => mkSys (set_requestKeyMap skc (garbageCollect now (requestKeyMap skc)).2) calls rot
  end.

Definition krun (s : ksys) (tr : list (Z * klabel)) : ksys := fold_left kstep tr s.

(** The clock of a history starts at [t], never goes back and stays before [t1]. *)
Fixpoint within (t t1 : Z) (tr : list (Z * klabel)) : Prop :=
  match tr with
  | [] => True
  | (now, _) :: tr' => t <= now /\ now <= t1 /\ within now t1 tr'
  end.

(** Generated public keys are 32 bytes long, the array that [box.GenerateKey] returns. *)
Definition keys_32 (tr : list (Z * klabel)) : Prop :=
  Forall (fun e => match e.2 with LRotate (Some (pub, _)) => length pub = 32%nat | _ => True end) tr.

(** Neither a call nor the sweep is in the middle of handling [rid]. *)
Definition quiet (rid : bytes) (s : ksys) : Prop :=
  (forall tid call, ks_calls s !! tid = Some call -> call.1 <> rid) /\
  match ks_rotation s with RLookup rid' _ _ | RDrop rid' _ => rid' <> rid | _ => True end.

(** The request is not mapped, or mapped until [t1] to a keypair that lasts until [t1]. *)
Definition settled (rid : bytes) (t0 t1 : Z) (skc : boxKeychain) : Prop :=
  Get t0 (requestKeyMap skc) rid = None \/
  exists k, Get t1 (requestKeyMap skc) rid = Some k /\ is_Some (Get t1 (keypairCache skc) k).

(** All requests that are mapped, in progress, or made during [tr]. *)
Definition requests_in (S : gset bytes) (s : ksys) (tr : list (Z * klabel)) : Prop :=
  (forall rid, rid ∈ Keys (requestKeyMap (ks_chain s)) -> rid ∈ S) /\
  (forall tid call, ks_calls s !! tid = Some call -> call.1 ∈ S) /\
  Forall (fun e => match e.2 with LCall _ rid => rid ∈ S | _ => True end) tr.

(** ** Invariant: both caches are consistent and keypairs are stored under their key ID *)

Record keychain_inv (skc : boxKeychain) : Prop := {
  ki_keys : cache_inv (keypairCache skc);
  ki_map : cache_inv (requestKeyMap skc);
  ki_id : forall k it, items (keypairCache skc) !! k = Some it -> getKeyID (publicKey (Value it)) = k;
}.

Lemma New_keychain_inv r e g : keychain_inv (NewBoxKeychain r e g).
Proof. split; [apply New_inv|apply New_inv|]. intros k it H. cbn in H. by rewrite lookup_empty in H. Qed.

Lemma Get_keypair_id now skc k kp :
  keychain_inv skc -> Get now (keypairCache skc) k = Some kp -> getKeyID (publicKey kp) = k.
Proof.
  intros Hi H. unfold Get in H. destruct (items _ !! k) as [it|] eqn:E; [|done].
  destruct (expired now it); [done|]. injection H as <-. by apply (ki_id skc Hi).
Qed.

Lemma CreateKeyPair_inv now skc gen : keychain_inv skc -> keychain_inv (CreateKeyPair now skc gen).2.
Proof.
  intros Hi. unfold CreateKeyPair, generateKeypair. destruct gen as [[pub priv]|]; [|done].
  split; cbn [snd keypairCache requestKeyMap]; [by apply setLocked_inv, Hi|apply Hi|].
  intros k it H. unfold Set_ in H. rewrite setLocked_lookup in H by apply Hi.
  destruct (decide _) as [->|]; [by injection H as <-|].
  destruct (decide _); [done|]. by apply (ki_id skc Hi).
Qed.

Lemma set_requestKeyMap_inv skc m :
  keychain_inv skc -> cache_inv m -> keychain_inv (set_requestKeyMap skc m).
Proof. intros [? ? ?] ?. by split. Qed.

Lemma gk_step_inv now rid skc pc : keychain_inv skc -> keychain_inv (gk_step now rid skc pc).1.
Proof.
  intros Hi. destruct pc as [|keyID| | |[|k todo] kps|newest|r]; cbn [gk_step]; try done;
    repeat case_match; simpl; try done.
  - apply set_requestKeyMap_inv; [done|]. apply Delete_inv, Hi.
  - apply set_requestKeyMap_inv; [done|]. pose proof (GetOrSet_inv now (requestKeyMap skc) rid (getKeyID (publicKey newest)) None (ki_map _ Hi)) as Hg.
    by rewrite H in Hg.
  - apply set_requestKeyMap_inv; [done|]. pose proof (GetOrSet_inv now (requestKeyMap skc) rid (getKeyID (publicKey newest)) None (ki_map _ Hi)) as Hg.
    by rewrite H in Hg.
Qed.

Lemma set_keypairCache_gc_inv now skc :
  keychain_inv skc -> keychain_inv (set_keypairCache skc (garbageCollect now (keypairCache skc)).2).
Proof.
  intros Hi. split; cbn [keypairCache requestKeyMap set_keypairCache]; [apply gc_inv, Hi|apply Hi|].
  intros k it H. rewrite gc_lookup in H by apply Hi.
  destruct (items (keypairCache skc) !! k) as [it'|] eqn:E; [|done].
  destruct (expired now it'); [done|]. injection H as <-. by apply (ki_id skc Hi).
Qed.

Lemma rotation_step_inv now gen skc pc : keychain_inv skc -> keychain_inv (rotation_step now gen skc pc).1.
Proof.
  intros Hi. pose proof (CreateKeyPair_inv now skc gen Hi) as Hc.
  destruct pc as [| | |[|rid todo]|rid pk todo|rid todo| |]; cbn [rotation_step]; try done; repeat case_match; try done.
  apply set_requestKeyMap_inv; [done|]. apply Delete_inv, Hi.
Qed.

Lemma kstep_inv s e : keychain_inv (ks_chain s) -> keychain_inv (ks_chain (kstep s e)).
Proof.
  intros Hi. destruct e as [now l], s as [skc calls rot]. cbn [kstep ks_chain] in *. destruct (decide _); [done|].
  destruct l as [tid rid|tid|gen| | |].
  - by case_match.
  - destruct (calls !! tid) as [[rid pc]|]; [|done].
    pose proof (gk_step_inv now rid skc pc Hi). by destruct (gk_step _ _ _ _).
  - pose proof (rotation_step_inv now gen skc rot Hi). by destruct (rotation_step _ _ _ _).
  - by destruct rot.
  - by apply set_keypairCache_gc_inv.
  - apply set_requestKeyMap_inv; [done|]. apply gc_inv, Hi.
Qed.

(** ** The sequential call *)

Lemma newest_fold l : forall acc n,
  fold_left newest_step l (Some acc) = Some n ->
  (n = acc \/ n ∈ l) /\ creationTime acc <= creationTime n /\
  Forall (fun kp => creationTime kp <= creationTime n) l.
Proof.
  induction l as [|x l IH]; intros acc n; cbn [fold_left newest_step].
  - intros [= ->]. split; [by left|]. split; [lia|constructor].
  - rewrite elem_of_cons, Forall_cons.
    destruct (Z.ltb_spec (creationTime acc) (creationTime x)); intros Hf;
      apply IH in Hf as (Hin & Hle & Hall); split_and!; try done; try lia; destruct Hin as [->|]; auto.
Qed.

Lemma newest_of_spec l n :
  newest_of l = Some n -> n ∈ l /\ Forall (fun kp => creationTime kp <= creationTime n) l.
Proof.
  destruct l as [|x l]; [done|]. unfold newest_of. cbn [fold_left newest_step]. intros H.
  apply newest_fold in H as (Hin & Hle & Hall). rewrite elem_of_cons, Forall_cons.
  split; [by destruct Hin; auto | done].
Qed.

Lemma newest_of_None l : newest_of l = None <-> l = [].
Proof.
  split; [|by intros ->]. destruct l as [|x l]; [done|]. unfold newest_of. cbn [fold_left newest_step].
  assert (forall k acc, fold_left newest_step k (Some acc) <> None) as Hn.
  { induction k as [|y k IH]; intros acc; [done|]. cbn [fold_left newest_step]. by destruct (_ <? _). }
  intros H. by apply Hn in H.
Qed.

Lemma gk_run_done n now rid skc r : gk_run n now rid skc (GDone r) = (skc, GDone r).
Proof. induction n; [done|]. cbn [gk_run gk_step]. done. Qed.

Lemma gk_run_add n m now rid skc pc :
  gk_run (n + m) now rid skc pc =
  let '(skc', pc') := gk_run n now rid skc pc in gk_run m now rid skc' pc'.
Proof.
  revert skc pc. induction n as [|n IH]; intros skc pc; [done|].
  cbn [gk_run Nat.add]. by destruct (gk_step now rid skc pc).
Qed.

Lemma gk_run_scan now rid skc todo : forall acc,
  gk_run (length todo) now rid skc (GScan todo acc) =
  (skc, GScan [] (acc ++ omap (Get now (keypairCache skc)) todo)).
Proof.
  induction todo as [|k todo IH]; intros acc; [by rewrite app_nil_r|].
  cbn [length gk_run gk_step]. destruct (Get now (keypairCache skc) k) as [kp|] eqn:E; rewrite IH.
  - rewrite <- app_assoc. cbn. by rewrite E.
  - cbn. by rewrite E.
Qed.

(** A call to [GetKeyPairForRequest] always returns: its atomic steps, run
    without interference, reach the result of the sequential reading of the
    code within a number of steps linear in the number of stored keypairs. *)
Theorem gk_run_sequential now skc rid :
  let '(r, skc') := GetKeyPairForRequest now skc rid in
  gk_run (gk_fuel skc GStart) now rid skc GStart = (skc', GDone r).
Proof.
  unfold GetKeyPairForRequest, GetKeyPairs, gk_fuel.
  set (n := length (Keys (keypairCache skc))).
  replace (7 + n)%nat with (2 + (n + 5))%nat by lia. rewrite gk_run_add.
  destruct (Get now (requestKeyMap skc) rid) as [keyID|] eqn:E1; cbn [gk_run gk_step]; rewrite E1; cbn [gk_step].
  - destruct (Get now (keypairCache skc) keyID) as [kp|]; [by rewrite gk_run_done|].
    rewrite Nat.add_comm. cbn [Nat.add gk_run gk_step]. by rewrite gk_run_done.
  - rewrite gk_run_add. unfold n. rewrite gk_run_scan. cbn [app].
    cbn [gk_run gk_step]. destruct (newest_of _) as [newest|]; [|done].
    cbn [gk_run gk_step].
    destruct (GetOrSet now (requestKeyMap skc) rid (getKeyID (publicKey newest)) None) as [[keyID loaded] m].
    destruct loaded; cbn [gk_run gk_step]; [|done].
    by destruct (Get now (keypairCache (set_requestKeyMap skc m)) keyID).
Qed.

(** A request that has no mapping yet gets, among the unexpired keypairs, one
    with the latest creation time, and is then mapped to it: the next call at
    any later instant within the mapping's lifetime returns the same keypair
    as long as it is still stored. *)
Theorem fresh_request_gets_newest now now' skc rid kp skc' :
  keychain_inv skc -> Get now (requestKeyMap skc) rid = None ->
  GetKeyPairForRequest now skc rid = (Ok kp, skc') ->
  kp ∈ GetKeyPairs now skc /\
  (forall kp', kp' ∈ GetKeyPairs now skc -> creationTime kp' <= creationTime kp) /\
  (time_sub now' now <= timeToLive (requestKeyMap skc) ->
   Get now' (keypairCache skc) (getKeyID (publicKey kp)) = Some kp ->
   GetKeyPairForRequest now' skc' rid = (Ok kp, skc')).
Proof.
  intros Hi Hn H. unfold GetKeyPairForRequest in H. rewrite Hn in H.
  destruct (newest_of (GetKeyPairs now skc)) as [newest|] eqn:En; [|done].
  rewrite GetOrSet_spec, Hn in H. injection H as <- <-.
  apply newest_of_spec in En as [Hin Hall]. rewrite Forall_forall in Hall.
  split; [done|]. split; [done|]. intros Hage Hget.
  unfold GetKeyPairForRequest. cbn [requestKeyMap keypairCache set_requestKeyMap].
  pose proof (Get_Set now now' (requestKeyMap skc) rid (getKeyID (publicKey newest)) None rid (ki_map _ Hi)) as Hg.
  unfold Set_ in Hg. rewrite Hg, decide_True by done. cbn [default].
  by rewrite (proj2 (Z.ltb_ge _ _) Hage), Hget.
Qed.

(** ** The rotation goroutine on its own *)

Lemma rotation_sweep now gen todo : forall skc,
  exists n, rotation_run n now gen skc (RRead todo) = (fold_left (sweep_one now) todo skc, RWait).
Proof.
  induction todo as [|rid todo IH]; intros skc; [by exists 1%nat|]. cbn [fold_left].
  destruct (IH (sweep_one now skc rid)) as [n Hn]. revert Hn. unfold sweep_one.
  destruct (Get now (requestKeyMap skc) rid) as [pk|] eqn:E1; [destruct (Get now (keypairCache skc) pk) eqn:E2|]; intros Hn.
  - exists (S (S n)). cbn. rewrite E1. cbn. by rewrite E2.
  - exists (S (S (S n))). cbn. rewrite E1. cbn. by rewrite E2.
  - exists (S n). cbn. by rewrite E1.
Qed.

(** A tick of the rotation, run without interference, is [rotation_tick]. *)
Theorem rotation_run_sequential now gen skc :
  exists n, rotation_run n now gen skc RWait =
    match rotation_tick now skc gen with Some skc' => (skc', RWait) | None => (skc, RPanicked) end.
Proof.
  unfold rotation_tick. destruct (CreateKeyPair now skc gen) as [[kp|e] skc'] eqn:E.
  - destruct (rotation_sweep now gen (Keys (requestKeyMap skc')) skc') as [n Hn].
    exists (S (S n)). cbn. by rewrite E.
  - exists 1%nat. cbn. by rewrite E.
Qed.

(** ** What holds of every keychain: stamps, lifetimes and sizes *)

Record chain_ok (t : Z) (skc : boxKeychain) : Prop := {
  co_inv : keychain_inv skc;
  co_keys : forall k it, items (keypairCache skc) !! k = Some it ->
    creationTime (Value it) = CreationTime it /\ CreationTime it <= t /\
    TimeToLive it = timeToLive (keypairCache skc) /\ length (publicKey (Value it)) = 32%nat;
  co_unbounded : maxEntries (keypairCache skc) = 0;
  co_ttl : timeToLive (requestKeyMap skc) = requestKeyMapTTL;
  co_max : maxEntries (requestKeyMap skc) = MaxRequestKeyMapEntries;
}.

Lemma chain_ok_start r e g t : chain_ok t (NewBoxKeychain r e g).
Proof. split; [apply New_keychain_inv| |done..]. intros k it H. cbn in H. by rewrite lookup_empty in H. Qed.

Lemma chain_ok_mono t t' skc : t <= t' -> chain_ok t skc -> chain_ok t' skc.
Proof. intros Hle [? Hk ? ? ?]. split; try done. intros k it H. destruct (Hk k it H) as (? & ? & ? & ?). split_and!; try done. lia. Qed.

Lemma setLocked_ttl {V} now (c : Cache V) k v ttl :
  cache_inv c -> timeToLive (setLocked now c k v ttl) = timeToLive c.
Proof. intros. by rewrite setLocked_eq. Qed.

Lemma chain_ok_create now skc gen :
  (forall pub priv, gen = Some (pub, priv) -> length pub = 32%nat) ->
  chain_ok now skc -> chain_ok now (CreateKeyPair now skc gen).2.
Proof.
  intros Hg Hok. pose proof (ki_keys _ (co_inv _ _ Hok)) as Hc.
  split; [apply CreateKeyPair_inv, Hok|..];
    unfold CreateKeyPair, generateKeypair; destruct gen as [[pub priv]|]; try apply Hok; cbn [snd keypairCache requestKeyMap].
  - intros k it. unfold Set_. rewrite setLocked_lookup, setLocked_ttl by done. destruct (decide _).
    + intros [= <-]. cbn. split_and!; try done. by eapply Hg.
    + destruct (decide _); [done|]. apply (co_keys _ _ Hok).
  - unfold Set_. rewrite setLocked_max by done. apply Hok.
Qed.

Lemma chain_ok_set_map t skc m :
  chain_ok t skc -> cache_inv m -> timeToLive m = timeToLive (requestKeyMap skc) ->
  maxEntries m = maxEntries (requestKeyMap skc) -> chain_ok t (set_requestKeyMap skc m).
Proof. intros [? ? ? ? ?] ? ? ?. split; try done; cbn; [by apply set_requestKeyMap_inv|congruence..]. Qed.

Lemma chain_ok_delete t skc rid : chain_ok t skc -> chain_ok t (set_requestKeyMap skc (Delete (requestKeyMap skc) rid)).
Proof. intros Hok. apply chain_ok_set_map; try done. apply Delete_inv, Hok. Qed.

Lemma chain_ok_set_locked now skc rid v :
  chain_ok now skc -> chain_ok now (set_requestKeyMap skc (setLocked now (requestKeyMap skc) rid v None)).
Proof.
  intros Hok. pose proof (ki_map _ (co_inv _ _ Hok)). apply chain_ok_set_map; try done;
    [by apply setLocked_inv|by apply setLocked_ttl|by apply setLocked_max].
Qed.

Lemma gc_frame {V} now (c : Cache V) : cache_inv c ->
  timeToLive (garbageCollect now c).2 = timeToLive c /\ maxEntries (garbageCollect now c).2 = maxEntries c.
Proof. intros Hc. by rewrite garbageCollect_eq. Qed.

Lemma chain_ok_gk now rid skc pc : chain_ok now skc -> chain_ok now (gk_step now rid skc pc).1.
Proof.
  intros Hok. destruct pc as [|keyID| | |[|k todo] kps|newest|r]; cbn [gk_step]; try done; try (by repeat case_match).
  - by apply chain_ok_delete.
  - rewrite GetOrSet_spec. destruct (Get _ _ rid); cbn; [by destruct skc|by apply chain_ok_set_locked].
Qed.

Lemma chain_ok_rotation now gen skc pc :
  (forall pub priv, gen = Some (pub, priv) -> length pub = 32%nat) ->
  chain_ok now skc -> chain_ok now (rotation_step now gen skc pc).1.
Proof.
  intros Hg Hok. pose proof (chain_ok_create now skc gen Hg Hok) as Hc.
  destruct pc as [| | |[|rid todo]|rid pk todo|rid todo| |]; cbn [rotation_step]; try done; repeat case_match; try done.
  by apply chain_ok_delete.
Qed.

Lemma chain_ok_gc_keys t now skc : chain_ok t skc -> chain_ok t (set_keypairCache skc (garbageCollect now (keypairCache skc)).2).
Proof.
  intros Hok. pose proof (ki_keys _ (co_inv _ _ Hok)) as Hc. destruct (gc_frame now _ Hc) as [E1 E2].
  split; cbn [keypairCache requestKeyMap set_keypairCache]; [by apply set_keypairCache_gc_inv, Hok| | |apply Hok..].
  - intros k it. rewrite gc_lookup, E1 by done. destruct (items _ !! k) as [it'|] eqn:E; [|done].
    case_match; [done|]. intros [= <-]. by apply (co_keys _ _ Hok k).
  - rewrite E2. apply Hok.
Qed.

Lemma chain_ok_gc_map t now skc : chain_ok t skc -> chain_ok t (set_requestKeyMap skc (garbageCollect now (requestKeyMap skc)).2).
Proof.
  intros Hok. pose proof (ki_map _ (co_inv _ _ Hok)) as Hc. destruct (gc_frame now _ Hc) as [E1 E2].
  apply chain_ok_set_map; try done. by apply gc_inv.
Qed.

Lemma chain_ok_step now l s :
  keys_32 [(now, l)] -> chain_ok now (ks_chain s) -> chain_ok now (ks_chain (kstep s (now, l))).
Proof.
  intros Hg Hok. apply Forall_cons in Hg as [Hg _]. destruct s as [skc calls rot]. cbn [kstep ks_chain snd] in *. destruct (decide _); [done|].
  destruct l as [tid rid|tid|gen| | |].
  - by case_match.
  - destruct (calls !! tid) as [[rid pc]|]; [|done]. pose proof (chain_ok_gk now rid skc pc Hok). by destruct (gk_step _ _ _ _).
  - assert (forall pub priv, gen = Some (pub, priv) -> length pub = 32%nat) as Hg' by (intros pub priv ->; exact Hg).
    pose proof (chain_ok_rotation now gen skc rot Hg' Hok). by destruct (rotation_step _ _ _ _).
  - by destruct rot.
  - by apply chain_ok_gc_keys.
  - by apply chain_ok_gc_map.
Qed.

Lemma chain_ok_run tr : forall t t1 s, t <= t1 -> within t t1 tr -> keys_32 tr -> chain_ok t (ks_chain s) -> chain_ok t1 (ks_chain (krun s tr)).
Proof.
  induction tr as [|[now l] tr IH]; intros t t1 s Hle Hw Hg Hok; [by eapply chain_ok_mono|].
  destruct Hw as (H1 & H2 & Hw). apply Forall_cons in Hg as [Hg Hg']. cbn. eapply IH; eauto.
  apply chain_ok_step; [by apply Forall_singleton|]. by eapply chain_ok_mono.
Qed.

(** ** Pinning under interleaving *)

(** The keypair stored under [key] lasts until [t1]. *)
Definition lasts (t1 : Z) (skc : boxKeychain) (key : bytes) : Prop := is_Some (Get t1 (keypairCache skc) key).

(** A keypair that a scan has read, and one that is young enough to last. *)
Definition scanned (t1 : Z) (skc : boxKeychain) (kp : boxKeypair) : Prop :=
  length (publicKey kp) = 32%nat /\
  (time_sub t1 (creationTime kp) <= timeToLive (keypairCache skc) -> lasts t1 skc (getKeyID (publicKey kp))).

Definition young (t1 : Z) (skc : boxKeychain) (kp : boxKeypair) : Prop :=
  time_sub t1 (creationTime kp) <= timeToLive (keypairCache skc).

(** Where the calls for [rid] may be when the request is pinned to [k], or not pinned yet:
    none has failed or is about to, and those that know a keypair know the one of the pin. *)
Definition observed (rid : bytes) (t1 : Z) (skc : boxKeychain) (k : option bytes) (call : bytes * gk_pc) : Prop :=
  call.1 = rid ->
  match call.2 with
  | GStart | GKeys => True
  | GMapped keyID => k = Some keyID
  | GScan todo kps => Forall (scanned t1 skc) kps /\
      ((exists kp, kp ∈ kps /\ young t1 skc kp) \/ exists key, key ∈ todo /\ lasts t1 skc key)
  | GPin newest => scanned t1 skc newest /\ young t1 skc newest
  | GDone (Ok kp) => k = Some (publicKey kp)
  | GUnmap | GDone (Err _) => False
  end.

(** The sweep does not drop [rid]. *)
Definition sweep_spares (rid : bytes) (k : option bytes) (rot : rotation_pc) : Prop :=
  match rot with
  | RLookup rid' pk _ => rid' = rid -> k = Some pk
  | RDrop rid' _ => rid' <> rid
  | _ => True
  end.

Lemma Get_before {V} (c : Cache V) key v t t' : t' <= t -> Get t c key = Some v -> Get t' c key = Some v.
Proof.
  intros Hle. unfold Get. destruct (items c !! key) as [it|]; [|done]. destruct (expired t' it) eqn:E; [|by destruct (expired t it)].
  by rewrite (expired_mono t' t it Hle E).
Qed.

Lemma Get_after {V} (c : Cache V) key t t' : t <= t' -> Get t c key = None -> Get t' c key = None.
Proof. intros Hle H. destruct (Get t' c key) eqn:E; [|done]. by rewrite (Get_before _ _ _ _ _ Hle E) in H. Qed.

Lemma time_sub_anti t u u' : u <= u' -> time_sub t u' <= time_sub t u.
Proof. unfold time_sub. lia. Qed.

Lemma Get_item now (c : Cache boxKeypair) key kp :
  Get now c key = Some kp <-> exists it, items c !! key = Some it /\ expired now it = false /\ Value it = kp.
Proof.
  unfold Get. destruct (items c !! key) as [it|]; [|naive_solver]. destruct (expired now it) eqn:E; [|naive_solver].
  split; [done|]. intros (it' & [= <-] & ? & _). congruence.
Qed.

Section Pinned.
Variables (rid : bytes) (t0 t1 : Z) (requests : gset bytes).
Hypothesis Hwindow : t1 - t0 <= requestKeyMapTTL.
Hypothesis Hrequests : Z.of_nat (size requests) <= MaxRequestKeyMapEntries.

Record pin_inv (t : Z) (s : ksys) (k : option bytes) : Prop := {
  pi_time : t0 <= t <= t1;
  pi_chain : chain_ok t (ks_chain s);
  pi_life : time_sub t1 t0 <= timeToLive (keypairCache (ks_chain s));
  pi_live : exists key, lasts t1 (ks_chain s) key;
  pi_pinned : forall key, k = Some key -> lasts t1 (ks_chain s) key;
  pi_map : forall t', t <= t' <= t1 -> Get t' (requestKeyMap (ks_chain s)) rid = k;
  pi_mapped : forall rid', rid' ∈ Keys (requestKeyMap (ks_chain s)) -> rid' ∈ requests;
  pi_calls : forall tid call, ks_calls s !! tid = Some call -> call.1 ∈ requests /\ observed rid t1 (ks_chain s) k call;
  pi_sweep : sweep_spares rid k (ks_rotation s);
}.

Lemma pin_inv_later t now s k : t <= now <= t1 -> pin_inv t s k -> pin_inv now s k.
Proof. intros H [? ? ? ? ? Hm ? ? ?]. split; try done; [lia| |]; [apply (chain_ok_mono t); [lia|done]|]. intros. apply Hm. lia. Qed.

Lemma observed_mono skc skc' k call :
  timeToLive (keypairCache skc') = timeToLive (keypairCache skc) ->
  (forall key, lasts t1 skc key -> lasts t1 skc' key) ->
  observed rid t1 skc k call -> observed rid t1 skc' k call.
Proof.
  intros Ht Hl Ho Hr. specialize (Ho Hr). destruct call as [rid' pc]. cbn [snd] in *.
  assert (forall kp, scanned t1 skc kp -> scanned t1 skc' kp) as Hs by (unfold scanned; rewrite Ht; naive_solver).
  destruct pc as [| | | |todo kps|newest|[]]; try done; unfold young in *; rewrite Ht.
  - destruct Ho as [Hf Ho]. split; [by eapply Forall_impl|]. destruct Ho as [|(key & ? & ?)]; [by left|right]. eauto.
  - destruct Ho. eauto.
Qed.

(** A change of the keypair cache that keeps what lasts. *)
Lemma pin_inv_keys t s k skc' rot' :
  pin_inv t s k -> chain_ok t skc' -> requestKeyMap skc' = requestKeyMap (ks_chain s) ->
  timeToLive (keypairCache skc') = timeToLive (keypairCache (ks_chain s)) ->
  (forall key, lasts t1 (ks_chain s) key -> lasts t1 skc' key) -> sweep_spares rid k rot' ->
  pin_inv t (mkSys skc' (ks_calls s) rot') k.
Proof.
  intros [? ? ? [key ?] ? Hm ? Hc ?] Hok Em Et Hl Hrot. split; cbn; rewrite ?Em, ?Et; eauto.
  intros tid call H'. destruct (Hc _ _ H'). split; [done|]. by eapply observed_mono.
Qed.

(** A change of the request map that keeps its answers for [rid]. *)
Lemma pin_inv_requests t s k m rot' :
  pin_inv t s k -> chain_ok t (set_requestKeyMap (ks_chain s) m) ->
  (forall t', t <= t' -> Get t' m rid = Get t' (requestKeyMap (ks_chain s)) rid) ->
  (forall rid', rid' ∈ Keys m -> rid' ∈ requests) -> sweep_spares rid k rot' ->
  pin_inv t (mkSys (set_requestKeyMap (ks_chain s) m) (ks_calls s) rot') k.
Proof.
  intros [? ? ? ? ? Hm ? ? ?] Hok Hg Hk Hrot. split; cbn; try done.
  intros t' Ht. rewrite Hg by lia. by apply Hm.
Qed.

Lemma pin_inv_call t s k tid call :
  pin_inv t s k -> call.1 ∈ requests -> observed rid t1 (ks_chain s) k call ->
  pin_inv t (mkSys (ks_chain s) (<[tid := call]> (ks_calls s)) (ks_rotation s)) k.
Proof.
  intros [? ? ? ? ? ? ? Hc ?] Hin Ho. split; try done. cbn [ks_calls]. intros tid' call'.
  rewrite lookup_insert. destruct (decide _); [by intros [= <-]|apply Hc].
Qed.

Lemma pin_inv_delete t s k rid' rot' :
  pin_inv t s k -> rid' <> rid -> sweep_spares rid k rot' ->
  pin_inv t (mkSys (set_requestKeyMap (ks_chain s) (Delete (requestKeyMap (ks_chain s)) rid')) (ks_calls s) rot') k.
Proof.
  intros Hp Hne Hrot. pose proof (pi_chain _ _ _ Hp) as Hok. apply pin_inv_requests; try done.
  - by apply chain_ok_delete.
  - intros t' _. rewrite Get_Delete. by rewrite decide_False.
  - intros r Hr. apply (pi_mapped _ _ _ Hp). unfold Keys, Delete in *. cbn in Hr.
    apply remove_first_elem in Hr; [tauto|]. apply Hok.
Qed.

(** *** The steps of a call *)

Lemma lasts_now now skc key : now <= t1 -> lasts t1 skc key -> exists kp, Get now (keypairCache skc) key = Some kp.
Proof. intros Hle [kp H]. exists kp. by eapply Get_before. Qed.

Lemma scan_read t now skc key kp :
  chain_ok t skc -> Get now (keypairCache skc) key = Some kp ->
  scanned t1 skc kp /\ (lasts t1 skc key -> young t1 skc kp).
Proof.
  intros Hok Hg. pose proof (Get_keypair_id _ _ _ _ (co_inv _ _ Hok) Hg) as Hid.
  apply Get_item in Hg as (it & Hit & _ & <-). destruct (co_keys _ _ Hok _ _ Hit) as (Hc & _ & Ht & Hl).
  unfold scanned, young. rewrite Hid, Hc, <- Ht. split; [split; [done|]|].
  - intros Hy. exists (Value it). apply Get_item. exists it. split_and!; try done. unfold expired. by apply Z.ltb_ge.
  - intros [kp (it' & Hit' & He & _)%Get_item]. rewrite Hit in Hit'. injection Hit' as <-. by apply Z.ltb_ge.
Qed.

Lemma newest_young skc kps kp newest :
  newest_of kps = Some newest -> kp ∈ kps -> young t1 skc kp -> young t1 skc newest.
Proof.
  intros [_ Hall]%newest_of_spec Hin Hy. rewrite Forall_forall in Hall. specialize (Hall _ Hin).
  unfold young in *. pose proof (time_sub_anti t1 _ _ Hall). lia.
Qed.

Lemma observed_scan_end skc k kps rid' :
  observed rid t1 skc k (rid', GScan [] kps) ->
  observed rid t1 skc k (rid', match newest_of kps with None => GDone (Err NoKeypairs) | Some newest => GPin newest end).
Proof.
  intros Ho Hr. specialize (Ho Hr). cbn in *. destruct Ho as [Hf [(kp & Hin & Hy)|(key & []%not_elem_of_nil & _)]].
  destruct (newest_of kps) as [newest|] eqn:En.
  - split; [|by eapply newest_young]. apply newest_of_spec in En as [Hn _]. rewrite Forall_forall in Hf. by apply Hf.
  - apply newest_of_None in En as ->. by apply not_elem_of_nil in Hin.
Qed.

Lemma observed_scan_step t now skc k x todo kps rid' :
  chain_ok t skc -> now <= t1 -> observed rid t1 skc k (rid', GScan (x :: todo) kps) ->
  observed rid t1 skc k (rid', GScan todo (kps ++ option_list (Get now (keypairCache skc) x))).
Proof.
  intros Hok Hle Ho Hr. specialize (Ho Hr). cbn in *. destruct Ho as [Hf Ho].
  destruct (Get now (keypairCache skc) x) as [kp|] eqn:Eg; cbn.
  - destruct (scan_read _ _ _ _ _ Hok Eg) as [Hs Hy]. split; [by apply Forall_app_2; [|apply Forall_singleton]|].
    destruct Ho as [(kp' & ? & ?)|(key & [->|Hin]%elem_of_cons & Hl)].
    + left. exists kp'. rewrite elem_of_app. auto.
    + left. exists kp. rewrite elem_of_app, list_elem_of_singleton. auto.
    + right. eauto.
  - rewrite app_nil_r. split; [done|]. destruct Ho as [|(key & [->|Hin]%elem_of_cons & Hl)]; [by left| |right; eauto].
    destruct (lasts_now now _ _ Hle Hl). congruence.
Qed.

(** The steps of a call that leave the request map alone. *)
Lemma pin_inv_call_step s k tid rid' pc now :
  pin_inv now s k -> ks_rotation s <> RPanicked ->
  ks_calls s !! tid = Some (rid', pc) -> pc <> GUnmap -> (forall n, pc <> GPin n) ->
  pin_inv now (kstep s (now, LStep tid)) k.
Proof.
  intros Hp Hrot Hc Hu Hn. destruct (pi_calls _ _ _ Hp _ _ Hc) as [Hin Ho]. pose proof (pi_time _ _ _ Hp) as Ht.
  pose proof (pi_chain _ _ _ Hp) as Hok.
  assert (forall pc', observed rid t1 (ks_chain s) k (rid', pc') ->
    pin_inv now (mkSys (ks_chain s) (<[tid := (rid', pc')]> (ks_calls s)) (ks_rotation s)) k) as Hcall
    by (intros; by apply pin_inv_call).
  destruct s as [skc calls rot]. cbn [kstep ks_calls ks_chain ks_rotation] in *. rewrite decide_False, Hc by done.
  destruct pc as [|keyID| | |[|x todo] kps|newest|r]; cbn [gk_step]; try done; try (by exfalso; eapply Hn).
  - destruct (Get now _ rid') as [keyID|] eqn:Eg; apply Hcall; intros Hr; simpl in *; [|done].
    subst rid'. rewrite <- Eg. symmetry. apply (pi_map _ _ _ Hp). lia.
  - destruct (Get now _ keyID) as [kp|] eqn:Eg; apply Hcall; intros Hr; cbn in *; specialize (Ho Hr).
    + rewrite Ho. f_equal. rewrite <- (Get_keypair_id _ _ _ _ (co_inv _ _ Hok) Eg). apply take_ge.
      destruct (scan_read _ _ _ _ _ Hok Eg) as [[Hl _] _]. lia.
    + destruct (lasts_now now _ _ ltac:(lia) (pi_pinned _ _ _ Hp _ Ho)) as [kp ?]. cbn in *. congruence.
  - apply Hcall. intros _. cbn. split; [done|right]. destruct (pi_live _ _ _ Hp) as [key Hl]. exists key. split; [|done].
    destruct Hl as [kp Hl]. eapply Get_Some_Keys; [apply Hok|done].
  - apply observed_scan_end in Ho. destruct (newest_of kps); by apply Hcall.
  - pose proof (observed_scan_step _ now _ _ _ _ _ _ Hok ltac:(lia) Ho) as Ho'.
    destruct (Get now _ x); cbn in Ho'; [by apply Hcall|]. rewrite app_nil_r in Ho'. by apply Hcall.
  - by apply Hcall.
Qed.

(** *** Pinning: no request is evicted, and the first pin stays *)

Lemma no_eviction t s k rid' :
  pin_inv t s k -> rid' ∈ requests -> evictees (requestKeyMap (ks_chain s)) rid' = [].
Proof.
  intros Hp Hin. pose proof (pi_chain _ _ _ Hp) as Hok.
  apply (evictees_none _ _ requests); [apply Hok|apply Hp|done|]. by rewrite (co_max _ _ Hok).
Qed.

Lemma setLocked_keys (now : Z) (m : Cache bytes) rid' v x :
  cache_inv m -> evictees m rid' = [] -> x ∈ Keys (setLocked now m rid' v None) -> x ∈ Keys m \/ x = rid'.
Proof.
  intros Hc He. unfold Keys. rewrite setLocked_eq, He by done. cbn. case_match; [auto|].
  rewrite elem_of_app, list_elem_of_singleton. auto.
Qed.

(** The first pin of [rid]: calls that have not read the mapping may continue. *)
Lemma pin_inv_first now s tid newest rot :
  pin_inv now s None -> ks_rotation s = rot ->
  ks_calls s !! tid = Some (rid, GPin newest) ->
  pin_inv now (mkSys (set_requestKeyMap (ks_chain s)
      (setLocked now (requestKeyMap (ks_chain s)) rid (getKeyID (publicKey newest)) None))
    (<[tid := (rid, GDone (Ok newest))]> (ks_calls s)) rot) (Some (publicKey newest)).
Proof.
  intros Hp <- Hc. destruct (pi_calls _ _ _ Hp _ _ Hc) as [Hin Ho]. destruct (Ho eq_refl) as [[Hl Hs] Hy].
  pose proof (no_eviction _ _ _ _ Hp Hin) as Hev. destruct Hp as [Ht Hok ? ? ? Hm Hmapped Hcalls Hrot].
  pose proof (ki_map _ (co_inv _ _ Hok)) as Hmi. assert (getKeyID (publicKey newest) = publicKey newest) as Hid by (apply take_ge; lia).
  rewrite Hid in *. split; cbn [ks_chain ks_calls ks_rotation]; try done.
  - by apply chain_ok_set_locked.
  - intros key [= <-]. by apply Hs.
  - intros t' Ht'. pose proof (Get_Set now t' (requestKeyMap (ks_chain s)) rid (publicKey newest) None rid Hmi) as E.
    unfold Set_ in E. cbn [requestKeyMap set_requestKeyMap]. rewrite E, decide_True by done. cbn [default].
    rewrite (co_ttl _ _ Hok), (proj2 (Z.ltb_ge _ _)); [done|].
    unfold time_sub, min_duration, max_duration. assert (0 <= requestKeyMapTTL) by by_compute. lia.
  - intros x Hx. apply setLocked_keys in Hx as [?| ->]; auto.
  - intros tid' call. rewrite lookup_insert. destruct (decide _); [by intros [= <-]|].
    intros Hcall. destruct (Hcalls _ _ Hcall) as [? Ho']. split; [done|]. intros Hr. specialize (Ho' Hr).
    by destruct (call.2) as [| | | | | |[|]].
  - destruct (ks_rotation s); try done. cbn in *. naive_solver.
Qed.

Lemma pin_inv_pin now s k tid rid' newest :
  pin_inv now s k -> ks_rotation s <> RPanicked -> ks_calls s !! tid = Some (rid', GPin newest) ->
  exists k', pin_inv now (kstep s (now, LStep tid)) k'.
Proof.
  intros Hp Hrot Hc. destruct (pi_calls _ _ _ Hp _ _ Hc) as [Hin Ho]. pose proof (pi_time _ _ _ Hp) as Ht.
  pose proof (pi_chain _ _ _ Hp) as Hok. pose proof (ki_map _ (co_inv _ _ Hok)) as Hmi.
  cbn [fst] in Hin. pose proof (no_eviction _ _ _ _ Hp Hin) as Hev.
  destruct s as [skc calls rot]. cbn [kstep ks_calls ks_chain ks_rotation] in *. rewrite decide_False, Hc by done.
  cbn [gk_step]. rewrite GetOrSet_spec. destruct (Get now (requestKeyMap skc) rid') as [w|] eqn:Eg.
  - exists k. assert (set_requestKeyMap skc (requestKeyMap skc) = skc) as -> by by destruct skc.
    apply (pin_inv_call _ (mkSys skc calls rot)); [done..|]. intros Hr. cbn in *. subst rid'.
    rewrite <- Eg. symmetry. apply (pi_map _ _ _ Hp). lia.
  - destruct (decide (rid' = rid)) as [->|Hne].
    + assert (k = None) as -> by (rewrite <- Eg; symmetry; apply (pi_map _ _ _ Hp); lia).
      exists (Some (publicKey newest)). by apply (pin_inv_first now (mkSys skc calls rot)).
    + exists k. set (m := setLocked _ _ _ _ _). apply (pin_inv_call _ (mkSys (set_requestKeyMap skc m) calls rot)); [|done|].
      * apply (pin_inv_requests _ (mkSys skc calls rot)); cbn [ks_chain]; [done|by apply chain_ok_set_locked| | |apply Hp].
        -- intros t' _. pose proof (Get_Set now t' (requestKeyMap skc) rid' (getKeyID (publicKey newest)) None rid Hmi) as E.
           unfold Set_ in E. fold m in E. rewrite E, Hev, decide_False by done. by rewrite decide_False by apply not_elem_of_nil.
        -- intros x Hx. apply setLocked_keys in Hx as [?| ->]; [|done..]. by apply (pi_mapped _ _ _ Hp).
      * intros Hr. cbn in Hr. congruence.
Qed.

(** *** The rotation goroutine and the collections *)

Lemma lasts_create t now s k gen :
  pin_inv t s k -> t0 <= now -> forall key, lasts t1 (ks_chain s) key -> lasts t1 (CreateKeyPair now (ks_chain s) gen).2 key.
Proof.
  intros Hp Hle key Hl. unfold CreateKeyPair, generateKeypair. destruct gen as [[pub priv]|]; [|done].
  unfold lasts. cbn [snd keypairCache publicKey]. pose proof (pi_chain _ _ _ Hp) as Hok.
  rewrite Get_Set by apply Hok. cbn [default]. destruct (decide _).
  - rewrite (proj2 (Z.ltb_ge _ _)); [done|]. pose proof (time_sub_anti t1 _ _ Hle). pose proof (pi_life _ _ _ Hp). lia.
  - rewrite decide_False; [done|]. unfold evictees. rewrite (co_unbounded _ _ Hok), decide_False by lia. apply not_elem_of_nil.
Qed.

Lemma CreateKeyPair_frame now skc gen : keychain_inv skc ->
  requestKeyMap (CreateKeyPair now skc gen).2 = requestKeyMap skc /\
  timeToLive (keypairCache (CreateKeyPair now skc gen).2) = timeToLive (keypairCache skc).
Proof.
  intros Hi. unfold CreateKeyPair, generateKeypair. destruct gen as [[pub priv]|]; [|done]. cbn. split; [done|]. apply setLocked_ttl, Hi.
Qed.

Lemma pin_inv_create now s k gen rot' :
  (forall pub priv, gen = Some (pub, priv) -> length pub = 32%nat) -> sweep_spares rid k rot' ->
  pin_inv now s k -> pin_inv now (mkSys (CreateKeyPair now (ks_chain s) gen).2 (ks_calls s) rot') k.
Proof.
  intros Hg Hrot Hp. pose proof (pi_chain _ _ _ Hp) as Hok. destruct (CreateKeyPair_frame now (ks_chain s) gen) as [? ?]; [apply Hok|].
  apply pin_inv_keys; try done; [by apply chain_ok_create|]. eapply lasts_create; [done|]. apply Hp.
Qed.

Lemma pin_inv_rotation_pc t s k rot' : sweep_spares rid k rot' -> pin_inv t s k -> pin_inv t (mkSys (ks_chain s) (ks_calls s) rot') k.
Proof. intros Hr [? ? ? ? ? ? ? ? ?]. by split. Qed.

Lemma pin_inv_rotate now s k gen :
  (forall pub priv, gen = Some (pub, priv) -> length pub = 32%nat) -> ks_rotation s <> RPanicked ->
  pin_inv now s k -> pin_inv now (kstep s (now, LRotate gen)) k.
Proof.
  intros Hg Hrot Hp. pose proof (pi_time _ _ _ Hp) as Ht. pose proof (pi_sweep _ _ _ Hp) as Hs.
  pose proof (fun rot' H => pin_inv_create now s k gen rot' Hg H Hp) as Hcreate.
  pose proof (fun rot' H => pin_inv_rotation_pc now s k rot' H Hp) as Hpc.
  pose proof (fun x todo H => pin_inv_delete now s k x (RRead todo) Hp H I) as Hdel.
  pose proof (pi_map _ _ _ Hp) as Hm. pose proof (pi_pinned _ _ _ Hp) as Hl.
  destruct s as [skc calls rot]. cbn [kstep ks_calls ks_chain ks_rotation] in *. rewrite decide_False by done.
  destruct rot as [| | |[|x todo]|x pk todo|x todo| |]; cbn [rotation_step] in *; try (by apply Hpc).
  - destruct (CreateKeyPair now skc gen) as [[]]; [by apply (Hcreate RWait)|by apply Hpc].
  - destruct (CreateKeyPair now skc gen) as [[]]; [by apply (Hcreate RSweep)|by apply Hpc].
  - destruct (Get now _ x) as [pk|] eqn:Eg; apply Hpc; [|done]. intros ->. rewrite <- Eg. symmetry. apply Hm. lia.
  - destruct (Get now _ pk) eqn:Eg; apply Hpc; [done|]. intros ->. cbn in Hs.
    destruct (lasts_now now _ _ ltac:(lia) (Hl _ (Hs eq_refl))). congruence.
  - by apply Hdel.
Qed.

Lemma pin_inv_step t s k now l :
  pin_inv t s k -> t <= now <= t1 -> keys_32 [(now, l)] ->
  match l with LCall _ rid' => rid' ∈ requests | _ => True end ->
  exists k', pin_inv now (kstep s (now, l)) k'.
Proof.
  intros Hp Ht Hg Hin. apply (pin_inv_later _ now) in Hp; [|done]. apply Forall_cons in Hg as [Hg _].
  pose proof (pi_chain _ _ _ Hp) as Hok. destruct (decide (ks_rotation s = RPanicked)) as [Hr|Hr].
  { exists k. destruct s as [skc calls rot]. cbn in *. by rewrite decide_True. }
  destruct l as [tid rid'|tid|gen| | |].
  - exists k. destruct s as [skc calls rot]. cbn [kstep ks_rotation] in *. rewrite decide_False by done. destruct (calls !! tid); [done|].
    by apply (pin_inv_call _ (mkSys skc calls rot)).
  - destruct (ks_calls s !! tid) as [[rid' pc]|] eqn:Ec;
      [|exists k; destruct s as [skc calls rot]; cbn in *; by rewrite decide_False, Ec].
    destruct pc as [|keyID| | |todo kps|newest|r]; try (exists k; by eapply pin_inv_call_step); [|by eapply pin_inv_pin].
    exists k. destruct (pi_calls _ _ _ Hp _ _ Ec) as [Hin' Ho]. destruct s as [skc calls rot]. cbn in *. rewrite decide_False, Ec by done.
    apply (pin_inv_call _ (mkSys (set_requestKeyMap skc (Delete (requestKeyMap skc) rid')) calls rot)); [|done|done].
    apply (pin_inv_delete _ (mkSys skc calls rot)); [done|done|apply Hp].
  - exists k. apply pin_inv_rotate; [|done..]. intros pub priv ->. exact Hg.
  - exists k. pose proof (pin_inv_rotation_pc _ _ _ RStopped I Hp). destruct s as [skc calls rot]. cbn in *. rewrite decide_False by done.
    by destruct rot.
  - exists k. destruct s as [skc calls rot]. cbn in *. rewrite decide_False by done.
    destruct (gc_frame now _ (ki_keys _ (co_inv _ _ Hok))) as [? _].
    apply (pin_inv_keys _ (mkSys skc calls rot)); try done; [by apply chain_ok_gc_keys| |apply Hp].
    intros key. unfold lasts. cbn. by rewrite Get_gc by (apply Hok || lia).
  - exists k. destruct s as [skc calls rot]. cbn in *. rewrite decide_False by done.
    apply (pin_inv_requests _ (mkSys skc calls rot)); [done|by apply chain_ok_gc_map| | |apply Hp].
    + intros t' Ht'. apply Get_gc; [apply Hok|done].
    + intros x. cbn [ks_chain]. unfold Keys. rewrite garbageCollect_eq by apply Hok. cbn. intros Hx.
      apply list_elem_of_In, List.filter_In in Hx as [Hx _]. apply (pi_mapped _ _ _ Hp). by apply list_elem_of_In.
Qed.

Lemma pin_inv_run tr : forall t s k,
  pin_inv t s k -> within t t1 tr -> keys_32 tr ->
  Forall (fun e => match e.2 with LCall _ rid' => rid' ∈ requests | _ => True end) tr ->
  exists t' k', pin_inv t' (krun s tr) k'.
Proof.
  induction tr as [|[now l] tr IH]; intros t s k Hp Hw Hg Hin; [eauto|].
  destruct Hw as (Hle & Hle1 & Hw). apply Forall_cons in Hg as [Hg Hg'], Hin as [Hin Hin'].
  destruct (pin_inv_step t s k now l) as (k' & Hp'); [done..|by apply Forall_singleton|done|]. by eapply IH.
Qed.

End Pinned.

(** C8 Same request, same key: take any interleaving of any number of concurrent
    [GetKeyPairForRequest] calls with the rotation goroutine (its sweep step by step) and the garbage
    collections, within the hour for which a mapping lasts.  At its start the request is not
    mapped, or mapped to a keypair that lasts to the end, nothing is in the middle of
    handling it, and some stored keypair lasts to the end (with the defaults the newest one does, being renewed
    every 12 hours and kept for 24); and there are no more distinct requests than the map has room for.
    Then every call for that request that finishes succeeds, and all of them return the same public key,
    even if they list the keypairs before and after a rotation. *)
Theorem same_request_same_key r e g past tr rid tb t0 t1 requests :
  let s := krun (keychain_start r e g) past in
  within tb t0 past -> within t0 t1 tr -> tb <= t0 <= t1 -> t1 - t0 <= requestKeyMapTTL -> keys_32 (past ++ tr) ->
  quiet rid s -> settled rid t0 t1 (ks_chain s) -> (exists kp, kp ∈ GetKeyPairs t1 (ks_chain s)) ->
  requests_in requests s tr -> Z.of_nat (size requests) <= MaxRequestKeyMapEntries ->
  exists pk, forall tid res, ks_calls (krun s tr) !! tid = Some (rid, GDone res) ->
    exists kp, res = Ok kp /\ publicKey kp = pk.
Proof.
  intros s Hpast Hw Ht Hwin [Hg1 Hg2]%Forall_app [Hq1 Hq2] Hset [kp Hkp] (Hr1 & Hr2 & Hr3) Hsize.
  assert (chain_ok t0 (ks_chain s)) as Hok by (eapply chain_ok_run; [|done..|apply chain_ok_start]; lia).
  unfold GetKeyPairs in Hkp. apply list_elem_of_omap in Hkp as (key & _ & Hkey).
  assert (exists k, pin_inv rid t0 t1 requests t0 s k) as [k Hp].
  { exists (Get t0 (requestKeyMap (ks_chain s)) rid). split; try done; [lia|..].
    - apply Get_item in Hkey as (it & Hit & He & _). destruct (co_keys _ _ Hok _ _ Hit) as (_ & Hc & <- & _).
      apply Z.ltb_ge in He. pose proof (time_sub_anti t1 _ _ Hc). lia.
    - exists key. by eexists.
    - intros key' Hk. destruct Hset as [Hn|(k & Hm & Hl)]; [congruence|].
      rewrite (Get_before _ _ _ t1 t0 ltac:(lia) Hm) in Hk. by injection Hk as <-.
    - intros t' Ht'. destruct Hset as [Hn|(k & Hm & Hl)]; [rewrite Hn; eapply Get_after; [|done]; lia|].
      rewrite (Get_before _ _ _ t1 t0 ltac:(lia) Hm). eapply Get_before; [|done]. lia.
    - intros tid call Hc. split; [by eapply Hr2|]. intros Hrid. by destruct (Hq1 _ _ Hc).
    - destruct (ks_rotation s); try done. by intros ->. }
  destruct (pin_inv_run rid t0 t1 requests Hwin Hsize tr t0 s k Hp Hw Hg2 Hr3) as (t' & k' & Hp').
  exists (default [] k'). intros tid res Hc. destruct (pi_calls _ _ _ _ _ _ _ Hp' _ _ Hc) as [_ Ho]. specialize (Ho eq_refl).
  destruct res as [kp'|]; [|done]. cbn in Ho. subst k'. eauto.
Qed.

(** A created keypair is retrievable by its 32-byte public key, and opens boxes
    sealed to it, until its expiration; afterwards retrieval and decryption
    both fail. *)
Theorem create_then_get Open now now' skc pub priv kp skc' ct :
  keychain_inv skc -> length pub = 32%nat -> is_i64 (expiration skc) ->
  timeToLive (keypairCache skc) = expiration skc ->
  expiration skc < max_duration ->
  CreateKeyPair now skc (Some (pub, priv)) = (Ok kp, skc') ->
  (now' - now <= expiration skc ->
   GetKeyPair now' skc' pub = Ok kp /\
   Decrypt Open now' kp ct = match Open ct pub priv with Some m => Ok m | None => Err DecryptionFailed end) /\
  (expiration skc < now' - now ->
   GetKeyPair now' skc' pub = Err KeypairNotFound /\ Decrypt Open now' kp ct = Err KeypairExpired).
Proof.
  intros Hi Hl Hexp Httl Hlt H. unfold CreateKeyPair, generateKeypair in H. injection H as <- <-.
  assert (getKeyID pub = pub) as Hid by (apply take_ge; lia).
  assert (glen pub = 32) as Hg by (unfold glen; lia).
  pose proof (Get_Set now now' (keypairCache skc) pub (mkKeypair pub priv (expiration skc) now) None pub (ki_keys _ Hi)) as E.
  rewrite decide_True in E by done. cbn [default] in E. rewrite Httl in E.
  unfold GetKeyPair, Decrypt. cbn [keypairCache publicKey privateKey creationTime kp_ttl].
  rewrite Hg, Hid. cbn [Z.eqb negb]. rewrite E.
  pose proof (time_sub_gt now' now (expiration skc) Hexp) as Hts.
  split; intros Ha;
    destruct (Z.ltb_spec (expiration skc) (time_sub now' now)), (Z.ltb_spec (now + expiration skc) now');
    try lia; done.
Qed.

(** ** Witnesses *)

(** A keychain holding one key, created at instant 0. *)
Definition one_key : boxKeychain :=
  (CreateKeyPair 0 (NewBoxKeychain None None None) (Some (sample_key 1, sample_key 11))).2.

Lemma one_key_inv : keychain_inv one_key.
Proof. apply CreateKeyPair_inv, New_keychain_inv. Qed.

(** Two calls for the same request: the first lists the keys, then a rotation
    happens and sweeps, the second lists the keys and pins first. *)
Definition first_key : list (Z * klabel) := [(0, LRotate (Some (sample_key 1, sample_key 11)))].

Definition race : list (Z * klabel) :=
  [(1, LCall 0 (sample_key 9)); (1, LCall 1 (sample_key 9));
   (2, LStep 0); (2, LStep 0); (2, LStep 0); (2, LStep 0);
   (3, LRotate (Some (sample_key 2, sample_key 12))); (3, LRotate None);
   (4, LStep 1); (4, LStep 1); (4, LStep 1); (4, LStep 1); (4, LStep 1); (4, LStep 1);
   (4, LCollectKeys); (4, LRotate None);
   (5, LStep 0); (6, LStep 0)].

Lemma same_request_same_key_witness :
  let s := krun (keychain_start None None None) first_key in
  let kp := mkKeypair (sample_key 2) (sample_key 12) DefaultKeypairExpiration 3 in
  ks_calls (krun s race) !! 0%nat = Some (sample_key 9, GDone (Ok kp)) /\
  ks_calls (krun s race) !! 1%nat = Some (sample_key 9, GDone (Ok kp)) /\
  exists pk, forall tid r, ks_calls (krun s race) !! tid = Some (sample_key 9, GDone r) ->
    exists kp, r = Ok kp /\ publicKey kp = pk.
Proof.
  intros s kp. split; [vm_compute; reflexivity|]. split; [vm_compute; reflexivity|].
  apply (same_request_same_key None None None first_key race (sample_key 9) 0 1 10 {[sample_key 9]}); fold s.
  - simpl. lia.
  - simpl. lia.
  - lia.
  - by_compute.
  - repeat constructor.
  - split; [|done]. intros tid call. change (ks_calls s) with (∅ : gmap nat (bytes * gk_pc)). by rewrite lookup_empty.
  - left. vm_compute. reflexivity.
  - exists (mkKeypair (sample_key 1) (sample_key 11) DefaultKeypairExpiration 0). vm_compute. constructor.
  - split_and!.
    + intros x Hx. vm_compute in Hx. by apply not_elem_of_nil in Hx.
    + intros tid call. change (ks_calls s) with (∅ : gmap nat (bytes * gk_pc)). by rewrite lookup_empty.
    + repeat constructor; by apply elem_of_singleton.
  - by_compute.
Defined.

(** With keypairs that live shorter than a mapping the guarantee can fail.  The keypairs here live for
    30 minutes and rotate every 10; the request was pinned to the first one.  At minute 31 calls 1 and 2 both find that
    keypair gone; call 1 deletes the mapping and fails, call 3 pins the request anew, and only
    then call 2 deletes what it takes for the old mapping.  Call 4, after a rotation, gets
    another keypair although the one of call 3 is still valid. *)
Definition late_delete : list (Z * klabel) :=
  let call t tid := [(t * minute, LCall tid (sample_key 9))] in
  let advance t tid n := replicate n (t * minute, LStep tid) in
  let rotate t i n := (t * minute, LRotate (Some (sample_key i, sample_key (i + 10)))) :: replicate n (t * minute, LRotate None) in
  [(0, LRotate (Some (sample_key 1, sample_key 11)))] ++
  call 5 0%nat ++ advance 5 0%nat 6%nat ++ rotate 10 2 4%nat ++ rotate 20 3 4%nat ++ rotate 30 4 4%nat ++
  call 31 1%nat ++ call 31 2%nat ++ advance 31 1%nat 2%nat ++ advance 31 2%nat 2%nat ++ advance 31 1%nat 1%nat ++
  call 31 3%nat ++ advance 31 3%nat 9%nat ++ advance 31 2%nat 1%nat ++
  rotate 40 5 2%nat ++ call 41 4%nat ++ advance 41 4%nat 10%nat.

Example late_delete_diverges :
  let s := krun (keychain_start (Some (10 * minute)) (Some (30 * minute)) None) late_delete in
  let kp i t := mkKeypair (sample_key i) (sample_key (i + 10)) (30 * minute) (t * minute) in
  ks_calls s !! 3%nat = Some (sample_key 9, GDone (Ok (kp 4 30))) /\
  ks_calls s !! 4%nat = Some (sample_key 9, GDone (Ok (kp 5 40))) /\
  Get (41 * minute) (keypairCache (ks_chain s)) (sample_key 4) = Some (kp 4 30).
Proof. vm_compute. done. Qed.

Lemma fresh_request_gets_newest_witness :
  mkKeypair (sample_key 1) (sample_key 11) DefaultKeypairExpiration 0 ∈ GetKeyPairs 5 one_key.
Proof.
  apply (fresh_request_gets_newest 5 6 one_key (sample_key 9)
    (mkKeypair (sample_key 1) (sample_key 11) DefaultKeypairExpiration 0)
    (GetKeyPairForRequest 5 one_key (sample_key 9)).2).
  - apply one_key_inv.
  - vm_compute. reflexivity.
  - vm_compute. reflexivity.
Defined.

Lemma create_then_get_witness :
  GetKeyPair (2 * hour) one_key (sample_key 1) =
  Ok (mkKeypair (sample_key 1) (sample_key 11) DefaultKeypairExpiration 0).
Proof.
  apply (create_then_get (fun _ _ _ => None) 0 (2 * hour) (NewBoxKeychain None None None)
    (sample_key 1) (sample_key 11)
    (mkKeypair (sample_key 1) (sample_key 11) DefaultKeypairExpiration 0) one_key []);
    try by_compute.
  - apply New_keychain_inv.
  - reflexivity.
Defined.
