(* ===== verification/Services.v ===== *)
(** * Services: signature verification and threshold share aggregation

    Models [src/enclave/services/signature-verifier/ed25519_signature_verifier.go],
    [src/enclave/services/combiner/tdh2easycombiner.go],
    [src/util/tdh2_nacl_box.go] and [src/util/symmetric_key_encrypt.go].
    ed25519 verification, TDH2, NaCl box and AES-GCM are parameters: functions of
    the code's arguments, with the laws a theorem needs as hypotheses.  The
    interface [SignatureVerifier] is what the enclave server relies on. *)

From S2P Require Import Prelude Types Cache Keychain.

(** ** Signature verification *)

Inductive verify_error :=
| InvalidSignatureLength (n : Z)
| NotFromAllowedSigner
| VerifyPanic (n : Z). (* ed25519.Verify panics on a public key of n bytes *)

#[export] Instance verify_error_eq_decision : EqDecision verify_error.
Proof. solve_decision. Defined.

(** [verified s m sig]: [sig] is a valid signature of [m] by [s].  A verifier
    returns one of the allowed signers, and only one that signed; which one
    does not depend on anything but its arguments. *)
Class SignatureVerifier (verified : bytes -> bytes -> bytes -> bool) := {
  VerifySignature : bytes -> bytes -> list bytes -> result verify_error bytes;
  VerifySignature_sound : forall m sig allowed s,
    VerifySignature m sig allowed = Ok s -> s ∈ allowed /\ verified s m sig = true;
}.

Section Ed25519.

(** [ed25519.Verify] on a 32-byte public key. *)
Variable ed25519_Verify : bytes -> bytes -> bytes -> bool.

Definition SignatureSize : Z := 64.
Definition PublicKeySize : Z := 32.

Fixpoint ed25519_loop (hash signature : bytes) (allowedSigners : list bytes) : result verify_error bytes :=
  match allowedSigners with
  | [] => Err NotFromAllowedSigner
  | pubKey :: rest =>
      if negb (glen pubKey =? PublicKeySize) then Err (VerifyPanic (glen pubKey))
      else if ed25519_Verify pubKey hash signature then Ok pubKey
      else ed25519_loop hash signature rest
  end.

Definition ed25519_VerifySignature (hash signature : bytes) (allowedSigners : list bytes)
    : result verify_error bytes :=
  if negb (glen signature =? SignatureSize) then Err (InvalidSignatureLength (glen signature))
  else ed25519_loop hash signature allowedSigners.

Lemma ed25519_loop_Ok hash sig allowed s :
  ed25519_loop hash sig allowed = Ok s ->
  exists l1 l2, allowed = l1 ++ s :: l2 /\ ed25519_Verify s hash sig = true /\
    Forall (fun p => ed25519_Verify p hash sig = false) l1.
Proof.
  induction allowed as [|p allowed IH]; [done|]. cbn [ed25519_loop].
  destruct (negb _); [done|]. destruct (ed25519_Verify p hash sig) eqn:E.
  - intros [= <-]. exists [], allowed. auto.
  - intros H. apply IH in H as (l1 & l2 & -> & Hv & Hf). exists (p :: l1), l2. auto.
Qed.

Lemma ed25519_sound m sig allowed s :
  ed25519_VerifySignature m sig allowed = Ok s -> s ∈ allowed /\ ed25519_Verify s m sig = true.
Proof.
  unfold ed25519_VerifySignature. destruct (negb _); [done|]. intros H.
  apply ed25519_loop_Ok in H as (l1 & l2 & -> & Hv & _). split; [|done].
  apply elem_of_app. right. apply elem_of_cons. auto.
Qed.

#[export] Instance ed25519SignatureVerifier : SignatureVerifier ed25519_Verify :=
  {| VerifySignature := ed25519_VerifySignature; VerifySignature_sound := ed25519_sound |}.

(** With well-formed keys the verifier decides membership exactly: it accepts
    a signature iff it has 64 bytes and some allowed signer verifies it, then
    names the first such signer, and otherwise reports the length or that no
    allowed signer matches; it never panics. *)
Theorem verify_signature_exact m sig allowed :
  Forall (fun p => length p = 32%nat) allowed ->
  match ed25519_VerifySignature m sig allowed with
  | Ok s => length sig = 64%nat /\
            exists l1 l2, allowed = l1 ++ s :: l2 /\ ed25519_Verify s m sig = true /\
              Forall (fun p => ed25519_Verify p m sig = false) l1
  | Err (InvalidSignatureLength n) => n = glen sig /\ length sig <> 64%nat
  | Err NotFromAllowedSigner => length sig = 64%nat /\ Forall (fun p => ed25519_Verify p m sig = false) allowed
  | Err (VerifyPanic _) => False
  end.
Proof.
  intros Hk. unfold ed25519_VerifySignature, SignatureSize, glen.
  destruct (Z.eqb_spec (Z.of_nat (length sig)) 64) as [Hl|Hl]; cbn [negb]; [|split; [done|lia]].
  assert (length sig = 64%nat) as Hl' by lia.
  induction Hk as [|p allowed Hp Hk IH]; cbn [ed25519_loop]; [auto|].
  unfold glen, PublicKeySize. rewrite Hp. cbn [Z.of_nat Pos.of_succ_nat Z.eqb negb].
  rewrite (proj2 (Z.eqb_eq _ _)) by done. cbn [negb].
  destruct (ed25519_Verify p m sig) eqn:E.
  - split; [done|]. exists [], allowed. auto.
  - destruct (ed25519_loop m sig allowed) as [s|[]]; try done.
    + destruct IH as (? & l1 & l2 & -> & ? & ?). split; [done|]. exists (p :: l1), l2. auto.
    + destruct IH. auto.
Qed.

Lemma ed25519_no_panic m sig allowed n :
  Forall (fun p => length p = 32%nat) allowed -> ed25519_VerifySignature m sig allowed <> Err (VerifyPanic n).
Proof.
  intros Hk. unfold ed25519_VerifySignature. destruct (negb _); [done|].
  induction Hk as [|p allowed Hp Hk IH]; cbn [ed25519_loop]; [done|].
  unfold glen. rewrite Hp. rewrite (proj2 (Z.eqb_eq _ _)) by done. cbn [negb]. by destruct (ed25519_Verify _ _ _).
Qed.

End Ed25519.

(** ** Threshold decryption (TDH2) *)

(** The operations of [github.com/smartcontractkit/tdh2/go/tdh2/tdh2easy] the code calls. *)
Class TDH2 := {
  tdh2_PublicKey : Type;
  tdh2_Ciphertext : Type;
  tdh2_PrivateShare : Type;
  tdh2_Share : Type;
  pk_Unmarshal : bytes -> option tdh2_PublicKey;
  ct_UnmarshalVerify : bytes -> tdh2_PublicKey -> option tdh2_Ciphertext;
  share_Unmarshal : bytes -> option tdh2_Share;
  share_Marshal : tdh2_Share -> option bytes;
  tdh2_Decrypt : tdh2_Ciphertext -> tdh2_PrivateShare -> option tdh2_Share;
  VerifyShare : tdh2_Ciphertext -> tdh2_PublicKey -> tdh2_Share -> bool;
  tdh2_Aggregate : tdh2_Ciphertext -> list tdh2_Share -> Z -> option bytes;
}.

Inductive share_fault := FaultUnmarshal | FaultVerify.

Inductive aggregate_error :=
| NotEnoughShares (valid threshold : Z) (invalid : list (Z * share_fault))
| CannotDecrypt
| BadPublicKey
| BadCiphertext.

Inductive seal_error :=
| SealDecryptFailed
| SealVerifyFailed
| SealMarshalFailed
| SealBoxFailed.

Section Tdh2.
Context `{TDH2}.

(** The loop over the shares, from index [i]: valid shares so far and faults so far. *)
Fixpoint collect_shares (ct : tdh2_Ciphertext) (pk : tdh2_PublicKey) (threshold i : Z)
    (shares : list bytes) (dec : list tdh2_Share) (faults : list (Z * share_fault))
    : list tdh2_Share * list (Z * share_fault) :=
  match shares with
  | [] => (dec, faults)
  | s :: rest =>
      match share_Unmarshal s with
      | None => collect_shares ct pk threshold (i + 1) rest dec (faults ++ [(i, FaultUnmarshal)])
      | Some share =>
          if VerifyShare ct pk share then
            let dec' := dec ++ [share] in
            if glen dec' =? threshold then (dec', faults)
            else collect_shares ct pk threshold (i + 1) rest dec' faults
          else collect_shares ct pk threshold (i + 1) rest dec (faults ++ [(i, FaultVerify)])
      end
  end.

Definition TDH2AggregateDecryptionShares (ct : tdh2_Ciphertext) (shares : list bytes)
    (pk : tdh2_PublicKey) (threshold : Z) : result aggregate_error bytes :=
  let '(decShares, invalidShares) := collect_shares ct pk threshold 0 shares [] [] in
  if glen decShares <? threshold then Err (NotEnoughShares (glen decShares) threshold invalidShares)
  else match tdh2_Aggregate ct decShares (glen decShares) with
       | Some decrypted => Ok decrypted
       | None => Err CannotDecrypt
       end.

Definition AggregateShares (ciphertext : bytes) (shares : list bytes) (tdh2PublicKeyBytes : bytes)
    (threshold : Z) : result aggregate_error bytes :=
  match pk_Unmarshal tdh2PublicKeyBytes with
  | None => Err BadPublicKey
  | Some publicKey =>
      match ct_UnmarshalVerify ciphertext publicKey with
      | None => Err BadCiphertext
      | Some ctxt => TDH2AggregateDecryptionShares ctxt shares publicKey threshold
      end
  end.

Definition TDH2NACLBoxComputeEncryptedDecryptionShare
    (SealAnonymous : bytes -> bytes -> option bytes)
    (priv : tdh2_PrivateShare) (pk : tdh2_PublicKey) (ct : tdh2_Ciphertext)
    (recipientPublicKey : bytes) : result seal_error bytes :=
  match tdh2_Decrypt ct priv with
  | None => Err SealDecryptFailed
  | Some decShare =>
      if negb (VerifyShare ct pk decShare) then Err SealVerifyFailed
      else match share_Marshal decShare with
           | None => Err SealMarshalFailed
           | Some b =>
               match SealAnonymous b recipientPublicKey with
               | None => Err SealBoxFailed
               | Some enc => Ok enc
               end
           end
  end.

(** Specification: the valid shares of a list, in order. *)
Definition valid_share (ct : tdh2_Ciphertext) (pk : tdh2_PublicKey) (s : bytes) : option tdh2_Share :=
  match share_Unmarshal s with
  | Some share => if VerifyShare ct pk share then Some share else None
  | None => None
  end.

Lemma collect_shares_spec ct pk threshold shares : forall i dec faults,
  glen dec < threshold ->
  (collect_shares ct pk threshold i shares dec faults).1 =
  take (Z.to_nat threshold) (dec ++ omap (valid_share ct pk) shares).
Proof.
  induction shares as [|s rest IH]; intros i dec faults Hlt; cbn [collect_shares].
  - cbn. rewrite app_nil_r, take_ge; [done|]. unfold glen in Hlt. lia.
  - cbn [omap list_omap]. unfold valid_share at 1. destruct (share_Unmarshal s) as [share|]; [|by apply IH].
    destruct (VerifyShare ct pk share); [|by apply IH]. rewrite glen_snoc.
    destruct (Z.eqb_spec (glen dec + 1) threshold) as [E|E].
    + cbn [fst]. rewrite (cons_middle share dec (omap _ rest)), app_assoc, take_app_length'; [done|].
      rewrite length_app. unfold glen in E. simpl. lia.
    + rewrite IH by (rewrite glen_snoc; lia). by rewrite <- app_assoc.
Qed.

Lemma aggregate_valid ct pk shares threshold :
  0 < threshold ->
  TDH2AggregateDecryptionShares ct shares pk threshold =
  if glen (omap (valid_share ct pk) shares) <? threshold
  then Err (NotEnoughShares (glen (omap (valid_share ct pk) shares)) threshold
              (collect_shares ct pk threshold 0 shares [] []).2)
  else match tdh2_Aggregate ct (take (Z.to_nat threshold) (omap (valid_share ct pk) shares)) threshold with
       | Some m => Ok m
       | None => Err CannotDecrypt
       end.
Proof.
  intros Ht. set (valid := omap (valid_share ct pk) shares). unfold TDH2AggregateDecryptionShares.
  pose proof (collect_shares_spec ct pk threshold shares 0 [] []) as E.
  destruct (collect_shares ct pk threshold 0 shares [] []) as [dec faults]. cbn [fst snd] in *.
  rewrite E by (unfold glen; simpl; lia). cbn [app]. fold valid. clear E.
  destruct (Z.ltb_spec (glen valid) threshold) as [Hl|Hl].
  - rewrite take_ge by (unfold glen in Hl; lia). by rewrite (proj2 (Z.ltb_lt _ _) Hl).
  - assert (glen (take (Z.to_nat threshold) valid) = threshold) as ->
      by (unfold glen in *; rewrite length_take; lia).
    by rewrite (proj2 (Z.ltb_ge _ _)) by lia.
Qed.

(** Aggregation uses exactly the first [threshold] shares that parse and verify
    against the ciphertext, whatever invalid shares surround them: it fails
    with the count when there are fewer, and otherwise combines those. *)
Theorem aggregate_first_valid ct pk shares threshold :
  0 < threshold ->
  let valid := omap (valid_share ct pk) shares in
  TDH2AggregateDecryptionShares ct shares pk threshold =
  if glen valid <? threshold
  then Err (NotEnoughShares (glen valid) threshold
              (collect_shares ct pk threshold 0 shares [] []).2)
  else match tdh2_Aggregate ct (take (Z.to_nat threshold) valid) threshold with
       | Some m => Ok m
       | None => Err CannotDecrypt
       end.
Proof. intros Ht valid. by apply aggregate_valid. Qed.


(** Decryption of a node's encrypted shares: those that do not open are skipped. *)
Definition decrypt_shares (dec : bytes -> result keychain_error bytes) (encrypted : list bytes) : list bytes :=
  omap (fun e => match dec e with Ok d => Some d | Err _ => None end) encrypted.

(** End to end: shares that honest vault nodes computed for a ciphertext and
    sealed to a live enclave keypair open, parse and verify, so once there are
    [threshold] of them aggregation combines [threshold] valid shares, however
    many garbage or foreign shares are interspersed.  The laws used are that a
    box opens with the key it was sealed to and that shares unmarshal to what
    was marshalled. *)
Theorem honest_shares_suffice
    (Seal : bytes -> bytes -> option bytes) (Open : bytes -> bytes -> bytes -> option bytes)
    now kp ct pk encrypted threshold honest
    (Hbox : forall m e, Seal m (publicKey kp) = Some e -> Open e (publicKey kp) (privateKey kp) = Some m)
    (Hmarshal : forall s b, share_Marshal s = Some b -> share_Unmarshal b = Some s)
    (Hlive : now <= creationTime kp + kp_ttl kp)
    (Hhonest : Forall (fun e => exists priv,
       TDH2NACLBoxComputeEncryptedDecryptionShare Seal priv pk ct (publicKey kp) = Ok e) honest)
    (Hsub : sublist honest encrypted) (Hthr : 0 < threshold <= glen honest) :
  exists used, length used = Z.to_nat threshold /\
    Forall (fun s => VerifyShare ct pk s = true) used /\
    TDH2AggregateDecryptionShares ct (decrypt_shares (Decrypt Open now kp) encrypted) pk threshold =
    match tdh2_Aggregate ct used threshold with Some m => Ok m | None => Err CannotDecrypt end.
Proof.
  set (f := fun e => match Decrypt Open now kp e with Ok d => Some d | Err _ => None end).
  set (valid := omap (valid_share ct pk) (omap f encrypted)).
  assert (Forall (fun e => is_Some (f e ≫= valid_share ct pk)) honest) as Hv.
  { eapply Forall_impl; [exact Hhonest|]. intros e [priv He].
    unfold TDH2NACLBoxComputeEncryptedDecryptionShare in He.
    destruct (tdh2_Decrypt ct priv) as [sh|]; [|done].
    destruct (VerifyShare ct pk sh) eqn:Ev; cbn [negb] in He; [|done].
    destruct (share_Marshal sh) as [b|] eqn:Em; [|done].
    destruct (Seal b (publicKey kp)) as [e'|] eqn:Es; [|done]. injection He as ->.
    unfold f, Decrypt. rewrite (proj2 (Z.ltb_ge _ _)) by lia. rewrite (Hbox _ _ Es). cbn.
    unfold valid_share. rewrite (Hmarshal _ _ Em), Ev. eauto. }
  assert (glen honest <= glen valid) as Hlen.
  { clear Hthr Hhonest. unfold valid. induction Hsub as [|e l1 l2 Hs IH|e l1 l2 Hs IH].
    - done.
    - inversion Hv as [|? ? [sh Hsh] Hv']; subst. specialize (IH Hv'). cbn [omap list_omap].
      destruct (f e) as [d|]; [|done]. cbn [omap list_omap]. cbn in Hsh. rewrite Hsh, !glen_cons. lia.
    - specialize (IH Hv). cbn [omap list_omap]. destruct (f e) as [d|]; [|done].
      cbn [omap list_omap]. destruct (valid_share ct pk d); [rewrite glen_cons; lia | done]. }
  exists (take (Z.to_nat threshold) valid). split; [unfold glen in *; rewrite length_take; lia|].
  split.
  - apply Forall_take, Forall_forall. intros s Hs. unfold valid in Hs. apply list_elem_of_omap in Hs as (d & _ & Hd).
    unfold valid_share in Hd. destruct (share_Unmarshal d) as [sh|]; [|done].
    destruct (VerifyShare ct pk sh) eqn:E; [by injection Hd as <- | done].
  - rewrite aggregate_valid by lia. unfold decrypt_shares. fold f. fold valid.
    by rewrite (proj2 (Z.ltb_ge _ _)) by lia.
Qed.

End Tdh2.

(** ** AES-GCM *)

Section AesGcm.

(** [gcm_Seal key nonce plaintext] and [gcm_Open key nonce ciphertext]. *)
Variable gcm_Seal : bytes -> bytes -> bytes -> bytes.
Variable gcm_Open : bytes -> bytes -> bytes -> option bytes.

Inductive aes_error := BadKeySize | RandFailed | CiphertextTooShort | OpenFailed.

Definition gcmNonceSize : nat := 12.

(** [aes.NewCipher] accepts keys of 16, 24 and 32 bytes. *)
Definition aes_key_ok (key : bytes) : bool :=
  Nat.eqb (length key) 16 || Nat.eqb (length key) 24 || Nat.eqb (length key) 32.

(** [nonce] is what [io.ReadFull] got from the random source. *)
Definition AESGCMEncrypt (nonce : option bytes) (plaintext key : bytes) : result aes_error bytes :=
  if negb (aes_key_ok key) then Err BadKeySize
  else match nonce with
       | None => Err RandFailed
       | Some nonce => Ok (nonce ++ gcm_Seal key nonce plaintext)
       end.

Definition AESGCMDecrypt (blob key : bytes) : result aes_error bytes :=
  if negb (aes_key_ok key) then Err BadKeySize
  else if Nat.ltb (length blob) gcmNonceSize then Err CiphertextTooShort
  else match gcm_Open key (take gcmNonceSize blob) (drop gcmNonceSize blob) with
       | Some plaintext => Ok plaintext
       | None => Err OpenFailed
       end.

(** What the enclave encrypts, the user's decryption routine gives back. *)
Theorem aesgcm_roundtrip key nonce p blob
    (Hgcm : forall k n m, gcm_Open k n (gcm_Seal k n m) = Some m) :
  length nonce = gcmNonceSize -> AESGCMEncrypt (Some nonce) p key = Ok blob ->
  AESGCMDecrypt blob key = Ok p.
Proof.
  intros Hn H. unfold AESGCMEncrypt, AESGCMDecrypt in *. destruct (negb (aes_key_ok key)); [done|].
  injection H as <-. rewrite (proj2 (Nat.ltb_ge _ _)) by (rewrite length_app; lia).
  by rewrite take_app_length', drop_app_length', Hgcm.
Qed.

End AesGcm.

(** ** Witnesses: a toy instance of the cryptography, with the laws *)

(** A "signature" of [m] by [s] is the signer's key twice. *)
Definition toy_Verify (s m sig : bytes) : bool := bool_decide (sig = s ++ s).

Definition toy_tdh2 : TDH2 := {|
  tdh2_PublicKey := bytes;
  tdh2_Ciphertext := bytes;
  tdh2_PrivateShare := byte;
  tdh2_Share := byte * bytes;
  pk_Unmarshal := fun b => Some b;
  ct_UnmarshalVerify := fun c _ => Some c;
  share_Unmarshal := fun b => match b with [] => None | x :: c => Some (x, c) end;
  share_Marshal := fun s => Some (s.1 :: s.2);
  tdh2_Decrypt := fun ct priv => Some (priv, ct);
  VerifyShare := fun ct _ s => bool_decide (s.2 = ct);
  tdh2_Aggregate := fun ct shares n => Some (map fst shares ++ ct);
|}.

Definition toy_Seal (m pub : bytes) : option bytes := Some (pub ++ m).
Definition toy_Open (e pub priv : bytes) : option bytes :=
  if bool_decide (take (length pub) e = pub) then Some (drop (length pub) e) else None.

Lemma toy_box m pub priv e : toy_Seal m pub = Some e -> toy_Open e pub priv = Some m.
Proof.
  intros [= <-]. unfold toy_Open. rewrite take_app_length, drop_app_length. by rewrite bool_decide_true.
Qed.

Lemma verify_signature_exact_witness :
  match ed25519_VerifySignature toy_Verify [] (zero32 ++ zero32) [sample_key 1; zero32] with
  | Ok s => length (zero32 ++ zero32) = 64%nat /\
            exists l1 l2, [sample_key 1; zero32] = l1 ++ s :: l2 /\ toy_Verify s [] (zero32 ++ zero32) = true /\
              Forall (fun p => toy_Verify p [] (zero32 ++ zero32) = false) l1
  | Err (InvalidSignatureLength n) => n = glen (zero32 ++ zero32) /\ length (zero32 ++ zero32) <> 64%nat
  | Err NotFromAllowedSigner => length (zero32 ++ zero32) = 64%nat /\
      Forall (fun p => toy_Verify p [] (zero32 ++ zero32) = false) [sample_key 1; zero32]
  | Err (VerifyPanic _) => False
  end.
Proof. apply (verify_signature_exact toy_Verify). by_compute. Defined.

Lemma aggregate_first_valid_witness :
  TDH2AggregateDecryptionShares (H := toy_tdh2) (bs "c") [bs "x"; bs "1c"; bs "2c"; bs "3c"] [] 2 = Ok (bs "12c").
Proof. rewrite (aggregate_first_valid (H := toy_tdh2)); [vm_compute; reflexivity | lia]. Defined.

Definition live_key : boxKeypair := mkKeypair (sample_key 1) (sample_key 2) hour 0.

Lemma honest_shares_suffice_witness :
  exists used, length used = 2%nat /\
    Forall (fun s => VerifyShare (TDH2 := toy_tdh2) (bs "c") [] s = true) used /\
    TDH2AggregateDecryptionShares (H := toy_tdh2) (bs "c")
      (decrypt_shares (Decrypt toy_Open 5 live_key)
         [bs "garbage"; sample_key 1 ++ bs "1c"; sample_key 1 ++ bs "zz"; sample_key 1 ++ bs "2c"]) [] 2 =
    match tdh2_Aggregate (TDH2 := toy_tdh2) (bs "c") used 2 with Some m => Ok m | None => Err CannotDecrypt end.
Proof.
  apply (honest_shares_suffice (H := toy_tdh2) toy_Seal toy_Open 5 live_key (bs "c") []
    [bs "garbage"; sample_key 1 ++ bs "1c"; sample_key 1 ++ bs "zz"; sample_key 1 ++ bs "2c"]
    2 [sample_key 1 ++ bs "1c"; sample_key 1 ++ bs "2c"]).
  - intros m e. apply toy_box.
  - intros [x c] b [= <-]. reflexivity.
  - by_compute.
  - repeat constructor; [exists (byte_of_Z 49) | exists (byte_of_Z 50)]; vm_compute; reflexivity.
  - apply sublist_cons, sublist_skip, sublist_cons, sublist_skip. constructor.
  - by_compute.
Defined.

Lemma aesgcm_roundtrip_witness :
  AESGCMDecrypt (fun _ _ c => Some c) (repeat (byte_of_Z 1) 12 ++ bs "secret") zero32 = Ok (bs "secret").
Proof.
  apply (aesgcm_roundtrip (fun _ _ m => m) (fun _ _ c => Some c) zero32 (repeat (byte_of_Z 1) 12)).
  - reflexivity.
  - reflexivity.
  - reflexivity.
Defined.
