(* ===== verification/Emitter.v ===== *)
(** * Emitter: metrics collected for a response

    Models [src/enclave/server/response_emitter.go].  Details maps are values:
    the code clones them on the way in and on the way out, so no caller shares
    one with the emitter. *)

From Stdlib Require Import SpecFloat.
From S2P Require Import Prelude Float Types.

Record ResponseEmitter := mkEmitter {
  em_metrics : list MetricEvent;
  em_startTime : Z;
}.

Record EnclaveErrorResponse := mkErrorResponse {
  eer_Error : string;
  eer_Metrics : gmap string (gmap string any);
  eer_MetricEvents : list MetricEvent;
}.

Definition duration_key : string := "duration_seconds".

(** [math.Round(f/0.01) * 0.01]; the constant is the float64 nearest to it. *)
Definition durationBucketSeconds : float64 := S754_finite false 5764607523034235 (-59).
Definition round_to_bucket (f : float64) : float64 := float_mul (float_round (float_div f durationBucketSeconds)) durationBucketSeconds.

Definition NewResponseEmitter (now : Z) : ResponseEmitter := mkEmitter [] now.

Definition round_value (k : string) (v : any) : any :=
  if decide (k = duration_key) then
    match v with AFloat f => AFloat (round_to_bucket f) | _ => v end
  else v.

Definition roundDurations (details : gmap string any) : gmap string any :=
  map_imap (fun k v => Some (round_value k v)) details.

Definition Emit (e : ResponseEmitter) (event : string) (details : gmap string any) : ResponseEmitter :=
  mkEmitter (em_metrics e ++ [mkEvent event (roundDurations details)]) (em_startTime e).

Definition Snapshot (e : ResponseEmitter) : gmap string (gmap string any) * list MetricEvent :=
  (fold_left (fun m ev => <[Event ev := Details ev]> m) (em_metrics e) ∅, em_metrics e).

Definition GetMetrics (e : ResponseEmitter) : gmap string (gmap string any) := (Snapshot e).1.
Definition GetMetricEvents (e : ResponseEmitter) : list MetricEvent := (Snapshot e).2.

(** The error body: the message and the metrics collected so far. *)
Definition WriteErrorResponse (e : ResponseEmitter) (msg : string) (now statusCode : Z) : ResponseEmitter * EnclaveErrorResponse :=
  let e' := Emit e "request_completed"
    (<["endpoint" := AString "execute"]> (<["outcome" := AString "error"]>
     (<["status_code" := AInt statusCode]> (<[duration_key := AFloat (seconds_of (time_sub now (em_startTime e)))]> ∅)))) in
  (e', mkErrorResponse msg (Snapshot e').1 (Snapshot e').2).

(** Events emitted one after the other. *)
Definition emit_all (e : ResponseEmitter) (evs : list (string * gmap string any)) : ResponseEmitter :=
  fold_left (fun e ev => Emit e ev.1 ev.2) evs e.

(** An event as it is recorded. *)
Definition as_metric (e : string * gmap string any) : MetricEvent := mkEvent e.1 (roundDurations e.2).

(** A details map whose duration, if it is a float, is a multiple of the bucket. *)
Definition bucketed (d : gmap string any) : Prop :=
  forall f, d !! duration_key = Some (AFloat f) -> exists g, f = round_to_bucket g.

Lemma roundDurations_bucketed d : bucketed (roundDurations d).
Proof.
  intros f. unfold roundDurations. rewrite map_lookup_imap.
  destruct (d !! duration_key) as [v|]; [|done]. cbn. unfold round_value. rewrite decide_True by done.
  destruct v; try done. intros [= <-]. eauto.
Qed.

Lemma roundDurations_other d k : k <> duration_key -> roundDurations d !! k = d !! k.
Proof.
  intros Hk. unfold roundDurations. rewrite map_lookup_imap.
  destruct (d !! k) as [v|]; [|done]. cbn. unfold round_value. by rewrite decide_False.
Qed.

Lemma emit_all_events e evs :
  em_metrics (emit_all e evs) = em_metrics e ++ map as_metric evs.
Proof.
  revert e. induction evs as [|ev evs IH]; intros e; cbn [emit_all fold_left map].
  - by rewrite app_nil_r.
  - unfold emit_all in IH. rewrite IH. cbn [Emit em_metrics]. by rewrite <- app_assoc.
Qed.

Lemma last_wins (l : list MetricEvent) name : forall m : gmap string (gmap string any),
  fold_left (fun m ev => <[Event ev := Details ev]> m) l m !! name =
  match find_some (fun ev => if decide (Event ev = name) then Some (Details ev) else None) (rev l) with
  | Some d => Some d
  | None => m !! name
  end.
Proof.
  induction l as [|ev l IH] using rev_ind; intros m; [done|].
  rewrite fold_left_app, rev_app_distr. cbn [fold_left rev app find_some].
  destruct (decide (Event ev = name)) as [<-|Hne].
  - by rewrite lookup_insert_eq.
  - rewrite lookup_insert_ne by done. apply IH.
Qed.

(** What a response reports: every emitted event is listed once, in order,
    with its details unchanged except that durations are rounded to the 10 ms
    bucket; the legacy map agrees with that list, the last occurrence of a
    name winning. *)
Theorem emitter_reports now evs name :
  let e := emit_all (NewResponseEmitter now) evs in
  map Event (GetMetricEvents e) = map fst evs /\
  (forall i ev, GetMetricEvents e !! i = Some ev ->
     bucketed (Details ev) /\
     exists d, evs !! i = Some (Event ev, d) /\ forall k, k <> duration_key -> Details ev !! k = d !! k) /\
  GetMetrics e !! name =
    find_some (fun ev => if decide (Event ev = name) then Some (Details ev) else None)
      (rev (GetMetricEvents e)).
Proof.
  intros e. unfold GetMetricEvents, GetMetrics, Snapshot. cbn [fst snd].
  assert (em_metrics e = map as_metric evs) as E
    by (unfold e; by rewrite emit_all_events).
  rewrite E. split; [|split].
  - by rewrite map_map.
  - intros i ev H. rewrite list_lookup_fmap in H.
    destruct (evs !! i) as [[n d]|]; [|done]. injection H as <-. cbn [Event Details].
    split; [apply roundDurations_bucketed|]. exists d. split; [done|]. intros. by apply roundDurations_other.
  - rewrite last_wins. rewrite lookup_empty. by destruct (find_some _ _).
Qed.
