(* ===== verification/Observability.v ===== *)
(** * Observability: metrics and events of the executor

    Models [src/capabilities/framework/metrics.go], [beholder_events.go],
    [capability_events.go] and [user_logs.go], and the scoped emitter of
    [src/enclave-client/pool.go]: which events of an enclave become metrics, under
    which labels, and which become workflow events.

    The meter of OpenTelemetry is an argument, which refuses some instrument names;
    what reaches it is a list of samples.  A details map is visited in an unspecified
    order, so the attributes of a sample are a map.  The mutex makes each creation of
    an instrument one step. *)

From Stdlib Require Import SpecFloat.
From S2P Require Import Prelude Float Codec Text Utf8 Types Emitter.

Record RequestMetadata := mkMetadata {
  WorkflowID : string;
  WorkflowExecutionID : string;
  WorkflowOwner : string;
  ReferenceID : string;
  OrgID : string;
  WorkflowDonID : Z;
  WorkflowName : string;
  WorkflowRegistryAddress : string;
  WorkflowRegistryChainSelector : string;
  EngineVersion : string;
}.

(** ** Attributes *)

Inductive attribute :=
| AttrString (s : string)
| AttrFloat64 (f : float64)
| AttrInt (z : Z)
| AttrBool (b : bool).

Definition allowedMetricAttributes : list string :=
  ["component"; "enclave.id"; "endpoint"; "outcome"; "status_code"; "capability_id"; "method"; "step_ref"; "success";
   "error_type"; "num_signatures"; "num_ciphertexts"; "num_requests"; "max_concurrent"; "metric_type"; "workflow.id";
   "workflow.name"; "workflow.owner"; "org.id"]%string.

Definition allowedAttribute (k : string) : bool := bool_decide (k ∈ allowedMetricAttributes).

Definition droppedMetricEvents : list string := ["request_id"%string].

(** ** Names *)

(** [[A-Za-z0-9_./-]]. *)
Definition legal_char (c : byte) : bool :=
  let z := Z_of_byte c in
  (65 <=? z) && (z <=? 90) || (97 <=? z) && (z <=? 122) || (46 <=? z) && (z <=? 57) || (z =? 95) || (z =? 45).

Definition underscore : byte := byte_of_Z 95.

(** Every rune outside the set is replaced, a stray byte counts as one. *)
Fixpoint sanitize_from (skip : nat) (s : bytes) : bytes :=
  match s with
  | [] => []
  | c :: t =>
      match skip with
      | S skip => sanitize_from skip t
      | O => (if legal_char c then c else underscore) :: sanitize_from (default 0%nat (rune_tail s)) t
      end
  end.
Definition sanitizeName (name : string) : string := string_of (sanitize_from 0 (bs name)).

(** ** The emitter of metrics *)

Record MetricsEmitter := mkMetricsEmitter {
  baseName : string;
  counters : gset string;
  histograms : gset string;
}.

Definition NewMetricsEmitter (name : string) : MetricsEmitter := mkMetricsEmitter name ∅ ∅.

Inductive sample :=
| CounterAdd (key : string) (value : Z) (attrs : gmap string attribute)
| HistogramRecord (key : string) (value : float64) (attrs : gmap string attribute).

Section Meter.
(** The meter creates a counter, a histogram of this name; [Sprint] is
    [fmt.Sprintf] of a value that is no scalar. *)
Variables (Int64Counter Float64Histogram : string -> bool) (Sprint : any -> string).

Definition attribute_of (v : any) : attribute :=
  match v with
  | AString s => AttrString s
  | AFloat f => AttrFloat64 f
  | AInt z => AttrInt z
  | ABool b => AttrBool b
  | AExecuteError _ _ => AttrString (Sprint v)
  end.

Definition attributes (details : gmap string any) : gmap string attribute :=
  map_imap (fun k v => if bool_decide (k = duration_key) then None
                       else if allowedAttribute k then Some (attribute_of v) else None) details.

(** The duration of an event, if it is a float64. *)
Definition duration_of (details : gmap string any) : option float64 :=
  match details !! duration_key with Some (AFloat d) => Some d | _ => None end.

Definition metric_key (m : MetricsEmitter) (name : string) : string := sanitizeName (baseName m ++ "." ++ name).

Definition getOrCreateCounterAndAdd (m : MetricsEmitter) (name : string) (value : Z) (attrs : gmap string attribute)
    : MetricsEmitter * list sample :=
  let key := metric_key m name in
  if bool_decide (key ∈ counters m) then (m, [CounterAdd key value attrs])
  else if Int64Counter key then (mkMetricsEmitter (baseName m) ({[ key ]} ∪ counters m) (histograms m), [CounterAdd key value attrs])
  else (m, []).

Definition getOrCreateHistogramAndRecord (m : MetricsEmitter) (name : string) (value : float64) (attrs : gmap string attribute)
    : MetricsEmitter * list sample :=
  let key := metric_key m name in
  if bool_decide (key ∈ histograms m) then (m, [HistogramRecord key value attrs])
  else if Float64Histogram key then (mkMetricsEmitter (baseName m) (counters m) ({[ key ]} ∪ histograms m), [HistogramRecord key value attrs])
  else (m, []).

Definition Metrics_Emit (m : MetricsEmitter) (event : string) (details : gmap string any) : MetricsEmitter * list sample :=
  if bool_decide (event ∈ droppedMetricEvents) then (m, [])
  else
    let attrs := attributes details in
    let '(m, adds) := getOrCreateCounterAndAdd m event 1 attrs in
    match duration_of details with
    | None => (m, adds)
    | Some d => let '(m, records) := getOrCreateHistogramAndRecord m (event ++ ".duration") d attrs in (m, adds ++ records)
    end.

(** Events emitted one after the other. *)
Fixpoint emit_events (m : MetricsEmitter) (evs : list MetricEvent) : MetricsEmitter * list sample :=
  match evs with
  | [] => (m, [])
  | ev :: evs =>
      let '(m, samples) := Metrics_Emit m (Event ev) (Details ev) in
      let '(m, rest) := emit_events m evs in
      (m, samples ++ rest)
  end.

(** *** What is counted *)

(** An event counts once, and once more as a duration if it has one, unless it is
    dropped or the meter refuses the instrument. *)
Definition samples_of (base : string) (ev : MetricEvent) : list sample :=
  let key name := sanitizeName (base ++ "." ++ name) in
  let attrs := attributes (Details ev) in
  if bool_decide (Event ev ∈ droppedMetricEvents) then []
  else
    (if Int64Counter (key (Event ev)) then [CounterAdd (key (Event ev)) 1 attrs] else []) ++
    match duration_of (Details ev) with
    | Some d => let k := key (Event ev ++ ".duration")%string in if Float64Histogram k then [HistogramRecord k d attrs] else []
    | None => []
    end.

(** Instruments were created. *)
Definition emitter_inv (m : MetricsEmitter) : Prop :=
  (forall k, k ∈ counters m -> Int64Counter k = true) /\ (forall k, k ∈ histograms m -> Float64Histogram k = true).

Lemma counter_exact m name v attrs : emitter_inv m ->
  exists m', getOrCreateCounterAndAdd m name v attrs = (m', if Int64Counter (metric_key m name) then [CounterAdd (metric_key m name) v attrs] else []) /\
    emitter_inv m' /\ baseName m' = baseName m.
Proof.
  intros [Hc Hh]. unfold getOrCreateCounterAndAdd. case_bool_decide as Hk; [rewrite (Hc _ Hk); by exists m|].
  destruct (Int64Counter (metric_key m name)) eqn:E; [|by exists m]. eexists. split; [done|]. split; [|done].
  split; cbn [counters histograms]; [|done]. set_solver.
Qed.

Lemma histogram_exact m name v attrs : emitter_inv m ->
  exists m', getOrCreateHistogramAndRecord m name v attrs =
      (m', if Float64Histogram (metric_key m name) then [HistogramRecord (metric_key m name) v attrs] else []) /\
    emitter_inv m' /\ baseName m' = baseName m.
Proof.
  intros [Hc Hh]. unfold getOrCreateHistogramAndRecord. case_bool_decide as Hk; [rewrite (Hh _ Hk); by exists m|].
  destruct (Float64Histogram (metric_key m name)) eqn:E; [|by exists m]. eexists. split; [done|]. split; [|done].
  split; cbn [counters histograms]; [done|]. set_solver.
Qed.

Lemma emit_exact m ev : emitter_inv m ->
  exists m', Metrics_Emit m (Event ev) (Details ev) = (m', samples_of (baseName m) ev) /\ emitter_inv m' /\ baseName m' = baseName m.
Proof.
  intros Hm. unfold Metrics_Emit, samples_of. case_bool_decide; [by exists m|].
  destruct (counter_exact m (Event ev) 1 (attributes (Details ev)) Hm) as (m1 & -> & Hm1 & Hb1).
  destruct (duration_of (Details ev)) as [d|]; [|exists m1; by rewrite app_nil_r].
  destruct (histogram_exact m1 (Event ev ++ ".duration") d (attributes (Details ev)) Hm1) as (m2 & -> & Hm2 & Hb2).
  exists m2. unfold metric_key in *. rewrite Hb2, Hb1. done.
Qed.

(** Caching the instruments changes nothing. *)
Lemma emit_events_exact evs : forall m, emitter_inv m -> (emit_events m evs).2 = concat (map (samples_of (baseName m)) evs).
Proof.
  induction evs as [|ev evs IH]; intros m Hm; [done|]. cbn [emit_events map concat].
  destruct (emit_exact m ev Hm) as (m' & -> & Hm' & Hb). specialize (IH m' Hm'). destruct (emit_events m' evs) as [m2 rest].
  cbn [snd] in *. by rewrite IH, Hb.
Qed.

Lemma attributes_lookup d k :
  attributes d !! k = if bool_decide (k = duration_key) then None else if allowedAttribute k then attribute_of <$> d !! k else None.
Proof.
  unfold attributes. rewrite map_lookup_imap. destruct (d !! k); cbn; repeat case_match; done.
Qed.

End Meter.

Lemma sanitize_legal s : forall skip, Forall (fun c => legal_char c = true) (sanitize_from skip s).
Proof.
  induction s as [|c s IH]; intros [|skip]; cbn [sanitize_from]; [done..| |apply IH]. constructor; [|apply IH].
  by destruct (legal_char c) eqn:E.
Qed.

(** ** Scopes *)

(** A scoped emitter is its defaults: details win over them. *)
Definition scoped (defaults : gmap string any) (event : string) (details : gmap string any) : MetricEvent :=
  mkEvent event (details ∪ defaults).
Definition WithDefaults (defaults additional : gmap string any) : gmap string any := additional ∪ defaults.

(** ** Workflow events *)

Definition i32 (z : Z) : Z := let w := z mod 2 ^ 32 in if w <? 2 ^ 31 then w else w - 2 ^ 32.

Record CreInfo := mkCreInfo {
  ci_DonID : Z;
  ci_WorkflowDonID : Z;
  ci_ShardIndex : Z;
  ci_WorkflowRegistryAddress : string;
  ci_WorkflowRegistryChain : string;
  ci_EngineVersion : string;
}.
Record WorkflowKey := mkWorkflowKey {
  wk_WorkflowOwner : string;
  wk_WorkflowName : string;
  wk_WorkflowID : string;
  wk_OrganizationID : string;
}.

(** What every workflow event carries. *)
Record coordinates := mkCoordinates {
  co_CreInfo : CreInfo;
  co_Workflow : WorkflowKey;
  co_WorkflowExecutionID : string;
  co_Timestamp : string;
}.

Inductive ExecutionStatus := EXECUTION_STATUS_SUCCEEDED | EXECUTION_STATUS_FAILED.

Inductive workflow_event :=
| WorkflowUserLog (c : coordinates) (Msg : string)
| CapabilityExecutionStarted (c : coordinates) (CapabilityID : string) (StepRef : Z) (Method : string)
| CapabilityExecutionFinished (c : coordinates) (CapabilityID : string) (StepRef : Z) (Status : ExecutionStatus) (Error Method : string).

(** A message on the beholder: its schema, its entity and the event. *)
Record beholder_message := mkMessage { bm_schema : string; bm_entity : string; bm_event : workflow_event }.

Definition creInfoFromMeta (meta : RequestMetadata) (shardIndex : Z) : CreInfo :=
  mkCreInfo (i32 (WorkflowDonID meta)) (i32 (WorkflowDonID meta)) shardIndex (WorkflowRegistryAddress meta)
    (WorkflowRegistryChainSelector meta) (EngineVersion meta).
Definition workflowKeyFromMeta (meta : RequestMetadata) : WorkflowKey :=
  mkWorkflowKey (WorkflowOwner meta) (WorkflowName meta) (WorkflowID meta) (OrgID meta).

(** [int32(v)] of a float64 truncates; out of range the result is up to the
    implementation, here [out_of_range]. *)
Definition int32_of_float (out_of_range : Z) (f : float64) : Z :=
  match float_trunc f with
  | Some z => if (- 2 ^ 31 <=? z) && (z <? 2 ^ 31) then z else out_of_range
  | None => out_of_range
  end.

Definition detailInt32 (out_of_range : Z) (d : gmap string any) (key : string) : Z :=
  match d !! key with
  | Some (AFloat f) => int32_of_float out_of_range f
  | Some (AInt z) => i32 z
  | _ => 0
  end.
(** [s, _ := d[key].(string)] and the like. *)
Definition detail_string (d : gmap string any) (key : string) : string :=
  match d !! key with Some (AString s) => s | _ => "" end.
Definition detail_bool (d : gmap string any) (key : string) : bool :=
  match d !! key with Some (ABool b) => b | _ => false end.

Section Events.
(** [proto.Marshal] succeeds; the request's metadata and the node's shard. *)
Variables (out_of_range : Z) (Marshal : workflow_event -> bool) (meta : RequestMetadata) (shardIndex : Z).

Definition emitProtoEvent (schema entity : string) (ev : workflow_event) : list beholder_message :=
  if Marshal ev then [mkMessage schema entity ev] else [].

Definition coordinates_at (now : string) : coordinates :=
  mkCoordinates (creInfoFromMeta meta shardIndex) (workflowKeyFromMeta meta) (WorkflowExecutionID meta) now.

Definition emitUserLog (now : string) (msg : string) : list beholder_message :=
  emitProtoEvent "/cre-events-user-logs/v2" "workflows.v2.WorkflowUserLog" (WorkflowUserLog (coordinates_at now) msg).
Definition emitCapabilityStarted (now : string) (capabilityID method : string) (stepRef : Z) : list beholder_message :=
  emitProtoEvent "/cre-events-capability-started/v2" "workflows.v2.CapabilityExecutionStarted"
    (CapabilityExecutionStarted (coordinates_at now) capabilityID stepRef method).
Definition emitCapabilityFinished (now : string) (capabilityID method : string) (stepRef : Z) (success : bool) (errMsg : string)
    : list beholder_message :=
  emitProtoEvent "/cre-events-capability-finished/v2" "workflows.v2.CapabilityExecutionFinished"
    (CapabilityExecutionFinished (coordinates_at now) capabilityID stepRef
       (if success then EXECUTION_STATUS_SUCCEEDED else EXECUTION_STATUS_FAILED) errMsg method).

(** The workflow event of one event of the enclave. *)
Definition workflow_events (now : string) (ev : MetricEvent) : list beholder_message :=
  let d := Details ev in
  if bool_decide (Event ev = "user_log"%string) then
    match d !! "message"%string with Some (AString msg) => emitUserLog now msg | _ => [] end
  else if bool_decide (Event ev = "capability_started"%string) then
    emitCapabilityStarted now (detail_string d "capability_id") (detail_string d "method") (detailInt32 out_of_range d "step_ref")
  else if bool_decide (Event ev = "capability_finished"%string) then
    emitCapabilityFinished now (detail_string d "capability_id") (detail_string d "method") (detailInt32 out_of_range d "step_ref")
      (detail_bool d "success") (detail_string d "error")
  else [].

(** What the executor emits, in order. *)
Inductive emission :=
| Metric (ev : MetricEvent)
| Beholder (m : beholder_message).

(** The events of a response: every entry of the list, or else every entry of the
    map, in the order [order] visits it; [clock] gives the time of the [i]-th. *)
Fixpoint forward_events (scope : gmap string any) (clock : nat -> string) (i : nat) (evs : list MetricEvent) : list emission :=
  match evs with
  | [] => []
  | ev :: evs =>
      Metric (scoped scope (Event ev) (Details ev)) :: map Beholder (workflow_events (clock i) ev) ++
      forward_events scope clock (S i) evs
  end.

Definition forward_response (scope : gmap string any) (clock : nat -> string)
    (order : gmap string (gmap string any) -> list (string * gmap string any))
    (events : list MetricEvent) (metrics : gmap string (gmap string any)) : list emission :=
  match events with
  | [] => map (fun e => Metric (scoped scope e.1 e.2)) (order metrics)
  | _ => forward_events scope clock 0 events
  end.

End Events.

(** ** Transport

    Details travel as JSON: every number arrives as a float64, and a byte that is not
    part of a rune as U+FFFD. *)

Fixpoint coerce_from (skip : nat) (s : bytes) : bytes :=
  match s with
  | [] => []
  | c :: t =>
      match skip with
      | S skip => c :: coerce_from skip t
      | O => match rune_tail s with
             | None => replacement_character ++ coerce_from 0 t
             | Some k => c :: coerce_from k t
             end
      end
  end.
Definition json_string (s : string) : string := string_of (coerce_from 0 (bs s)).

Definition json_value (v : any) : any :=
  match v with
  | AString s => AString (json_string s)
  | AInt z => AFloat (float_of_int z)
  | AExecuteError msg code => AExecuteError (json_string msg) code
  | v => v
  end.

Definition json_event (ev : MetricEvent) : MetricEvent := mkEvent (json_string (Event ev)) (json_value <$> Details ev).

(** *** What JSON changes *)

Lemma coerce_skip n s t : n = length s -> coerce_from n (s ++ t) = s ++ coerce_from 0 t.
Proof. revert n. induction s as [|c s IH]; intros n ->; [done|]. cbn. f_equal. by apply IH. Qed.

Lemma coerce_rune z t : scalar z -> coerce_from 0 (encode_rune z ++ t) = encode_rune z ++ coerce_from 0 t.
Proof.
  intros Hz. pose proof (rune_tail_encode z t Hz) as H. pose proof (encode_rune_nonempty z) as Hn. destruct (encode_rune z) as [|c s]; [cbn in Hn; lia|].
  cbn [app length pred] in *. cbn [coerce_from]. rewrite H. by rewrite coerce_skip.
Qed.

Lemma coerce_bad c t : rune_tail (c :: t) = None -> coerce_from 0 (c :: t) = replacement_character ++ coerce_from 0 t.
Proof. intros E. cbn [coerce_from]. by rewrite E. Qed.

Lemma coerce_Valid s : utf8_Valid (coerce_from 0 s) = true.
Proof.
  induction s as [|z t Hz IH|c t E IH] using rune_ind; [done| |].
  - by rewrite coerce_rune, valid_rune.
  - rewrite coerce_bad by done. destruct scalar_replacement as [Hs ->]. by rewrite valid_rune.
Qed.

(** Valid text arrives unchanged. *)
Lemma coerce_valid s : utf8_Valid s = true -> coerce_from 0 s = s.
Proof. rewrite Valid_iff. intros (rs & Hr & ->). induction Hr as [|z rs Hz _ IH]; [done|]. by rewrite encode_cons, coerce_rune, IH. Qed.

Lemma json_string_valid s : utf8_Valid (bs s) = true -> json_string s = s.
Proof. intros H. unfold json_string. by rewrite coerce_valid, string_of_bs. Qed.

Lemma json_string_idemp s : json_string (json_string s) = json_string s.
Proof. apply json_string_valid. unfold json_string. rewrite bs_string_of. apply coerce_Valid. Qed.

Lemma json_value_idemp v : json_value (json_value v) = json_value v.
Proof. destruct v; cbn; by rewrite ?json_string_idemp. Qed.

(** The second hop changes nothing any more. *)
Lemma json_event_idemp ev : json_event (json_event ev) = json_event ev.
Proof.
  unfold json_event. cbn [Event Details]. rewrite json_string_idemp. f_equal. rewrite <- map_fmap_compose.
  apply map_fmap_ext. intros k v _. apply json_value_idemp.
Qed.

(** A stray byte stays one before an ASCII byte. *)
Lemma rune_tail_ascii c t d u : Z_of_byte d < 128 -> rune_tail (c :: t) = None -> rune_tail (c :: t ++ d :: u) = None.
Proof.
  intros Hd. assert (forall lo hi, 128 <= lo -> within lo hi d = false) as Hw.
  { intros lo hi Hlo. unfold within. destruct (Z.leb_spec lo (Z_of_byte d)); [lia|done]. }
  assert (continuation d = false) as Hc by (apply Hw; lia).
  cbn [rune_tail]. destruct (lead (Z_of_byte c)) as [[[k lo] hi]|] eqn:El; [|done].
  assert (k = 0%nat \/ 128 <= lo) as [->|Hlo].
  { unfold lead in El. repeat case_match; simplify_eq; auto; right; lia. }
  { done. }
  destruct k as [|[|[|[|k]]]]; [done| | | |done]; destruct t as [|c1 [|c2 [|c3 t]]]; cbn [app]; try done;
    destruct u as [|u1 [|u2 u]]; rewrite ?Hw, ?Hc, ?andb_false_r by done; done.
Qed.

Lemma coerce_app_ascii s d u : Z_of_byte d < 128 -> coerce_from 0 (s ++ d :: u) = coerce_from 0 s ++ coerce_from 0 (d :: u).
Proof.
  intros Hd. induction s as [|z t Hz IH|c t E IH] using rune_ind; [done| |].
  - by rewrite <- app_assoc, !coerce_rune, IH, app_assoc.
  - change ((c :: t) ++ d :: u) with (c :: (t ++ d :: u)). rewrite !coerce_bad by (done || by apply rune_tail_ascii). by rewrite IH, app_assoc.
Qed.

Lemma coerce_ascii_app s u : Forall (fun c => Z_of_byte c < 128) s -> coerce_from 0 (s ++ u) = s ++ coerce_from 0 u.
Proof.
  intros Hs. apply Valid_ascii, Valid_iff in Hs as (rs & Hr & ->). induction Hr as [|z rs Hz _ IH]; [done|].
  by rewrite encode_cons, <- app_assoc, coerce_rune, IH, app_assoc.
Qed.
