(* ===== verification/Server.v ===== *)
(** * Server: the HTTP handlers that run inside the enclave

    Models [src/enclave/server/server.go].  [enclaveServer] is the state shared
    by the handlers; a handler is a function from the clock readings it makes,
    the state and the decoded request to the response and the new state.

    What the server is built from but does not implement is in [EnclaveEnv]:
    the application, the attestor (the NSM device), box opening and the JSON
    encoding of the response.  They act on an abstract [World], which the server
    never inspects: a handler that leaves the world as it was has not called the
    application.  A request body is what [io.ReadAll] and [json.Unmarshal] made
    of it. *)

From stdpp Require Import pretty.
From S2P Require Import Prelude Float Codec Sha256 Types Cache Keychain Services Emitter.

Record ExecuteError := mkExecuteError { ee_Error : string; ee_Code : Z }.

Inductive server_error :=
| MethodNotAllowed
| BodyReadFailed
| InvalidJSON
| InvalidConfigJSON
| ConfigAlreadySet
| ConfigNotInitialized
| ConfigNotSet
| InvalidRequestID
| KeychainFailed (e : keychain_error)
| NoKeypairsFound
| AttestationFailed
| SettingsEmpty
| SettingsNotAccepted
| SettingsRejected
| VoteSignatureFailed (e : verify_error)
| EmptyBatch
| HashMismatch (i : Z)
| SignatureFailed (i : Z) (e : verify_error)
| QuorumNotReached (got need : Z)
| AlreadyInProgress
| ReplayDetected
| CiphertextCountMismatch
| MissingAppID
| MissingVersion
| AggregationFailed (e : option aggregate_error)
| AppFailed (e : ExecuteError)
| EncodingFailed.

Class EnclaveEnv := {
  World : Type;
  app_Execute : World -> bytes -> string -> bytes -> gmap string bytes ->
    list SignedComputeRequest -> World * list (string * gmap string any) * result ExecuteError bytes;
  app_OnConfigUpdate : option (World -> EnclaveConfig -> World);
  app_InjectSettings : option (World -> bytes -> World * bool);
  CreateAttestation : World -> bytes -> World * option bytes;
  OpenAnonymous : bytes -> bytes -> bytes -> option bytes;
  json_Marshal : ExecuteResponse -> option bytes;
  error_text : server_error -> string;
}.

(** The message of an error answer of [handleExecute].  An application's error is
    printed as the structure it is; a message that quotes a hash or the error of
    another module is the environment's. *)
Definition error_message `{EnclaveEnv} (e : server_error) : string :=
  match e with
  | MethodNotAllowed => "method not allowed"
  | BodyReadFailed => "failed to read request body"
  | InvalidJSON => "invalid json"
  | EmptyBatch => "empty request batch"
  | QuorumNotReached got need =>
      "not enough requests by unique signers to reach quorum, got " ++ pretty got ++ ", need " ++ pretty need
  | AlreadyInProgress => "request is already being processed"
  | ReplayDetected => "replay detected: request hash has already been executed"
  | MissingAppID => "missing AppID in request"
  | MissingVersion => "missing Version in request"
  | KeychainFailed _ => "failed to retrieve keypair for request: " ++ error_text e
  | AggregationFailed _ => "no node's shares produced valid decryption: " ++ error_text e
  | AppFailed ex => "error executing enclave app request: &{" ++ ee_Error ex ++ " " ++ pretty (ee_Code ex) ++ "}"
  | AttestationFailed => "error creating attestation: " ++ error_text e
  | EncodingFailed => "error encoding response: " ++ error_text e
  | _ => error_text e
  end%string.

(** A request body after reading and parsing. *)
Inductive decoded (A : Type) :=
| ReadFailed
| BadJSON
| Decoded (a : A).
Arguments ReadFailed {A}.
Arguments BadJSON {A}.
Arguments Decoded {A} a.

(** A response: an error with its status code, a success, or a panic of the handler. *)
Inductive response (E A : Type) :=
| HttpError (code : Z) (e : E)
| HttpOK (code : Z) (a : A)
| HttpPanic.
Arguments HttpError {E A} code e.
Arguments HttpOK {E A} code a.
Arguments HttpPanic {E A}.

Definition StatusOK : Z := 200.
Definition StatusAccepted : Z := 202.
Definition StatusNoContent : Z := 204.
Definition StatusBadRequest : Z := 400.
Definition StatusNotFound : Z := 404.
Definition StatusMethodNotAllowed : Z := 405.
Definition StatusConflict : Z := 409.
Definition StatusInternalServerError : Z := 500.
Definition StatusNotImplemented : Z := 501.
Definition StatusServiceUnavailable : Z := 503.

Section Server.
Context `{HS : Sha256} `{HE : EnclaveEnv} `{HT : TDH2}
  {verified : bytes -> bytes -> bytes -> bool} `{HV : !SignatureVerifier verified}.

Record enclaveServer := mkServer {
  config : EnclaveConfig;
  configSet : bool;
  allowReconfig : bool;
  inProgressReqs : Cache unit;
  executedReqs : Cache unit;
  pendingConfigVotes : Cache (gset bytes);
  pubKeyAttestations : Cache bytes;
  keychain : boxKeychain;
  world : World;
}.

Definition NewEnclaveServer (w : World) (kc : boxKeychain) (cfg : EnclaveConfig) (reconfig : bool) : enclaveServer :=
  mkServer cfg false reconfig
    (NewBoundedCache (Some DefaultKeypairExpiration) None MaxReplayCacheEntries)
    (NewBoundedCache (Some DefaultKeypairExpiration) None MaxReplayCacheEntries)
    (NewCache (Some ConfigVoteTTL) None)
    (NewCache (Some PublicKeyAttestationCacheTTL) None)
    kc w.

(** Updates of one field. *)
Definition set_config (s : enclaveServer) (c : EnclaveConfig) : enclaveServer :=
  mkServer c (configSet s) (allowReconfig s) (inProgressReqs s) (executedReqs s)
    (pendingConfigVotes s) (pubKeyAttestations s) (keychain s) (world s).
Definition set_configSet (s : enclaveServer) (b : bool) : enclaveServer :=
  mkServer (config s) b (allowReconfig s) (inProgressReqs s) (executedReqs s)
    (pendingConfigVotes s) (pubKeyAttestations s) (keychain s) (world s).
Definition set_inProgress (s : enclaveServer) (c : Cache unit) : enclaveServer :=
  mkServer (config s) (configSet s) (allowReconfig s) c (executedReqs s)
    (pendingConfigVotes s) (pubKeyAttestations s) (keychain s) (world s).
Definition set_executed (s : enclaveServer) (c : Cache unit) : enclaveServer :=
  mkServer (config s) (configSet s) (allowReconfig s) (inProgressReqs s) c
    (pendingConfigVotes s) (pubKeyAttestations s) (keychain s) (world s).
Definition set_votes (s : enclaveServer) (c : Cache (gset bytes)) : enclaveServer :=
  mkServer (config s) (configSet s) (allowReconfig s) (inProgressReqs s) (executedReqs s)
    c (pubKeyAttestations s) (keychain s) (world s).
Definition set_attestations (s : enclaveServer) (c : Cache bytes) : enclaveServer :=
  mkServer (config s) (configSet s) (allowReconfig s) (inProgressReqs s) (executedReqs s)
    (pendingConfigVotes s) c (keychain s) (world s).
Definition set_keychain (s : enclaveServer) (k : boxKeychain) : enclaveServer :=
  mkServer (config s) (configSet s) (allowReconfig s) (inProgressReqs s) (executedReqs s)
    (pendingConfigVotes s) (pubKeyAttestations s) k (world s).
Definition set_world (s : enclaveServer) (w : World) : enclaveServer :=
  mkServer (config s) (configSet s) (allowReconfig s) (inProgressReqs s) (executedReqs s)
    (pendingConfigVotes s) (pubKeyAttestations s) (keychain s) w.

(** [c.OnConfigUpdate(newConfig)] when the app is configurable. *)
Definition notify_app (s : enclaveServer) (c : EnclaveConfig) : enclaveServer :=
  match app_OnConfigUpdate with
  | Some f => set_world s (f (world s) c)
  | None => s
  end.

Definition attest (s : enclaveServer) (userData : bytes) : option bytes * enclaveServer :=
  let '(w, att) := CreateAttestation (world s) userData in (att, set_world s w).

(** ** POST /config *)

Definition handleSetConfig (s : enclaveServer) (method : string) (body : decoded (option EnclaveConfig))
    : response server_error (EnclaveConfig * bytes) * enclaveServer :=
  if negb (bool_decide (method = "POST"%string)) then (HttpError StatusMethodNotAllowed MethodNotAllowed, s)
  else if configSet s && negb (allowReconfig s) then (HttpError StatusConflict ConfigAlreadySet, s)
  else match body with
  | ReadFailed => (HttpError StatusBadRequest BodyReadFailed, s)
  | BadJSON => (HttpError StatusBadRequest InvalidJSON, s)
  | Decoded None => (HttpError StatusBadRequest InvalidConfigJSON, s)
  | Decoded (Some newConfig) =>
      let s := set_config s newConfig in
      let s := set_configSet s true in
      let s := notify_app s newConfig in
      let '(att, s) := attest s (SetConfigResponse_UserDataHash newConfig) in
      match att with
      | None => (HttpError StatusInternalServerError AttestationFailed, s)
      | Some att => (HttpOK StatusOK (newConfig, att), s)
      end
  end.

(** ** PATCH /config *)

Record UpdateConfigResponse := mkUpdateResponse {
  Applied : bool;
  ucr_Config : EnclaveConfig;
  SignersCollected : Z;
  SignersRequired : Z;
  ucr_Attestation : option bytes;
}.

Definition handleUpdateConfig (now : Z) (s : enclaveServer) (body : decoded (option EnclaveConfig * bytes))
    : response server_error UpdateConfigResponse * enclaveServer :=
  if negb (configSet s) then (HttpError StatusConflict ConfigNotInitialized, s)
  else match body with
  | ReadFailed => (HttpError StatusBadRequest BodyReadFailed, s)
  | BadJSON => (HttpError StatusBadRequest InvalidJSON, s)
  | Decoded (None, _) => (HttpError StatusBadRequest InvalidConfigJSON, s)
  | Decoded (Some newConfig, signature) =>
      let newHash := EnclaveConfig_Hash newConfig in
      match VerifySignature (config_payload newHash) signature (Signers (config s)) with
      | Err (VerifyPanic _) => (HttpPanic, s)
      | Err e => (HttpError StatusBadRequest (VoteSignatureFailed e), s)
      | Ok signer =>
          let required := F (config s) + 1 in
          if decide (newHash = EnclaveConfig_Hash (config s)) then
            let '(att, s) := attest s (SetConfigResponse_UserDataHash (config s)) in
            match att with
            | None => (HttpError StatusInternalServerError AttestationFailed, s)
            | Some att => (HttpOK StatusOK (mkUpdateResponse true (config s) required required (Some att)), s)
            end
          else
            let votes := default ∅ (Get now (pendingConfigVotes s) newHash) in
            let votes := {[ sha256 signer ]} ∪ votes in
            let s := set_votes s (Set_ now (pendingConfigVotes s) newHash votes None) in
            let collected := Z.of_nat (size votes) in
            if collected <? required then
              (HttpOK StatusAccepted (mkUpdateResponse false newConfig collected required None), s)
            else
              let s := set_config s newConfig in
              let s := set_votes s (Flush (pendingConfigVotes s)) in
              let s := notify_app s newConfig in
              let '(att, s) := attest s (SetConfigResponse_UserDataHash newConfig) in
              match att with
              | None => (HttpError StatusInternalServerError AttestationFailed, s)
              | Some att => (HttpOK StatusOK (mkUpdateResponse true newConfig collected required (Some att)), s)
              end
      end
  end.

(** ** POST /settings *)

Definition handleInjectSettings (s : enclaveServer) (method : string) (body : option bytes)
    : response server_error unit * enclaveServer :=
  if negb (bool_decide (method = "POST"%string)) then (HttpError StatusMethodNotAllowed MethodNotAllowed, s)
  else match body with
  | None => (HttpError StatusBadRequest BodyReadFailed, s)
  | Some [] => (HttpError StatusBadRequest SettingsEmpty, s)
  | Some raw =>
      match app_InjectSettings with
      | None => (HttpError StatusNotImplemented SettingsNotAccepted, s)
      | Some inject =>
          let '(w, accepted) := inject (world s) raw in
          if accepted then (HttpOK StatusNoContent tt, set_world s w)
          else (HttpError StatusInternalServerError SettingsRejected, set_world s w)
      end
  end.

(** ** GET /publicKeys *)

(** The [requestID] query parameter: 32 bytes in hexadecimal, or else in base64. *)
Definition parse_request_id (param : bytes) : option bytes :=
  match hex_decode param with
  | Some id => if Nat.eqb (length id) 32 then Some id else
      match b64_decode param with
      | Some id => if Nat.eqb (length id) 32 then Some id else None
      | None => None
      end
  | None =>
      match b64_decode param with
      | Some id => if Nat.eqb (length id) 32 then Some id else None
      | None => None
      end
  end.

Definition attestPublicKeys (now : Z) (s : enclaveServer) (dataToAttest : bytes) : option bytes * enclaveServer :=
  match Get now (pubKeyAttestations s) dataToAttest with
  | Some att => (Some att, s)
  | None =>
      let '(att, s) := attest s dataToAttest in
      match att with
      | None => (None, s)
      | Some att => (Some att, set_attestations s (Set_ now (pubKeyAttestations s) dataToAttest att None))
      end
  end.

(** The keypairs a request is answered with: the pinned one, or all of them. *)
Definition select_keypairs (now : Z) (s : enclaveServer) (param : bytes)
    : result (Z * server_error) (list boxKeypair) * enclaveServer :=
  if decide (param = []) then (Ok (GetKeyPairs now (keychain s)), s)
  else match parse_request_id param with
  | None => (Err (StatusBadRequest, InvalidRequestID), s)
  | Some requestID =>
      let '(r, kc) := GetKeyPairForRequest now (keychain s) requestID in
      let s := set_keychain s kc in
      match r with
      | Err e => (Err (StatusInternalServerError, KeychainFailed e), s)
      | Ok kp => (Ok [kp], s)
      end
  end.

Definition handleGetPublicKeys (now : Z) (s : enclaveServer) (method : string) (requestIDParam : bytes)
    : response server_error PublicKeyResponse * enclaveServer :=
  if negb (bool_decide (method = "GET"%string)) then (HttpError StatusMethodNotAllowed MethodNotAllowed, s)
  else
    let cfg := EnclaveConfig_Copy (config s) in
    if IsZero cfg then (HttpError StatusServiceUnavailable ConfigNotSet, s)
    else
      let '(sel, s) := select_keypairs now s requestIDParam in
      match sel with
      | Err (code, e) => (HttpError code e, s)
      | Ok [] => (HttpError StatusNotFound NoKeypairsFound, s)
      | Ok keypairs =>
          let resp := mkPublicKeyResponse (map publicKey keypairs) (map creationTime keypairs)
                        (map kp_ttl keypairs) cfg [] in
          let '(att, s) := attestPublicKeys now s (PublicKeyHash resp) in
          match att with
          | None => (HttpError StatusInternalServerError AttestationFailed, s)
          | Some att => (HttpOK StatusOK (mkPublicKeyResponse (pkr_PublicKeys resp) (pkr_CreationTimes resp)
                           (pkr_TTLs resp) (pkr_Config resp) att), s)
          end
      end.

(** ** POST /requests *)

(** Instants at which an execution reads the clock. *)
Record exec_clock := mkClock {
  at_emitter : Z;
  at_start : Z;
  at_sig_start : Z;
  at_sig_end : Z;
  at_check : Z;
  at_mark : Z;
  at_replay : Z;
  at_keypair : Z;
  at_combine_start : Z;
  at_decrypt : Z;
  at_combine_end : Z;
  at_app_start : Z;
  at_app_end : Z;
  at_completed : Z;
  at_record : Z;
  at_error : Z;
}.

(** An error answer carries the metrics collected so far. *)
Definition exec_response : Type := response (server_error * EnclaveErrorResponse) ExecuteResponse.

Definition reject (clk : exec_clock) (em : ResponseEmitter) (code : Z) (e : server_error) : exec_response :=
  HttpError code (e, (WriteErrorResponse em (error_message e) (at_error clk) code).2).

(** Signature check of the batch: all requests have the hash of the first one
    and are signed by a current signer; collects the signers' hashes. *)
Fixpoint verify_batch (cfg : EnclaveConfig) (hash : bytes) (i : Z) (reqs : list SignedComputeRequest)
    (signerSet : gset bytes) : result server_error (gset bytes) :=
  match reqs with
  | [] => Ok signerSet
  | req :: rest =>
      let reqHash := ComputeRequest_Hash req in
      if decide (hash <> reqHash) then Err (HashMismatch i)
      else match VerifySignature (compute_payload reqHash) (Signature req) (Signers cfg) with
      | Err e => Err (SignatureFailed i e)
      | Ok signer => verify_batch cfg hash (i + 1) rest ({[ sha256 signer ]} ∪ signerSet)
      end
  end.

(** One node's secrets: [None] is an index out of range, a panic. *)
Fixpoint node_secrets (now : Z) (kp : boxKeypair) (mpk : bytes) (threshold : Z)
    (cts : list bytes) (shares : list (list bytes)) (names : list string) (acc : gmap string bytes)
    : option (result aggregate_error (gmap string bytes)) :=
  match cts with
  | [] => Some (Ok acc)
  | ciphertext :: cts' =>
      match shares with
      | [] => None
      | encryptedShares :: shares' =>
          let decryptedShares := decrypt_shares (Decrypt OpenAnonymous now kp) encryptedShares in
          match AggregateShares ciphertext decryptedShares mpk threshold with
          | Err e => Some (Err e)
          | Ok secret =>
              match names with
              | [] => None
              | name :: names' => node_secrets now kp mpk threshold cts' shares' names' (<[name := secret]> acc)
              end
          end
      end
  end.

(** The nodes are tried in order until one's shares decrypt everything. *)
Inductive combine_out :=
| Combined (secretsMap : gmap string bytes)
| NoneCombined (lastErr : option (option aggregate_error)) (* None: no error recorded *)
| CombinePanic.

Fixpoint combine_nodes (now : Z) (kp : boxKeypair) (mpk : bytes) (threshold : Z) (req : ComputeRequest)
    (reqs : list SignedComputeRequest) (lastErr : option (option aggregate_error)) : combine_out :=
  match reqs with
  | [] => NoneCombined lastErr
  | nodeReq :: rest =>
      if negb (Nat.eqb (length (EncryptedDecryptionKeyShares nodeReq)) (length (Ciphertexts req))) then
        combine_nodes now kp mpk threshold req rest (Some None)
      else match node_secrets now kp mpk threshold (Ciphertexts req)
                   (EncryptedDecryptionKeyShares nodeReq) (CiphertextNames req) ∅ with
      | None => CombinePanic
      | Some (Ok nodeSecrets) => Combined nodeSecrets
      | Some (Err e) => combine_nodes now kp mpk threshold req rest (Some (Some e))
      end
  end.

Definition details (l : list (string * any)) : gmap string any := list_to_map l.

(** From the admitted request to the attested, encoded response. *)
Definition run_app (clk : exec_clock) (s : enclaveServer) (cfg : EnclaveConfig) (hash : bytes)
    (req : SignedComputeRequest) (reqs : list SignedComputeRequest) (secretsMap : gmap string bytes)
    (em : ResponseEmitter) : exec_response * enclaveServer :=
  let '(w, evs, execResp) :=
    app_Execute (world s) (RequestID req) (AppID req) (PublicData req) secretsMap reqs in
  let s := set_world s w in
  let em := emit_all em evs in
  let em := Emit em "app_execution_completed"
    (details [(duration_key, AFloat (seconds_of (time_sub (at_app_end clk) (at_app_start clk))))]) in
  match execResp with
  | Err execErr =>
      let em := Emit em "app_execution_failed" (details [("error"%string, AExecuteError (ee_Error execErr) (ee_Code execErr))]) in
      (reject clk em StatusInternalServerError (AppFailed execErr), s)
  | Ok output =>
      let em := Emit em "request_completed"
        (details [("endpoint"%string, AString "execute"); ("outcome"%string, AString "success");
                  (duration_key, AFloat (seconds_of (time_sub (at_completed clk) (at_start clk))))]) in
      let resp := mkExecuteResponse (RequestID req) (ApplicationRequestID req) hash output cfg [] ∅ [] in
      let '(att, s) := attest s (ExecuteResponse_UserDataHash resp (Version req)) in
      match att with
      | None =>
          let em := Emit em "attestation_creation_failed"
            (details [("endpoint"%string, AString "execute"); ("error"%string, AString (error_text AttestationFailed))]) in
          (reject clk em StatusInternalServerError AttestationFailed, s)
      | Some att =>
          let '(metrics, events) := Snapshot em in
          let resp := mkExecuteResponse (RequestID req) (ApplicationRequestID req) hash output cfg att metrics events in
          match json_Marshal resp with
          | None => (reject clk em StatusInternalServerError EncodingFailed, s)
          | Some _ =>
              (HttpOK StatusOK resp, set_executed s (Set_ (at_record clk) (executedReqs s) hash tt None))
          end
      end
  end.

(** The handler from the request that is known to be fresh: validation, keypair,
    share combination, application. *)
Definition execute_fresh (clk : exec_clock) (s : enclaveServer) (cfg : EnclaveConfig) (hash : bytes)
    (reqs : list SignedComputeRequest) (req : SignedComputeRequest) (em : ResponseEmitter)
    : exec_response * enclaveServer :=
  let em := Emit em "request_id" (details [("request_id"%string, AString (string_of (hex_encode (RequestID req))))]) in
  if negb (Nat.eqb (length (Ciphertexts req)) (length (CiphertextNames req))) then
    (reject clk em StatusBadRequest CiphertextCountMismatch, s)
  else if decide (AppID req = ""%string) then (reject clk em StatusBadRequest MissingAppID, s)
  else if decide (Version req = ""%string) then (reject clk em StatusBadRequest MissingVersion, s)
  else match GetKeyPair (at_keypair clk) (keychain s) (EnclaveEphemeralPublicKey req) with
  | Err e =>
      let em := Emit em "keypair_not_found"
        (details [("error"%string, AString (error_text (KeychainFailed e)))]) in
      (reject clk em StatusBadRequest (KeychainFailed e), s)
  | Ok keypair =>
      let masterPublicKey :=
        if 0 <? glen (MasterPublicKey req) then MasterPublicKey req else cfg_MasterPublicKey cfg in
      match combine_nodes (at_decrypt clk) keypair masterPublicKey (T cfg) req reqs None with
      | CombinePanic => (HttpPanic, s)
      | NoneCombined None => (HttpPanic, s)
      | NoneCombined (Some lastErr) =>
          let em := Emit em "share_aggregation_failed"
            (details [("error"%string, AString (error_text (AggregationFailed lastErr)))]) in
          (reject clk em StatusInternalServerError (AggregationFailed lastErr), s)
      | Combined secretsMap =>
          let em := Emit em "shares_combining_completed"
            (details [(duration_key, AFloat (seconds_of (time_sub (at_combine_end clk) (at_combine_start clk))));
                      ("num_ciphertexts"%string, AInt (glen (Ciphertexts req)))]) in
          run_app clk s cfg hash req reqs secretsMap em
      end
  end.

(** The handler between the marking of the hash and its deferred deletion. *)
Definition replayed (now : Z) (s : enclaveServer) (hash : bytes) : bool :=
  match Get now (executedReqs s) hash with Some _ => true | None => false end.

Definition execute_marked (clk : exec_clock) (s : enclaveServer) (cfg : EnclaveConfig) (hash : bytes)
    (reqs : list SignedComputeRequest) (req : SignedComputeRequest) (em : ResponseEmitter)
    : exec_response * enclaveServer :=
  if replayed (at_replay clk) s hash then (reject clk em StatusConflict ReplayDetected, s)
  else execute_fresh clk s cfg hash reqs req em.

(** The in-progress check, the mark and the deferred deletion, each under its lock. *)
Definition in_progress (now : Z) (s : enclaveServer) (hash : bytes) : bool :=
  match Get now (inProgressReqs s) hash with Some _ => true | None => false end.
Definition mark (now : Z) (s : enclaveServer) (hash : bytes) : enclaveServer :=
  set_inProgress s (Set_ now (inProgressReqs s) hash tt None).
Definition unmark (s : enclaveServer) (hash : bytes) : enclaveServer :=
  set_inProgress s (Delete (inProgressReqs s) hash).

(** Signatures of the whole batch; the first request stands for it. *)
Definition check_signatures (cfg : EnclaveConfig) (reqs : list SignedComputeRequest)
    : result server_error (bytes * SignedComputeRequest * gset bytes) :=
  match reqs with
  | [] => Err EmptyBatch
  | req :: _ =>
      let hash := ComputeRequest_Hash req in
      let? signerSet := verify_batch cfg hash 0 reqs ∅ in
      Ok (hash, req, signerSet)
  end.

(** Need F+1 requests by unique signers. *)
Definition quorum (cfg : EnclaveConfig) (signerSet : gset bytes) : bool :=
  negb (Z.of_nat (size signerSet) <? F cfg + 1).

Definition handleExecute (clk : exec_clock) (s : enclaveServer) (method : string)
    (body : decoded (list SignedComputeRequest)) : exec_response * enclaveServer :=
  let em := NewResponseEmitter (at_emitter clk) in
  let em := Emit em "request_started" (details [("endpoint"%string, AString "execute")]) in
  if negb (bool_decide (method = "POST"%string)) then (reject clk em StatusMethodNotAllowed MethodNotAllowed, s)
  else
    let cfg := EnclaveConfig_Copy (config s) in
    match body with
    | ReadFailed => (reject clk em StatusBadRequest BodyReadFailed, s)
    | BadJSON => (reject clk em StatusBadRequest InvalidJSON, s)
    | Decoded reqs =>
        match check_signatures cfg reqs with
        | Err (SignatureFailed _ (VerifyPanic _)) => (HttpPanic, s)
        | Err e => (reject clk em StatusBadRequest e, s)
        | Ok (hash, req, signerSet) =>
            let em := Emit em "signature_verification_completed"
              (details [(duration_key, AFloat (seconds_of (time_sub (at_sig_end clk) (at_sig_start clk))));
                        ("num_signatures"%string, AInt (glen reqs))]) in
            if negb (quorum cfg signerSet) then
              (reject clk em StatusBadRequest (QuorumNotReached (Z.of_nat (size signerSet)) (F cfg + 1)), s)
            else if in_progress (at_check clk) s hash then (reject clk em StatusConflict AlreadyInProgress, s)
            else
              let s := mark (at_mark clk) s hash in
              let '(out, s) := execute_marked clk s cfg hash reqs req em in
              (out, unmark s hash)
        end
    end.

End Server.
