(* ===== verification/ServerSafety.v ===== *)
(** * ServerSafety: what the enclave server guarantees about executions

    Theorems about [handleExecute] and [handleGetPublicKeys] of [Server]: quorum,
    replay, cleanup, responses, absence of panics. *)

From S2P Require Import Prelude Codec Sha256 Types Cache Keychain Services Emitter Server.

Section Safety.
Context `{HS : Sha256} `{HE : EnclaveEnv} `{HT : TDH2}
  {verified : bytes -> bytes -> bytes -> bool} `{HV : !SignatureVerifier verified}.
Implicit Types (s : enclaveServer) (cfg : EnclaveConfig) (reqs : list SignedComputeRequest)
  (clk : exec_clock) (m : string) (body : decoded (list SignedComputeRequest)).

(** ** Admission *)

Lemma verify_batch_spec cfg hash reqs : forall i set set',
  verify_batch cfg hash i reqs set = Ok set' ->
  Forall (fun r : SignedComputeRequest => ComputeRequest_Hash r = hash) reqs /\
  exists signers,
    Forall2 (fun (r : SignedComputeRequest) p => p ∈ Signers cfg /\
      verified p (compute_payload hash) (Signature r) = true) reqs signers /\
    set' = list_to_set (map sha256 signers) ∪ set.
Proof.
  induction reqs as [|r reqs IH]; intros i set set'; cbn [verify_batch].
  - intros [= <-]. split; [constructor|]. exists []. split; [constructor|]. set_solver.
  - destruct (decide (hash <> ComputeRequest_Hash r)) as [|Heq]; [done|]. apply dec_stable in Heq.
    destruct (VerifySignature _ _ _) as [s|e] eqn:Ev; [|done].
    intros H. apply IH in H as (Hall & signers & Hs & ->).
    apply VerifySignature_sound in Ev. rewrite <- Heq in Ev.
    split; [by constructor|]. exists (s :: signers). split; [by constructor|]. set_solver.
Qed.

(** F+1 distinct current signers, each with a valid signature in the batch. *)
Definition quorum_cert cfg (payload : bytes) reqs : Prop :=
  exists signers, NoDup signers /\ F cfg + 1 <= glen signers /\
    forall p, p ∈ signers -> p ∈ Signers cfg /\
      exists r, r ∈ reqs /\ verified p payload (Signature r) = true.

Lemma check_signatures_spec cfg reqs hash req set :
  check_signatures cfg reqs = Ok (hash, req, set) -> quorum cfg set = true ->
  hash = ComputeRequest_Hash req /\ head reqs = Some req /\
  Forall (fun r : SignedComputeRequest => ComputeRequest_Hash r = hash) reqs /\
  quorum_cert cfg (compute_payload hash) reqs.
Proof.
  destruct reqs as [|r reqs]; [done|]. unfold check_signatures. intros H Hq.
  apply rbind_Ok_inv in H as (set' & Hv & H). injection H as <- <- <-.
  apply verify_batch_spec in Hv as (Hall & signers & Hs & Hset).
  split; [done|]. split; [done|]. split; [done|].
  exists (remove_dups signers). split; [apply NoDup_remove_dups|]. split.
  - unfold quorum in Hq. apply negb_true_iff, Z.ltb_ge in Hq.
    pose proof (image_size_le sha256 signers) as Him.
    rewrite Hset, union_empty_r_L in Hq. unfold glen. lia.
  - intros s Hin. rewrite elem_of_remove_dups in Hin.
    apply list_elem_of_lookup_1 in Hin as [i Hi].
    destruct (Forall2_lookup_r _ _ _ _ _ Hs Hi) as (q & Hq1 & Hmem & Hver).
    split; [done|]. exists q. split; [by eapply list_elem_of_lookup_2 | done].
Qed.

Lemma EnclaveConfig_Copy_id cfg : EnclaveConfig_Copy cfg = cfg.
Proof. unfold EnclaveConfig_Copy. rewrite map_id. by destruct cfg. Qed.

(** Either the request is turned down before anything happens, or the batch is
    admitted and processed between the mark and its deletion. *)
Lemma handleExecute_cases clk s m body out s' :
  handleExecute clk s m body = (out, s') ->
  (s' = s /\ forall code r, out <> HttpOK code r) \/
  exists reqs hash req set em s1,
    body = Decoded reqs /\ check_signatures (config s) reqs = Ok (hash, req, set) /\
    quorum (config s) set = true /\ in_progress (at_check clk) s hash = false /\
    execute_marked clk (mark (at_mark clk) s hash) (config s) hash reqs req em = (out, s1) /\
    s' = unmark s1 hash.
Proof.
  unfold handleExecute. rewrite EnclaveConfig_Copy_id.
  destruct (negb _); [intros [= <- <-]; left; done|].
  destruct body as [| |reqs]; [intros [= <- <-]; left; done..|].
  destruct (check_signatures (config s) reqs) as [[[hash req] set]|e] eqn:Ec.
  - destruct (quorum (config s) set) eqn:Eq; cbn [negb]; [|intros [= <- <-]; left; done].
    destruct (in_progress (at_check clk) s hash) eqn:Ei; [intros [= <- <-]; left; done|].
    destruct (execute_marked _ _ _ _ _ _ _) as [out1 s1] eqn:Em. intros [= <- <-].
    right. eauto 12.
  - intros H. left. destruct e as [| | | | | | | | | | | | | | | | |i e| | | | | | | | |];
      try (by injection H as <- <-). destruct e; by injection H as <- <-.
Qed.

(** What the application is given once a batch is admitted. *)
Record app_call clk s cfg (hash : bytes) reqs (req : SignedComputeRequest) (secrets : gmap string bytes) : Prop := {
  ac_fresh : Get (at_replay clk) (executedReqs s) hash = None;
  ac_names : length (Ciphertexts req) = length (CiphertextNames req);
  ac_app : AppID req <> ""%string;
  ac_version : Version req <> ""%string;
  ac_secrets : exists kp, GetKeyPair (at_keypair clk) (keychain s) (EnclaveEphemeralPublicKey req) = Ok kp /\
    combine_nodes (at_decrypt clk) kp
      (if 0 <? glen (MasterPublicKey req) then MasterPublicKey req else cfg_MasterPublicKey cfg)
      (T cfg) req reqs None = Combined secrets;
}.

Definition app_result s (req : SignedComputeRequest) reqs secrets : World * result ExecuteError bytes :=
  let '(w, _, r) := app_Execute (world s) (RequestID req) (AppID req) (PublicData req) secrets reqs in (w, r).

Lemma execute_marked_cases clk s cfg hash reqs req em out s1 :
  execute_marked clk s cfg hash reqs req em = (out, s1) ->
  (s1 = s /\ forall code r, out <> HttpOK code r) \/
  exists secrets, app_call clk s cfg hash reqs req secrets /\
    exists em', run_app clk s cfg hash req reqs secrets em' = (out, s1).
Proof.
  unfold execute_marked, replayed, execute_fresh.
  destruct (Get (at_replay clk) (executedReqs s) hash) eqn:Eg; [intros [= <- <-]; left; done|].
  destruct (negb (Nat.eqb _ _)) eqn:En; [intros [= <- <-]; left; done|].
  destruct (decide (AppID req = _)); [intros [= <- <-]; left; done|].
  destruct (decide (Version req = _)); [intros [= <- <-]; left; done|].
  destruct (GetKeyPair _ _ _) as [kp|e] eqn:Ek; [|intros [= <- <-]; left; done].
  destruct (combine_nodes _ _ _ _ _ _ _) as [secrets|[lastErr|]|] eqn:Ec;
    [|intros [= <- <-]; left; done..].
  intros H. right. exists secrets. split; [|eauto]. split; try done.
  - by apply negb_false_iff, Nat.eqb_eq in En.
  - eauto.
Qed.

(** The answer of the application decides the outcome; only a success is recorded. *)
Lemma run_app_cases clk s cfg hash req reqs secrets em out s1 :
  run_app clk s cfg hash req reqs secrets em = (out, s1) ->
  let '(w, r) := app_result s req reqs secrets in
  match r with
  | Err e => s1 = set_world s w /\ exists er, out = HttpError StatusInternalServerError (AppFailed e, er)
  | Ok output =>
      exists w' att, CreateAttestation w (ExecuteResponse_UserDataHash
          (mkExecuteResponse (RequestID req) (ApplicationRequestID req) hash output cfg [] ∅ []) (Version req)) = (w', att) /\
      ((s1 = set_world s w' /\ exists e, out = HttpError StatusInternalServerError e) \/
       exists att' ms evs, att = Some att' /\
         out = HttpOK StatusOK (mkExecuteResponse (RequestID req) (ApplicationRequestID req) hash output cfg att' ms evs) /\
         s1 = set_executed (set_world s w') (Set_ (at_record clk) (executedReqs s) hash tt None))
  end.
Proof.
  unfold run_app, app_result.
  destruct (app_Execute _ _ _ _ _ _) as [[w evs] [output|e]]; cbn [world set_world].
  - unfold attest. cbn [world set_world].
    destruct (CreateAttestation w _) as [w' [att|]] eqn:Ea.
    + destruct (Snapshot _) as [ms evs']. destruct (json_Marshal _).
      * intros [= <- <-]. exists w', (Some att). split; [done|]. right. eauto 7.
      * intros [= <- <-]. exists w', (Some att). split; [done|]. left. split; [done|]. unfold reject. eauto.
    + intros [= <- <-]. exists w', None. split; [done|]. left. split; [done|]. unfold reject. eauto.
  - intros [= <- <-]. split; [done|]. unfold reject. eauto.
Qed.

(** ** Quorum *)

(** No execution without a quorum: if a call to the execute endpoint lets the
    application run (the world changes) or answers with a result, then the
    batch consists of requests with one common hash and carries valid
    signatures on that hash's signing payload by at least F+1 distinct members
    of the enclave's current signer set. *)
Theorem execute_requires_quorum clk s m body out s' :
  handleExecute clk s m body = (out, s') ->
  world s' <> world s \/ (exists code r, out = HttpOK code r) ->
  exists reqs req, body = Decoded reqs /\ head reqs = Some req /\
    Forall (fun r : SignedComputeRequest => ComputeRequest_Hash r = ComputeRequest_Hash req) reqs /\
    quorum_cert (config s) (compute_payload (ComputeRequest_Hash req)) reqs.
Proof.
  intros H Hdone. apply handleExecute_cases in H as [[-> Hno]|(reqs & hash & req & set & em & s1 & -> & Hc & Hq & _)].
  - destruct Hdone as [Hw|(code & r & ->)]; [done | by destruct (Hno code r)].
  - apply check_signatures_spec in Hc as (-> & Hh & Hall & Hcert); [|done]. eauto 6.
Qed.

(** C3 Byzantine fault tolerance of admission: if at most F of the configured
    signers are faulty and a valid signature of an honest signer exists only
    on payloads it signed, then whatever the enclave executes was signed by an
    honest signer, as that very request. *)
Theorem execute_backed_by_honest clk s m body (out : exec_response) s'
    (faulty : gset bytes) (signed : bytes -> bytes -> Prop)
    (Hbft : Z.of_nat (size faulty) <= F (config s))
    (Huf : forall p msg sig, p ∈ Signers (config s) -> p ∉ faulty -> verified p msg sig = true -> signed p msg) :
  handleExecute clk s m body = (out, s') ->
  world s' <> world s \/ (exists code r, out = HttpOK code r) ->
  exists reqs req p, body = Decoded reqs /\ head reqs = Some req /\
    p ∈ Signers (config s) /\ (p ∉ faulty) /\ signed p (compute_payload (ComputeRequest_Hash req)).
Proof.
  intros H Hdone. apply handleExecute_cases in H as [[-> Hno]|(reqs & hash & req & set & em & s1 & -> & Hc & Hq & _)].
  - destruct Hdone as [Hw|(code & r & ->)]; [done | by destruct (Hno code r)].
  - apply check_signatures_spec in Hc as (-> & Hh & Hall & signers & Hnd & Hlen & Hmem); [|done].
    destruct (exists_outside signers faulty Hnd) as (p & Hp & Hgood); [unfold glen in Hlen; lia|].
    destruct (Hmem p Hp) as (Hin & r & Hr & Hver). exists reqs, req, p. eauto 8.
Qed.

(** ** Responses *)

(** Everything a success implies. *)
Lemma execute_success clk s m body s' (code : Z) (resp : ExecuteResponse) :
  handleExecute clk s m body = (HttpOK code resp, s') ->
  exists reqs req secrets w w',
    body = Decoded reqs /\ head reqs = Some req /\
    Forall (fun r : SignedComputeRequest => ComputeRequest_Hash r = ComputeRequest_Hash req) reqs /\
    quorum_cert (config s) (compute_payload (ComputeRequest_Hash req)) reqs /\
    app_call clk (mark (at_mark clk) s (ComputeRequest_Hash req)) (config s) (ComputeRequest_Hash req) reqs req secrets /\
    app_result s req reqs secrets = (w, Ok (er_Output resp)) /\
    er_RequestID resp = RequestID req /\ er_RequestHash resp = ComputeRequest_Hash req /\
    er_Config resp = config s /\ er_ApplicationRequestID resp = ApplicationRequestID req /\
    CreateAttestation w (ExecuteResponse_UserDataHash resp (Version req)) = (w', Some (er_Attestation resp)).
Proof.
  intros H. apply handleExecute_cases in H as
    [[_ Hno]|(reqs & hash & req & set & em & s1 & -> & Hc & Hq & Hi & Hm & ->)]; [by destruct (Hno code resp)|].
  apply check_signatures_spec in Hc as (-> & Hh & Hall & Hcert); [|done].
  apply execute_marked_cases in Hm as [[_ Hno]|(secrets & Hcall & em' & Hrun)]; [by destruct (Hno code resp)|].
  apply run_app_cases in Hrun.
  destruct (app_result (mark (at_mark clk) s (ComputeRequest_Hash req)) req reqs secrets) as [w r] eqn:Er.
  destruct r as [output|e]; [|destruct Hrun as [_ [er Hrun]]; discriminate].
  destruct Hrun as (w' & att & Hatt & [[_ [e He]]|(att' & ms & evs & -> & Hout & _)]); [discriminate|].
  injection Hout as -> ->. exists reqs, req, secrets, w, w'. split_and!; try done.
Qed.

(** C23 What a success means: the output is the application's on the first
    request of the batch, on secrets all of which some node's shares decrypted;
    the request was fresh; and the attestation was created over the hash that
    binds output, request hash, request ID and the enclave's configuration. *)
Theorem execute_response_attested clk s m body s' (code : Z) (resp : ExecuteResponse) :
  handleExecute clk s m body = (HttpOK code resp, s') ->
  exists reqs req secrets w w',
    body = Decoded reqs /\ head reqs = Some req /\
    app_call clk (mark (at_mark clk) s (ComputeRequest_Hash req)) (config s) (ComputeRequest_Hash req) reqs req secrets /\
    app_result s req reqs secrets = (w, Ok (er_Output resp)) /\
    er_RequestID resp = RequestID req /\ er_RequestHash resp = ComputeRequest_Hash req /\
    er_Config resp = config s /\ er_ApplicationRequestID resp = ApplicationRequestID req /\
    CreateAttestation w (ExecuteResponse_UserDataHash resp (Version req)) = (w', Some (er_Attestation resp)).
Proof.
  intros (reqs & req & secrets & w & w' & Hb & Hh & _ & _ & H)%execute_success. by exists reqs, req, secrets, w, w'.
Qed.

(** ** Cleanup *)

Record server_inv s : Prop := {
  si_progress : cache_inv (inProgressReqs s);
  si_executed : cache_inv (executedReqs s);
  si_votes : cache_inv (pendingConfigVotes s);
  si_atts : cache_inv (pubKeyAttestations s);
  si_keys : keychain_inv (keychain s);
}.

Lemma run_app_frame clk s cfg hash req reqs secrets em :
  let s1 := (run_app clk s cfg hash req reqs secrets em).2 in
  inProgressReqs s1 = inProgressReqs s /\ config s1 = config s /\ configSet s1 = configSet s /\
  allowReconfig s1 = allowReconfig s /\ pendingConfigVotes s1 = pendingConfigVotes s /\
  pubKeyAttestations s1 = pubKeyAttestations s /\ keychain s1 = keychain s /\
  (executedReqs s1 = executedReqs s \/
   executedReqs s1 = Set_ (at_record clk) (executedReqs s) hash tt None /\
   exists resp, (run_app clk s cfg hash req reqs secrets em).1 = HttpOK StatusOK resp).
Proof.
  destruct (run_app clk s cfg hash req reqs secrets em) as [out s1] eqn:E. cbn [fst snd].
  apply run_app_cases in E. destruct (app_result s req reqs secrets) as [w [output|e]].
  - destruct E as (w' & att & _ & [[-> _]|(att' & ms & evs & _ & -> & ->)]); simpl; eauto 12.
  - destruct E as [-> _]. simpl. auto 12.
Qed.

(** The handler touches the caches only as follows, whatever the outcome. *)
Lemma handleExecute_frame clk s m body :
  let out := (handleExecute clk s m body).1 in
  let s' := (handleExecute clk s m body).2 in
  config s' = config s /\ configSet s' = configSet s /\ allowReconfig s' = allowReconfig s /\
  pendingConfigVotes s' = pendingConfigVotes s /\ pubKeyAttestations s' = pubKeyAttestations s /\
  keychain s' = keychain s /\
  (s' = s \/ exists hash,
     inProgressReqs s' = Delete (Set_ (at_mark clk) (inProgressReqs s) hash tt None) hash) /\
  (executedReqs s' = executedReqs s \/
   exists reqs (req : SignedComputeRequest) (set : gset bytes), body = Decoded reqs /\
     check_signatures (config s) reqs = Ok (ComputeRequest_Hash req, req, set) /\
     Get (at_replay clk) (executedReqs s) (ComputeRequest_Hash req) = None /\
     executedReqs s' = Set_ (at_record clk) (executedReqs s) (ComputeRequest_Hash req) tt None /\
     exists resp, out = HttpOK StatusOK resp).
Proof.
  destruct (handleExecute clk s m body) as [out s'] eqn:E. cbn [fst snd].
  apply handleExecute_cases in E as [[-> _]|(reqs & hash & req & set & em & s1 & -> & Hc & Hq & Hi & Hm & ->)];
    [auto 12|].
  pose proof (check_signatures_spec _ _ _ _ _ Hc Hq) as (-> & _).
  apply execute_marked_cases in Hm as [[-> _]|(secrets & Hcall & em' & Hrun)].
  - simpl. split_and!; eauto.
  - pose proof (run_app_frame clk (mark (at_mark clk) s (ComputeRequest_Hash req)) (config s) (ComputeRequest_Hash req) req reqs secrets em') as Hf.
    rewrite Hrun in Hf. cbn [fst snd] in Hf. destruct Hf as (H1 & H2 & H3 & H4 & H5 & H6 & H7 & H8).
    unfold unmark. cbn [config configSet allowReconfig pendingConfigVotes pubKeyAttestations keychain
      inProgressReqs executedReqs set_inProgress].
    rewrite H1, H2, H3, H4, H5, H6, H7. simpl. split_and!; try done.
    + right. eauto.
    + destruct H8 as [->|[-> [resp ->]]]; [by left|]. right. exists reqs, req, set.
      split_and!; eauto. apply Hcall.
Qed.

(** ** Histories of the server

    Handlers one after the other, in any order and with any inputs, and what
    happens in the background: collection of expired entries, key rotation. *)

Inductive server_op :=
| OpExecute clk m body
| OpPublicKeys (now : Z) m (param : bytes)
| OpSetConfig m (c : decoded (option EnclaveConfig))
| OpUpdateConfig (now : Z) (vote : decoded (option EnclaveConfig * bytes))
| OpSettings m (raw : option bytes)
| OpCollect (now : Z)
| OpRotate (now : Z) (gen : option (bytes * bytes)).

Definition collect_all (now : Z) s : enclaveServer :=
  mkServer (config s) (configSet s) (allowReconfig s)
    (garbageCollect now (inProgressReqs s)).2 (garbageCollect now (executedReqs s)).2
    (garbageCollect now (pendingConfigVotes s)).2 (garbageCollect now (pubKeyAttestations s)).2
    (mkKeychain (garbageCollect now (keypairCache (keychain s))).2
       (garbageCollect now (requestKeyMap (keychain s))).2
       (rotationFrequency (keychain s)) (expiration (keychain s)))
    (world s).

(** A successful execution: its request hash, when it was checked against the
    executed requests and when it was recorded among them. *)
Record execution := mkExecution { x_hash : bytes; x_checked : Z; x_recorded : Z }.

Definition execution_of clk (out : exec_response) : list execution :=
  match out with
  | HttpOK _ resp => [mkExecution (er_RequestHash resp) (at_replay clk) (at_record clk)]
  | _ => []
  end.

Definition server_step s (op : server_op) : enclaveServer * list execution :=
  match op with
  | OpExecute clk m body =>
      let '(out, s') := handleExecute clk s m body in (s', execution_of clk out)
  | OpPublicKeys now m param => ((handleGetPublicKeys now s m param).2, [])
  | OpSetConfig m c => ((handleSetConfig s m c).2, [])
  | OpUpdateConfig now vote => ((handleUpdateConfig now s vote).2, [])
  | OpSettings m raw => ((handleInjectSettings s m raw).2, [])
  | OpCollect now => (collect_all now s, [])
  | OpRotate now gen => (default s (set_keychain s <$> rotation_tick now (keychain s) gen), [])
  end.

Fixpoint server_run s (ops : list server_op) : enclaveServer * list execution :=
  match ops with
  | [] => (s, [])
  | op :: ops' => let '(s1, l1) := server_step s op in
                  let '(s2, l2) := server_run s1 ops' in (s2, l1 ++ l2)
  end.

(** The clock readings that matter for replay protection never go back. *)
Fixpoint chronological (t : Z) (ops : list server_op) : Prop :=
  match ops with
  | [] => True
  | OpExecute clk _ _ :: ops' => t <= at_replay clk <= at_record clk /\ chronological (at_record clk) ops'
  | OpCollect now :: ops' => t <= now /\ chronological now ops'
  | _ :: ops' => chronological t ops'
  end.

(** Handlers that leave the request caches and the keychain alone. *)
Definition same_caches s s' : Prop :=
  executedReqs s' = executedReqs s /\ inProgressReqs s' = inProgressReqs s /\
  pubKeyAttestations s' = pubKeyAttestations s /\ keychain s' = keychain s.

Lemma same_caches_trans s1 s2 s3 : same_caches s1 s2 -> same_caches s2 s3 -> same_caches s1 s3.
Proof. unfold same_caches. intuition congruence. Qed.

Lemma attest_frame s d : same_caches s (attest s d).2 /\ config (attest s d).2 = config s /\
  pendingConfigVotes (attest s d).2 = pendingConfigVotes s /\ configSet (attest s d).2 = configSet s /\
  allowReconfig (attest s d).2 = allowReconfig s.
Proof. unfold attest. by destruct (CreateAttestation (world s) d). Qed.

Lemma notify_frame s c : same_caches s (notify_app s c) /\ config (notify_app s c) = config s /\
  pendingConfigVotes (notify_app s c) = pendingConfigVotes s /\ configSet (notify_app s c) = configSet s /\
  allowReconfig (notify_app s c) = allowReconfig s.
Proof. unfold notify_app. by destruct app_OnConfigUpdate. Qed.

Lemma attestPublicKeys_frame now s d :
  executedReqs (attestPublicKeys now s d).2 = executedReqs s /\
  keychain (attestPublicKeys now s d).2 = keychain s.
Proof.
  unfold attestPublicKeys. destruct (Get _ _ _); [done|].
  destruct (attest_frame s d) as [(? & _ & _ & ?) _]. by destruct (attest s d) as [[att|] s1].
Qed.

Lemma select_keypairs_frame now s param :
  exists kc, (select_keypairs now s param).2 = set_keychain s kc.
Proof.
  assert (s = set_keychain s (keychain s)) as Hs by by destruct s.
  unfold select_keypairs. destruct (decide _); [eauto|]. destruct (parse_request_id param); [|eauto].
  destruct (GetKeyPairForRequest _ _ _) as [[] kc]; eauto.
Qed.

Lemma handleGetPublicKeys_executed now s m param :
  executedReqs (handleGetPublicKeys now s m param).2 = executedReqs s.
Proof.
  unfold handleGetPublicKeys. destruct (negb _); [done|]. destruct (IsZero _); [done|].
  destruct (select_keypairs_frame now s param) as [kc Hs].
  destruct (select_keypairs now s param) as [[[|kp kps]|[code e]] s1]; cbn [snd] in Hs; subst s1; try done.
  match goal with |- context [attestPublicKeys now ?s1 ?d] =>
    destruct (attestPublicKeys_frame now s1 d) as [Ha _]; destruct (attestPublicKeys now s1 d) as [[att|] s2] end; done.
Qed.

Lemma handleSetConfig_frame s m c : same_caches s (handleSetConfig s m c).2.
Proof.
  unfold handleSetConfig. destruct (negb _); [done|]. destruct (_ && _); [done|].
  destruct c as [| |[c|]]; try done.
  destruct (notify_frame (set_configSet (set_config s c) true) c) as [Hn _].
  match goal with |- context [attest ?s0 ?d] =>
    destruct (attest_frame s0 d) as [Ha _]; destruct (attest s0 d) as [[att|] s1] end;
    (eapply same_caches_trans; [|exact Ha]); (eapply same_caches_trans; [|exact Hn]); done.
Qed.

Lemma handleUpdateConfig_frame now s v : same_caches s (handleUpdateConfig now s v).2.
Proof.
  unfold handleUpdateConfig. destruct (negb _); [done|].
  destruct v as [| |[[c|] sig]]; try done. destruct (VerifySignature _ _ _) as [sg|[]]; try done.
  destruct (decide _).
  - match goal with |- context [attest ?s0 ?d] =>
      destruct (attest_frame s0 d) as [Ha _]; destruct (attest s0 d) as [[att|] s1] end; done.
  - destruct (_ <? _); [done|].
    match goal with |- context [notify_app ?s0 ?c] => destruct (notify_frame s0 c) as [Hn _] end.
    match goal with |- context [attest ?s0 ?d] =>
      destruct (attest_frame s0 d) as [Ha _]; destruct (attest s0 d) as [[att|] s1] end;
      (eapply same_caches_trans; [|exact Ha]); (eapply same_caches_trans; [|exact Hn]); done.
Qed.

Lemma handleInjectSettings_frame s m raw : same_caches s (handleInjectSettings s m raw).2.
Proof. unfold handleInjectSettings. repeat (case_match; try done). Qed.

(** ** Replay protection *)

(** Invariant at instant [t] after the executions [log]. *)
Record replay_inv (t : Z) (executed : Cache unit) (log : list execution) : Prop := {
  ri_cache : cache_inv executed;
  ri_max : maxEntries executed = MaxReplayCacheEntries;
  ri_ttl : timeToLive executed = DefaultKeypairExpiration;
  ri_size : Size executed <= glen log;
  ri_past : Forall (fun x => x_recorded x <= t) log;
  ri_known : forall x t', x ∈ log -> t <= t' -> t' - x_recorded x <= DefaultKeypairExpiration ->
    Get t' executed (x_hash x) = Some tt;
  ri_apart : forall i j x y, log !! i = Some x -> log !! j = Some y -> (i < j)%nat -> x_hash x = x_hash y ->
    DefaultKeypairExpiration < x_checked y - x_recorded x;
}.

Lemma setLocked_size {V} now (c : Cache V) k v ttl :
  cache_inv c -> Size (setLocked now c k v ttl) <= Size c + 1.
Proof.
  intros Hc. rewrite !inv_size by auto with cc_cache. rewrite setLocked_eq by done. cbn [keyList with_entries].
  case_bool_decide; [unfold glen; lia|]. rewrite glen_snoc. unfold glen. rewrite length_drop. lia.
Qed.

Lemma replay_inv_later t t' c log : t <= t' -> replay_inv t c log -> replay_inv t' c log.
Proof.
  intros Hle [? ? ? ? Hp Hk ?]. split; try done.
  - eapply Forall_impl; [exact Hp|]. cbn. lia.
  - intros x t'' Hx Ht. apply Hk; [done|lia].
Qed.

Lemma replay_inv_collect t c log : replay_inv t c log -> replay_inv t (garbageCollect t c).2 log.
Proof.
  intros [Hc Hm Ht Hs Hp Hk Ha]. split; try done.
  - by apply gc_inv.
  - by rewrite garbageCollect_eq.
  - by rewrite garbageCollect_eq.
  - rewrite inv_size by (by apply gc_inv). rewrite inv_size in Hs by done.
    rewrite garbageCollect_eq by done. cbn [snd keyList with_entries]. unfold glen in *.
    pose proof (List.filter_length_le (live t (items c)) (keyList c)). lia.
  - intros x t' Hx Hle Hage. rewrite Get_gc by done. by apply Hk.
Qed.

Lemma replay_inv_record t c log h checked recorded :
  replay_inv t c log -> t <= checked -> checked <= recorded -> glen log < MaxReplayCacheEntries ->
  Get checked c h = None ->
  replay_inv recorded (Set_ recorded c h tt None) (log ++ [mkExecution h checked recorded]).
Proof.
  intros [Hc Hm Ht Hs Hp Hk Ha] H1 H2 Hlt Hget. unfold Set_.
  assert (evictees c h = []) as Hev.
  { unfold evictees. rewrite decide_False; [done|]. intros (_ & _ & Hfull).
    rewrite inv_size in Hs by done. lia. }
  split.
  - by apply setLocked_inv.
  - by rewrite setLocked_max.
  - by rewrite setLocked_eq.
  - pose proof (setLocked_size recorded c h tt None Hc). rewrite glen_snoc. lia.
  - apply Forall_app. split; [|by constructor]. eapply Forall_impl; [exact Hp|]. cbn. lia.
  - intros x t' Hx Hle Hage. pose proof (Get_Set recorded t' c h tt None (x_hash x) Hc) as Hg.
    unfold Set_ in Hg. rewrite Hg, Hev, Ht, (decide_False (P := _ ∈ [])) by apply not_elem_of_nil.
    cbn [default]. apply elem_of_app in Hx. destruct (decide (x_hash x = h)) as [Hh|Hh].
    + assert (x_recorded x <= recorded) as Hr.
      { destruct Hx as [Hx|Hx]; [|apply list_elem_of_singleton in Hx; subst x; cbn; lia].
        rewrite Forall_forall in Hp. specialize (Hp x Hx). cbn in Hp. lia. }
      rewrite (proj2 (Z.ltb_ge _ _)); [done|]. unfold time_sub, min_duration, max_duration.
      assert (0 <= DefaultKeypairExpiration) by by_compute. lia.
    + destruct Hx as [Hx|Hx]; [|apply list_elem_of_singleton in Hx; by subst x]. apply Hk; [done|lia|done].
  - intros i j x y Hi Hj Hij Heq. apply lookup_snoc_Some in Hj as [[Hj Hy]|[Hj <-]].
    + rewrite lookup_app_l in Hi by lia. eauto.
    + rewrite lookup_app_l in Hi by lia. cbn [x_hash x_checked] in *.
      destruct (decide (checked - x_recorded x <= DefaultKeypairExpiration)) as [Hle|]; [|lia].
      assert (Get checked c (x_hash x) = Some tt) as Hin.
      { apply Hk; [by eapply list_elem_of_lookup_2|done|done]. }
      congruence.
Qed.

Lemma execute_ok_facts clk s m body (code : Z) (resp : ExecuteResponse) s' :
  handleExecute clk s m body = (HttpOK code resp, s') ->
  Get (at_replay clk) (executedReqs s) (er_RequestHash resp) = None /\
  executedReqs s' = Set_ (at_record clk) (executedReqs s) (er_RequestHash resp) tt None.
Proof.
  intros H. apply handleExecute_cases in H as
    [[_ Hno]|(reqs & hash & req & set & em & s1 & -> & Hc & Hq & Hi & Hm & ->)]; [by destruct (Hno code resp)|].
  apply execute_marked_cases in Hm as [[_ Hno]|(secrets & Hcall & em' & Hrun)]; [by destruct (Hno code resp)|].
  apply run_app_cases in Hrun.
  destruct (app_result _ req reqs secrets) as [w [output|e]]; [|destruct Hrun as [_ [er Hrun]]; discriminate].
  destruct Hrun as (w' & att & Hatt & [[_ [e He]]|(att' & ms & evs & -> & Hout & ->)]); [discriminate|].
  injection Hout as -> ->. split; [apply Hcall | done].
Qed.

Lemma execute_replay_step clk s m body t log :
  replay_inv t (executedReqs s) log -> t <= at_replay clk -> at_replay clk <= at_record clk ->
  let r := server_step s (OpExecute clk m body) in
  glen (log ++ r.2) <= MaxReplayCacheEntries ->
  replay_inv (at_record clk) (executedReqs r.1) (log ++ r.2).
Proof.
  intros Hi H1 H2. cbn [server_step].
  pose proof (handleExecute_frame clk s m body) as Hf. cbn zeta in Hf.
  destruct (handleExecute clk s m body) as [out s'] eqn:E. cbn [fst snd] in *.
  destruct Hf as (_ & _ & _ & _ & _ & _ & _ & Hex). intros Hlen.
  destruct out as [code e|code resp|]; cbn [execution_of] in *; rewrite ?app_nil_r in *.
  - destruct Hex as [->|(? & ? & ? & _ & _ & _ & _ & ? & ?)]; [|done]. eapply replay_inv_later; [|done]. lia.
  - apply execute_ok_facts in E as [Hget ->]. rewrite glen_snoc in Hlen. apply (replay_inv_record t); try done. lia.
  - destruct Hex as [->|(? & ? & ? & _ & _ & _ & _ & ? & ?)]; [|done]. eapply replay_inv_later; [|done]. lia.
Qed.

Lemma server_step_replay s (op : server_op) ops t log :
  replay_inv t (executedReqs s) log -> chronological t (op :: ops) ->
  glen (log ++ (server_step s op).2) <= MaxReplayCacheEntries ->
  exists t', replay_inv t' (executedReqs (server_step s op).1) (log ++ (server_step s op).2) /\ chronological t' ops.
Proof.
  intros Hi Hc Hlen.
  destruct op as [clk m body|now m param|m c|now vote|m raw|now|now gen]; cbn [server_step chronological fst snd] in *;
    rewrite ?app_nil_r.
  - destruct Hc as [[H1 H2] Hc]. exists (at_record clk). split; [|done].
    exact (execute_replay_step clk s m body t log Hi H1 H2 Hlen).
  - exists t. by rewrite handleGetPublicKeys_executed.
  - exists t. by rewrite (proj1 (handleSetConfig_frame s m c)).
  - exists t. by rewrite (proj1 (handleUpdateConfig_frame now s vote)).
  - exists t. by rewrite (proj1 (handleInjectSettings_frame s m raw)).
  - destruct Hc as [Hle Hc]. exists now. split; [|done]. cbn [collect_all executedReqs].
    apply replay_inv_collect. by eapply replay_inv_later.
  - exists t. split; [|done]. by destruct (rotation_tick now (keychain s) gen).
Qed.

Lemma server_run_replay ops : forall s t log,
  replay_inv t (executedReqs s) log -> chronological t ops ->
  glen (log ++ (server_run s ops).2) <= MaxReplayCacheEntries ->
  exists t', replay_inv t' (executedReqs (server_run s ops).1) (log ++ (server_run s ops).2).
Proof.
  induction ops as [|op ops IH]; intros s t log Hi Hc Hlen.
  - cbn [server_run snd] in *. rewrite app_nil_r in *. eauto.
  - pose proof (server_step_replay s op ops t log Hi Hc) as Hs. cbn [server_run] in *.
    destruct (server_step s op) as [s1 l1] eqn:E1. specialize (IH s1).
    destruct (server_run s1 ops) as [s2 l2]. cbn [fst snd] in *.
    destruct Hs as (t1 & Hi1 & Hc1).
    { rewrite !glen_app in *. pose proof (glen_nonneg l2). lia. }
    rewrite app_assoc in *. eapply IH; eauto.
Qed.

(** No replay: in any history of a fresh server (handlers in any order, with
    collections and key rotations in between) with at most 500000 successful
    executions, the same request hash is never executed twice within 24 hours:
    a second success was checked more than the retention time after the first
    was recorded. *)
Theorem no_replay w kc cfg reconfig ops t i j x y :
  chronological t ops ->
  let log := (server_run (NewEnclaveServer w kc cfg reconfig) ops).2 in
  glen log <= MaxReplayCacheEntries ->
  log !! i = Some x -> log !! j = Some y -> (i < j)%nat -> x_hash x = x_hash y ->
  DefaultKeypairExpiration < x_checked y - x_recorded x.
Proof.
  intros Hc log Hlen. set (s := NewEnclaveServer w kc cfg reconfig) in *.
  assert (replay_inv t (executedReqs s) []) as Hi.
  { split; try done; [apply New_inv|intros x0 t' Hx; by apply elem_of_nil in Hx]. }
  destruct (server_run_replay ops s t [] Hi Hc Hlen) as (t' & Hi'). apply (ri_apart _ _ _ Hi').
Qed.

(** ** Failures leave no trace *)

(** A handler leaves no request marked as in progress that was not before, on
    every path including errors and panics, and only a success is recorded as
    executed: after a failure the executed set is unchanged, so the same batch
    can be retried. *)
Theorem execute_cleans_up clk s m body (out : exec_response) s' :
  server_inv s -> handleExecute clk s m body = (out, s') ->
  (forall t k u, Get t (inProgressReqs s') k = Some u -> Get t (inProgressReqs s) k = Some u) /\
  ((forall code r, out <> HttpOK code r) -> executedReqs s' = executedReqs s).
Proof.
  intros Hinv H. pose proof (handleExecute_frame clk s m body) as Hf. rewrite H in Hf. cbn [fst snd] in Hf.
  destruct Hf as (_ & _ & _ & _ & _ & _ & Hp & Hx). split.
  - intros t k u Hg. destruct Hp as [->|[hash Hp]]; [done|]. rewrite Hp, Get_Delete in Hg.
    destruct (decide (k = hash)) as [|Hne]; [done|].
    rewrite Get_Set in Hg by apply Hinv. rewrite decide_False in Hg by done.
    by destruct (decide (k ∈ _)).
  - intros Hno. destruct Hx as [->|(? & ? & ? & _ & _ & _ & _ & resp & ->)]; [done|]. by destruct (Hno StatusOK resp).
Qed.

(** ** No panics *)

Lemma node_secrets_total now kp mpk thr cts : forall shares names acc,
  length shares = length cts -> length names = length cts ->
  is_Some (node_secrets now kp mpk thr cts shares names acc).
Proof.
  induction cts as [|ct cts IH]; intros [|sh shares] [|n names] acc Hs Hn; try done; cbn [node_secrets]; eauto.
  destruct (AggregateShares _ _ _ _); eauto.
Qed.

Lemma combine_nodes_err now kp mpk thr (req : ComputeRequest) reqs : forall e,
  combine_nodes now kp mpk thr req reqs (Some e) <> NoneCombined None.
Proof.
  induction reqs as [|r reqs IH]; intros e; cbn [combine_nodes]; [done|].
  destruct (negb _); [apply IH|]. by destruct (node_secrets _ _ _ _ _ _ _ _) as [[]|].
Qed.

Lemma combine_nodes_no_panic now kp mpk thr (req : ComputeRequest) reqs : forall last,
  length (Ciphertexts req) = length (CiphertextNames req) ->
  combine_nodes now kp mpk thr req reqs last <> CombinePanic.
Proof.
  induction reqs as [|r reqs IH]; intros last Hl; cbn [combine_nodes]; [done|].
  destruct (Nat.eqb _ _) eqn:En; cbn [negb]; [|by apply IH]. apply Nat.eqb_eq in En.
  destruct (node_secrets_total now kp mpk thr (Ciphertexts req) (EncryptedDecryptionKeyShares r)
    (CiphertextNames req) ∅ En ltac:(done)) as [[sec|e] ->]; [done|]. by apply IH.
Qed.

Lemma verify_batch_no_panic cfg hash
    (Hkeys : forall msg sig n, VerifySignature msg sig (Signers cfg) <> Err (VerifyPanic n)) reqs :
  forall i st k n, verify_batch cfg hash i reqs st <> Err (SignatureFailed k (VerifyPanic n)).
Proof.
  induction reqs as [|q l IH]; intros i st k n; cbn [verify_batch]; [done|].
  destruct (decide _); [done|]. destruct (VerifySignature _ _ _) as [sg|e] eqn:Ev; [apply IH|].
  intros [= _ ->]. by apply Hkeys in Ev.
Qed.

Lemma check_signatures_no_panic cfg
    (Hkeys : forall msg sig n, VerifySignature msg sig (Signers cfg) <> Err (VerifyPanic n)) reqs k n :
  check_signatures cfg reqs <> Err (SignatureFailed k (VerifyPanic n)).
Proof.
  destruct reqs as [|r reqs]; [done|]. unfold check_signatures. intros H.
  apply rbind_Err_inv in H as [H|(? & _ & ?)]; [|done]. by apply verify_batch_no_panic in H.
Qed.

(** With well-formed signer keys the execute handler never panics: share slices
    shorter than the signed ciphertext list, mismatched name lists, failing
    share aggregation on every node and expired keypairs all end in an error
    answer. *)
Theorem execute_never_panics clk s m body
    (Hkeys : forall msg sig n, VerifySignature msg sig (Signers (config s)) <> Err (VerifyPanic n)) :
  (handleExecute clk s m body).1 <> HttpPanic.
Proof.
  destruct (handleExecute clk s m body) as [out s'] eqn:E. cbn [fst]. intros ->.
  revert E. unfold handleExecute. rewrite EnclaveConfig_Copy_id.
  destruct (negb _); [done|]. destruct body as [| |reqs]; [done..|].
  destruct (check_signatures (config s) reqs) as [[[hash req] set]|e] eqn:Ec.
  - destruct (negb (quorum _ _)); [done|]. destruct (in_progress _ _ _); [done|].
    destruct (execute_marked _ _ _ _ _ _ _) as [out1 s1] eqn:Em. intros [= -> _].
    revert Em. unfold execute_marked, execute_fresh. destruct (replayed _ _ _); [done|].
    destruct (Nat.eqb _ _) eqn:En; cbn [negb]; [|done]. apply Nat.eqb_eq in En.
    destruct (decide (AppID req = _)); [done|]. destruct (decide (Version req = _)); [done|].
    destruct (GetKeyPair _ _ _) as [kp|e]; [|done].
    destruct (combine_nodes _ _ _ _ _ _ _) as [secrets|[lastErr|]|] eqn:Ecm; [|done| |].
    + intros Hr. apply run_app_cases in Hr.
      destruct (app_result _ req reqs secrets) as [w [output|e]]; [|destruct Hr as [_ [er Hr]]; discriminate].
      destruct Hr as (w' & att & _ & [[_ [e He]]|(att' & ms & evs & _ & Hout & _)]); discriminate.
    + destruct reqs as [|r reqs]; [done|]. cbn [combine_nodes] in Ecm. intros _.
      destruct (negb _); [by apply combine_nodes_err in Ecm|].
      destruct (node_secrets _ _ _ _ _ _ _ _) as [[]|]; try done. by apply combine_nodes_err in Ecm.
    + intros _. by apply combine_nodes_no_panic in Ecm.
  - intros H. destruct e as [| | | | | | | | | | | | | | | | |i e| | | | | | | | |]; try done.
    destruct e as [| |n]; try done. by apply check_signatures_no_panic in Ec.
Qed.

(** ** Secrets *)

Definition node_decrypts (now : Z) (kp : boxKeypair) (mpk : bytes) (thr : Z) (ct : bytes) (shares : list bytes)
    : result aggregate_error bytes :=
  AggregateShares ct (decrypt_shares (Decrypt OpenAnonymous now kp) shares) mpk thr.

Lemma node_secrets_spec now kp mpk thr cts : forall shares names acc res,
  length shares = length cts -> length names = length cts -> NoDup names ->
  (forall n, n ∈ names -> acc !! n = None) ->
  node_secrets now kp mpk thr cts shares names acc = Some (Ok res) <->
  exists secrets, Forall3 (fun ct sh sec => node_decrypts now kp mpk thr ct sh = Ok sec) cts shares secrets /\
    res = list_to_map (zip names secrets) ∪ acc.
Proof.
  induction cts as [|ct cts IH]; intros [|sh shares] [|n names] acc res Hs Hn Hnd Hacc; try done; cbn [node_secrets].
  - split.
    + intros [= <-]. exists []. split; [constructor|]. cbn. by rewrite map_empty_union.
    + intros (sec & H3 & ->). inversion H3. cbn. by rewrite map_empty_union.
  - apply NoDup_cons in Hnd as [Hfresh Hnd].
    assert (forall sec, (forall x, x ∈ names -> (<[n := sec]> acc : gmap string bytes) !! x = None)) as Hacc'.
    { intros sec x Hx. rewrite lookup_insert_ne by (by intros ->). apply Hacc, elem_of_cons. auto. }
    assert (forall sec secs, list_to_map (zip names secs) ∪ <[n := sec]> acc =
             (list_to_map (zip (n :: names) (sec :: secs)) ∪ acc : gmap string bytes)) as Hun.
    { intros sec secs. cbn [zip zip_with list_to_map]. cbn. rewrite <- insert_union_r, insert_union_l; [done|].
      apply not_elem_of_list_to_map. intros Hin. apply Hfresh.
      apply list_elem_of_fmap in Hin as ([a b] & -> & Hab). by apply elem_of_zip_l in Hab. }
    fold (node_decrypts now kp mpk thr ct sh). destruct (node_decrypts now kp mpk thr ct sh) as [sec|e] eqn:E.
    + injection Hs as Hs. injection Hn as Hn. rewrite (IH _ _ _ _ Hs Hn Hnd (Hacc' sec)). split.
      * intros (secs & H3 & ->). exists (sec :: secs). split; [by constructor|]. apply Hun.
      * intros (secs & H3 & ->). inversion H3 as [|? ? sec' ? ? secs' Hd H3']; subst.
        assert (sec' = sec) as -> by congruence. eexists. split; [done|]. symmetry. apply Hun.
    + split; [done|]. intros (secs & H3 & _). inversion H3; congruence.
Qed.

Lemma combine_nodes_spec now kp mpk thr (req : ComputeRequest) reqs : forall last secrets,
  combine_nodes now kp mpk thr req reqs last = Combined secrets ->
  exists r : SignedComputeRequest, r ∈ reqs /\ length (EncryptedDecryptionKeyShares r) = length (Ciphertexts req) /\
    node_secrets now kp mpk thr (Ciphertexts req) (EncryptedDecryptionKeyShares r) (CiphertextNames req) ∅ =
    Some (Ok secrets).
Proof.
  induction reqs as [|r reqs IH]; intros last secrets; cbn [combine_nodes]; [done|].
  destruct (Nat.eqb _ _) eqn:En; cbn [negb].
  - apply Nat.eqb_eq in En. destruct (node_secrets _ _ _ _ _ _ _ _) as [[sec|e]|] eqn:E; [|..|done].
    + intros [= <-]. exists r. split; [apply elem_of_cons; auto | done].
    + intros H. apply IH in H as (r' & Hr & ?). exists r'. split; [apply elem_of_cons; auto | done].
  - intros H. apply IH in H as (r' & Hr & ?). exists r'. split; [apply elem_of_cons; auto | done].
Qed.

Lemma combine_nodes_finds now kp mpk thr (req : ComputeRequest) reqs (r : SignedComputeRequest) sec : forall last,
  length (Ciphertexts req) = length (CiphertextNames req) -> r ∈ reqs ->
  length (EncryptedDecryptionKeyShares r) = length (Ciphertexts req) ->
  node_secrets now kp mpk thr (Ciphertexts req) (EncryptedDecryptionKeyShares r) (CiphertextNames req) ∅ = Some (Ok sec) ->
  exists secrets, combine_nodes now kp mpk thr req reqs last = Combined secrets.
Proof.
  induction reqs as [|q reqs IH]; intros last Hl Hr Hlen Hsec; [by apply elem_of_nil in Hr|]. cbn [combine_nodes].
  apply elem_of_cons in Hr as [<-|Hr].
  - rewrite (proj2 (Nat.eqb_eq _ _) Hlen). cbn [negb]. rewrite Hsec. eauto.
  - destruct (Nat.eqb _ _) eqn:En; cbn [negb]; [|by apply IH]. apply Nat.eqb_eq in En.
    destruct (node_secrets_total now kp mpk thr (Ciphertexts req) (EncryptedDecryptionKeyShares q)
      (CiphertextNames req) ∅ En ltac:(done)) as [[sec'|e] ->]; [eauto|]. by apply IH.
Qed.

(** C24 Secrets are recovered exactly when some node's shares decrypt them all:
    with distinct names, combination succeeds iff at least one request of the
    batch carries one share set per ciphertext and each set aggregates, and
    the resulting map sends every name to the secret its own ciphertext
    decrypts to under one such node's shares; the other nodes' shares, however
    malformed, cannot prevent it or mix in. *)
Theorem combine_nodes_correct now kp mpk thr (req : ComputeRequest) reqs :
  length (Ciphertexts req) = length (CiphertextNames req) -> NoDup (CiphertextNames req) ->
  let good (r : SignedComputeRequest) secs :=
    length (EncryptedDecryptionKeyShares r) = length (Ciphertexts req) /\
    Forall3 (fun ct sh sec => node_decrypts now kp mpk thr ct sh = Ok sec)
      (Ciphertexts req) (EncryptedDecryptionKeyShares r) secs in
  (forall secrets, combine_nodes now kp mpk thr req reqs None = Combined secrets ->
     exists (r : SignedComputeRequest) secs, r ∈ reqs /\ good r secs /\ secrets = list_to_map (zip (CiphertextNames req) secs)) /\
  (forall r secs, r ∈ reqs -> good r secs ->
     exists secrets, combine_nodes now kp mpk thr req reqs None = Combined secrets).
Proof.
  intros Hl Hnd good. split.
  - intros secrets H. apply combine_nodes_spec in H as (r & Hr & Hlen & H).
    apply node_secrets_spec in H as (secs & H3 & ->); [|done..].
    exists r, secs. rewrite map_union_empty. done.
  - intros r secs Hr [Hlen H3]. eapply combine_nodes_finds; [done..|].
    apply node_secrets_spec; [done..|]. eauto.
Qed.

(** ** Public keys *)

(** A request ID is understood in the hexadecimal form clients send and in the
    base64 form of older clients, and the two never get confused. *)
Theorem request_id_encodings (id : bytes) :
  length id = 32%nat ->
  parse_request_id (hex_encode id) = Some id /\ parse_request_id (b64_encode id) = Some id.
Proof.
  intros Hl. split; unfold parse_request_id.
  - rewrite hex_decode_encode, Hl. done.
  - destruct (hex_decode (b64_encode id)) as [r|] eqn:E; [|by rewrite b64_decode_encode, Hl].
    apply hex_decode_length in E. rewrite b64_encode_length, Hl in E.
    destruct (Nat.eqb_spec (length r) 32) as [H|_]; [rewrite H in E; vm_compute in E; discriminate|].
    by rewrite b64_decode_encode, Hl.
Qed.

(** Every cached attestation was created by the attestor on the hash it is stored under. *)
Definition genuine (d : bytes) (att : bytes) : Prop := exists w w', CreateAttestation w d = (w', Some att).

Definition att_inv (c : Cache bytes) : Prop :=
  cache_inv c /\ forall h it, items c !! h = Some it -> genuine h (Value it).

Lemma att_inv_get now c h att : att_inv c -> Get now c h = Some att -> genuine h att.
Proof.
  intros [_ Hg] H. unfold Get in H. destruct (items c !! h) as [it|] eqn:E; [|done].
  destruct (expired now it); [done|]. injection H as <-. eauto.
Qed.

Lemma att_inv_set now c h att : att_inv c -> genuine h att -> att_inv (Set_ now c h att None).
Proof.
  intros [Hc Hg] Ha. split; [by apply setLocked_inv|]. intros k it Hk. unfold Set_ in Hk.
  rewrite setLocked_lookup in Hk by done. destruct (decide (k = h)) as [->|]; [by injection Hk as <-|].
  destruct (decide _); [done|]. by eapply Hg.
Qed.

Lemma att_inv_gc now c : att_inv c -> att_inv (garbageCollect now c).2.
Proof.
  intros [Hc Hg]. split; [by apply gc_inv|]. intros h it Hk. rewrite gc_lookup in Hk by done.
  destruct (items c !! h) as [it'|] eqn:E; [|done]. destruct (expired now it'); [done|].
  injection Hk as <-. by eapply Hg.
Qed.

Lemma attestPublicKeys_genuine now s d :
  att_inv (pubKeyAttestations s) ->
  att_inv (pubKeyAttestations (attestPublicKeys now s d).2) /\
  forall att, (attestPublicKeys now s d).1 = Some att -> genuine d att.
Proof.
  intros Hi. unfold attestPublicKeys. destruct (Get now _ d) as [att|] eqn:Eg.
  - split; [done|]. intros ? [= <-]. by eapply att_inv_get.
  - unfold attest. destruct (CreateAttestation (world s) d) as [w' [att|]] eqn:Ea; simpl.
    + assert (genuine d att) by (exists (world s), w'; done).
      split; [by apply att_inv_set | by intros ? [= <-]].
    + done.
Qed.

Lemma handleGetPublicKeys_genuine now s m param :
  att_inv (pubKeyAttestations s) ->
  att_inv (pubKeyAttestations (handleGetPublicKeys now s m param).2) /\
  forall code resp, (handleGetPublicKeys now s m param).1 = HttpOK code resp ->
    genuine (PublicKeyHash resp) (pkr_Attestation resp) /\ pkr_Config resp = config s.
Proof.
  intros Hi. unfold handleGetPublicKeys. rewrite EnclaveConfig_Copy_id.
  destruct (negb _); [done|]. destruct (IsZero _); [done|].
  destruct (select_keypairs_frame now s param) as [kc Hs].
  destruct (select_keypairs now s param) as [[[|kp kps]|[code e]] s1]; cbn [snd] in Hs; subst s1; try done.
  match goal with |- context [attestPublicKeys now ?s1 ?d] =>
    destruct (attestPublicKeys_genuine now s1 d Hi) as [Ha Hg];
    destruct (attestPublicKeys now s1 d) as [[att|] s2] end; cbn [fst snd] in *; [|done].
  split; [done|]. intros code resp [= <- <-]. split; [|done]. cbn [pkr_Attestation].
  exact (Hg att eq_refl).
Qed.

Lemma server_step_atts s (op : server_op) :
  att_inv (pubKeyAttestations s) -> att_inv (pubKeyAttestations (server_step s op).1).
Proof.
  intros Hi. destruct op as [clk m body|now m param|m c|now vote|m raw|now|now gen]; cbn [server_step fst].
  - pose proof (handleExecute_frame clk s m body) as Hf. cbn zeta in Hf.
    destruct (handleExecute clk s m body) as [out s']. cbn [fst snd] in *.
    destruct Hf as (_ & _ & _ & _ & -> & _). done.
  - by apply handleGetPublicKeys_genuine.
  - destruct (handleSetConfig_frame s m c) as (_ & _ & -> & _). done.
  - destruct (handleUpdateConfig_frame now s vote) as (_ & _ & -> & _). done.
  - destruct (handleInjectSettings_frame s m raw) as (_ & _ & -> & _). done.
  - by apply att_inv_gc.
  - by destruct (rotation_tick now (keychain s) gen).
Qed.

Lemma server_run_atts ops : forall s,
  att_inv (pubKeyAttestations s) -> att_inv (pubKeyAttestations (server_run s ops).1).
Proof.
  induction ops as [|op ops IH]; intros s Hi; [done|]. cbn [server_run].
  pose proof (server_step_atts s op Hi) as H1. destruct (server_step s op) as [s1 l1].
  specialize (IH s1 H1). by destruct (server_run s1 ops).
Qed.

(** C33 The attestation cache never lies: after any history, a served public-key
    response carries an attestation the attestor made for exactly that
    response (keys, creation times, lifetimes and configuration), and the
    configuration is the enclave's current one even if it changed since the
    attestation was cached. *)
Theorem publickeys_attestation_genuine w kc cfg reconfig ops now m (param : bytes) (code : Z) resp s' :
  let s := (server_run (NewEnclaveServer w kc cfg reconfig) ops).1 in
  handleGetPublicKeys now s m param = (HttpOK code resp, s') ->
  genuine (PublicKeyHash resp) (pkr_Attestation resp) /\ pkr_Config resp = config s.
Proof.
  intros s H. assert (att_inv (pubKeyAttestations s)) as Hi.
  { apply server_run_atts. split; [apply New_inv|]. intros h it Hl. cbn in Hl. by rewrite lookup_empty in Hl. }
  destruct (handleGetPublicKeys_genuine now s m param Hi) as [_ Hg]. rewrite H in Hg. by eapply Hg.
Qed.

End Safety.
