(* ===== verification/ServerConfig.v ===== *)
(** * ServerConfig: who can change the enclave configuration

    Theorems about [handleSetConfig] and [handleUpdateConfig] over whole
    histories of the server, and two behaviours of the vote cache that the
    handlers allow. *)

From S2P Require Import Prelude Codec Sha256 Types Cache Keychain Services Emitter Server ServerSafety.

Section Governance.
Context `{HS : Sha256} `{HE : EnclaveEnv} `{HT : TDH2}
  {verified : bytes -> bytes -> bytes -> bool} `{HV : !SignatureVerifier verified}.
Implicit Types (s : enclaveServer) (p h : bytes) (ops : list server_op) (op : server_op).

(** [p] cast a valid vote for the configuration with hash [h] in the history. *)
Definition voted ops p h : Prop :=
  exists now c sig, OpUpdateConfig now (Decoded (Some c, sig)) ∈ ops /\
    EnclaveConfig_Hash c = h /\ verified p (config_payload h) sig = true.

(** Every recorded vote is by a current signer who cast it. *)
Record votes_inv ops s : Prop := {
  vi_cache : cache_inv (pendingConfigVotes s);
  vi_votes : forall h it, items (pendingConfigVotes s) !! h = Some it ->
    forall x, x ∈ Value it -> exists p, x = sha256 p /\ p ∈ Signers (config s) /\ voted ops p h;
  vi_unset : configSet s = false -> items (pendingConfigVotes s) = ∅;
}.

Lemma voted_mono ops ops' p h : ops ⊆ ops' -> voted ops p h -> voted ops' p h.
Proof. intros Hs (now & c & sig & Hin & ?). exists now, c, sig. split; [by apply Hs | done]. Qed.

Lemma votes_inv_mono ops ops' s : ops ⊆ ops' -> votes_inv ops s -> votes_inv ops' s.
Proof.
  intros Hs [Hc Hv Hu]. split; try done. intros h it Hi x Hx.
  destruct (Hv h it Hi x Hx) as (p & ? & ? & ?). exists p. split_and!; eauto using voted_mono.
Qed.

(** Same votes, same configuration: the invariant carries over. *)
Lemma votes_inv_frame ops s s' :
  votes_inv ops s -> pendingConfigVotes s' = pendingConfigVotes s -> config s' = config s ->
  configSet s' = configSet s -> votes_inv ops s'.
Proof. intros [Hc Hv Hu] E1 E2 E3. split; rewrite ?E1, ?E2, ?E3; done. Qed.

Lemma votes_inv_empty ops s :
  cache_inv (pendingConfigVotes s) -> items (pendingConfigVotes s) = ∅ -> votes_inv ops s.
Proof. intros Hc He. split; try done. intros h it Hi. rewrite He, lookup_empty in Hi. done. Qed.

(** The votes a handler starts from, with the new one. *)
Definition votes_with (now : Z) s h (signer : bytes) : gset bytes :=
  {[ sha256 signer ]} ∪ default ∅ (Get now (pendingConfigVotes s) h).

Lemma votes_with_spec ops now s h signer c sig :
  votes_inv ops s -> VerifySignature (config_payload h) sig (Signers (config s)) = Ok signer ->
  EnclaveConfig_Hash c = h ->
  forall x, x ∈ votes_with now s h signer ->
    exists p, x = sha256 p /\ p ∈ Signers (config s) /\ voted (ops ++ [OpUpdateConfig now (Decoded (Some c, sig))]) p h.
Proof.
  intros Hi Hv Hc x Hx. apply VerifySignature_sound in Hv as [Hmem Hver].
  unfold votes_with in Hx. apply elem_of_union in Hx as [Hx|Hx].
  - apply elem_of_singleton in Hx as ->. exists signer. split; [done|]. split; [done|].
    exists now, c, sig. split; [|done]. apply elem_of_app. right. by apply list_elem_of_singleton.
  - unfold Get in Hx. destruct (items (pendingConfigVotes s) !! h) as [it|] eqn:E; [|by apply elem_of_empty in Hx].
    destruct (expired now it); [by apply elem_of_empty in Hx|]. cbn in Hx.
    destruct (vi_votes _ _ Hi h it E x Hx) as (p & ? & ? & ?). exists p. split_and!; try done.
    eapply voted_mono; [|done]. apply list_subseteq_app_l. done.
Qed.

(** The three things a vote request can do to the state. *)
Lemma handleUpdateConfig_cases now s v :
  let s' := (handleUpdateConfig now s v).2 in
  configSet s' = configSet s /\ allowReconfig s' = allowReconfig s /\
  ((config s' = config s /\ pendingConfigVotes s' = pendingConfigVotes s) \/
   exists c sig signer, v = Decoded (Some c, sig) /\ configSet s = true /\
     VerifySignature (config_payload (EnclaveConfig_Hash c)) sig (Signers (config s)) = Ok signer /\
     let votes := votes_with now s (EnclaveConfig_Hash c) signer in
     let pending := Set_ now (pendingConfigVotes s) (EnclaveConfig_Hash c) votes None in
     ((Z.of_nat (size votes) < F (config s) + 1 /\ config s' = config s /\ pendingConfigVotes s' = pending) \/
      (F (config s) + 1 <= Z.of_nat (size votes) /\ config s' = c /\ pendingConfigVotes s' = Flush pending))).
Proof.
  unfold handleUpdateConfig. destruct (configSet s) eqn:Ecs; cbn [negb]; [|simpl; auto].
  destruct v as [| |[[c|] sig]]; try (simpl; auto).
  destruct (VerifySignature _ _ _) as [signer|[]] eqn:Ev; try (simpl; auto).
  destruct (decide _).
  - match goal with |- context [attest ?s0 ?d] =>
      destruct (attest_frame s0 d) as (_ & H1 & H2 & H3 & H4); destruct (attest s0 d) as [[att|] s1] end;
      simpl in *; rewrite H1, H2, H3, H4; auto.
  - fold (votes_with now s (EnclaveConfig_Hash c) signer).
    destruct (Z.ltb_spec (Z.of_nat (size (votes_with now s (EnclaveConfig_Hash c) signer))) (F (config s) + 1)).
    + simpl. split; [done|]. split; [done|]. right. exists c, sig, signer. split_and!; try done. left. done.
    + match goal with |- context [notify_app ?s0 ?c] => destruct (notify_frame s0 c) as (_ & N1 & N2 & N3 & N4) end.
      match goal with |- context [attest ?s0 ?d] =>
        destruct (attest_frame s0 d) as (_ & H1 & H2 & H3 & H4); destruct (attest s0 d) as [[att|] s1] end;
        simpl in *; rewrite H1, H2, H3, H4, N1, N2, N3, N4;
        (split; [done|]; split; [done|]; right; exists c, sig, signer; split_and!; try done; right; done).
Qed.

Lemma handleSetConfig_cases s m body :
  let s' := (handleSetConfig s m body).2 in
  allowReconfig s' = allowReconfig s /\ pendingConfigVotes s' = pendingConfigVotes s /\
  ((config s' = config s /\ configSet s' = configSet s) \/
   (configSet s' = true /\ (configSet s = false \/ allowReconfig s = true) /\
    exists c, body = Decoded (Some c) /\ config s' = c)).
Proof.
  unfold handleSetConfig. destruct (negb _); [simpl; auto|].
  destruct (configSet s && negb (allowReconfig s)) eqn:Eg; [simpl; auto|].
  assert (configSet s = false \/ allowReconfig s = true) as Hg
    by (destruct (configSet s), (allowReconfig s); auto; discriminate).
  destruct body as [| |[c|]]; try (simpl; auto).
  destruct (notify_frame (set_configSet (set_config s c) true) c) as (_ & N1 & N2 & N3 & N4).
  match goal with |- context [attest ?s0 ?d] =>
    destruct (attest_frame s0 d) as (_ & H1 & H2 & H3 & H4); destruct (attest s0 d) as [[att|] s1] end;
    simpl in *; rewrite H1, H2, H3, H4, N1, N2, N3, N4; simpl; eauto 10.
Qed.

Lemma handleGetPublicKeys_config now s m param :
  let s' := (handleGetPublicKeys now s m param).2 in
  config s' = config s /\ configSet s' = configSet s /\ allowReconfig s' = allowReconfig s /\
  pendingConfigVotes s' = pendingConfigVotes s.
Proof.
  unfold handleGetPublicKeys. destruct (negb _); [done|]. destruct (IsZero _); [done|].
  destruct (select_keypairs_frame now s param) as [kc Hs].
  destruct (select_keypairs now s param) as [[[|kp kps]|[code e]] s1]; cbn [snd] in Hs; subst s1; try done.
  unfold attestPublicKeys. destruct (Get _ _ _); [done|].
  match goal with |- context [attest ?s0 ?d] =>
    destruct (attest_frame s0 d) as (_ & H1 & H2 & H3 & H4); destruct (attest s0 d) as [[att|] s2] end; done.
Qed.

Lemma handleInjectSettings_config s m raw :
  let s' := (handleInjectSettings s m raw).2 in
  config s' = config s /\ configSet s' = configSet s /\ allowReconfig s' = allowReconfig s /\
  pendingConfigVotes s' = pendingConfigVotes s.
Proof. unfold handleInjectSettings. repeat (case_match; try done). Qed.

(** F+1 distinct signers of the configuration of [s] voted for [c] in the history. *)
Definition config_quorum ops s (c : EnclaveConfig) : Prop :=
  exists signers, NoDup signers /\ F (config s) + 1 <= glen signers /\
    Forall (fun p => p ∈ Signers (config s) /\ voted ops p (EnclaveConfig_Hash c)) signers.

Lemma update_step ops s now v :
  votes_inv ops s -> let s' := (handleUpdateConfig now s v).2 in
  votes_inv (ops ++ [OpUpdateConfig now v]) s' /\
  (config s' <> config s -> config_quorum (ops ++ [OpUpdateConfig now v]) s (config s')).
Proof.
  intros Hi s'. subst s'.
  assert (votes_inv (ops ++ [OpUpdateConfig now v]) s) as Hi'
    by (eapply votes_inv_mono; [|done]; by apply list_subseteq_app_l).
  destruct (handleUpdateConfig_cases now s v) as (Hcs & Hr & [[Hc Hp]|(c & sig & signer & -> & Hset & Hv & Hcase)]).
  - split; [by eapply votes_inv_frame | congruence].
  - pose proof (votes_with_spec ops now s _ signer c sig Hi Hv eq_refl) as Hw.
    set (votes := votes_with now s (EnclaveConfig_Hash c) signer) in *. cbn zeta in Hcase.
    destruct Hcase as [(_ & Hc & Hp)|(Hq & Hc & Hp)].
    + split; [|congruence]. split.
      * rewrite Hp. apply setLocked_inv, Hi.
      * intros h it Hl x Hx. rewrite Hp in Hl. unfold Set_ in Hl. rewrite setLocked_lookup in Hl by apply Hi.
        rewrite Hc. destruct (decide (h = _)) as [->|]; [injection Hl as <-; by apply Hw|].
        destruct (decide _); [done|]. by apply (vi_votes _ _ Hi' h it Hl).
      * intros Hf. congruence.
    + split.
      * apply votes_inv_empty; rewrite Hp; [apply Flush_inv | done].
      * intros _. destruct (set_preimages sha256
          (fun p => p ∈ Signers (config s) /\ voted (ops ++ [OpUpdateConfig now (Decoded (Some c, sig))]) p (EnclaveConfig_Hash c)) votes Hw)
          as (signers & Hnd & Hlen & Hall).
        exists signers. rewrite Hc. split; [done|]. split; [unfold glen; lia|done].
Qed.

Lemma governed_step ops s op :
  votes_inv ops s -> allowReconfig s = false ->
  let s' := (server_step s op).1 in
  votes_inv (ops ++ [op]) s' /\ allowReconfig s' = false /\
  (configSet s = true -> configSet s' = true) /\
  (config s' <> config s ->
     (configSet s = false /\ exists m c, op = OpSetConfig m (Decoded (Some c)) /\ config s' = c) \/
     (exists now vote, op = OpUpdateConfig now vote /\ config_quorum (ops ++ [op]) s (config s'))).
Proof.
  intros Hi Hr. assert (votes_inv (ops ++ [op]) s) as Hi'
    by (eapply votes_inv_mono; [|done]; by apply list_subseteq_app_l).
  destruct op as [clk m body|now m param|m c|now vote|m raw|now|now gen]; cbn [server_step fst].
  - pose proof (handleExecute_frame clk s m body) as Hf. cbn zeta in Hf.
    destruct (handleExecute clk s m body) as [out s']. cbn [fst snd] in *.
    destruct Hf as (H1 & H2 & H3 & H4 & _). split; [by eapply votes_inv_frame|]. split_and!; congruence.
  - destruct (handleGetPublicKeys_config now s m param) as (H1 & H2 & H3 & H4).
    split; [by eapply votes_inv_frame|]. split_and!; congruence.
  - destruct (handleSetConfig_cases s m c) as (H1 & H2 & [[H3 H4]|(H3 & Hg & c' & -> & H4)]).
    + split; [by eapply votes_inv_frame|]. split_and!; congruence.
    + assert (configSet s = false) as Hf by (destruct Hg; congruence).
      split; [apply votes_inv_empty; rewrite H2; [apply Hi | by apply (vi_unset _ _ Hi)]|].
      split_and!; try congruence. intros _. left. eauto.
  - destruct (handleUpdateConfig_cases now s vote) as (Hcs & Hrc & _).
    destruct (update_step ops s now vote Hi) as [Hv Hq]. split; [done|]. split_and!; try congruence.
    intros Hne. right. eauto.
  - destruct (handleInjectSettings_config s m raw) as (H1 & H2 & H3 & H4).
    split; [by eapply votes_inv_frame|]. split_and!; congruence.
  - split; [|split_and!; done]. split.
    + apply gc_inv, Hi.
    + intros h it Hl x Hx. cbn [collect_all pendingConfigVotes] in Hl. rewrite gc_lookup in Hl by apply Hi.
      destruct (items (pendingConfigVotes s) !! h) as [it'|] eqn:E; [|done].
      destruct (expired now it'); [done|]. injection Hl as <-. by apply (vi_votes _ _ Hi' h it' E).
    + intros Hf. apply map_empty. intros h. cbn [collect_all pendingConfigVotes].
      rewrite gc_lookup by apply Hi. by rewrite (vi_unset _ _ Hi Hf), lookup_empty.
  - split; [|by destruct (rotation_tick now (keychain s) gen)].
    by destruct (rotation_tick now (keychain s) gen); eapply votes_inv_frame.
Qed.

Lemma governed_run ops : forall past s,
  votes_inv past s -> allowReconfig s = false ->
  votes_inv (past ++ ops) (server_run s ops).1 /\ allowReconfig (server_run s ops).1 = false.
Proof.
  induction ops as [|op ops IH]; intros past s Hi Hr; [by rewrite app_nil_r|]. cbn [server_run].
  destruct (governed_step past s op Hi Hr) as (H1 & H2 & _). destruct (server_step s op) as [s1 l1].
  specialize (IH (past ++ [op]) s1 H1 H2). rewrite <- app_assoc in IH. cbn [app] in IH.
  by destruct (server_run s1 ops).
Qed.

Lemma fresh_votes_inv w kc cfg reconfig : votes_inv [] (NewEnclaveServer w kc cfg reconfig).
Proof. apply votes_inv_empty; [apply New_inv | done]. Qed.

(** Configuration governance: on a server that does not allow reconfiguration,
    after any history, a request changes the configuration only if it is the
    first POST of a configuration, or a PATCH completing a quorum: F+1 distinct
    signers of the configuration being replaced have cast validly signed votes
    for exactly the new configuration's hash. *)
Theorem config_changes_governed w kc cfg ops op :
  let s := (server_run (NewEnclaveServer w kc cfg false) ops).1 in
  let s' := (server_step s op).1 in
  config s' <> config s ->
  (configSet s = false /\ exists m c, op = OpSetConfig m (Decoded (Some c)) /\ config s' = c) \/
  (exists now vote, op = OpUpdateConfig now vote /\ config_quorum (ops ++ [op]) s (config s')).
Proof.
  intros s s' Hne. destruct (governed_run ops [] _ (fresh_votes_inv w kc cfg false) eq_refl) as [Hi Hr].
  destruct (governed_step ops s op Hi Hr) as (_ & _ & _ & H). by apply H.
Qed.

(** C14 Byzantine fault tolerance of reconfiguration: on a server that was not built to allow
    reconfiguration by POST, with at most F faulty signers and unforgeable signatures
    of the honest ones, whatever operation replaces a configuration that was set is a vote, and an
    honest signer of the old configuration has voted for the new one's hash in a request to this
    server.  (The first configuration of a server is taken from whoever posts it; a server that allows
    reconfiguration takes every one, see [stale_votes_after_reconfiguration].) *)
Theorem config_change_backed_by_honest (w : World) (kc : boxKeychain) (cfg : EnclaveConfig) ops op
    (faulty : gset bytes) (signed : bytes -> bytes -> Prop) :
  let s := (server_run (NewEnclaveServer w kc cfg false) ops).1 in
  let s' := (server_step s op).1 in
  configSet s = true -> Z.of_nat (size faulty) <= F (config s) ->
  (forall p msg sig, p ∈ Signers (config s) -> p ∉ faulty -> verified p msg sig = true -> signed p msg) ->
  config s' <> config s ->
  (exists now vote, op = OpUpdateConfig now vote) /\
  exists p, p ∈ Signers (config s) /\ (p ∉ faulty) /\ voted (ops ++ [op]) p (EnclaveConfig_Hash (config s')) /\
    signed p (config_payload (EnclaveConfig_Hash (config s'))).
Proof.
  intros s s' Hset Hf Huf Hne. destruct (governed_run ops [] _ (fresh_votes_inv w kc cfg false) eq_refl) as [Hi Hr].
  destruct (governed_step ops s op Hi Hr) as (_ & _ & _ & H).
  destruct (H Hne) as [(Hno & _)|(now' & vote' & Hop & signers & Hnd & Hlen & Hall)]; [congruence|]. split; [by eauto|].
  destruct (exists_outside signers faulty Hnd) as (p & Hp & Hgood); [unfold glen in Hlen; lia|].
  rewrite Forall_forall in Hall. destruct (Hall p Hp) as [Hmem Hv]. pose proof Hv as (n & c & sig & _ & _ & Hver).
  exists p. split_and!; try done. by eapply Huf.
Qed.

End Governance.
