(* ===== verification/ServerApp.v ===== *)
(** * ServerApp: invariants of a server together with its application

    A property of the server's configuration and of the application's state that the
    application's own operations maintain is an invariant of every history of the
    server. *)

From S2P Require Import Prelude Codec Sha256 Types Cache Keychain Services Emitter Server ServerSafety ServerConfig.

Section AppInvariant.
Context `{HS : Sha256} `{HE : EnclaveEnv} `{HT : TDH2}
  {verified : bytes -> bytes -> bytes -> bool} `{HV : !SignatureVerifier verified}.

(** Configuration, whether one was accepted, and the application. *)
Variable P : EnclaveConfig -> bool -> World -> Prop.

Definition notified (w : World) (c : EnclaveConfig) : World :=
  match app_OnConfigUpdate with Some f => f w c | None => w end.

Class AppKeeps : Prop := {
  keeps_execute : forall c b w id app input secrets reqs, P c b w -> P c b (app_Execute w id app input secrets reqs).1.1;
  keeps_attest : forall c b w d, P c b w -> P c b (CreateAttestation w d).1;
  keeps_settings : forall c b w inject raw, app_InjectSettings = Some inject -> P c b w -> P c b (inject w raw).1;
  keeps_config : forall c b w c', P c b w -> P c' true (notified w c');
}.

Definition holds (s : enclaveServer) : Prop := P (config s) (configSet s) (world s).

Lemma world_notify s c : world (notify_app s c) = notified (world s) c.
Proof. unfold notify_app, notified. by destruct app_OnConfigUpdate. Qed.

Context {HK : AppKeeps}.

Lemma attest_holds s d : holds s -> holds (attest s d).2.
Proof.
  intros H. unfold attest. pose proof (keeps_attest _ _ _ d H) as H'. unfold holds in *.
  by destruct (CreateAttestation (world s) d).
Qed.

Lemma set_config_holds s s' c : holds s -> config s' = c -> configSet s' = true -> world s' = notified (world s) c -> holds s'.
Proof. intros H H1 H2 H3. unfold holds. rewrite H1, H2, H3. by eapply keeps_config. Qed.

Lemma run_app_holds clk s cfg hash req reqs secrets em : holds s -> holds (run_app clk s cfg hash req reqs secrets em).2.
Proof.
  intros H. unfold run_app. pose proof (keeps_execute _ _ _ (RequestID req) (AppID req) (PublicData req) secrets reqs H) as Hx.
  destruct (app_Execute _ _ _ _ _ _) as [[w evs] [output|e]]; [|exact Hx].
  match goal with |- context [attest ?s0 ?d] => pose proof (attest_holds s0 d Hx) as Ha; destruct (attest s0 d) as [[att|] s1] end; [|exact Ha].
  cbn [snd] in Ha. destruct (Snapshot _) as [metrics events]. by destruct (json_Marshal _).
Qed.

Lemma handleExecute_holds clk s m body : holds s -> holds (handleExecute clk s m body).2.
Proof.
  intros H. unfold handleExecute. destruct (negb _); [done|]. destruct body as [| |reqs]; try done.
  destruct (check_signatures _ reqs) as [[[hash req] signers]|e]; [|by destruct e as [| | | | | | | | | | | | | | | | |? []| | | | | | | | |]].
  destruct (negb (quorum _ _)); [done|]. destruct (in_progress _ _ _); [done|]. unfold execute_marked.
  destruct (replayed _ _ _); [done|]. unfold execute_fresh. destruct (negb _); [done|]. repeat (destruct (decide _); [done|]).
  destruct (GetKeyPair _ _ _) as [kp|]; [|done]. destruct (combine_nodes _ _ _ _ _ _ _) as [secrets|[|]|]; try done.
  match goal with |- context [run_app ?a ?b ?c ?d ?e ?f ?g ?h] => pose proof (run_app_holds a b c d e f g h H) as Hr; destruct (run_app a b c d e f g h) end.
  exact Hr.
Qed.

Lemma handleGetPublicKeys_holds now s m param : holds s -> holds (handleGetPublicKeys now s m param).2.
Proof.
  intros H. unfold handleGetPublicKeys. destruct (negb _); [done|]. destruct (IsZero _); [done|].
  destruct (select_keypairs_frame now s param) as [kc Hs].
  destruct (select_keypairs now s param) as [[[|kp kps]|[code e]] s1]; cbn [snd] in Hs; subst s1; try done.
  unfold attestPublicKeys. destruct (Get _ _ _); [done|].
  match goal with |- context [attest ?s0 ?d] => pose proof (attest_holds s0 d H) as Ha; destruct (attest s0 d) as [[att|] s1] end; exact Ha.
Qed.

Lemma handleSetConfig_holds s m body : holds s -> holds (handleSetConfig s m body).2.
Proof.
  intros H. unfold handleSetConfig. destruct (negb _); [done|]. destruct (_ && _); [done|]. destruct body as [| |[c|]]; try done.
  assert (holds (notify_app (set_configSet (set_config s c) true) c)) as Hn.
  { destruct (notify_frame (set_configSet (set_config s c) true) c) as (_ & N1 & _ & N2 & _).
    eapply (set_config_holds s _ c H); [by rewrite N1|by rewrite N2|by rewrite world_notify]. }
  match goal with |- context [attest ?s0 ?d] => pose proof (attest_holds s0 d Hn) as Ha; destruct (attest s0 d) as [[att|] s1] end; exact Ha.
Qed.

Lemma handleUpdateConfig_holds now s vote : holds s -> holds (handleUpdateConfig now s vote).2.
Proof.
  intros H. unfold handleUpdateConfig. destruct (configSet s) eqn:Es; cbn [negb]; [|done]. destruct vote as [| |[[c|] sig]]; try done.
  destruct (VerifySignature _ _ _) as [signer|[]]; try done. destruct (decide _).
  - match goal with |- context [attest ?s0 ?d] => pose proof (attest_holds s0 d H) as Ha; destruct (attest s0 d) as [[att|] s1] end; exact Ha.
  - destruct (_ <? _); [exact H|]. set (s0 := set_votes (set_config _ c) _).
    assert (holds (notify_app s0 c)) as Hn.
    { destruct (notify_frame s0 c) as (_ & N1 & _ & N2 & _). eapply (set_config_holds s _ c H); [by rewrite N1|by rewrite N2|by rewrite world_notify]. }
    match goal with |- context [attest ?s0 ?d] => pose proof (attest_holds s0 d Hn) as Ha; destruct (attest s0 d) as [[att|] s1] end; exact Ha.
Qed.

Lemma handleInjectSettings_holds s m body : holds s -> holds (handleInjectSettings s m body).2.
Proof.
  intros H. unfold handleInjectSettings. destruct (negb _); [done|]. destruct body as [[|c raw]|]; try done.
  destruct app_InjectSettings as [inject|] eqn:Ei; [|done]. pose proof (keeps_settings _ _ _ inject (c :: raw) Ei H) as Hs.
  destruct (inject (world s) (c :: raw)) as [w [|]]; exact Hs.
Qed.

Lemma server_step_holds s op : holds s -> holds (server_step s op).1.
Proof.
  intros H. destruct op as [clk m body|now m param|m c|now vote|m raw|now|now gen]; cbn [server_step fst].
  - pose proof (handleExecute_holds clk s m body H) as Hx. by destruct (handleExecute clk s m body).
  - by apply handleGetPublicKeys_holds.
  - by apply handleSetConfig_holds.
  - by apply handleUpdateConfig_holds.
  - by apply handleInjectSettings_holds.
  - exact H.
  - by destruct (rotation_tick now (keychain s) gen).
Qed.

Lemma server_run_holds ops : forall s, holds s -> holds (server_run s ops).1.
Proof.
  induction ops as [|op ops IH]; intros s H; [done|]. cbn [server_run]. pose proof (server_step_holds s op H) as H1.
  destruct (server_step s op) as [s1 l1]. specialize (IH s1 H1). by destruct (server_run s1 ops).
Qed.

End AppInvariant.
