(* ===== verification/ServerToy.v ===== *)
(** * ServerToy: a concrete environment to run the server in

    An application that counts its calls, an attestor that returns the user data
    it is given, and toy signatures: concrete inputs on which the theorems of
    the server files are applied. *)

From S2P Require Import Prelude Codec Sha256 Types Cache Keychain Services Emitter Server.

(** A cheap stand-in for the hash: the last 32 bytes, reversed. *)
Definition toy_hash (m : bytes) : bytes := take 32 (rev m ++ zero32).

Lemma length_toy_hash m : length (toy_hash m) = 32%nat.
Proof. unfold toy_hash. rewrite length_take, length_app. change (length zero32) with 32%nat. lia. Qed.

#[export] Instance toy_sha256 : Sha256 := {| sha256 := toy_hash; length_sha256 := length_toy_hash |}.

#[export] Instance toy_env : EnclaveEnv := {|
  World := nat;
  app_Execute := fun w _ _ _ _ _ => (S w, [], Ok (bs "out"));
  app_OnConfigUpdate := None;
  app_InjectSettings := None;
  CreateAttestation := fun w d => (w, Some d);
  OpenAnonymous := toy_Open;
  json_Marshal := fun _ => Some [];
  error_text := fun _ => ""%string;
|}.

#[export] Existing Instance toy_tdh2.
#[export] Instance toy_verifier : SignatureVerifier toy_Verify := ed25519SignatureVerifier toy_Verify.

Definition toy_sig (p : bytes) : bytes := p ++ p.

Definition signer1 : bytes := sample_key 101.
Definition signer2 : bytes := sample_key 102.
Definition signer3 : bytes := sample_key 103.
Definition signer4 : bytes := sample_key 104.

Definition toy_config : EnclaveConfig := mkConfig [signer1; signer2; signer3] (bs "mpk") 1 1.
Definition toy_config2 : EnclaveConfig := mkConfig [signer1; signer2; signer4] (bs "mpk") 1 1.

Definition toy_request : ComputeRequest :=
  mkComputeRequest zero32 "exec-1" (bs "data") [bs "c"] ["n1"] [[sample_key 1 ++ bs "1c"]]
    (sample_key 1) [] "confidential-echo@1.0.0-alpha" "1.0.0".

Definition toy_batch : list SignedComputeRequest :=
  [mkSigned toy_request (toy_sig signer1); mkSigned toy_request (toy_sig signer2)].

Definition clock_at (t : Z) : exec_clock :=
  mkClock t t t t t t t t t t t t t t t t.

Definition world0 : @World toy_env := 0%nat.

(** A server with one keypair, configured by a first POST. *)
Definition fresh_server (reconfig : bool) : enclaveServer :=
  NewEnclaveServer world0 one_key zeroConfig reconfig.
Definition configured (reconfig : bool) : enclaveServer :=
  (handleSetConfig (fresh_server reconfig) "POST" (Decoded (Some toy_config))).2.

Example toy_execution :
  match handleExecute (clock_at 10) (configured false) "POST" (Decoded toy_batch) with
  | (HttpOK code resp, s') => code = 200 /\ er_Output resp = bs "out" /\ world s' = 1%nat
  | _ => False
  end.
Proof. vm_compute. auto. Qed.
