(* ===== verification/ServerRace.v ===== *)
(** * ServerRace: concurrent calls to the execute endpoint

    The HTTP server runs every request in its own goroutine.  A call touches what the
    server shares at nine points: it copies the configuration, checks and marks the
    in-progress requests, checks the executed ones, reads the keychain, runs the application,
    has its answer attested, records the execution and deletes its mark; each is atomic (under its
    lock), but they are not atomic together.  [race_step] advances one call to its next such point;
    a schedule interleaves these steps with each other and with the server's
    other handlers, key rotation and garbage collection.  The application's run counts as one step. *)

From S2P Require Import Prelude Float Codec Sha256 Types Cache Keychain Services Emitter Server ServerSafety ServerToy.

Section Race.
Context `{HS : Sha256} `{HE : EnclaveEnv} `{HT : TDH2}
  {verified : bytes -> bytes -> bytes -> bool} `{HV : !SignatureVerifier verified}.

(** An admitted batch: the configuration it was checked against, the common
    hash, the first request and the metrics so far. *)
Record admitted := mkAdmitted {
  ad_config : EnclaveConfig;
  ad_hash : bytes;
  ad_reqs : list SignedComputeRequest;
  ad_req : SignedComputeRequest;
  ad_emitter : ResponseEmitter;
}.

Inductive race_pc :=
| RStart (reqs : list SignedComputeRequest)    (* copy the config, verify the batch *)
| RCheck (a : admitted)                        (* read inProgressReqs *)
| RMark (a : admitted)                         (* write inProgressReqs *)
| RReplay (a : admitted)                       (* read executedReqs *)
| RPrepare (a : admitted)                      (* read the keychain, combine the shares *)
| RApp (a : admitted) (secretsMap : gmap string bytes) (em : ResponseEmitter)
| RAttest (a : admitted) (output : bytes) (em : ResponseEmitter)
| RRecord (a : admitted) (resp : ExecuteResponse)
| RUnmark (a : admitted) (out : exec_response) (* deferred deletion *)
| RDone (out : exec_response).

(** From the copy of the configuration to the quorum. *)
Definition admit_batch (clk : exec_clock) (s : enclaveServer) (reqs : list SignedComputeRequest) : result exec_response admitted :=
  let cfg := EnclaveConfig_Copy (config s) in
  let em := Emit (NewResponseEmitter (at_emitter clk)) "request_started"
              (details [("endpoint"%string, AString "execute")]) in
  match check_signatures cfg reqs with
  | Err (SignatureFailed _ (VerifyPanic _)) => Err HttpPanic
  | Err e => Err (reject clk em StatusBadRequest e)
  | Ok (hash, req, signerSet) =>
      let em := Emit em "signature_verification_completed"
        (details [(duration_key, AFloat (seconds_of (time_sub (at_sig_end clk) (at_sig_start clk))));
                  ("num_signatures"%string, AInt (glen reqs))]) in
      if negb (quorum cfg signerSet) then
        Err (reject clk em StatusBadRequest (QuorumNotReached (Z.of_nat (size signerSet)) (F cfg + 1)))
      else Ok (mkAdmitted cfg hash reqs req em)
  end.

(** Validation, the keypair of the request, and the combination of the shares. *)
Definition combine_secrets (clk : exec_clock) (s : enclaveServer) (a : admitted)
    : result exec_response (gmap string bytes * ResponseEmitter) :=
  let req := ad_req a in
  let em := Emit (ad_emitter a) "request_id" (details [("request_id"%string, AString (string_of (hex_encode (RequestID req))))]) in
  if negb (Nat.eqb (length (Ciphertexts req)) (length (CiphertextNames req))) then
    Err (reject clk em StatusBadRequest CiphertextCountMismatch)
  else if decide (AppID req = ""%string) then Err (reject clk em StatusBadRequest MissingAppID)
  else if decide (Version req = ""%string) then Err (reject clk em StatusBadRequest MissingVersion)
  else match GetKeyPair (at_keypair clk) (keychain s) (EnclaveEphemeralPublicKey req) with
  | Err e =>
      let em := Emit em "keypair_not_found"
        (details [("error"%string, AString (error_text (KeychainFailed e)))]) in
      Err (reject clk em StatusBadRequest (KeychainFailed e))
  | Ok keypair =>
      let masterPublicKey :=
        if 0 <? glen (MasterPublicKey req) then MasterPublicKey req else cfg_MasterPublicKey (ad_config a) in
      match combine_nodes (at_decrypt clk) keypair masterPublicKey (T (ad_config a)) req (ad_reqs a) None with
      | CombinePanic => Err HttpPanic
      | NoneCombined None => Err HttpPanic
      | NoneCombined (Some lastErr) =>
          let em := Emit em "share_aggregation_failed"
            (details [("error"%string, AString (error_text (AggregationFailed lastErr)))]) in
          Err (reject clk em StatusInternalServerError (AggregationFailed lastErr))
      | Combined secretsMap =>
          Ok (secretsMap, Emit em "shares_combining_completed"
            (details [(duration_key, AFloat (seconds_of (time_sub (at_combine_end clk) (at_combine_start clk))));
                      ("num_ciphertexts"%string, AInt (glen (Ciphertexts req)))]))
      end
  end.

(** The run of the application. *)
Definition call_app (clk : exec_clock) (s : enclaveServer) (a : admitted) (secretsMap : gmap string bytes)
    (em : ResponseEmitter) : result exec_response (bytes * ResponseEmitter) * enclaveServer :=
  let req := ad_req a in
  let '(w, evs, execResp) :=
    app_Execute (world s) (RequestID req) (AppID req) (PublicData req) secretsMap (ad_reqs a) in
  let em := Emit (emit_all em evs) "app_execution_completed"
    (details [(duration_key, AFloat (seconds_of (time_sub (at_app_end clk) (at_app_start clk))))]) in
  (match execResp with
   | Err execErr =>
       let em := Emit em "app_execution_failed" (details [("error"%string, AExecuteError (ee_Error execErr) (ee_Code execErr))]) in
       Err (reject clk em StatusInternalServerError (AppFailed execErr))
   | Ok output =>
       Ok (output, Emit em "request_completed"
         (details [("endpoint"%string, AString "execute"); ("outcome"%string, AString "success");
                   (duration_key, AFloat (seconds_of (time_sub (at_completed clk) (at_start clk))))]))
   end, set_world s w).

(** The attested and encoded answer; it carries the configuration copied at the start. *)
Definition attest_answer (clk : exec_clock) (s : enclaveServer) (a : admitted) (output : bytes) (em : ResponseEmitter)
    : result exec_response ExecuteResponse * enclaveServer :=
  let req := ad_req a in
  let resp := mkExecuteResponse (RequestID req) (ApplicationRequestID req) (ad_hash a) output (ad_config a) [] ∅ [] in
  let '(att, s) := attest s (ExecuteResponse_UserDataHash resp (Version req)) in
  match att with
  | None =>
      let em := Emit em "attestation_creation_failed"
        (details [("endpoint"%string, AString "execute"); ("error"%string, AString (error_text AttestationFailed))]) in
      (Err (reject clk em StatusInternalServerError AttestationFailed), s)
  | Some att =>
      let '(metrics, events) := Snapshot em in
      let resp := mkExecuteResponse (RequestID req) (ApplicationRequestID req) (ad_hash a) output (ad_config a) att metrics events in
      match json_Marshal resp with
      | None => (Err (reject clk em StatusInternalServerError EncodingFailed), s)
      | Some _ => (Ok resp, s)
      end
  end.

Definition race_step (clk : exec_clock) (s : enclaveServer) (pc : race_pc) : enclaveServer * race_pc :=
  match pc with
  | RStart reqs =>
      match admit_batch clk s reqs with
      | Err out => (s, RDone out)
      | Ok a => (s, RCheck a)
      end
  | RCheck a =>
      if in_progress (at_check clk) s (ad_hash a)
      then (s, RDone (reject clk (ad_emitter a) StatusConflict AlreadyInProgress))
      else (s, RMark a)
  | RMark a => (mark (at_mark clk) s (ad_hash a), RReplay a)
  | RReplay a =>
      if replayed (at_replay clk) s (ad_hash a)
      then (s, RUnmark a (reject clk (ad_emitter a) StatusConflict ReplayDetected))
      else (s, RPrepare a)
  | RPrepare a =>
      match combine_secrets clk s a with
      | Err out => (s, RUnmark a out)
      | Ok (secretsMap, em) => (s, RApp a secretsMap em)
      end
  | RApp a secretsMap em =>
      let '(r, s) := call_app clk s a secretsMap em in
      (s, match r with Err out => RUnmark a out | Ok (output, em) => RAttest a output em end)
  | RAttest a output em =>
      let '(r, s) := attest_answer clk s a output em in
      (s, match r with Err out => RUnmark a out | Ok resp => RRecord a resp end)
  | RRecord a resp =>
      (set_executed s (Set_ (at_record clk) (executedReqs s) (ad_hash a) tt None), RUnmark a (HttpOK StatusOK resp))
  | RUnmark a out => (unmark s (ad_hash a), RDone out)
  | RDone out => (s, RDone out)
  end.

(** A scheduled step, at an instant: a call advances, or another operation of the server runs
    ([OpExecute] is not one of them: executions are the calls). *)
Inductive race_label :=
| Advance (tid : nat)
| Other (op : server_op).

(** The server and the calls in flight, each with its clock. *)
Definition race_state : Type := enclaveServer * gmap nat (exec_clock * race_pc).

Definition race_one (st : race_state) (e : Z * race_label) : race_state :=
  let '(s, cs) := st in
  match e.2 with
  | Advance tid =>
      match cs !! tid with
      | None => st
      | Some (clk, pc) => let '(s', pc') := race_step clk s pc in (s', <[tid := (clk, pc')]> cs)
      end
  | Other (OpExecute _ _ _) => st
  | Other op => ((server_step s op).1, cs)
  end.

Definition race_run (st : race_state) (schedule : list (Z * race_label)) : race_state :=
  fold_left race_one schedule st.

(** Calls that arrive with these batches. *)
Definition calls_of (batches : gmap nat (exec_clock * list SignedComputeRequest)) : gmap nat (exec_clock * race_pc) :=
  (fun b => (b.1, RStart b.2)) <$> batches.

(** ** A call that runs alone is the handler *)

Definition finish (clk : exec_clock) (s : enclaveServer) (a : admitted) : exec_response * enclaveServer :=
  match combine_secrets clk s a with
  | Err out => (out, s)
  | Ok (secretsMap, em) =>
      match call_app clk s a secretsMap em with
      | (Err out, s) => (out, s)
      | (Ok (output, em), s) =>
          match attest_answer clk s a output em with
          | (Err out, s) => (out, s)
          | (Ok resp, s) => (HttpOK StatusOK resp, set_executed s (Set_ (at_record clk) (executedReqs s) (ad_hash a) tt None))
          end
      end
  end.

Lemma execute_fresh_steps clk s cfg hash reqs req em :
  execute_fresh clk s cfg hash reqs req em = finish clk s (mkAdmitted cfg hash reqs req em).
Proof.
  unfold execute_fresh, finish, combine_secrets. cbn [ad_req ad_reqs ad_config ad_emitter ad_hash].
  destruct (negb _); [done|]. destruct (decide (AppID req = _)); [done|]. destruct (decide (Version req = _)); [done|].
  destruct (GetKeyPair _ _ _) as [kp|e]; [|done]. destruct (combine_nodes _ _ _ _ _ _ _) as [secrets|[lastErr|]|]; try done.
  unfold run_app, call_app. cbn [ad_req ad_reqs]. destruct (app_Execute _ _ _ _ _ _) as [[w evs] [output|e]]; [|done].
  unfold attest_answer. cbn [ad_req ad_config ad_hash]. destruct (attest _ _) as [[att|] s1]; [|done].
  destruct (Snapshot _) as [ms es]. by destruct (json_Marshal _).
Qed.

Definition alone (n : nat) : list (Z * race_label) := replicate n (0, Advance 0).

Lemma race_run_alone clk s pc n :
  race_run (s, {[0%nat := (clk, pc)]}) (alone (S n)) =
  let '(s', pc') := race_step clk s pc in race_run (s', {[0%nat := (clk, pc')]}) (alone n).
Proof.
  unfold race_run, alone. cbn [replicate fold_left race_one snd]. rewrite lookup_singleton_eq.
  destruct (race_step clk s pc) as [s' pc']. by rewrite insert_singleton_eq.
Qed.

Lemma race_run_alone_done clk s out n : race_run (s, {[0%nat := (clk, RDone out)]}) (alone n) = (s, {[0%nat := (clk, RDone out)]}).
Proof. induction n as [|n IH]; [done|]. by rewrite race_run_alone. Qed.

Lemma race_alone_finish clk s a :
  race_run (s, {[0%nat := (clk, RPrepare a)]}) (alone 5) =
  let '(out, s') := finish clk s a in (unmark s' (ad_hash a), {[0%nat := (clk, RDone out)]}).
Proof.
  rewrite race_run_alone. unfold finish. cbn [race_step].
  destruct (combine_secrets clk s a) as [[secrets em]|out]; [|rewrite race_run_alone; cbn [race_step]; by rewrite race_run_alone_done].
  rewrite race_run_alone. cbn [race_step].
  destruct (call_app clk s a secrets em) as [[[output em']|out] s1]; [|rewrite race_run_alone; cbn [race_step]; by rewrite race_run_alone_done].
  rewrite race_run_alone. cbn [race_step].
  destruct (attest_answer clk s1 a output em') as [[resp|out] s2]; [|rewrite race_run_alone; cbn [race_step]; by rewrite race_run_alone_done].
  by do 2 (rewrite race_run_alone; cbn [race_step]).
Qed.

Lemma race_sequential clk s reqs :
  let '(out, s') := handleExecute clk s "POST" (Decoded reqs) in
  race_run (s, {[0%nat := (clk, RStart reqs)]}) (alone 9) = (s', {[0%nat := (clk, RDone out)]}).
Proof.
  rewrite race_run_alone. unfold handleExecute. cbn [race_step]. unfold admit_batch. rewrite bool_decide_true by done. cbn [negb].
  destruct (check_signatures _ reqs) as [[[hash req] set]|e].
  - destruct (negb (quorum _ _)); [by rewrite race_run_alone_done|].
    rewrite race_run_alone. cbn [race_step ad_hash]. destruct (in_progress _ _ _); [by rewrite race_run_alone_done|].
    rewrite race_run_alone. cbn [race_step ad_hash]. rewrite race_run_alone. cbn [race_step ad_hash].
    unfold execute_marked. destruct (replayed _ _ _); [by rewrite race_run_alone; cbn [race_step ad_hash]; rewrite race_run_alone_done|].
    rewrite race_alone_finish, execute_fresh_steps. by destruct (finish _ _ _).
  - destruct e as [| | | | | | | | | | | | | | | | |i e| | | | | | | | |]; try destruct e; by rewrite race_run_alone_done.
Qed.

(** ** What an answer rests on *)

(** An answer under the configuration [cfg] to the batch [reqs]: F+1 distinct signers of [cfg] signed the answered
    hash, and the attestation was made over the answer with that very configuration. *)
Definition answer_backed (cfg : EnclaveConfig) (reqs : list SignedComputeRequest) (resp : ExecuteResponse) : Prop :=
  er_Config resp = cfg /\
  Forall (fun r : SignedComputeRequest => ComputeRequest_Hash r = er_RequestHash resp) reqs /\
  quorum_cert (verified := verified) cfg (compute_payload (er_RequestHash resp)) reqs /\
  exists w w' (req : SignedComputeRequest), head reqs = Some req /\
    CreateAttestation w (ExecuteResponse_UserDataHash resp (Version req)) = (w', Some (er_Attestation resp)).

Definition admitted_under (cfg : EnclaveConfig) (reqs : list SignedComputeRequest) (a : admitted) : Prop :=
  ad_config a = cfg /\ ad_reqs a = reqs /\ head reqs = Some (ad_req a) /\ ComputeRequest_Hash (ad_req a) = ad_hash a /\
  Forall (fun r : SignedComputeRequest => ComputeRequest_Hash r = ad_hash a) reqs /\
  quorum_cert (verified := verified) cfg (compute_payload (ad_hash a)) reqs.

Definition out_backed (cfg : EnclaveConfig) (reqs : list SignedComputeRequest) (out : exec_response) : Prop :=
  match out with HttpOK _ resp => answer_backed cfg reqs resp | _ => True end.

(** What holds of a call once it has copied the configuration [cfg]. *)
Definition pc_backed (cfg : EnclaveConfig) (reqs : list SignedComputeRequest) (pc : race_pc) : Prop :=
  match pc with
  | RStart _ => False
  | RCheck a | RMark a | RReplay a | RPrepare a | RApp a _ _ | RAttest a _ _ => admitted_under cfg reqs a
  | RRecord _ resp => answer_backed cfg reqs resp
  | RUnmark _ out | RDone out => out_backed cfg reqs out
  end.

Definition not_ok (out : exec_response) : Prop := match out with HttpOK _ _ => False | _ => True end.

Lemma not_ok_backed cfg reqs out : not_ok out -> out_backed cfg reqs out.
Proof. by destruct out. Qed.

Lemma admit_cases clk s reqs :
  match admit_batch clk s reqs with Err out => not_ok out | Ok a => admitted_under (config s) reqs a end.
Proof.
  unfold admit_batch. rewrite EnclaveConfig_Copy_id. destruct (check_signatures _ reqs) as [[[hash req] set]|e] eqn:Ec.
  - destruct (quorum _ set) eqn:Eq; cbn [negb]; [|done].
    apply check_signatures_spec in Ec as (-> & Hh & Hall & Hcert); [|done]. by split_and!.
  - destruct e as [| | | | | | | | | | | | | | | | |i e| | | | | | | | |]; try destruct e; done.
Qed.

Lemma prepare_err clk s a out : combine_secrets clk s a = Err out -> not_ok out.
Proof. unfold combine_secrets. intros H. repeat (case_match; simplify_eq; try done). Qed.

Lemma call_app_cases clk s a secrets em :
  exists w, (call_app clk s a secrets em).2 = set_world s w /\
  match (call_app clk s a secrets em).1 with Err out => not_ok out | Ok _ => True end.
Proof. unfold call_app. destruct (app_Execute _ _ _ _ _ _) as [[w evs] [output|e]]; by exists w. Qed.

Lemma attest_answer_cases clk s a output em :
  exists w, (attest_answer clk s a output em).2 = set_world s w /\
  match (attest_answer clk s a output em).1 with
  | Err out => not_ok out
  | Ok resp => er_Config resp = ad_config a /\ er_RequestHash resp = ad_hash a /\
      CreateAttestation (world s) (ExecuteResponse_UserDataHash resp (Version (ad_req a))) = (w, Some (er_Attestation resp))
  end.
Proof.
  unfold attest_answer, attest. destruct (CreateAttestation _ _) as [w [att|]] eqn:E; [|by exists w].
  exists w. destruct (Snapshot em) as [ms evs]. by destruct (json_Marshal _).
Qed.

Lemma race_step_backed clk s cfg reqs pc : pc_backed cfg reqs pc -> pc_backed cfg reqs (race_step clk s pc).2.
Proof.
  destruct pc as [reqs'|a|a|a|a|a sm em|a output em|a resp|a out|out]; cbn [race_step pc_backed]; intros Hb; try done.
  - by destruct (in_progress _ _ _).
  - by destruct (replayed _ _ _).
  - destruct (combine_secrets clk s a) as [[sm em]|out] eqn:E; [done|]. by apply not_ok_backed, (prepare_err clk s a).
  - destruct (call_app_cases clk s a sm em) as (w & _ & Hc). destruct (call_app _ _ _ _ _) as [[[]|out] s1]; [done|]. by apply not_ok_backed.
  - destruct (attest_answer_cases clk s a output em) as (w & _ & Hc). destruct (attest_answer _ _ _ _ _) as [[resp|out] s1]; [|by apply not_ok_backed].
    destruct Hc as (E1 & E2 & Hatt), Hb as (Hcfg & _ & Hh & Hhash & Hall & Hcert). cbn in *. split_and!; [congruence|by rewrite E2..|]. eauto.
Qed.

Lemma race_run_snoc st schedule e : race_run st (schedule ++ [e]) = race_one (race_run st schedule) e.
Proof. unfold race_run. by rewrite fold_left_app. Qed.

Lemma calls_of_lookup batches tid clk pc : calls_of batches !! tid = Some (clk, pc) <-> exists reqs, batches !! tid = Some (clk, reqs) /\ pc = RStart reqs.
Proof.
  unfold calls_of. rewrite lookup_fmap. destruct (batches !! tid) as [[c r]|]; cbn; [|naive_solver].
  split; [intros [= <- <-]; eauto|]. by intros (? & [= <- <-] & ->).
Qed.

(** Where a call stands, with the moment at which it copied the configuration. *)
Lemma race_history s batches schedule : forall tid clk pc,
  (race_run (s, calls_of batches) schedule).2 !! tid = Some (clk, pc) ->
  exists reqs, batches !! tid = Some (clk, reqs) /\
    (pc = RStart reqs \/
     exists before now after, schedule = before ++ (now, Advance tid) :: after /\
       (race_run (s, calls_of batches) before).2 !! tid = Some (clk, RStart reqs) /\
       pc_backed (config (race_run (s, calls_of batches) before).1) reqs pc).
Proof.
  induction schedule as [|[now l] schedule IH] using rev_ind; intros tid clk pc.
  - cbn. intros (reqs & ? & ->)%calls_of_lookup. eauto.
  - rewrite race_run_snoc. set (st := race_run (s, calls_of batches) schedule) in *.
    assert (st.2 !! tid = Some (clk, pc) -> exists reqs, batches !! tid = Some (clk, reqs) /\
      (pc = RStart reqs \/ exists before now0 after, schedule ++ [(now, l)] = before ++ (now0, Advance tid) :: after /\
        (race_run (s, calls_of batches) before).2 !! tid = Some (clk, RStart reqs) /\
        pc_backed (config (race_run (s, calls_of batches) before).1) reqs pc)) as Hsame.
    { intros (reqs & ? & [?|(before & n0 & after & -> & ? & ?)])%IH; [by eauto|]. exists reqs. split; [done|right].
      exists before, n0, (after ++ [(now, l)]). by rewrite <- app_assoc. }
    destruct st as [s1 cs] eqn:Est. unfold race_one. cbn [snd] in *. destruct l as [tid'|op]; [|by destruct op].
    destruct (cs !! tid') as [[clk' pc']|] eqn:E; [|done]. pose proof (race_step_backed clk' s1) as Hb. pose proof (admit_cases clk' s1) as Ha.
    destruct (race_step clk' s1 pc') as [s2 pc2] eqn:Es. cbn [snd]. rewrite lookup_insert. destruct (decide (tid' = tid)) as [->|]; [|done].
    intros [= <- <-]. destruct (IH _ _ _ E) as (reqs & Hreqs & [->|(before & n0 & after & Hsch & Hst & Hpc)]); exists reqs; (split; [done|right]).
    + exists schedule, now, []. fold st. rewrite Est. cbn. split_and!; try done.
      specialize (Ha reqs). cbn [race_step] in Es. destruct (admit_batch clk' s1 reqs); injection Es as <- <-; [done|]. by apply not_ok_backed.
    + exists before, n0, (after ++ [(now, Advance tid)]). rewrite Hsch, <- app_assoc. split_and!; try done. specialize (Hb _ _ _ Hpc). by rewrite Es in Hb.
Qed.

(** C27 The quorum and the configuration survive concurrency: under every schedule of any number
    of concurrent execute calls with each other and with configuration changes,
    key rotations and collections, a call that answers with a result answers its own batch, under
    the configuration in force when it took its first step: F+1 distinct signers of that
    configuration signed the answered hash, and the attestation was made over the
    answer with that configuration, whatever the server's has become since. *)
Theorem race_answers_backed s batches schedule (tid : nat) clk (code : Z) (resp : ExecuteResponse) :
  (race_run (s, calls_of batches) schedule).2 !! tid = Some (clk, RDone (HttpOK code resp)) ->
  exists reqs before now after,
    batches !! tid = Some (clk, reqs) /\ schedule = before ++ (now, Advance tid) :: after /\
    (race_run (s, calls_of batches) before).2 !! tid = Some (clk, RStart reqs) /\
    answer_backed (config (race_run (s, calls_of batches) before).1) reqs resp.
Proof.
  intros (reqs & Hreqs & [Hs|(before & now & after & ? & ? & ?)])%race_history; [done|]. exists reqs, before, now, after. by split_and!.
Qed.

(** ** Replay protection under concurrency

    Of a call only its dealings with the two request caches matter: its view.  [VRun] covers the
    keychain, the application and the attestation, [VDone] is an answered success. *)

Inductive view :=
| VIdle
| VCheck (h : bytes)
| VMark (h : bytes)
| VReplay (h : bytes)
| VRun (h : bytes)
| VRecord (h : bytes)
| VUnmark (h : bytes) (ok : bool)
| VDone (h : bytes).

Definition view_of (pc : race_pc) : view :=
  match pc with
  | RStart _ => VIdle
  | RCheck a => VCheck (ad_hash a)
  | RMark a => VMark (ad_hash a)
  | RReplay a => VReplay (ad_hash a)
  | RPrepare a | RApp a _ _ | RAttest a _ _ => VRun (ad_hash a)
  | RRecord a _ => VRecord (ad_hash a)
  | RUnmark a out => VUnmark (ad_hash a) (match out with HttpOK _ _ => true | _ => false end)
  | RDone (HttpOK _ resp) => VDone (er_RequestHash resp)
  | RDone _ => VIdle
  end.

(** The steps of a view on the in-progress and the executed requests. *)
Inductive view_step (clk : exec_clock) : Cache unit -> Cache unit -> view -> Cache unit -> Cache unit -> view -> Prop :=
| VS_idle p e : view_step clk p e VIdle p e VIdle
| VS_admit p e h : view_step clk p e VIdle p e (VCheck h)
| VS_busy p e h : view_step clk p e (VCheck h) p e VIdle
| VS_check p e h : Get (at_check clk) p h = None -> view_step clk p e (VCheck h) p e (VMark h)
| VS_mark p e h : view_step clk p e (VMark h) (Set_ (at_mark clk) p h tt None) e (VReplay h)
| VS_replayed p e h : view_step clk p e (VReplay h) p e (VUnmark h false)
| VS_fresh p e h : Get (at_replay clk) e h = None -> view_step clk p e (VReplay h) p e (VRun h)
| VS_run p e h v : v = VRun h \/ v = VUnmark h false \/ v = VRecord h -> view_step clk p e (VRun h) p e v
| VS_record p e h : view_step clk p e (VRecord h) p (Set_ (at_record clk) e h tt None) (VUnmark h true)
| VS_unmark p e h ok : view_step clk p e (VUnmark h ok) (Delete p h) e (if ok then VDone h else VIdle)
| VS_done p e h : view_step clk p e (VDone h) p e (VDone h).

(** A success answers with the hash it was admitted with, one of [hashes]. *)
Definition pc_sound (hashes : gset bytes) (pc : race_pc) : Prop :=
  match pc with
  | RStart reqs => forall req : SignedComputeRequest, head reqs = Some req -> ComputeRequest_Hash req ∈ hashes
  | RCheck a | RMark a | RReplay a | RPrepare a | RApp a _ _ | RAttest a _ _ => ad_hash a ∈ hashes
  | RRecord a resp => ad_hash a ∈ hashes /\ er_RequestHash resp = ad_hash a
  | RUnmark a (HttpOK _ resp) => ad_hash a ∈ hashes /\ er_RequestHash resp = ad_hash a
  | RUnmark a _ => ad_hash a ∈ hashes
  | RDone (HttpOK _ resp) => er_RequestHash resp ∈ hashes
  | RDone _ => True
  end.

Lemma not_ok_views hashes a out :
  not_ok out -> ad_hash a ∈ hashes ->
  pc_sound hashes (RUnmark a out) /\ pc_sound hashes (RDone out) /\
  view_of (RUnmark a out) = VUnmark (ad_hash a) false /\ view_of (RDone out) = VIdle.
Proof. by destruct out. Qed.

Lemma Get_unit (b : option unit) : (match b with Some _ => true | None => false end) = false -> b = None.
Proof. by destruct b. Qed.

Lemma race_step_view hashes clk s pc :
  pc_sound hashes pc ->
  let '(s', pc') := race_step clk s pc in
  pc_sound hashes pc' /\
  view_step clk (inProgressReqs s) (executedReqs s) (view_of pc) (inProgressReqs s') (executedReqs s') (view_of pc').
Proof.
  destruct pc as [reqs|a|a|a|a|a sm em|a output em|a resp|a out|out]; cbn [race_step view_of]; intros Hs.
  - pose proof (admit_cases clk s reqs) as Ha. destruct (admit_batch clk s reqs) as [a|out].
    + destruct Ha as (_ & _ & Hh & Hhash & _). split; [|constructor]. cbn in *. rewrite <- Hhash. by apply Hs.
    + destruct out; try done; by split; [|constructor].
  - destruct (in_progress _ _ _) eqn:E; [by split; [|constructor]|]. split; [done|]. constructor. by apply Get_unit.
  - split; [done|]. apply VS_mark.
  - destruct (replayed _ _ _) eqn:E; [by split; [|constructor]|]. split; [done|]. constructor. by apply Get_unit.
  - destruct (combine_secrets clk s a) as [[sm em]|out] eqn:E; [split; [done|]; constructor; by left|].
    apply prepare_err in E. destruct (not_ok_views hashes a out E Hs) as (? & _ & -> & _). split; [done|]. constructor. auto.
  - destruct (call_app_cases clk s a sm em) as (w & Hw & Hc). destruct (call_app _ _ _ _ _) as [[[output em']|out] s1]; cbn in Hw, Hc; subst s1.
    + split; [done|]. constructor. auto.
    + destruct (not_ok_views hashes a out Hc Hs) as (? & _ & -> & _). split; [done|]. constructor. auto.
  - destruct (attest_answer_cases clk s a output em) as (w & Hw & Hc). destruct (attest_answer _ _ _ _ _) as [[resp|out] s1]; cbn in Hw, Hc; subst s1.
    + split; [by split; [|apply Hc]|]. constructor. auto.
    + destruct (not_ok_views hashes a out Hc Hs) as (? & _ & -> & _). split; [done|]. constructor. auto.
  - split; [done|]. apply VS_record.
  - destruct out as [code e|code resp|]; cbn in *.
    + split; [done|]. apply (VS_unmark clk _ _ _ false).
    + destruct Hs as [Hin ->]. split; [done|]. apply (VS_unmark clk _ _ _ true).
    + split; [done|]. apply (VS_unmark clk _ _ _ false).
  - split; [done|]. destruct out; constructor.
Qed.

(** What a view holds: its mark; its passed replay check; its recorded success. *)
Definition held (v : view) : option bytes :=
  match v with VReplay h | VRun h | VRecord h | VUnmark h _ => Some h | _ => None end.
Definition cleared (v : view) : option bytes := match v with VRun h | VRecord h => Some h | _ => None end.
Definition recorded (v : view) : option bytes := match v with VUnmark h true | VDone h => Some h | _ => None end.
Definition concerns (v : view) : option bytes :=
  match v with
  | VIdle => None
  | VCheck h | VMark h | VReplay h | VRun h | VRecord h | VUnmark h _ | VDone h => Some h
  end.

(** At [t] the view is about to mark [h], or its mark has not run out. *)
Definition owns (t : Z) (clk : exec_clock) (v : view) (h : bytes) : Prop :=
  v = VMark h \/ held v = Some h /\ t - at_mark clk <= DefaultKeypairExpiration.

Section Replay.
Variable hashes : gset bytes.
Hypothesis Hhashes : Z.of_nat (size hashes) <= MaxReplayCacheEntries.

Record request_cache (c : Cache unit) : Prop := {
  rc_inv : cache_inv c;
  rc_ttl : timeToLive c = DefaultKeypairExpiration;
  rc_max : maxEntries c = MaxReplayCacheEntries;
  rc_keys : forall k, k ∈ Keys c -> k ∈ hashes;
}.

Lemma request_cache_Set now c h : request_cache c -> h ∈ hashes -> request_cache (Set_ now c h tt None).
Proof.
  intros [Hi Ht Hm Hk] Hh. assert (evictees c h = []) as He by (apply (evictees_none _ _ hashes); [done..|by rewrite Hm]).
  unfold Set_. split; [by apply setLocked_inv|by rewrite setLocked_eq|by rewrite setLocked_max|].
  intros k. unfold Keys. rewrite setLocked_eq, He by done. cbn. case_match; [apply Hk|].
  rewrite elem_of_app, list_elem_of_singleton. intros [?| ->]; [by apply Hk|done].
Qed.

Lemma request_cache_Get now c h h' t' : request_cache c -> h ∈ hashes ->
  Get t' (Set_ now c h tt None) h' = if decide (h' = h) then (if DefaultKeypairExpiration <? time_sub t' now then None else Some tt) else Get t' c h'.
Proof.
  intros [Hi Ht Hm Hk] Hh. assert (evictees c h = []) as He by (apply (evictees_none _ _ hashes); [done..|by rewrite Hm]).
  rewrite Get_Set, He by done. cbn [default]. rewrite Ht. by rewrite (decide_False (P := _ ∈ [])) by apply not_elem_of_nil.
Qed.

Lemma Set_lasts now c h t' : request_cache c -> h ∈ hashes -> now <= t' -> t' - now <= DefaultKeypairExpiration -> Get t' (Set_ now c h tt None) h = Some tt.
Proof.
  intros Hc Hh Hle Ht. rewrite request_cache_Get, decide_True by done. rewrite (proj2 (Z.ltb_ge _ _)); [done|].
  unfold time_sub, min_duration, max_duration. assert (0 <= DefaultKeypairExpiration) by by_compute. lia.
Qed.

Lemma request_cache_Delete c h : request_cache c -> request_cache (Delete c h).
Proof.
  intros [Hi Ht Hm Hk]. split; [by apply Delete_inv|done..|]. intros k. unfold Keys, Delete. cbn.
  intros [? _]%remove_first_elem; [by apply Hk|apply Hi].
Qed.

Lemma request_cache_gc now c : request_cache c -> request_cache (garbageCollect now c).2.
Proof.
  intros [Hi Ht Hm Hk]. split; [by apply gc_inv|by rewrite garbageCollect_eq..|]. intros k. unfold Keys. rewrite garbageCollect_eq by done.
  cbn. intros Hx. apply list_elem_of_In, List.filter_In in Hx as [Hx _]. apply Hk. by apply list_elem_of_In.
Qed.

(** The invariant at [t], of the in-progress requests [p], the executed ones [e] and the views. *)
Record replay_ok (t : Z) (p e : Cache unit) (vs : nat -> option (exec_clock * view)) : Prop := {
  ro_progress : request_cache p;
  ro_executed : request_cache e;
  ro_hash : forall i c v h, vs i = Some (c, v) -> concerns v = Some h -> h ∈ hashes;
  ro_owner : forall i j ci cj vi vj h, i <> j -> vs i = Some (ci, vi) -> vs j = Some (cj, vj) ->
    owns t ci vi h -> ~ owns t cj vj h;
  ro_marked : forall i c v h t', vs i = Some (c, v) -> held v = Some h ->
    t <= t' -> t' - at_mark c <= DefaultKeypairExpiration -> Get t' p h = Some tt;
  ro_known : forall i c v h, vs i = Some (c, v) -> recorded v = Some h -> at_record c <= t /\
    forall t', t <= t' -> t' - at_record c <= DefaultKeypairExpiration -> Get t' e h = Some tt;
  ro_cleared : forall i j ci cj vi vj h, i <> j -> vs i = Some (ci, vi) -> vs j = Some (cj, vj) ->
    cleared vi = Some h -> t - at_mark ci <= DefaultKeypairExpiration -> recorded vj = Some h ->
    DefaultKeypairExpiration < at_replay ci - at_record cj;
  ro_apart : forall i j ci cj vi vj h, i <> j -> vs i = Some (ci, vi) -> vs j = Some (cj, vj) ->
    recorded vi = Some h -> recorded vj = Some h ->
    DefaultKeypairExpiration < at_replay ci - at_record cj \/ DefaultKeypairExpiration < at_replay cj - at_record ci;
}.

Lemma owns_earlier t t' c v h : t <= t' -> owns t' c v h -> owns t c v h.
Proof. intros Hle [->|[? ?]]; [by left|right]. split; [done|lia]. Qed.

Lemma replay_ok_later t t' p e vs : t <= t' -> replay_ok t p e vs -> replay_ok t' p e vs.
Proof.
  intros Hle [Hp He Hh Ho Hm Hk Hc Ha]. split; try done.
  - intros i j ci cj vi vj h Hne Hi Hj Hoi Hoj. eapply (Ho i j); eauto using owns_earlier.
  - intros i c v h t'' Hi Hv Ht. eapply Hm; eauto. lia.
  - intros i c v h Hi Hv. destruct (Hk i c v h Hi Hv) as [? Hg]. split; [lia|]. intros t'' Ht. apply Hg. lia.
  - intros i j ci cj vi vj h Hne Hi Hj Hci Ht. eapply (Hc i j); eauto. lia.
Qed.

Lemma replay_ok_collect t p e vs :
  replay_ok t p e vs -> replay_ok t (garbageCollect t p).2 (garbageCollect t e).2 vs.
Proof.
  intros [Hp He Hh Ho Hm Hk Hc Ha]. split; try done; [by apply request_cache_gc|by apply request_cache_gc|..].
  - intros i c v h t' Hi Hv Ht Hd. rewrite Get_gc by (apply Hp || done). by eapply Hm.
  - intros i c v h Hi Hv. destruct (Hk i c v h Hi Hv) as [? Hg]. split; [done|]. intros t' Ht Hd.
    rewrite Get_gc by (apply He || done). by apply Hg.
Qed.

Definition set_view (vs : nat -> option (exec_clock * view)) (i : nat) (c : exec_clock) (v : view) : nat -> option (exec_clock * view) :=
  fun j => if decide (i = j) then Some (c, v) else vs j.

(** A view that gives something up, or reads. *)
Lemma replay_ok_silent t p e vs i c v v' :
  replay_ok t p e vs -> vs i = Some (c, v) ->
  (forall h, concerns v' = Some h -> h ∈ hashes) -> (forall h, owns t c v' h -> owns t c v h) ->
  (forall h, held v' = Some h -> held v = Some h) -> (forall h, recorded v' = Some h -> recorded v = Some h) ->
  (forall h, cleared v' = Some h -> cleared v = Some h) -> replay_ok t p e (set_view vs i c v').
Proof.
  intros [Hp He Hh Ho Hm Hk Hc Ha] Hi Vh Vo Vm Vr Vc. split; try done; unfold set_view.
  - intros j cj vj h Hj. case_decide; simplify_eq; eauto.
  - intros j k cj ck vj vk h Hne Hj Hk' H1 H2. repeat case_decide; simplify_eq; eapply (Ho j k); eauto.
  - intros j cj vj h t' Hj. case_decide; simplify_eq; eauto.
  - intros j cj vj h Hj. case_decide; simplify_eq; eauto.
  - intros j k cj ck vj vk h Hne Hj Hk' H1 H2 H3. repeat case_decide; simplify_eq; eapply (Hc j k); eauto.
  - intros j k cj ck vj vk h Hne Hj Hk' H1 H2. repeat case_decide; simplify_eq; eapply (Ha j k); eauto.
Qed.

Ltac owned H := destruct H as [H|[H ?]]; cbn in H; simplify_eq.

(** A call that marks [h] is alone in owning it. *)
Lemma replay_ok_mark now p e vs i c h :
  replay_ok now p e vs -> vs i = Some (c, VMark h) -> at_mark c = now ->
  replay_ok now (Set_ now p h tt None) e (set_view vs i c (VReplay h)).
Proof.
  intros [Hp He Hh Ho Hm Hk Hc Ha] Hi Hnow. assert (h ∈ hashes) as Hin by (by eapply Hh).
  split; try done; unfold set_view; [by apply request_cache_Set|..].
  - intros j cj vj h' Hj. case_decide; simplify_eq; eauto.
  - intros j k cj ck vj vk h' Hne Hj Hk' H1 H2. repeat case_decide; simplify_eq; [..|by eapply (Ho j k)].
    + owned H2. eapply (Ho k j); eauto. by left.
    + owned H1. eapply (Ho j k); eauto. by left.
  - intros j cj vj h' t' Hj Hv Ht Hd. case_decide; simplify_eq; [injection Hv as <-; by apply Set_lasts|].
    rewrite request_cache_Get by done. case_decide; [|by eapply Hm]. subst h'.
    destruct (Ho j i cj c vj (VMark h) h) ; [done..| |by left]. right. split; [done|lia].
  - intros j cj vj h' Hj. case_decide; simplify_eq; eauto.
  - intros j k cj ck vj vk h' Hne Hj Hk' H1 H2 H3. repeat case_decide; simplify_eq; by eapply (Hc j k).
  - intros j k cj ck vj vk h' Hne Hj Hk' H1 H2. repeat case_decide; simplify_eq; by eapply (Ha j k).
Qed.

Lemma replay_ok_check now p e vs i c h :
  replay_ok now p e vs -> vs i = Some (c, VCheck h) -> Get now p h = None ->
  (forall j cj, vs j <> Some (cj, VMark h)) -> replay_ok now p e (set_view vs i c (VMark h)).
Proof.
  intros [Hp He Hh Ho Hm Hk Hc Ha] Hi Hg Hex.
  assert (forall j cj vj, vs j = Some (cj, vj) -> ~ owns now cj vj h) as Hfree.
  { intros j cj vj Hj [->|[Hv Hd]]; [by eapply Hex|]. rewrite (Hm j cj vj h now Hj Hv ltac:(lia) Hd) in Hg. done. }
  split; try done; unfold set_view.
  - intros j cj vj h' Hj. case_decide; simplify_eq; eauto.
  - intros j k cj ck vj vk h' Hne Hj Hk' H1 H2. repeat case_decide; simplify_eq; [..|by eapply (Ho j k)].
    + owned H2. by eapply Hfree.
    + owned H1. by eapply Hfree.
  - intros j cj vj h' t' Hj. case_decide; simplify_eq; eauto.
  - intros j cj vj h' Hj. case_decide; simplify_eq; eauto.
  - intros j k cj ck vj vk h' Hne Hj Hk' H1 H2 H3. repeat case_decide; simplify_eq; by eapply (Hc j k).
  - intros j k cj ck vj vk h' Hne Hj Hk' H1 H2. repeat case_decide; simplify_eq; by eapply (Ha j k).
Qed.

Lemma replay_ok_fresh now p e vs i c h :
  replay_ok now p e vs -> vs i = Some (c, VReplay h) -> at_replay c = now -> Get now e h = None ->
  replay_ok now p e (set_view vs i c (VRun h)).
Proof.
  intros [Hp He Hh Ho Hm Hk Hc Ha] Hi Hnow Hg. split; try done; unfold set_view.
  - intros j cj vj h' Hj. case_decide; simplify_eq; [|eauto]. intros [= <-]. by eapply Hh.
  - intros j k cj ck vj vk h' Hne Hj Hk' H1 H2. repeat case_decide; simplify_eq; [..|by eapply (Ho j k)].
    + owned H2. eapply (Ho k j); eauto. by right.
    + owned H1. eapply (Ho j k); eauto. by right.
  - intros j cj vj h' t' Hj. case_decide; simplify_eq; [|eauto]. intros [= <-]. by eapply Hm.
  - intros j cj vj h' Hj. case_decide; simplify_eq; eauto.
  - intros j k cj ck vj vk h' Hne Hj Hk' H1 H2 H3. repeat case_decide; simplify_eq; [|by eapply (Hc j k)].
    injection H1 as <-. destruct (Hk k ck vk h Hk' H3) as [_ Hknown].
    destruct (decide (at_replay cj - at_record ck <= DefaultKeypairExpiration)); [|lia].
    rewrite Hknown in Hg by (lia || done). done.
  - intros j k cj ck vj vk h' Hne Hj Hk' H1 H2. repeat case_decide; simplify_eq; by eapply (Ha j k).
Qed.

Lemma replay_ok_record now p e vs i c h :
  replay_ok now p e vs -> vs i = Some (c, VRecord h) -> at_record c = now -> now - at_mark c <= DefaultKeypairExpiration ->
  replay_ok now p (Set_ now e h tt None) (set_view vs i c (VUnmark h true)).
Proof.
  intros [Hp He Hh Ho Hm Hk Hc Ha] Hi Hnow Hprompt. assert (h ∈ hashes) as Hin by (by eapply Hh).
  split; try done; unfold set_view; [by apply request_cache_Set|..].
  - intros j cj vj h' Hj. case_decide; simplify_eq; [|eauto]. by intros [= <-].
  - intros j k cj ck vj vk h' Hne Hj Hk' H1 H2. repeat case_decide; simplify_eq; [..|by eapply (Ho j k)].
    + owned H2. eapply (Ho k j); eauto. by right.
    + owned H1. eapply (Ho j k); eauto. by right.
  - intros j cj vj h' t' Hj. case_decide; simplify_eq; [|eauto]. intros [= <-]. by eapply Hm.
  - intros j cj vj h' Hj Hv. case_decide; simplify_eq.
    + injection Hv as <-. split; [done|]. intros t' Ht Hd. by apply Set_lasts.
    + destruct (Hk j cj vj h' Hj Hv) as [Hr Hknown]. split; [done|]. intros t' Ht Hd. rewrite request_cache_Get by done.
      case_decide; [|by apply Hknown]. rewrite (proj2 (Z.ltb_ge _ _)); [done|].
      unfold time_sub, min_duration, max_duration. assert (0 <= DefaultKeypairExpiration) by by_compute. lia.
  - intros j k cj ck vj vk h' Hne Hj Hk' H1 H2 H3. repeat case_decide; simplify_eq; [|by eapply (Hc j k)].
    injection H3 as <-. destruct (Ho j k cj ck vj (VRecord h) h); [done..| |by right]. right. split; [|done]. by destruct vj.
  - intros j k cj ck vj vk h' Hne Hj Hk' H1 H2. repeat case_decide; simplify_eq; [| |by eapply (Ha j k)].
    + injection H2 as <-. right. by eapply (Hc k j).
    + injection H1 as <-. left. by eapply (Hc j k).
Qed.

Lemma replay_ok_unmark now p e vs i c h ok :
  replay_ok now p e vs -> vs i = Some (c, VUnmark h ok) -> now - at_mark c <= DefaultKeypairExpiration ->
  replay_ok now (Delete p h) e (set_view vs i c (if ok then VDone h else VIdle)).
Proof.
  intros [Hp He Hh Ho Hm Hk Hc Ha] Hi Hprompt.
  split; try done; unfold set_view; [by apply request_cache_Delete|..].
  - intros j cj vj h' Hj. case_decide; simplify_eq; [|eauto]. destruct ok; [|done]. intros [= <-]. by eapply Hh.
  - intros j k cj ck vj vk h' Hne Hj Hk' H1 H2. repeat case_decide; simplify_eq; [..|by eapply (Ho j k)].
    + by destruct ok, H2 as [|[? _]].
    + by destruct ok, H1 as [|[? _]].
  - intros j cj vj h' t' Hj Hv Ht Hd. case_decide; simplify_eq; [by destruct ok|]. rewrite Get_Delete. case_decide; [|by eapply Hm].
    subst h'. destruct (Ho j i cj c vj (VUnmark h ok) h); [done..| |by right]. right. split; [done|lia].
  - intros j cj vj h' Hj. case_decide; simplify_eq; [|eauto]. destruct ok; [|done]. intros [= <-]. by eapply Hk.
  - intros j k cj ck vj vk h' Hne Hj Hk' H1 H2 H3. repeat case_decide; simplify_eq; [|by destruct ok|by eapply (Hc j k)].
    destruct ok; [|done]. injection H3 as <-. by eapply (Hc j k).
  - intros j k cj ck vj vk h' Hne Hj Hk' H1 H2. repeat case_decide; simplify_eq; [| |by eapply (Ha j k)].
    + destruct ok; [|done]. injection H2 as <-. by eapply (Ha j k).
    + destruct ok; [|done]. injection H1 as <-. by eapply (Ha j k).
Qed.

(** The instants of a call's cache accesses are those at which they are scheduled, and its mark
    does not run out before its recording and its deletion. *)
Definition view_timed (now : Z) (clk : exec_clock) (v : view) : Prop :=
  match v with
  | VCheck _ => at_check clk = now
  | VMark _ => at_mark clk = now
  | VReplay _ => at_replay clk = now
  | VRecord _ => at_record clk = now /\ now - at_mark clk <= DefaultKeypairExpiration
  | VUnmark _ _ => now - at_mark clk <= DefaultKeypairExpiration
  | VIdle | VRun _ | VDone _ => True
  end.

Lemma replay_ok_step now p e vs i c v p' e' v' :
  replay_ok now p e vs -> vs i = Some (c, v) -> view_step c p e v p' e' v' -> view_timed now c v ->
  (forall h j cj, v = VCheck h -> vs j <> Some (cj, VMark h)) -> (forall h, concerns v' = Some h -> h ∈ hashes) ->
  replay_ok now p' e' (set_view vs i c v').
Proof.
  intros Hok Hi Hstep Ht Hex Hh. destruct Hstep as [| | |p e h Hg|p e h| |p e h Hg|p e h v' Hv'|p e h|p e h ok|]; cbn in Ht.
  - eapply replay_ok_silent; eauto.
  - eapply replay_ok_silent; eauto; try done. intros h' Ho. owned Ho.
  - eapply replay_ok_silent; eauto; try done. intros h' Ho. owned Ho.
  - subst now. eapply replay_ok_check; eauto.
  - subst now. by apply replay_ok_mark.
  - eapply replay_ok_silent; eauto; try done. intros h' Ho. owned Ho. by right.
  - subst now. by apply replay_ok_fresh.
  - eapply replay_ok_silent; eauto; destruct Hv' as [->|[->| ->]]; try done; intros h' Ho; owned Ho; by right.
  - destruct Ht as [<- Ht]. by apply replay_ok_record.
  - by apply replay_ok_unmark.
  - eapply replay_ok_silent; eauto.
Qed.

Lemma replay_ok_ext t p e vs vs' : (forall i, vs i = vs' i) -> replay_ok t p e vs -> replay_ok t p e vs'.
Proof.
  intros E [Hp He Hh Ho Hm Hk Hc Ha]. split; try done; intros *; rewrite <- ?E; eauto.
Qed.

Definition views (st : race_state) (i : nat) : option (exec_clock * view) := (fun x => (x.1, view_of x.2)) <$> st.2 !! i.

Definition race_ok (t : Z) (st : race_state) : Prop :=
  replay_ok t (inProgressReqs st.1) (executedReqs st.1) (views st) /\
  forall i clk pc, st.2 !! i = Some (clk, pc) -> pc_sound hashes pc.

Lemma pc_sound_concerns pc h : pc_sound hashes pc -> concerns (view_of pc) = Some h -> h ∈ hashes.
Proof. destruct pc as [| | | | | | | |a []|[]]; cbn; intros Hs [= <-]; try done; apply Hs. Qed.

(** A scheduled step is on time; a call checks while no other one with its hash is between its check and its mark. *)
Definition on_time (now : Z) (st : race_state) (l : race_label) : Prop :=
  match l with
  | Advance tid => match st.2 !! tid with Some (clk, pc) => view_timed now clk (view_of pc) | None => True end
  | Other (OpCollect t) => t = now
  | Other _ => True
  end.

Definition marking (h : bytes) (pc : race_pc) : bool := match pc with RMark a => bool_decide (ad_hash a = h) | _ => false end.

Definition checks_alone (now : Z) (st : race_state) (l : race_label) : Prop :=
  match l with
  | Advance tid =>
      match st.2 !! tid with
      | Some (_, RCheck a) => bool_decide (map_Forall (fun _ c => marking (ad_hash a) c.2 = false) st.2) = true
      | _ => True
      end
  | Other _ => True
  end.

Lemma handleGetPublicKeys_progress now s m param :
  inProgressReqs (handleGetPublicKeys now s m param).2 = inProgressReqs s.
Proof.
  unfold handleGetPublicKeys. destruct (negb _); [done|]. destruct (IsZero _); [done|].
  destruct (select_keypairs_frame now s param) as [kc Hs].
  destruct (select_keypairs now s param) as [[[|kp kps]|[code e]] s1]; cbn [snd] in Hs; subst s1; try done.
  unfold attestPublicKeys. destruct (Get now _ _); [done|].
  match goal with |- context [attest ?s1 ?d] =>
    destruct (attest_frame s1 d) as [(_ & Ha & _) _]; destruct (attest s1 d) as [[att|] s2] end; done.
Qed.

Lemma other_caches s op : (forall clk m body, op <> OpExecute clk m body) -> (forall now, op <> OpCollect now) ->
  inProgressReqs (server_step s op).1 = inProgressReqs s /\ executedReqs (server_step s op).1 = executedReqs s.
Proof.
  intros Hx Hc. destruct op as [clk m body|now m param|m c|now vote|m raw|now|now gen]; cbn [server_step fst].
  - by destruct (Hx clk m body).
  - by rewrite handleGetPublicKeys_progress, handleGetPublicKeys_executed.
  - by destruct (handleSetConfig_frame s m c) as (-> & -> & _).
  - by destruct (handleUpdateConfig_frame now s vote) as (-> & -> & _).
  - by destruct (handleInjectSettings_frame s m raw) as (-> & -> & _).
  - by destruct (Hc now).
  - by destruct (rotation_tick now (keychain s) gen).
Qed.

Lemma race_ok_step t now st l :
  race_ok t st -> t <= now -> on_time now st l -> checks_alone now st l -> race_ok now (race_one st (now, l)).
Proof.
  intros [Hok Hs] Hle Ht Hex. apply (replay_ok_later _ now) in Hok; [|done]. destruct st as [s cs]. unfold race_one. cbn [snd].
  destruct l as [tid|op].
  - cbn [on_time checks_alone snd] in Ht, Hex. destruct (cs !! tid) as [[clk pc]|] eqn:E; [|by split].
    pose proof (race_step_view hashes clk s pc (Hs _ _ _ E)) as Hv. destruct (race_step clk s pc) as [s' pc'] eqn:Es. destruct Hv as [Hs' Hv].
    split.
    + eapply replay_ok_ext, (replay_ok_step now _ _ _ tid clk (view_of pc)); eauto.
      * intros i. unfold set_view, views. cbn [snd]. rewrite lookup_insert. by case_decide.
      * unfold views. cbn [snd]. by rewrite E.
      * intros h j cj Hvc. unfold views. cbn [snd]. destruct (cs !! j) as [[cj' pcj]|] eqn:Ej; [|done]. cbn. intros [= -> Hm].
        destruct pc as [|a| | | | | | | |[]]; try done. destruct pcj as [| |aj| | | | | | |[]]; try done. cbn in *.
        injection Hvc as <-. injection Hm as Hm. apply bool_decide_eq_true in Hex. specialize (Hex _ _ Ej). cbn in Hex. by rewrite Hm, bool_decide_true in Hex.
      * intros h. by apply pc_sound_concerns.
    + intros i clk' pc''. cbn [snd]. rewrite lookup_insert. case_decide; [by intros [= <- <-]|apply Hs].
  - assert ((forall clk m body, op <> OpExecute clk m body) -> (forall t', op <> OpCollect t') -> race_ok now ((server_step s op).1, cs)) as Hother.
    { intros H1 H2. destruct (other_caches s op H1 H2) as [Ep Ee]. split; cbn [fst]; [by rewrite Ep, Ee|done]. }
    destruct op; try (by apply Hother); [by split|]. cbn in Ht. subst. split; [by apply replay_ok_collect|done].
Qed.

Fixpoint along (P : Z -> race_state -> race_label -> Prop) (t : Z) (st : race_state) (schedule : list (Z * race_label)) : Prop :=
  match schedule with
  | [] => True
  | (now, l) :: rest => t <= now /\ P now st l /\ along P now (race_one st (now, l)) rest
  end.

Lemma race_ok_run schedule : forall t st,
  race_ok t st -> along on_time t st schedule -> along checks_alone t st schedule ->
  exists t', race_ok t' (race_run st schedule).
Proof.
  induction schedule as [|[now l] schedule IH]; intros t st Hok Ht Hc; [by exists t|]. cbn in *.
  destruct Ht as (? & ? & ?), Hc as (_ & ? & ?). eapply IH; [|done..]. by eapply race_ok_step.
Qed.

End Replay.

(** C5 No replay, also under concurrency: take any schedule of concurrent execute calls on a fresh server,
    with configuration changes, rotations and collections in between, in which a call records and
    ends within 24 hours of marking its request, at most 500000 distinct request hashes occur, and no
    call makes its in-progress check while another one with the same hash is between its check
    and its mark.  Then two calls that succeed with the same request hash are more than 24 hours apart: one
    was checked against the executed requests that long after the other was recorded.  Failed calls
    are not recorded and may be repeated; [concurrent_double_execution] shows that the check and the
    mark, two critical sections, do not exclude the interleaving ruled out here. *)
Theorem no_replay_concurrent (w : World) (kc : boxKeychain) (cfg : EnclaveConfig) (reconfig : bool) (batches : gmap nat (exec_clock * list SignedComputeRequest)) (hashes : gset bytes)
    (schedule : list (Z * race_label)) (t : Z) (i j : nat) (ci cj : exec_clock) (codei codej : Z) (ri rj : ExecuteResponse) :
  let st := (NewEnclaveServer w kc cfg reconfig, calls_of batches) in
  (forall tid clk reqs (req : SignedComputeRequest), batches !! tid = Some (clk, reqs) -> head reqs = Some req ->
     ComputeRequest_Hash req ∈ hashes) ->
  Z.of_nat (size hashes) <= MaxReplayCacheEntries ->
  along on_time t st schedule -> along checks_alone t st schedule ->
  (race_run st schedule).2 !! i = Some (ci, RDone (HttpOK codei ri)) ->
  (race_run st schedule).2 !! j = Some (cj, RDone (HttpOK codej rj)) ->
  i <> j -> er_RequestHash ri = er_RequestHash rj ->
  DefaultKeypairExpiration < at_replay ci - at_record cj \/ DefaultKeypairExpiration < at_replay cj - at_record ci.
Proof.
  intros st Hin Hsize Ht Hc Hi Hj Hne Heq.
  assert (race_ok hashes t st) as Hok.
  { assert (forall k c v, views st k = Some (c, v) -> v = VIdle) as Hidle.
    { intros k c v. unfold views, st. cbn [snd]. destruct (calls_of batches !! k) as [[c' pc]|] eqn:E; [|done].
      apply calls_of_lookup in E as (? & _ & ->). by intros [= <- <-]. }
    split.
    - split; [split; [apply New_inv|done|done|by intros k ?%not_elem_of_nil]..| | | | | |].
      + by intros ? ? ? ? ->%Hidle.
      + by intros ? ? ? ? ? ? ? _ ->%Hidle _ [|[? _]].
      + by intros ? ? ? ? ? ->%Hidle.
      + by intros ? ? ? ? ->%Hidle.
      + by intros ? ? ? ? ? ? ? _ ->%Hidle.
      + by intros ? ? ? ? ? ? ? _ ->%Hidle.
    - intros k c pc (reqs & E & ->)%calls_of_lookup req. by eapply Hin. }
  destruct (race_ok_run hashes Hsize schedule t st Hok Ht Hc) as (t' & Hok' & _).
  apply (ro_apart _ _ _ _ _ Hok' i j ci cj (VDone (er_RequestHash ri)) (VDone (er_RequestHash rj)) (er_RequestHash ri)); try done.
  - unfold views. by rewrite Hi.
  - unfold views. by rewrite Hj.
  - cbn. by rewrite Heq.
Qed.
End Race.

(** ** The in-progress guard does not exclude concurrent executions

    The check and the mark are two critical sections: two calls with the same
    batch can both pass the check before either marks, and both read the
    executed set before either records. *)

Definition in_turns : list (Z * race_label) := concat (replicate 9 [(10, Advance 0%nat); (10, Advance 1%nat)]).

Definition two_batches : gmap nat (exec_clock * list SignedComputeRequest) :=
  <[0%nat := (clock_at 10, toy_batch)]> {[1%nat := (clock_at 10, toy_batch)]}.

Definition answered (st : race_state) (tid : nat) : bool :=
  match st.2 !! tid with
  | Some (_, RDone (HttpOK _ _)) => true
  | _ => false
  end.

(** Double execution: two concurrent calls with one and the same signed batch
    can both succeed, running the application twice, although run one after
    the other the second is refused as a replay. *)
Theorem concurrent_double_execution :
  (let st := race_run (configured false, calls_of two_batches) in_turns in
   answered st 0 = true /\ answered st 1 = true /\ world st.1 = 2%nat) /\
  (let s1 := (handleExecute (clock_at 10) (configured false) "POST" (Decoded toy_batch)).2 in
   let '(out, s2) := handleExecute (clock_at 10) s1 "POST" (Decoded toy_batch) in
   world s2 = 1%nat /\ exists m, out = HttpError StatusConflict (ReplayDetected, m)).
Proof.
  split.
  - vm_compute. auto.
  - vm_compute. eauto.
Qed.

(** A call during which the configuration is replaced: the answer is under the one it started with. *)
Definition reconfigured_midway : list (Z * race_label) :=
  replicate 5 (10, Advance 0%nat) ++ [(11, Other (OpSetConfig "POST" (Decoded (Some toy_config2))))] ++ replicate 4 (12, Advance 0%nat).

Definition one_call : gmap nat (exec_clock * list SignedComputeRequest) := {[0%nat := (clock_at 10, toy_batch)]}.

Definition midway_end : race_state := race_run (configured true, calls_of one_call) reconfigured_midway.

Definition answer_of (st : race_state) (tid : nat) : ExecuteResponse :=
  match st.2 !! tid with Some (_, RDone (HttpOK _ resp)) => resp | _ => sample_response "" end.

Lemma race_answers_backed_witness :
  config midway_end.1 = toy_config2 /\ er_Config (answer_of midway_end 0) = toy_config /\
  exists reqs before now after,
    one_call !! 0%nat = Some (clock_at 10, reqs) /\ reconfigured_midway = before ++ (now, Advance 0%nat) :: after /\
    (race_run (configured true, calls_of one_call) before).2 !! 0%nat = Some (clock_at 10, RStart reqs) /\
    answer_backed (verified := toy_Verify) (config (race_run (configured true, calls_of one_call) before).1) reqs (answer_of midway_end 0).
Proof.
  split; [vm_compute; reflexivity|]. split; [vm_compute; reflexivity|].
  apply (race_answers_backed (configured true) one_call reconfigured_midway 0 (clock_at 10) 200 (answer_of midway_end 0)).
  vm_compute. reflexivity.
Defined.

(** Three calls with one batch: the second is refused as a replay, the third comes after 25 hours. *)
Definition lasting_key : boxKeychain :=
  (CreateKeyPair 0 (NewBoxKeychain None (Some (72 * hour)) None) (Some (sample_key 1, sample_key 11))).2.

Definition a_day_apart : gmap nat (exec_clock * list SignedComputeRequest) :=
  <[0%nat := (clock_at 10, toy_batch)]> (<[1%nat := (clock_at 20, toy_batch)]> {[2%nat := (clock_at (25 * hour), toy_batch)]}).

Definition over_a_day : list (Z * race_label) :=
  replicate 9 (10, Advance 0%nat) ++ replicate 9 (20, Advance 1%nat) ++ [(24 * hour + 11, Other (OpCollect (24 * hour + 11)))] ++
  replicate 9 (25 * hour, Advance 2%nat).

Definition over_a_day_start : race_state := (NewEnclaveServer world0 lasting_key toy_config false, calls_of a_day_apart).

Lemma no_replay_concurrent_witness :
  answered (race_run over_a_day_start over_a_day) 1 = false /\
  (DefaultKeypairExpiration < at_replay (clock_at 10) - at_record (clock_at (25 * hour)) \/
   DefaultKeypairExpiration < at_replay (clock_at (25 * hour)) - at_record (clock_at 10)).
Proof.
  split; [vm_compute; reflexivity|].
  apply (no_replay_concurrent world0 lasting_key toy_config false a_day_apart {[ComputeRequest_Hash toy_request]} over_a_day 0 0%nat 2%nat
    (clock_at 10) (clock_at (25 * hour)) 200 200 (answer_of (race_run over_a_day_start over_a_day) 0) (answer_of (race_run over_a_day_start over_a_day) 2)).
  - intros tid clk reqs req H. unfold a_day_apart in H.
    assert (reqs = toy_batch) as ->.
    { rewrite !lookup_insert, lookup_singleton in H. repeat case_decide; by simplify_eq. }
    intros [= <-]. by apply elem_of_singleton.
  - by_compute.
  - vm_compute. repeat split; done.
  - vm_compute. repeat split; done.
  - vm_compute. reflexivity.
  - vm_compute. reflexivity.
  - done.
  - vm_compute. reflexivity.
Defined.
