(* ===== verification/ServerExamples.v ===== *)
(** * ServerExamples: the server theorems at concrete inputs, and two behaviours
    of the configuration votes

    The witnesses run the handlers of [Server] in the environment of
    [ServerToy]. *)

From S2P Require Import Prelude Codec Sha256 Types Cache Keychain Services Emitter Server ServerSafety ServerConfig ServerToy.

(** ** One execution *)

Definition toy_run : exec_response * enclaveServer :=
  handleExecute (clock_at 10) (configured false) "POST" (Decoded toy_batch).

Definition toy_resp : ExecuteResponse :=
  match toy_run.1 with HttpOK _ resp => resp | _ => sample_response "" end.

Definition toy_done : enclaveServer := toy_run.2.

Lemma execute_requires_quorum_witness :
  exists reqs req, Decoded toy_batch = Decoded reqs /\ head reqs = Some req /\
    Forall (fun r : SignedComputeRequest => ComputeRequest_Hash r = ComputeRequest_Hash req) reqs /\
    quorum_cert (verified := toy_Verify) (config (configured false)) (compute_payload (ComputeRequest_Hash req)) reqs.
Proof.
  apply (execute_requires_quorum (clock_at 10) (configured false) "POST" (Decoded toy_batch) toy_run.1 toy_done).
  - exact (surjective_pairing toy_run).
  - left. vm_compute. discriminate.
Defined.

Lemma execute_backed_by_honest_witness :
  exists reqs req p, Decoded toy_batch = Decoded reqs /\ head reqs = Some req /\
    p ∈ Signers (config (configured false)) /\ (p ∉ ({[signer1]} : gset bytes)) /\
    exists sig, toy_Verify p (compute_payload (ComputeRequest_Hash (Request req))) sig = true.
Proof.
  apply (execute_backed_by_honest (clock_at 10) (configured false) "POST" (Decoded toy_batch) toy_run.1 toy_done
    {[signer1]} (fun p msg => exists sig, toy_Verify p msg sig = true)).
  - vm_compute. discriminate.
  - intros p msg sig _ _ H. exists sig. exact H.
  - exact (surjective_pairing toy_run).
  - left. vm_compute. discriminate.
Defined.

Lemma execute_response_attested_witness :
  exists reqs req secrets w w',
    Decoded toy_batch = Decoded reqs /\ head reqs = Some req /\
    app_call (clock_at 10) (mark 10 (configured false) (ComputeRequest_Hash req)) (config (configured false))
      (ComputeRequest_Hash req) reqs req secrets /\
    app_result (configured false) req reqs secrets = (w, Ok (er_Output toy_resp)) /\
    er_RequestID toy_resp = RequestID req /\ er_RequestHash toy_resp = ComputeRequest_Hash req /\
    er_Config toy_resp = config (configured false) /\ er_ApplicationRequestID toy_resp = ApplicationRequestID req /\
    CreateAttestation w (ExecuteResponse_UserDataHash toy_resp (Version req)) = (w', Some (er_Attestation toy_resp)).
Proof.
  apply (execute_response_attested (clock_at 10) (configured false) "POST" (Decoded toy_batch) toy_done 200 toy_resp).
  vm_compute. reflexivity.
Defined.

Lemma configured_inv : server_inv (configured false).
Proof. split; try apply New_inv. apply one_key_inv. Qed.

Lemma execute_cleans_up_witness :
  (forall t k u, Get t (inProgressReqs toy_done) k = Some u ->
     Get t (inProgressReqs (configured false)) k = Some u) /\
  ((forall code r, toy_run.1 <> HttpOK code r) -> executedReqs toy_done = executedReqs (configured false)).
Proof.
  apply (execute_cleans_up (clock_at 10) (configured false) "POST" (Decoded toy_batch)).
  - apply configured_inv.
  - exact (surjective_pairing toy_run).
Defined.

Lemma execute_never_panics_witness :
  (handleExecute (clock_at 10) (configured false) "POST" (Decoded toy_batch)).1 <> HttpPanic.
Proof.
  apply (execute_never_panics (clock_at 10) (configured false) "POST" (Decoded toy_batch)).
  intros msg sig n. apply ed25519_no_panic. by_compute.
Defined.

(** ** Replays *)

(** The same batch executed, refused after an hour, and executed again after its
    record has expired (with a keypair created in the meantime). *)
Definition day_key : list server_op := [OpRotate (25 * hour) (Some (sample_key 1, sample_key 11))].

Definition replay_history : list server_op :=
  [OpSetConfig "POST" (Decoded (Some toy_config));
   OpExecute (clock_at 10) "POST" (Decoded toy_batch);
   OpExecute (clock_at hour) "POST" (Decoded toy_batch);
   OpCollect (25 * hour)] ++ day_key ++
  [OpExecute (clock_at (26 * hour)) "POST" (Decoded toy_batch)].

Definition toy_log : list execution := (server_run (fresh_server false) replay_history).2.

Lemma no_replay_witness :
  length toy_log = 2%nat /\ DefaultKeypairExpiration < 26 * hour - 10.
Proof.
  split; [vm_compute; reflexivity|].
  apply (no_replay world0 one_key zeroConfig false replay_history 0 0 1
    (mkExecution (ComputeRequest_Hash toy_request) 10 10)
    (mkExecution (ComputeRequest_Hash toy_request) (26 * hour) (26 * hour))).
  - vm_compute. repeat split; discriminate.
  - vm_compute. discriminate.
  - vm_compute. reflexivity.
  - vm_compute. reflexivity.
  - vm_compute. repeat constructor.
  - reflexivity.
Defined.

(** ** Secrets *)

(** The first node's shares are garbage, the second node's decrypt. *)
Definition mixed_batch : list SignedComputeRequest :=
  [mkSigned (mkComputeRequest zero32 "exec-1" (bs "data") [bs "c"] ["n1"] [[bs "garbage"]]
      (sample_key 1) [] "confidential-echo@1.0.0-alpha" "1.0.0") (toy_sig signer1);
   mkSigned toy_request (toy_sig signer2)].

Lemma combine_nodes_correct_witness :
  exists secrets,
    combine_nodes 10 (mkKeypair (sample_key 1) (sample_key 11) hour 0) (bs "mpk") 1 toy_request mixed_batch None =
    Combined secrets.
Proof.
  apply (combine_nodes_correct 10 (mkKeypair (sample_key 1) (sample_key 11) hour 0) (bs "mpk") 1 toy_request mixed_batch)
    with (r := mkSigned toy_request (toy_sig signer2)) (secs := [bs "1c"]).
  - reflexivity.
  - by_compute.
  - apply elem_of_cons. right. apply elem_of_cons. left. reflexivity.
  - split; [reflexivity|]. repeat constructor.
Defined.

(** ** Public keys *)

Lemma request_id_encodings_witness :
  parse_request_id (hex_encode zero32) = Some zero32 /\ parse_request_id (b64_encode zero32) = Some zero32.
Proof. apply (request_id_encodings zero32). reflexivity. Defined.

Definition keys_history : list server_op :=
  [OpSetConfig "POST" (Decoded (Some toy_config)); OpPublicKeys 5 "GET" (hex_encode zero32)].

Definition keys_run : response server_error PublicKeyResponse * enclaveServer :=
  handleGetPublicKeys 6 (server_run (fresh_server false) keys_history).1 "GET" (hex_encode zero32).

Definition keys_resp : PublicKeyResponse :=
  match keys_run.1 with HttpOK _ resp => resp | _ => sample_keys "" end.

Lemma publickeys_attestation_genuine_witness :
  genuine (PublicKeyHash keys_resp) (pkr_Attestation keys_resp) /\
  pkr_Config keys_resp = config (server_run (fresh_server false) keys_history).1.
Proof.
  apply (publickeys_attestation_genuine world0 one_key zeroConfig false keys_history 6 "GET" (hex_encode zero32)
    200 keys_resp keys_run.2).
  vm_compute. reflexivity.
Defined.

(** ** Configuration votes *)

Definition vote (now : Z) (c : EnclaveConfig) (p : bytes) : server_op :=
  OpUpdateConfig now (Decoded (Some c, toy_sig p)).

Definition vote_history : list server_op :=
  [OpSetConfig "POST" (Decoded (Some toy_config)); vote 1 toy_config2 signer1].

Lemma config_changes_governed_witness :
  let s := (server_run (fresh_server false) vote_history).1 in
  (configSet s = false /\ exists m c, vote 2 toy_config2 signer2 = OpSetConfig m (Decoded (Some c)) /\
     config (server_step s (vote 2 toy_config2 signer2)).1 = c) \/
  (exists now v, vote 2 toy_config2 signer2 = OpUpdateConfig now v /\
     config_quorum (verified := toy_Verify) (vote_history ++ [vote 2 toy_config2 signer2]) s
       (config (server_step s (vote 2 toy_config2 signer2)).1)).
Proof.
  apply (config_changes_governed world0 one_key zeroConfig vote_history (vote 2 toy_config2 signer2)).
  vm_compute. discriminate.
Defined.

Lemma config_change_backed_by_honest_witness :
  let s := (server_run (fresh_server false) vote_history).1 in
  let op := vote 2 toy_config2 signer2 in
  (exists now v, op = OpUpdateConfig now v) /\
  exists p, p ∈ Signers (config s) /\ (p ∉ ({[signer1]} : gset bytes)) /\
    voted (verified := toy_Verify) (vote_history ++ [op]) p (EnclaveConfig_Hash (config (server_step s op).1)) /\
    exists sig, toy_Verify p (config_payload (EnclaveConfig_Hash (config (server_step s op).1))) sig = true.
Proof.
  apply (config_change_backed_by_honest world0 one_key zeroConfig vote_history (vote 2 toy_config2 signer2)
    {[signer1]} (fun p msg => exists sig, toy_Verify p msg sig = true)).
  - vm_compute. reflexivity.
  - vm_compute. discriminate.
  - intros p msg sig _ _ H. exists sig. exact H.
  - vm_compute. discriminate.
Defined.

(** Where reconfiguration is allowed, a POST replaces the signers but keeps
    the pending votes: a signer that has been removed still counts, and a
    single vote of a current signer completes a quorum of F+1 = 2 for a
    configuration only it supports among the current signers. *)
Theorem stale_votes_after_reconfiguration :
  let history := [OpSetConfig "POST" (Decoded (Some toy_config)); vote 1 sample_config signer3;
                  OpSetConfig "POST" (Decoded (Some toy_config2))] in
  let s := (server_run (fresh_server true) history).1 in
  config s = toy_config2 /\ F (config s) = 1 /\ bool_decide (signer3 ∈ Signers (config s)) = false /\
  config (server_step s (vote 2 sample_config signer1)).1 = sample_config.
Proof. vm_compute. auto. Qed.

(** Votes outlive their window: every vote renews the lifetime of the earlier
    ones, so a quorum can be assembled over 18 minutes although a pending vote
    is meant to expire after [ConfigVoteTTL], 10 minutes. *)
Theorem votes_outlive_window :
  let cfg3 := mkConfig [signer1; signer2; signer3; signer4] (bs "mpk") 1 2 in
  let history := [OpSetConfig "POST" (Decoded (Some cfg3)); vote 0 toy_config2 signer1;
                  OpCollect (9 * minute); vote (9 * minute) toy_config2 signer2; OpCollect (18 * minute)] in
  let s := (server_run (fresh_server false) history).1 in
  config s = cfg3 /\ ConfigVoteTTL < 18 * minute /\
  config (server_step s (vote (18 * minute) toy_config2 signer3)).1 = toy_config2.
Proof. vm_compute. auto. Qed.
