(* ===== verification/Host.v ===== *)
(** * Host: the untrusted proxy that batches signed requests

    Models [src/enclave/nitro/host/host.go]: the host holds back a signed request
    until enough distinct signers have sent the identical one, forwards the
    batch to the enclave once and hands the answer to everyone waiting.

    Everything that touches the batches runs under [processRequestMutex], so a
    critical section is one function of the state.  A batch is shared through a
    pointer in the code, but every mutation is followed by a [Set] of the same
    pointer inside the same critical section, so batches are values here.  A
    waiter's channel is a number; [sent] logs the sends.  The goroutines started
    by the handler are [jobs] (a call to the enclave in flight) and [timers] (the
    quorum timeout of a batch); they act as labels of [host_step]. *)

From S2P Require Import Prelude Sha256 Types Cache Services Emitter.

Record batchRequest := mkBatch {
  br_id : nat;                       (* identity of the batch, i.e. of its doneCh *)
  requests : list SignedComputeRequest;
  responseCh : list nat;
  signersSeen : gset bytes;
  createdAt : Z;
  processingRequest : bool;
}.

(** The enclave's failure keeps its decoded error response, if it sent one. *)
Inductive batch_error :=
| EnclaveFailed (e : string) (response : option EnclaveErrorResponse)
| QuorumTimedOut (received threshold : Z)
| ServerShutdown.

(** What a waiter is sent: a response, or an error. *)
Definition batchResponse : Type := result batch_error ExecuteResponse.

(** A call to the enclave in flight. *)
Record job := mkJob { job_hash : bytes; job_batch : nat; job_requests : list SignedComputeRequest }.

(** A running [handleQuorumTimeout] goroutine; [tm_done] once its [doneCh] is closed. *)
Record timer := mkTimer { tm_hash : bytes; tm_f : Z; tm_deadline : Z; tm_done : bool }.

Record hostServer := mkHost {
  h_config : EnclaveConfig;
  pendingRequestsCache : Cache batchRequest;
  responseCache : Cache ExecuteResponse;
  next_id : nat;
  jobs : list job;
  timers : gmap nat timer;     (* by the batch they watch *)
  sent : list (nat * batchResponse);
  mutex_held : bool;           (* processRequestMutex left locked by a panic *)
}.

Definition cacheDefaultTTL : Z := InboundProxyRequestCacheTTL.
Definition cacheGCInterval : Z := 10 * minute.

Definition NewHostServer : hostServer :=
  mkHost zeroConfig (NewCache (Some cacheDefaultTTL) (Some cacheGCInterval))
    (NewCache (Some cacheDefaultTTL) (Some cacheGCInterval)) 0 [] ∅ [] false.

(** [quorumThreshold]: computed in [uint32], then converted to [int]. *)
Definition quorumThreshold (requireBFTQuorum : bool) (f : Z) : Z :=
  if requireBFTQuorum then u32 (2 * f + 1) else u32 (f + 1).

Definition applicationRequestID (br : batchRequest) : string :=
  match requests br with [] => ""%string | r :: _ => ApplicationRequestID r end.

Definition with_pending (h : hostServer) (c : Cache batchRequest) : hostServer :=
  mkHost (h_config h) c (responseCache h) (next_id h) (jobs h) (timers h) (sent h) (mutex_held h).

Inductive host_error :=
| HostNotConfigured
| HostInvalidSignature (e : verify_error).

(** The immediate outcome of a request: an error, the cached response, or a
    subscription to a batch; the flag tells whether it completed the quorum. *)
Inductive host_out :=
| HRejected (code : Z) (e : host_error)
| HPanicked
| HBlocked                           (* waits for a mutex that is never released *)
| HCached (resp : ExecuteResponse)
| HWaiting (dispatched : bool).

Section Host.
Context `{HS : Sha256} {verified : bytes -> bytes -> bytes -> bool} `{HV : !SignatureVerifier verified}.
Variables (requireBFTQuorum : bool) (quorumTimeout : Z).

(** Sending to every waiter of a batch. *)
Definition notifyWaiters (h : hostServer) (br : batchRequest) (r : batchResponse) : hostServer :=
  mkHost (h_config h) (pendingRequestsCache h) (responseCache h) (next_id h) (jobs h) (timers h)
    (sent h ++ map (fun ch => (ch, r)) (responseCh br)) (mutex_held h).

(** The pending batch of a hash, or a new one with its timeout goroutine. *)
Definition get_batch (now : Z) (h : hostServer) (requestHash : bytes) (f : Z) : batchRequest * hostServer :=
  match Get now (pendingRequestsCache h) requestHash with
  | Some br => (br, h)
  | None =>
      (mkBatch (next_id h) [] [] ∅ now false,
       mkHost (h_config h) (pendingRequestsCache h) (responseCache h) (S (next_id h)) (jobs h)
         (<[next_id h := mkTimer requestHash f (now + quorumTimeout) false]> (timers h)) (sent h) (mutex_held h))
  end.

(** [handleExecute] with the configuration [cfg] it copied, for a fresh channel [ch]. *)
Definition host_execute (now : Z) (h : hostServer) (cfg : EnclaveConfig) (ch : nat)
    (execReq : SignedComputeRequest) : host_out * hostServer :=
  let requestHash := ComputeRequest_Hash execReq in
  let f := F cfg in
  if (T cfg =? 0) && (f =? 0) then (HRejected 503 HostNotConfigured, h)
  else if mutex_held h then (HBlocked, h)
  else match VerifySignature (compute_payload requestHash) (Signature execReq) (Signers cfg) with
  | Err (VerifyPanic _) =>
      (* the panic unwinds past the Unlock *)
      (HPanicked, mkHost (h_config h) (pendingRequestsCache h) (responseCache h) (next_id h) (jobs h)
                    (timers h) (sent h) true)
  | Err e => (HRejected 400 (HostInvalidSignature e), h)
  | Ok signer =>
      match Get now (responseCache h) requestHash with
      | Some cachedResp => (HCached cachedResp, h)
      | None =>
          let '(br, h) := get_batch now h requestHash f in
          if decide (signer ∈ signersSeen br) then
            let br := mkBatch (br_id br) (requests br) (responseCh br ++ [ch]) (signersSeen br)
                        (createdAt br) (processingRequest br) in
            (HWaiting false, with_pending h (Set_ now (pendingRequestsCache h) requestHash br None))
          else
            let reqs := requests br ++ [execReq] in
            let shouldProcess := glen reqs =? quorumThreshold requireBFTQuorum f in
            let br := mkBatch (br_id br) reqs (responseCh br ++ [ch]) ({[signer]} ∪ signersSeen br)
                        (createdAt br) (shouldProcess || processingRequest br) in
            let h := with_pending h (Set_ now (pendingRequestsCache h) requestHash br None) in
            let h := if shouldProcess
                     then mkHost (h_config h) (pendingRequestsCache h) (responseCache h) (next_id h)
                            (jobs h ++ [mkJob requestHash (br_id br) reqs]) (timers h) (sent h) (mutex_held h)
                     else h in
            (HWaiting shouldProcess, h)
      end
  end.

(** Closing the [doneCh] of a batch. *)
Definition close_done (bid : nat) (ts : gmap nat timer) : gmap nat timer :=
  alter (fun tm => mkTimer (tm_hash tm) (tm_f tm) (tm_deadline tm) true) bid ts.

(** [completeBatch]: closing [doneCh] lets the batch's timer end, which may come later. *)
Definition completeBatch (now : Z) (h : hostServer) (requestHash : bytes) (r : batchResponse) : hostServer :=
  match Get now (pendingRequestsCache h) requestHash with
  | None => h
  | Some br =>
      let h := mkHost (h_config h) (pendingRequestsCache h) (responseCache h) (next_id h) (jobs h)
                 (close_done (br_id br) (timers h)) (sent h) (mutex_held h) in
      let h := notifyWaiters h br r in
      let responses := match r with
                       | Ok resp => Set_ now (responseCache h) requestHash resp None
                       | Err _ => responseCache h
                       end in
      mkHost (h_config h) (Delete (pendingRequestsCache h) requestHash) responses (next_id h) (jobs h)
        (timers h) (sent h) (mutex_held h)
  end.

Definition failBatchIfNotProcessed (now : Z) (h : hostServer) (requestHash : bytes) (f : Z) (isShutdown : bool)
    : bool * hostServer :=
  match Get now (pendingRequestsCache h) requestHash with
  | None => (false, h)
  | Some br =>
      if processingRequest br then (false, h)
      else
        let batchErr := if isShutdown then ServerShutdown
                        else QuorumTimedOut (glen (requests br)) (quorumThreshold requireBFTQuorum f) in
        let h := notifyWaiters h br (Err batchErr) in
        (true, with_pending h (Delete (pendingRequestsCache h) requestHash))
  end.

(** ** Configuration kept by the host *)

Definition set_h_config (h : hostServer) (c : EnclaveConfig) : hostServer :=
  mkHost c (pendingRequestsCache h) (responseCache h) (next_id h) (jobs h) (timers h) (sent h) (mutex_held h).

(** [maybeRecoverConfig] on the decoded body of a public-keys response. *)
Definition maybeRecoverConfig (h : hostServer) (resp : option PublicKeyResponse) : bool * hostServer :=
  if negb (IsZero (h_config h)) then (true, h)
  else match resp with
  | None => (false, h)
  | Some r =>
      let c := pkr_Config r in
      if (T c =? 0) || (glen (Signers c) =? 0) || (glen (cfg_MasterPublicKey c) =? 0) then (false, h)
      else (true, set_h_config h c)
  end.

(** The [applyConfig] functions of POST and PATCH /config, run on a 200 answer. *)
Definition apply_set_config (h : hostServer) (resp : option EnclaveConfig) : option hostServer :=
  set_h_config h <$> resp.
Definition apply_update_config (h : hostServer) (resp : option (bool * EnclaveConfig)) : option hostServer :=
  (fun r : bool * EnclaveConfig => if r.1 then set_h_config h r.2 else h) <$> resp.

(** [proxyConfig]: relay the enclave's answer, adopting its configuration first. *)
Inductive proxy_out := POBadBody | POUnreachable | POUnparsable | PORelayed (status : Z).

Definition proxyConfig {A} (h : hostServer) (body_ok : bool) (answer : option (Z * option A))
    (apply : hostServer -> option A -> option hostServer) : proxy_out * hostServer :=
  if negb body_ok then (POBadBody, h)
  else match answer with
  | None => (POUnreachable, h)
  | Some (status, body) =>
      if status =? 200 then
        match apply h body with
        | None => (POUnparsable, h)
        | Some h' => (PORelayed status, h')
        end
      else (PORelayed status, h)
  end.

(** ** Steps

    A request with the configuration it has read; the end of a call to the
    enclave; a timer that the timeout or the cancellation has woken, when it gets the mutex;
    a timer that sees its [doneCh] closed; a configuration change; a collection of
    expired entries.  A timer whose [doneCh] is closed may do either: it may have been
    woken before, or [select] may prefer the timeout.  While the mutex is stuck nothing
    else can happen to the batches. *)

Inductive host_label :=
| HRequest (cfg : EnclaveConfig) (ch : nat) (execReq : SignedComputeRequest)
| HJobDone (i : nat) (r : batchResponse)
| HTimer (bid : nat) (isShutdown : bool)
| HTimerExit (bid : nat)
| HConfig (c : EnclaveConfig)
| HCollect.

Definition drop_job (h : hostServer) (i : nat) : hostServer :=
  mkHost (h_config h) (pendingRequestsCache h) (responseCache h) (next_id h) (delete i (jobs h))
    (timers h) (sent h) (mutex_held h).
Definition drop_timer (h : hostServer) (bid : nat) : hostServer :=
  mkHost (h_config h) (pendingRequestsCache h) (responseCache h) (next_id h) (jobs h)
    (delete bid (timers h)) (sent h) (mutex_held h).

Definition host_step (h : hostServer) (e : Z * host_label) : hostServer :=
  let '(now, l) := e in
  match l with
  | HRequest cfg ch execReq => (host_execute now h cfg ch execReq).2
  | HJobDone i r =>
      match jobs h !! i with
      | None => h
      | Some j => if mutex_held h then h else completeBatch now (drop_job h i) (job_hash j) r
      end
  | HTimer bid isShutdown =>
      match timers h !! bid with
      | None => h
      | Some tm =>
          if mutex_held h then h
          else if (tm_deadline tm <=? now) || isShutdown
          then (failBatchIfNotProcessed now (drop_timer h bid) (tm_hash tm) (tm_f tm) isShutdown).2
          else h
      end
  | HTimerExit bid =>
      match timers h !! bid with
      | Some tm => if tm_done tm then drop_timer h bid else h
      | None => h
      end
  | HConfig c => set_h_config h c
  | HCollect =>
      mkHost (h_config h) (garbageCollect now (pendingRequestsCache h)).2
        (garbageCollect now (responseCache h)).2 (next_id h) (jobs h) (timers h) (sent h) (mutex_held h)
  end.

Definition host_run (h : hostServer) (tr : list (Z * host_label)) : hostServer := fold_left host_step tr h.

End Host.
