(* ===== verification/HostSafety.v ===== *)
(** * HostSafety: what the batching host guarantees

    Invariants of the steps of [Host], for every history of requests, answers,
    timeouts, configuration changes and collections. *)

From Stdlib Require Import Sorted.
From S2P Require Import Prelude Sha256 Types Cache Services Keychain Emitter Server ServerSafety Host.

Section HostSafety.
Context `{HS : Sha256} {verified : bytes -> bytes -> bytes -> bool} `{HV : !SignatureVerifier verified}.
Variables (bft : bool) (quorumTimeout : Z).
Implicit Types (h : hostServer) (cfg : EnclaveConfig) (now : Z) (ch : nat) (tr : list (Z * host_label)).

Abbreviation step := (host_step bft quorumTimeout).
Abbreviation run := (host_run bft quorumTimeout).
Abbreviation joined := (get_batch quorumTimeout).
Abbreviation execute := (host_execute bft quorumTimeout).

(** ** What a request does *)

(** The batch after a request by [signer] has joined. *)
Definition extended (br : batchRequest) ch (execReq : SignedComputeRequest) (signer : bytes) (f : Z) : batchRequest :=
  if decide (signer ∈ signersSeen br) then
    mkBatch (br_id br) (requests br) (responseCh br ++ [ch]) (signersSeen br) (createdAt br) (processingRequest br)
  else
    mkBatch (br_id br) (requests br ++ [execReq]) (responseCh br ++ [ch]) ({[signer]} ∪ signersSeen br) (createdAt br)
      ((glen (requests br ++ [execReq]) =? quorumThreshold bft f) || processingRequest br).

(** The job it starts, if it completes the quorum. *)
Definition started (br : batchRequest) (execReq : SignedComputeRequest) (signer : bytes) (f : Z) : list job :=
  if decide (signer ∈ signersSeen br) then []
  else if glen (requests br ++ [execReq]) =? quorumThreshold bft f
       then [mkJob (ComputeRequest_Hash execReq) (br_id br) (requests br ++ [execReq])] else [].

Lemma host_execute_cases now h cfg ch (execReq : SignedComputeRequest) :
  let hash := ComputeRequest_Hash execReq in
  let h' := (execute now h cfg ch execReq).2 in
  (exists b, h' = mkHost (h_config h) (pendingRequestsCache h) (responseCache h) (next_id h) (jobs h)
                  (timers h) (sent h) b) /\ (forall d, (execute now h cfg ch execReq).1 <> HWaiting d) \/
  exists signer, VerifySignature (compute_payload hash) (Signature execReq) (Signers cfg) = Ok signer /\
    let '(br, h1) := joined now h hash (F cfg) in
    h' = mkHost (h_config h1) (Set_ now (pendingRequestsCache h1) hash (extended br ch execReq signer (F cfg)) None)
           (responseCache h1) (next_id h1) (jobs h1 ++ started br execReq signer (F cfg)) (timers h1) (sent h1) (mutex_held h1) /\
    exists d, (execute now h cfg ch execReq).1 = HWaiting d.
Proof.
  cbn zeta. unfold host_execute.
  destruct (_ && _); [left; split; [exists (mutex_held h); by destruct h | done]|].
  destruct (mutex_held h) eqn:Em; [left; split; [exists true; destruct h; simpl in *; by subst | done]|].
  destruct (VerifySignature _ _ _) as [signer|[]] eqn:Ev;
    [|left; split; [exists false; destruct h; simpl in *; by subst | done]..|left; split; [eauto | done]].
  destruct (Get now (responseCache h) _); [left; split; [exists false; destruct h; simpl in *; by subst | done]|].
  right. exists signer. split; [done|].
  destruct (get_batch quorumTimeout now h (ComputeRequest_Hash execReq) (F cfg)) as [br h1].
  unfold extended, started, with_pending.
  destruct (decide (signer ∈ signersSeen br)); cbn [snd fst].
  - split; [by rewrite app_nil_r | eauto].
  - split; [|eauto]. destruct (_ =? _); cbn; by rewrite ?app_nil_r.
Qed.

(** ** Invariant: batches, timers and jobs belong together *)

Section Invariant.
Implicit Types (used : gset nat).

(** [t] is the current instant: entries that have expired are as good as gone. *)
Definition pending_at (t : Z) h (k : bytes) (br : batchRequest) : Prop :=
  Get t (pendingRequestsCache h) k = Some br.

Record host_inv used (t : Z) h : Prop := {
  hi_pending : cache_inv (pendingRequestsCache h);
  hi_max : maxEntries (pendingRequestsCache h) <= 0;
  hi_ids : forall k br, pending_at t h k br -> (br_id br < next_id h)%nat;
  hi_unique : forall k k' br br', pending_at t h k br -> pending_at t h k' br' -> br_id br = br_id br' -> k = k';
  hi_answered : forall k br, pending_at t h k br ->
    if processingRequest br
    then exists j, j ∈ jobs h /\ job_hash j = k
    else exists tm, timers h !! br_id br = Some tm /\ tm_hash tm = k /\
           tm_deadline tm = createdAt br + quorumTimeout /\ tm_done tm = false;
  hi_chans : forall k br, pending_at t h k br ->
    NoDup (responseCh br) /\ forall ch, ch ∈ responseCh br -> ch ∈ used /\ (ch ∉ map fst (sent h));
  hi_disjoint : forall k k' br br' ch, pending_at t h k br -> pending_at t h k' br' ->
    ch ∈ responseCh br -> ch ∈ responseCh br' -> k = k';
  hi_sent : NoDup (map fst (sent h)) /\ forall ch, ch ∈ map fst (sent h) -> ch ∈ used;
  hi_created : forall k br, pending_at t h k br -> createdAt br <= t;
}.

Lemma pending_at_mono t t' h k br : t <= t' -> pending_at t' h k br -> pending_at t h k br.
Proof.
  unfold pending_at, Get. intros Hle. destruct (items _ !! k) as [it|]; [|done].
  destruct (expired t it) eqn:E; [|by destruct (expired t' it)]. by rewrite (expired_mono t t' it Hle E).
Qed.

(** A state whose batches are among those of [h], with the same goroutines. *)
Lemma host_inv_sub used t t' h h' :
  host_inv used t h -> t <= t' ->
  cache_inv (pendingRequestsCache h') -> maxEntries (pendingRequestsCache h') <= 0 ->
  (forall k br, pending_at t' h' k br -> pending_at t' h k br) ->
  next_id h' = next_id h -> jobs h' = jobs h -> timers h' = timers h -> sent h' = sent h ->
  host_inv used t' h'.
Proof.
  intros [H1 H2 H3 H4 H5 H6 H7 H8 H10] Hle Hc Hm Hp En Ej Et Es.
  assert (forall k br, pending_at t' h' k br -> pending_at t h k br) as Hp' by eauto using pending_at_mono.
  split; try done; rewrite ?En, ?Ej, ?Et, ?Es; eauto.
  - intros k br Hk. exact (H5 k br (Hp' k br Hk)).
  - intros k br Hk. specialize (H10 k br (Hp' k br Hk)). lia.
Qed.

Lemma elem_of_delete_other {A} (l : list A) i x y : l !! i = Some y -> x ∈ l -> x <> y -> x ∈ delete i l.
Proof.
  intros Hi Hx Hne. apply list_elem_of_lookup_1 in Hx as [j Hj].
  destruct (decide (j < i)%nat) as [Hlt|Hge].
  - eapply list_elem_of_lookup_2. by rewrite list_lookup_delete_lt.
  - assert (j <> i) by congruence. eapply (list_elem_of_lookup_2 _ (pred j)).
    rewrite list_lookup_delete_ge by lia. by replace (S (pred j)) with j by lia.
Qed.

Lemma pending_delete t h h' hash k br :
  pendingRequestsCache h' = Delete (pendingRequestsCache h) hash ->
  pending_at t h' k br <-> k <> hash /\ pending_at t h k br.
Proof.
  unfold pending_at. intros ->. rewrite Get_Delete. destruct (decide (k = hash)); naive_solver.
Qed.

(** Ending a batch: its waiters are sent [r], it leaves the cache. *)
Lemma host_inv_end used t h h' hash br r :
  host_inv used t h -> pending_at t h hash br ->
  pendingRequestsCache h' = Delete (pendingRequestsCache h) hash ->
  next_id h' = next_id h ->
  (forall j, j ∈ jobs h -> job_hash j <> hash -> j ∈ jobs h') ->
  (forall b, b <> br_id br -> timers h' !! b = timers h !! b) ->
  sent h' = sent h ++ map (fun ch => (ch, r)) (responseCh br) ->
  host_inv used t h'.
Proof.
  intros [H1 H2 H3 H4 H5 H6 H7 [H8 H9] H10] Hbr Ep En Ej Et Es.
  pose proof (fun k br0 => pending_delete t h h' hash k br0 Ep) as Hp.
  assert (map fst (sent h') = map fst (sent h) ++ responseCh br) as Hs.
  { rewrite Es, map_app, map_map. cbn. by rewrite map_id. }
  destruct (H6 hash br Hbr) as [Hnd Hfresh].
  split.
  - rewrite Ep. by apply Delete_inv.
  - by rewrite Ep.
  - intros k b [_ Hk]%Hp. rewrite En. eauto.
  - intros k k' b b' [_ Hk]%Hp [_ Hk']%Hp. eauto.
  - intros k b [Hne Hk]%Hp. specialize (H5 k b Hk). destruct (processingRequest b).
    + destruct H5 as (j & Hj & Hh). exists j. split; [|done]. apply Ej; congruence.
    + destruct H5 as (tm & Ht & Hrest). exists tm. split; [|done]. rewrite Et; [done|].
      intros Heq. apply Hne. by eapply H4.
  - intros k b [Hne Hk]%Hp. destruct (H6 k b Hk) as [Hnd' Hf']. split; [done|]. intros ch Hch.
    destruct (Hf' ch Hch) as [Hu Hns]. split; [done|]. rewrite Hs, not_elem_of_app. split; [done|].
    intros Hin. apply Hne. by eapply H7.
  - intros k k' b b' ch [_ Hk]%Hp [_ Hk']%Hp. eauto.
  - rewrite Hs. split.
    + apply NoDup_app. split; [done|]. split; [|done]. intros ch Hch Hin. by destruct (Hfresh ch Hin).
    + intros ch [Hch|Hch]%elem_of_app; [eauto|]. by destruct (Hfresh ch Hch).
  - intros k b [_ Hk]%Hp. eauto.
Qed.

(** A request joins: its batch, new or not, is extended and stored. *)
Lemma joined_spec used t h hash f br h1 :
  host_inv used t h -> joined t h hash f = (br, h1) ->
  pendingRequestsCache h1 = pendingRequestsCache h /\ sent h1 = sent h /\ jobs h1 = jobs h /\
  (next_id h <= next_id h1)%nat /\ (br_id br < next_id h1)%nat /\
  (forall b tm, (b < next_id h)%nat -> timers h !! b = Some tm -> timers h1 !! b = Some tm) /\
  (forall k b, pending_at t h k b -> br_id b = br_id br -> k = hash) /\
  (if processingRequest br then exists j, j ∈ jobs h /\ job_hash j = hash
   else exists tm, timers h1 !! br_id br = Some tm /\ tm_hash tm = hash /\
          tm_deadline tm = createdAt br + quorumTimeout /\ tm_done tm = false) /\
  NoDup (responseCh br) /\
  (forall ch, ch ∈ responseCh br -> ch ∈ used /\ (ch ∉ map fst (sent h)) /\
     forall k b, pending_at t h k b -> ch ∈ responseCh b -> k = hash) /\ createdAt br <= t.
Proof.
  intros [H1 H2 H3 H4 H5 H6 H7 H8 H10]. unfold get_batch.
  destruct (Get t (pendingRequestsCache h) hash) as [b0|] eqn:E; intros [= <- <-].
  - split_and!; try done; [by eapply H3 | by intros; eapply H4 | exact (H5 hash b0 E) | by eapply H6| |by eapply H10].
    intros ch Hch. destruct (H6 hash b0 E) as [_ Hf]. destruct (Hf ch Hch). split_and!; eauto.
  - cbn. split_and!; try done; try lia.
    + intros b tm Hb Ht. rewrite lookup_insert_ne; [done | lia].
    + intros k b Hk Hid. specialize (H3 k b Hk). lia.
    + eexists. rewrite lookup_insert_eq. done.
    + constructor.
    + intros ch Hch. by apply elem_of_nil in Hch.
Qed.

Lemma pending_set t h h' hash br0 k br :
  cache_inv (pendingRequestsCache h) -> maxEntries (pendingRequestsCache h) <= 0 ->
  pendingRequestsCache h' = Set_ t (pendingRequestsCache h) hash br0 None ->
  pending_at t h' k br -> k = hash /\ br = br0 \/ k <> hash /\ pending_at t h k br.
Proof.
  unfold pending_at. intros Hc Hm ->. rewrite Get_Set by done.
  rewrite evictees_unbounded by done. destruct (decide (k = hash)) as [->|]; [|right; split; [done|]].
  - destruct (_ <? _); [done|]. intros [= ->]. by left.
  - rewrite decide_False in H by apply not_elem_of_nil. done.
Qed.

Lemma extended_id br ch execReq signer f : br_id (extended br ch execReq signer f) = br_id br.
Proof. unfold extended. by destruct (decide _). Qed.
Lemma extended_ch br ch execReq signer f : responseCh (extended br ch execReq signer f) = responseCh br ++ [ch].
Proof. unfold extended. by destruct (decide _). Qed.
Lemma extended_created br ch execReq signer f : createdAt (extended br ch execReq signer f) = createdAt br.
Proof. unfold extended. by destruct (decide _). Qed.

Lemma extended_answered br ch (execReq : SignedComputeRequest) signer f (js : list job) (ts : gmap nat timer) :
  let hash := ComputeRequest_Hash execReq in
  let br' := extended br ch execReq signer f in
  (if processingRequest br then exists j, j ∈ js /\ job_hash j = hash
   else exists tm, ts !! br_id br = Some tm /\ tm_hash tm = hash /\ tm_deadline tm = createdAt br + quorumTimeout /\ tm_done tm = false) ->
  if processingRequest br' then exists j, j ∈ js ++ started br execReq signer f /\ job_hash j = hash
  else exists tm, ts !! br_id br' = Some tm /\ tm_hash tm = hash /\ tm_deadline tm = createdAt br' + quorumTimeout /\ tm_done tm = false.
Proof.
  cbn zeta. rewrite extended_id, extended_created. unfold extended, started.
  destruct (decide _); cbn [processingRequest]; [by rewrite app_nil_r|].
  destruct (_ =? _) eqn:E; cbn [orb]; [|by rewrite app_nil_r].
  intros _. exists (mkJob (ComputeRequest_Hash execReq) (br_id br) (requests br ++ [execReq])).
  split; [|done]. apply elem_of_app. right. by apply list_elem_of_singleton.
Qed.

Lemma host_inv_join used t h ch (execReq : SignedComputeRequest) signer f br h1 h' :
  let hash := ComputeRequest_Hash execReq in
  host_inv used t h -> ch ∉ used -> joined t h hash f = (br, h1) ->
  pendingRequestsCache h' = Set_ t (pendingRequestsCache h1) hash (extended br ch execReq signer f) None ->
  next_id h' = next_id h1 -> jobs h' = jobs h1 ++ started br execReq signer f -> timers h' = timers h1 ->
  sent h' = sent h1 -> host_inv ({[ch]} ∪ used) t h'.
Proof.
  intros hash Hinv Hch Ejoin Ep En Ej Et Es.
  pose proof (joined_spec used t h hash f br h1 Hinv Ejoin) as
    (Epc & Esent & Ejobs & Hnext & Hid & Htim & Huniq & Hans & Hnd & Hchs & Hcr).
  destruct Hinv as [H1 H2 H3 H4 H5 H6 H7 [H8 H9] H10]. rewrite Epc in Ep.
  pose proof (fun k b => pending_set t h h' hash _ k b H1 H2 Ep) as Hp.
  assert (ch ∉ map fst (sent h)) as Hns by eauto.
  split.
  - rewrite Ep. by apply setLocked_inv.
  - rewrite Ep. unfold Set_. by rewrite setLocked_max.
  - intros k b [[-> ->]|[_ Hk]]%Hp; rewrite En; [by rewrite extended_id|]. specialize (H3 k b Hk). lia.
  - intros k k' b b' [[-> ->]|[_ Hk]]%Hp [[-> ->]|[_ Hk']]%Hp; rewrite ?extended_id; intros Heq; eauto.
    symmetry. eauto.
  - intros k b [[-> ->]|[_ Hk]]%Hp; rewrite Ej, Et, Ejobs; [by apply extended_answered|].
    specialize (H5 k b Hk). destruct (processingRequest b).
    + destruct H5 as (j & Hj & Hh). exists j. split; [|done]. apply elem_of_app. by left.
    + destruct H5 as (tm & Ht & Hrest). exists tm. split; [|done]. apply Htim; [|done]. by eapply H3.
  - intros k b [[-> ->]|[_ Hk]]%Hp; rewrite Es, Esent.
    + rewrite extended_ch. split.
      * apply NoDup_app. split; [done|]. split; [|apply NoDup_singleton].
        intros x Hx ->%list_elem_of_singleton. by destruct (Hchs ch Hx) as [? _].
      * intros x [Hx | ->%list_elem_of_singleton]%elem_of_app; [|set_solver].
        destruct (Hchs x Hx) as (? & ? & _). set_solver.
    + destruct (H6 k b Hk) as [? Hf]. split; [done|]. intros x Hx. destruct (Hf x Hx). set_solver.
  - intros k k' b b' x [[-> ->]|[_ Hk]]%Hp [[-> ->]|[_ Hk']]%Hp; rewrite ?extended_ch, ?elem_of_app, ?list_elem_of_singleton;
      [done| | |by eauto].
    + intros [Hx | ->] Hx'; [symmetry; destruct (Hchs x Hx) as (_ & _ & Hall); eauto|]. by destruct (proj2 (H6 k' b' Hk') ch Hx').
    + intros Hx' [Hx | ->]; [destruct (Hchs x Hx) as (_ & _ & Hall); eauto|]. by destruct (proj2 (H6 k b Hk) ch Hx').
  - rewrite Es, Esent. split; [done|]. intros x Hx. specialize (H9 x Hx). set_solver.
  - intros k b [[-> ->]|[_ Hk]]%Hp; [by rewrite extended_created | eauto].
Qed.

Definition label_channel (l : host_label) : list nat := match l with HRequest _ ch _ => [ch] | _ => [] end.

(** The response channels created along a history. *)
Definition channels tr : list nat := flat_map (fun e => label_channel e.2) tr.

Lemma host_inv_later used t t' h : host_inv used t h -> t <= t' -> host_inv used t' h.
Proof. intros Hi Hle. pose proof (hi_pending _ _ _ Hi). pose proof (hi_max _ _ _ Hi). by eapply host_inv_sub. Qed.

Lemma Get_fields t h h' k : pendingRequestsCache h' = pendingRequestsCache h ->
  Get t (pendingRequestsCache h') k = Get t (pendingRequestsCache h) k.
Proof. by intros ->. Qed.

Lemma host_inv_request used t h cfg ch (execReq : SignedComputeRequest) :
  host_inv used t h -> ch ∉ used -> host_inv ({[ch]} ∪ used) t (execute t h cfg ch execReq).2.
Proof.
  intros Hi Hch. destruct (host_execute_cases t h cfg ch execReq) as [[[b ->] _]|(signer & _ & Hc)].
  - destruct Hi as [H1 H2 H3 H4 H5 H6 H7 [H8 H9] H10]. split; try done; cbn.
    + intros k br Hk. destruct (H6 k br Hk) as [? Hf]. split; [done|]. intros x Hx. destruct (Hf x Hx). set_solver.
    + split; [done|]. intros x Hx. specialize (H9 x Hx). set_solver.
  - destruct (joined t h _ (F cfg)) as [br h1] eqn:Ej. destruct Hc as [-> _]. by eapply host_inv_join.
Qed.

Lemma host_inv_job_done used t h i j r :
  host_inv used t h -> jobs h !! i = Some j -> host_inv used t (completeBatch t (drop_job h i) (job_hash j) r).
Proof.
  intros Hi Hj. unfold completeBatch. cbn [pendingRequestsCache drop_job].
  destruct (Get t (pendingRequestsCache h) (job_hash j)) as [br|] eqn:E.
  - eapply (host_inv_end used t h _ (job_hash j) br r); try done; cbn.
    + intros j' Hin Hne. eapply elem_of_delete_other; [done..|congruence].
    + intros b Hb. unfold close_done. by rewrite lookup_alter_ne.
  - destruct Hi as [H1 H2 H3 H4 H5 H6 H7 H8 H10]. split; try done; cbn.
    intros k br Hk. specialize (H5 k br Hk). destruct (processingRequest br); [|done].
    destruct H5 as (j' & Hin & Hh). exists j'. split; [|done].
    eapply elem_of_delete_other; [done..|]. intros ->. unfold pending_at in Hk. cbn in Hk. congruence.
Qed.

Lemma host_inv_timer used t h b tm isShutdown :
  host_inv used t h -> timers h !! b = Some tm ->
  host_inv used t (failBatchIfNotProcessed bft t (drop_timer h b) (tm_hash tm) (tm_f tm) isShutdown).2.
Proof.
  intros Hi Ht. pose proof Hi as [H1 H2 H3 H4 H5 H6 H7 H8 H10].
  assert (forall k br, pending_at t h k br -> processingRequest br = false -> br_id br = b -> tm_hash tm = k) as Hown.
  { intros k br Hk Hp <-. specialize (H5 k br Hk). rewrite Hp in H5. destruct H5 as (tm' & Ht' & Hh & _). congruence. }
  assert ((forall br, pending_at t h (tm_hash tm) br -> processingRequest br = true) -> host_inv used t (drop_timer h b)) as Hkeep.
  { intros Hproc. split; try done; cbn. intros k br Hk. specialize (H5 k br Hk).
    destruct (processingRequest br) eqn:Ep; [done|]. destruct H5 as (tm' & Ht' & Hrest). exists tm'. split; [|done].
    rewrite lookup_delete_ne; [done|]. intros ->. pose proof (Hown k br Hk Ep eq_refl) as <-.
    rewrite (Hproc br Hk) in Ep. done. }
  unfold failBatchIfNotProcessed. cbn [pendingRequestsCache drop_timer].
  destruct (Get t (pendingRequestsCache h) (tm_hash tm)) as [br|] eqn:E.
  - destruct (processingRequest br) eqn:Ep; cbn [snd].
    + apply Hkeep. unfold pending_at. by intros br' [= <-]%(eq_trans (eq_sym E)).
    + destruct (decide (br_id br = b)) as [<-|Hne].
      * eapply (host_inv_end used t h _ (tm_hash tm) br); try done. cbn. intros b' Hb. by rewrite lookup_delete_ne.
      * (* the timer of an earlier batch of the same hash *)
        eapply (host_inv_end used t (drop_timer h b) _ (tm_hash tm) br); try done.
        split; try done; cbn. intros k br' Hk. specialize (H5 k br' Hk).
        destruct (processingRequest br') eqn:Ep'; [done|]. destruct H5 as (tm' & Ht' & Hrest). exists tm'. split; [|done].
        rewrite lookup_delete_ne; [done|]. intros ->. pose proof (Hown k br' Hk Ep' eq_refl) as <-.
        unfold pending_at in Hk. cbn in Hk. congruence.
  - apply Hkeep. unfold pending_at. intros br'. congruence.
Qed.

(** A timer that ends has no batch to watch any more. *)
Lemma host_inv_exit used t h b tm :
  host_inv used t h -> timers h !! b = Some tm -> tm_done tm = true -> host_inv used t (drop_timer h b).
Proof.
  intros [H1 H2 H3 H4 H5 H6 H7 H8 H10] Ht Hd. split; try done; cbn. intros k br Hk. specialize (H5 k br Hk).
  destruct (processingRequest br); [done|]. destruct H5 as (tm' & Ht' & Hh & Hdl & Hdone). exists tm'. split; [|done].
  rewrite lookup_delete_ne; [done|]. intros ->. congruence.
Qed.

Lemma host_inv_step used t t' h l :
  host_inv used t h -> t <= t' -> (forall ch, ch ∈ label_channel l -> ch ∉ used) ->
  host_inv (list_to_set (label_channel l) ∪ used) t' (step h (t', l)).
Proof.
  intros Hi Hle Hfresh. apply (host_inv_later _ _ t') in Hi; [|done].
  destruct l as [cfg ch execReq|i r|b sd|b|c|]; cbn [label_channel list_to_set]; rewrite ?union_empty_l_L, ?union_empty_r_L.
  - apply host_inv_request; [done|]. apply Hfresh. by apply list_elem_of_singleton.
  - cbn. destruct (jobs h !! i) as [j|] eqn:Ej; [|done]. destruct (mutex_held h); [done|]. by apply host_inv_job_done.
  - cbn. destruct (timers h !! b) as [tm|] eqn:Et; [|done]. destruct (mutex_held h); [done|].
    destruct (_ || _); [|done]. by apply host_inv_timer.
  - cbn. destruct (timers h !! b) as [tm|] eqn:Et; [|done]. destruct (tm_done tm) eqn:Ed; [|done]. by eapply host_inv_exit.
  - cbn. by destruct Hi as [H1 H2 H3 H4 H5 H6 H7 H8 H10].
  - cbn [host_step]. pose proof (hi_pending _ _ _ Hi). pose proof (hi_max _ _ _ Hi) as Hm.
    eapply (host_inv_sub used t' t' h); cbn; try done.
    + by apply gc_inv.
    + by rewrite garbageCollect_eq.
    + intros k br. unfold pending_at. cbn. by rewrite Get_gc.
Qed.

Lemma host_inv_run tr : forall used t tend h,
  host_inv used t h -> Sorted Z.le (t :: map fst tr) -> Forall (fun x => x <= tend) (t :: map fst tr) ->
  NoDup (channels tr) -> (forall ch, ch ∈ channels tr -> ch ∉ used) ->
  host_inv (list_to_set (channels tr) ∪ used) tend (run h tr).
Proof.
  induction tr as [|[t' l] tr IH]; intros used t tend h Hi Hs Hall Hnd Hfresh.
  - cbn. rewrite union_empty_l_L. apply (host_inv_later _ t); [done|]. by apply Forall_cons in Hall as [? _].
  - cbn [map fst] in *. apply Sorted_inv in Hs as [Hs Hle%HdRel_inv]. apply Forall_cons in Hall as [_ Hall].
    cbn [channels flat_map snd] in *. fold (channels tr) in *. apply NoDup_app in Hnd as (Hnd1 & Hdis & Hnd2).
    cbn [host_run fold_left]. fold (run (step h (t', l)) tr).
    assert (host_inv (list_to_set (label_channel l) ∪ used) t' (step h (t', l))) as Hi'.
    { apply (host_inv_step used t); [done..|]. intros ch Hch. apply Hfresh, elem_of_app. by left. }
    rewrite list_to_set_app_L, (comm_L (∪) (list_to_set (label_channel l))), <- (assoc_L (∪)).
    apply (IH _ t'); [done..|]. intros ch Hch [Hin%elem_of_list_to_set|Hin]%elem_of_union.
    + by apply (Hdis ch).
    + apply (Hfresh ch); [|done]. apply elem_of_app. by right.
Qed.

Lemma host_inv_new t : host_inv ∅ t NewHostServer.
Proof.
  assert (forall k br, ~ pending_at t NewHostServer k br) as Hno by done.
  split; try (intros; exfalso; by eapply Hno).
  - apply New_inv.
  - done.
  - split; [constructor|]. intros ch Hch. by apply elem_of_nil in Hch.
Qed.

Lemma sorted_bounded (l : list Z) : exists t, Forall (fun x => x <= t) l.
Proof.
  induction l as [|x l [t IH]]; [by exists 0|]. exists (Z.max x t). constructor; [lia|].
  eapply Forall_impl; [exact IH|]. cbn. lia.
Qed.

Lemma sorted_split (l1 l2 : list Z) x : Sorted Z.le (l1 ++ x :: l2) ->
  Sorted Z.le l1 /\ Forall (fun y => y <= x) l1 /\ Sorted Z.le (x :: l2).
Proof.
  intros Hs%Sorted_StronglySorted; [|intros a b c; lia].
  induction l1 as [|y l1 IH]; [split_and!; [auto..|by apply StronglySorted_Sorted]|].
  apply StronglySorted_inv in Hs as [Hs Hall]. destruct (IH Hs) as (H1 & H2 & H3). split_and!; [| |done].
  - constructor; [done|]. destruct l1; constructor. by apply Forall_cons in Hall as [? _].
  - constructor; [|done]. apply Forall_app in Hall as [_ Hx]. by apply Forall_cons in Hx as [? _].
Qed.

(** The invariant at any instant after a history of a fresh host. *)
Lemma host_inv_history tr tend : Sorted Z.le (map fst tr) -> Forall (fun x => x <= tend) (map fst tr) ->
  NoDup (channels tr) -> host_inv (list_to_set (channels tr)) tend (run NewHostServer tr).
Proof.
  intros Hs Hall Hnd. rewrite <- (union_empty_r_L (list_to_set _)).
  destruct tr as [|[t l] tr]; [rewrite union_empty_r_L; apply host_inv_new|].
  eapply (host_inv_run _ _ t); [apply host_inv_new | | |done|set_solver].
  - constructor; [done|]. constructor. cbn. lia.
  - constructor; [|done]. by apply Forall_cons in Hall as [? _].
Qed.
End Invariant.

(** Whatever the history of requests, enclave answers, timeouts,
    configuration changes and collections, the host sends at most one outcome
    to each waiter and never sends to a channel nobody subscribed. *)
Theorem host_answers_once tr :
  Sorted Z.le (map fst tr) -> NoDup (channels tr) ->
  NoDup (map fst (sent (run NewHostServer tr))) /\
  (forall ch, ch ∈ map fst (sent (run NewHostServer tr)) -> ch ∈ channels tr).
Proof.
  intros Hs Hnd. destruct (sorted_bounded (map fst tr)) as [tend Hall].
  destruct (hi_sent _ _ _ (host_inv_history tr tend Hs Hall Hnd)) as [H1 H2]. split; [done|]. intros ch Hch.
  specialize (H2 ch Hch). set_solver.
Qed.

(** ** A subscribed waiter is not forgotten *)

Section Kept.
Variables (k : bytes) (c : nat) (t0 : Z).

(** [c] has been answered, or waits in the batch of [k] since [t0]. *)
Definition kept h : Prop :=
  c ∈ map fst (sent h) \/
  exists it, items (pendingRequestsCache h) !! k = Some it /\ c ∈ responseCh (Value it) /\
    createdAt (Value it) <= t0 <= CreationTime it /\ TimeToLive it = cacheDefaultTTL.

Definition host_cache_ok h : Prop :=
  cache_inv (pendingRequestsCache h) /\ maxEntries (pendingRequestsCache h) <= 0 /\
  timeToLive (pendingRequestsCache h) = cacheDefaultTTL.

Lemma unexpired t (it : CacheItem batchRequest) :
  t <= t0 + cacheDefaultTTL -> t0 <= CreationTime it -> TimeToLive it = cacheDefaultTTL -> expired t it = false.
Proof.
  intros H1 H2 H3. unfold expired, time_sub. rewrite H3. apply Z.ltb_ge.
  unfold cacheDefaultTTL, InboundProxyRequestCacheTTL, minute, second, min_duration, max_duration in *. lia.
Qed.

Lemma kept_get t h : t <= t0 + cacheDefaultTTL -> kept h -> c ∈ map fst (sent h) \/
  exists br, Get t (pendingRequestsCache h) k = Some br /\ c ∈ responseCh br /\ createdAt br <= t0.
Proof.
  intros Ht [Hs|(it & Hit & Hc & [Hcr Ht0] & Httl)]; [by left|right]. exists (Value it).
  unfold Get. rewrite Hit, unexpired by done. done.
Qed.

Lemma kept_sub h h' : kept h ->
  (forall x, x ∈ map fst (sent h) -> x ∈ map fst (sent h')) ->
  (c ∈ map fst (sent h') \/ items (pendingRequestsCache h') !! k = items (pendingRequestsCache h) !! k) -> kept h'.
Proof.
  intros [Hs|Hit] Hmono [Hs'|Heq]; try (left; by auto). right. by rewrite Heq.
Qed.

Lemma kept_ended t h h' hash br r :
  t <= t0 + cacheDefaultTTL -> kept h -> Get t (pendingRequestsCache h) hash = Some br ->
  sent h' = sent h ++ map (fun x => (x, r)) (responseCh br) ->
  pendingRequestsCache h' = Delete (pendingRequestsCache h) hash -> kept h'.
Proof.
  intros Ht Hk Hg Es Ep.
  assert (map fst (sent h') = map fst (sent h) ++ responseCh br) as Hs.
  { rewrite Es, map_app, map_map. cbn. by rewrite map_id. }
  eapply kept_sub; [done| |].
  - intros x Hx. rewrite Hs. apply elem_of_app. by left.
  - destruct (decide (hash = k)) as [->|Hne].
    + left. rewrite Hs. destruct (kept_get t h Ht Hk) as [Hc|(br' & Hg' & Hc & _)]; apply elem_of_app; [by left|right].
      congruence.
    + right. rewrite Ep. cbn. by rewrite lookup_delete_ne.
Qed.

Lemma kept_step t h l :
  t0 <= t <= t0 + cacheDefaultTTL -> host_cache_ok h -> kept h -> kept (step h (t, l)).
Proof.
  intros [Ht0 Ht] (Hinv & Hmax & Httl) Hk. destruct l as [cfg ch execReq|i r|b sd|b|cf|]; cbn [host_step].
  - destruct (host_execute_cases t h cfg ch execReq) as [[[b ->] _]|(signer & _ & Hc)]; [by eapply kept_sub; eauto|].
    set (hash := ComputeRequest_Hash execReq) in *. destruct (decide (hash = k)) as [Ek|Hne].
    + destruct (kept_get t h Ht Hk) as [Hs|(br & Hg & Hin & Hcr)].
      * left. destruct (joined t h hash (F cfg)) as [br h1] eqn:Ej. destruct Hc as [-> _]. cbn.
        unfold get_batch in Ej. destruct (Get t _ hash); by injection Ej as <- <-.
      * unfold get_batch in Hc. rewrite Ek, Hg in Hc. destruct Hc as [-> _]. right.
        eexists. cbn [pendingRequestsCache]. unfold Set_. rewrite setLocked_lookup, decide_True by done.
        split; [done|]. cbn. rewrite extended_ch, extended_created, Httl, elem_of_app. auto with lia.
    + destruct (joined t h hash (F cfg)) as [br h1] eqn:Ej. destruct Hc as [-> _].
      assert (pendingRequestsCache h1 = pendingRequestsCache h /\ sent h1 = sent h) as [Ep Es].
      { unfold get_batch in Ej. destruct (Get t _ hash); by injection Ej as <- <-. }
      eapply kept_sub; [done|cbn; by rewrite Es|]. right. cbn [pendingRequestsCache]. rewrite Ep. unfold Set_.
      rewrite setLocked_lookup, decide_False, evictees_unbounded by done. by rewrite decide_False by apply not_elem_of_nil.
  - destruct (jobs h !! i) as [j|]; [|done]. destruct (mutex_held h); [done|].
    unfold completeBatch. cbn [drop_job pendingRequestsCache].
    destruct (Get t _ (job_hash j)) as [br|] eqn:Eg; [|by eapply kept_sub; eauto]. by eapply kept_ended.
  - destruct (timers h !! b) as [tm|]; [|done]. destruct (mutex_held h); [done|]. destruct (_ || _); [|done].
    unfold failBatchIfNotProcessed. cbn [drop_timer pendingRequestsCache].
    destruct (Get t _ (tm_hash tm)) as [br|] eqn:Eg; [|by eapply kept_sub; eauto].
    destruct (processingRequest br); [by eapply kept_sub; eauto|]. by eapply kept_ended.
  - destruct (timers h !! b) as [tm|]; [|done]. destruct (tm_done tm); [|done]. by eapply kept_sub; eauto.
  - by eapply kept_sub; eauto.
  - destruct Hk as [Hs|(it & Hit & Hrest)]; [by left|]. right. exists it. split; [|done]. cbn [pendingRequestsCache].
    rewrite gc_lookup, Hit by done. destruct Hrest as (_ & [_ ?] & ?). by rewrite unexpired.
Qed.
End Kept.

Lemma set_cache_ok t (c : Cache batchRequest) k v :
  cache_inv c /\ maxEntries c <= 0 /\ timeToLive c = cacheDefaultTTL ->
  cache_inv (Set_ t c k v None) /\ maxEntries (Set_ t c k v None) <= 0 /\ timeToLive (Set_ t c k v None) = cacheDefaultTTL.
Proof.
  intros (H1 & H2 & H3). unfold Set_. split; [by apply setLocked_inv|]. by rewrite setLocked_eq.
Qed.

Lemma host_cache_ok_step t h l : host_cache_ok h -> host_cache_ok (step h (t, l)).
Proof.
  unfold host_cache_ok. intros Hok. destruct l as [cfg ch execReq|i r|b sd|b|cf|]; cbn [host_step].
  - destruct (host_execute_cases t h cfg ch execReq) as [[[b ->] _]|(signer & _ & Hc)]; [done|].
    destruct (joined t h _ (F cfg)) as [br h1] eqn:Ej. destruct Hc as [-> _]. apply set_cache_ok.
    unfold get_batch in Ej. destruct (Get t _ _); by injection Ej as <- <-.
  - destruct (jobs h !! i) as [j|]; [|done]. destruct (mutex_held h); [done|].
    unfold completeBatch. destruct (Get _ _ _); [|done]. cbn. destruct Hok as (? & ? & ?). auto using Delete_inv.
  - destruct (timers h !! b) as [tm|]; [|done]. destruct (mutex_held h); [done|]. destruct (_ || _); [|done].
    unfold failBatchIfNotProcessed. destruct (Get _ _ _) as [br|]; [|done]. destruct (processingRequest br); [done|].
    cbn. destruct Hok as (? & ? & ?). auto using Delete_inv.
  - destruct (timers h !! b) as [tm|]; [|done]. by destruct (tm_done tm).
  - done.
  - destruct Hok as (? & ? & ?). split; [by apply gc_inv|]. cbn. by rewrite garbageCollect_eq.
Qed.

Lemma host_cache_ok_run tr : forall h, host_cache_ok h -> host_cache_ok (run h tr).
Proof. induction tr as [|[t l] tr IH]; [done|]. intros h Hok. cbn. by apply IH, host_cache_ok_step. Qed.

Lemma kept_run k c t0 tr : forall h t,
  t0 <= t -> Sorted Z.le (t :: map fst tr) -> Forall (fun e : Z * host_label => e.1 <= t0 + cacheDefaultTTL) tr ->
  host_cache_ok h -> kept k c t0 h -> kept k c t0 (run h tr).
Proof.
  induction tr as [|[t' l] tr IH]; intros h t Ht Hs Hf Hok Hk; [done|].
  cbn [map fst] in Hs. apply Sorted_inv in Hs as [Hs Hle%HdRel_inv]. apply Forall_cons in Hf as [Hf1 Hf].
  cbn in Hf1. cbn [host_run fold_left]. apply (IH _ t'); [lia|done..| |].
  - by apply host_cache_ok_step.
  - apply kept_step; [lia|done..].
Qed.

Lemma kept_start t h cfg ch (execReq : SignedComputeRequest) d :
  host_cache_ok h -> (forall k br, pending_at t h k br -> createdAt br <= t) ->
  (execute t h cfg ch execReq).1 = HWaiting d ->
  kept (ComputeRequest_Hash execReq) ch t (execute t h cfg ch execReq).2.
Proof.
  intros (Hinv & Hmax & Httl) Hcr Hout.
  destruct (host_execute_cases t h cfg ch execReq) as [[_ Hno]|(signer & _ & Hc)]; [by destruct (Hno d)|].
  destruct (joined t h _ (F cfg)) as [br h1] eqn:Ej. destruct Hc as [-> _]. right.
  assert (pendingRequestsCache h1 = pendingRequestsCache h /\ createdAt br <= t) as [-> Hbr].
  { unfold get_batch in Ej. destruct (Get t _ _) eqn:Eg; injection Ej as <- <-; [by eauto|done]. }
  eexists. cbn [pendingRequestsCache]. unfold Set_. rewrite setLocked_lookup, decide_True by done. split; [done|].
  cbn. rewrite extended_ch, extended_created, Httl, elem_of_app, list_elem_of_singleton. auto with lia.
Qed.

(** What ends a batch reaches all its waiters. *)
Lemma job_done_sends t h i j r br ch :
  mutex_held h = false -> jobs h !! i = Some j -> pending_at t h (job_hash j) br -> ch ∈ responseCh br ->
  (ch, r) ∈ sent (step h (t, HJobDone i r)).
Proof.
  intros Hm Hj Hp Hch. cbn [host_step]. rewrite Hj, Hm. unfold completeBatch. cbn [drop_job pendingRequestsCache].
  rewrite Hp. cbn. apply elem_of_app. right. apply list_elem_of_fmap. eauto.
Qed.

Lemma timer_sends t h b tm br ch (sd : bool) :
  mutex_held h = false -> timers h !! b = Some tm -> pending_at t h (tm_hash tm) br -> processingRequest br = false ->
  tm_deadline tm <= t -> ch ∈ responseCh br ->
  (ch, Err (if sd then ServerShutdown else QuorumTimedOut (glen (requests br)) (quorumThreshold bft (tm_f tm))))
    ∈ sent (step h (t, HTimer b sd)).
Proof.
  intros Hm Ht Hp Hproc Hd Hch. cbn [host_step]. rewrite Ht, Hm. apply Z.leb_le in Hd as ->. cbn [orb].
  unfold failBatchIfNotProcessed. cbn [drop_timer pendingRequestsCache]. rewrite Hp, Hproc. cbn.
  apply elem_of_app. right. apply list_elem_of_fmap. eauto.
Qed.

(** *** The mutex

    A panic of the signature check leaves it locked; it takes a malformed signer key. *)
Definition sound_signers cfg : Prop := forall m sig n, VerifySignature m sig (Signers cfg) <> Err (VerifyPanic n).

Definition sound_requests tr : Prop :=
  Forall (fun e => match e.2 with HRequest cfg _ _ => sound_signers cfg | _ => True end) tr.

Lemma mutex_free_step t h l :
  match l with HRequest cfg _ _ => sound_signers cfg | _ => True end -> mutex_held (step h (t, l)) = mutex_held h.
Proof.
  destruct l as [cfg ch execReq|i r|b sd|b|c|]; cbn [host_step]; try done; intros Hk.
  - unfold host_execute. destruct (_ && _); [done|]. destruct (mutex_held h) eqn:Em; [done|].
    destruct (VerifySignature _ _ _) as [signer|[]] eqn:Ev; try done; [|by destruct (Hk _ _ _ Ev)].
    destruct (Get t (responseCache h) _); [done|].
    assert (forall hash f, mutex_held (joined t h hash f).2 = false) as Hj by (intros hash f; unfold get_batch; by destruct (Get _ _ _)).
    specialize (Hj (ComputeRequest_Hash execReq) (F cfg)). destruct (joined _ _ _ _) as [br h1].
    destruct (decide _); [done|]. by destruct (_ =? _).
  - destruct (jobs h !! i); [|done]. destruct (mutex_held h) eqn:Em; [done|]. unfold completeBatch. by destruct (Get _ _ _).
  - destruct (timers h !! b) as [tm|]; [|done]. destruct (mutex_held h) eqn:Em; [done|]. destruct (_ || _); [|done].
    unfold failBatchIfNotProcessed. destruct (Get _ _ _) as [br|]; [|done]. by destruct (processingRequest br).
  - destruct (timers h !! b) as [tm|]; [|done]. by destruct (tm_done tm).
Qed.

Lemma mutex_free tr : forall h, sound_requests tr -> mutex_held (run h tr) = mutex_held h.
Proof.
  induction tr as [|[t l] tr IH]; intros h Hs; [done|]. apply Forall_cons in Hs as [Hl Hs].
  cbn [host_run fold_left]. change (mutex_held (run (step h (t, l)) tr) = mutex_held h). rewrite IH by done. by apply mutex_free_step.
Qed.

Lemma run_app_cons h tr1 e tr2 : run h (tr1 ++ e :: tr2) = run (step (run h tr1) e) tr2.
Proof. unfold host_run. by rewrite fold_left_app. Qed.

Lemma subscribed_kept tr1 t0 cfg ch (execReq : SignedComputeRequest) tr2 d t :
  let tr := tr1 ++ (t0, HRequest cfg ch execReq) :: tr2 in
  Sorted Z.le (map fst tr) -> Forall (fun x => x <= t) (map fst tr) -> NoDup (channels tr) ->
  (execute t0 (run NewHostServer tr1) cfg ch execReq).1 = HWaiting d -> t <= t0 + cacheDefaultTTL ->
  kept (ComputeRequest_Hash execReq) ch t0 (run NewHostServer tr).
Proof.
  intros tr Hs Hall Hnd Hout Ht. unfold tr in *. clear tr. rewrite map_app in *. cbn [map fst] in *.
  apply sorted_split in Hs as (Hs1 & Hle & Hs2). unfold channels in Hnd. rewrite flat_map_app in Hnd.
  apply NoDup_app in Hnd as (Hnd1 & _ & _). pose proof (host_inv_history tr1 t0 Hs1 Hle Hnd1) as Hi.
  assert (host_cache_ok (run NewHostServer tr1)) as Hok.
  { apply host_cache_ok_run. split; [apply New_inv | done]. }
  rewrite run_app_cons. apply (kept_run _ _ t0 tr2 _ t0); [done..| | |].
  - apply Forall_app in Hall as [_ Hall]. apply Forall_cons in Hall as [_ Hall].
    rewrite !Forall_forall in *. intros e He. specialize (Hall e.1). rewrite list_elem_of_fmap in Hall.
    transitivity t; [eauto | done].
  - by apply host_cache_ok_step.
  - cbn [host_step]. eapply kept_start; [done| |done]. exact (hi_created _ _ _ Hi).
Qed.

(** C10 No waiter is lost: let no request be checked against a malformed signer key (the check would
    panic and leave the mutex locked).  A request that subscribed at [t0] has been answered
    by the time its batch's quorum timeout has run out, or the call to the
    enclave for its batch is in flight and its outcome, whatever it is, will be
    relayed to the waiter, or the timer of the batch is due and will answer it with
    the quorum error, or with the shutdown if the cancellation wakes it.  The history after the
    subscription is arbitrary, within the five minutes the batch is kept. *)
Theorem waiter_never_lost tr1 t0 cfg ch (execReq : SignedComputeRequest) tr2 d t :
  let tr := tr1 ++ (t0, HRequest cfg ch execReq) :: tr2 in
  let h := run NewHostServer tr in
  Sorted Z.le (map fst tr) -> Forall (fun x => x <= t) (map fst tr) -> NoDup (channels tr) -> sound_requests tr ->
  (execute t0 (run NewHostServer tr1) cfg ch execReq).1 = HWaiting d ->
  t0 + quorumTimeout <= t <= t0 + cacheDefaultTTL ->
  ch ∈ map fst (sent h) \/
  (exists i, forall r, (ch, r) ∈ sent (step h (t, HJobDone i r))) \/
  (exists b received threshold, forall isShutdown : bool,
     (ch, Err (if isShutdown then ServerShutdown else QuorumTimedOut received threshold)) ∈ sent (step h (t, HTimer b isShutdown))).
Proof.
  intros tr h Hs Hall Hnd Hsound Hout [Hd Ht]. set (hash := ComputeRequest_Hash execReq).
  assert (mutex_held h = false) as Hm by (by apply (mutex_free tr NewHostServer)).
  assert (kept hash ch t0 h) as Hk by (eapply subscribed_kept; eauto).
  pose proof (host_inv_history tr t Hs Hall Hnd) as Hi.
  destruct (kept_get hash ch t0 t h Ht Hk) as [Hsent|(br & Hg & Hin & Hcr)]; [by left|right].
  pose proof (hi_answered _ _ _ Hi hash br Hg) as Ha. destruct (processingRequest br) eqn:Ep.
  - left. destruct Ha as (j & [i Hj]%list_elem_of_lookup_1 & Hh). exists i. intros r.
    eapply job_done_sends; [done..| |done]. by rewrite Hh.
  - right. destruct Ha as (tm & Htm & Hh & Hdl & _). do 3 eexists. intros sd. eapply timer_sends; [done..| |done|lia|done].
    by rewrite Hh.
Qed.

(** ** Dispatched batches *)

Section Dispatch.
Variable cfg : EnclaveConfig.

(** Distinct signers of [cfg] have signed the request of hash [hash]. *)
Definition endorsed (hash : bytes) (reqs : list SignedComputeRequest) (signers : list bytes) : Prop :=
  Forall2 (fun (r : SignedComputeRequest) s => ComputeRequest_Hash r = hash /\
    VerifySignature (compute_payload hash) (Signature r) (Signers cfg) = Ok s) reqs signers /\ NoDup signers.

Abbreviation threshold := (quorumThreshold bft (F cfg)).

Record batch_ok (D : list nat) (next : nat) (hash : bytes) (br : batchRequest) : Prop := {
  bo_endorsed : exists signers, endorsed hash (requests br) signers /\ signersSeen br = list_to_set signers;
  bo_waits : processingRequest br = false -> glen (requests br) < threshold \/ threshold <= 0;
  bo_full : processingRequest br = true -> threshold <= glen (requests br);
  bo_id : (br_id br < next)%nat;
  bo_dispatched : br_id br ∈ D -> processingRequest br = true;
}.

Record dispatch_inv (D : list nat) h : Prop := {
  di_cache : cache_inv (pendingRequestsCache h);
  di_batches : forall k it, items (pendingRequestsCache h) !! k = Some it -> batch_ok D (next_id h) k (Value it);
  di_unique : forall k k' it it', items (pendingRequestsCache h) !! k = Some it ->
    items (pendingRequestsCache h) !! k' = Some it' -> br_id (Value it) = br_id (Value it') -> k = k';
  di_ids : forall b, b ∈ D -> (b < next_id h)%nat;
}.

Lemma dispatch_inv_sub D h h' :
  dispatch_inv D h -> next_id h' = next_id h -> cache_inv (pendingRequestsCache h') ->
  (forall k it, items (pendingRequestsCache h') !! k = Some it -> items (pendingRequestsCache h) !! k = Some it) ->
  dispatch_inv D h'.
Proof.
  intros [H1 H2 H3 H4] En Hc Hsub. split; [done| | |by rewrite En].
  - intros k it Hit%Hsub. destruct (H2 k it Hit) as [? ? ? ? ?]. by split; rewrite ?En.
  - intros k k' it it' Hit%Hsub Hit'%Hsub. eauto.
Qed.

Lemma endorsed_snoc hash reqs signers (r : SignedComputeRequest) s :
  endorsed hash reqs signers -> ComputeRequest_Hash r = hash ->
  VerifySignature (compute_payload hash) (Signature r) (Signers cfg) = Ok s -> s ∉ signers ->
  endorsed hash (reqs ++ [r]) (signers ++ [s]).
Proof.
  intros [Hf Hnd] Hh Hv Hs. split; [apply Forall2_app; [done | by repeat constructor]|].
  apply NoDup_app. split_and!; [done| |apply NoDup_singleton]. by intros x Hx ->%list_elem_of_singleton.
Qed.

(** The batch a request joins has the properties of a stored one. *)
Lemma joined_batch_ok D t h hash f br h1 :
  dispatch_inv D h -> joined t h hash f = (br, h1) ->
  batch_ok D (next_id h1) hash br /\ pendingRequestsCache h1 = pendingRequestsCache h /\ jobs h1 = jobs h /\
  (next_id h <= next_id h1)%nat /\
  (forall k it, items (pendingRequestsCache h) !! k = Some it -> br_id (Value it) = br_id br -> k = hash).
Proof.
  intros [H1 H2 H3 H4]. unfold get_batch, Get.
  assert (batch_ok D (S (next_id h)) hash (mkBatch (next_id h) [] [] ∅ t false)) as Hnew.
  { split; cbn; try done; [exists []; by repeat constructor| | |].
    - intros _. unfold glen. cbn. lia.
    - lia.
    - intros Hd%H4. lia. }
  assert (forall k it, items (pendingRequestsCache h) !! k = Some it -> br_id (Value it) = next_id h -> k = hash) as Hfresh.
  { intros k it Hit Hid. pose proof (bo_id _ _ _ _ (H2 k it Hit)). lia. }
  destruct (items (pendingRequestsCache h) !! hash) as [it|] eqn:E; [destruct (expired t it)|]; intros [= <- <-];
    split_and!; cbn; try done; try lia; eauto.
Qed.

Lemma extended_ok D n hash br ch (execReq : SignedComputeRequest) signer :
  batch_ok D n hash br -> ComputeRequest_Hash execReq = hash ->
  VerifySignature (compute_payload hash) (Signature execReq) (Signers cfg) = Ok signer ->
  batch_ok (D ++ map job_batch (started br execReq signer (F cfg))) n hash (extended br ch execReq signer (F cfg)).
Proof.
  intros [[signers [He Hseen]] Hw Hf Hid Hd] Hh Hv. unfold extended, started.
  destruct (decide (signer ∈ signersSeen br)) as [Hin|Hnin].
  - rewrite app_nil_r. split; cbn; eauto.
  - assert (glen (requests br ++ [execReq]) = glen (requests br) + 1) as Hlen.
    { unfold glen. rewrite length_app. cbn. lia. }
    split; cbn [requests signersSeen processingRequest br_id].
    + exists (signers ++ [signer]). split; [|rewrite list_to_set_app_L, Hseen; set_solver].
      apply endorsed_snoc; [done..|]. rewrite Hseen in Hnin. set_solver.
    + intros [Hne%Z.eqb_neq Hp]%orb_false_iff. specialize (Hw Hp). lia.
    + intros [Heq%Z.eqb_eq|Hp]%orb_true_iff; [lia|]. specialize (Hf Hp). lia.
    + done.
    + destruct (_ =? _); [done|]. by rewrite app_nil_r.
Qed.

(** A started job has exactly the quorum, and its batch was not started before. *)
Lemma started_ok D n hash br (execReq : SignedComputeRequest) signer j :
  batch_ok D n hash br -> ComputeRequest_Hash execReq = hash ->
  VerifySignature (compute_payload hash) (Signature execReq) (Signers cfg) = Ok signer ->
  j ∈ started br execReq signer (F cfg) ->
  job_batch j = br_id br /\ (job_batch j ∉ D) /\ glen (job_requests j) = threshold /\
  exists signers, endorsed (job_hash j) (job_requests j) signers.
Proof.
  intros [[signers [He Hseen]] Hw Hf Hid Hd] Hh Hv. unfold started.
  destruct (decide (signer ∈ signersSeen br)) as [|Hnin]; [by rewrite elem_of_nil|].
  destruct (_ =? _) eqn:E; [|by rewrite elem_of_nil]. apply Z.eqb_eq in E. intros ->%list_elem_of_singleton.
  cbn [job_batch job_requests job_hash]. split_and!; [done| |done|].
  - intros Hin%Hd%Hf. unfold glen in *. rewrite length_app in E. cbn in E. lia.
  - exists (signers ++ [signer]). rewrite Hh. apply endorsed_snoc; [done..|]. rewrite Hseen in Hnin. set_solver.
Qed.

Lemma dispatch_inv_request D t h ch (execReq : SignedComputeRequest) :
  dispatch_inv D h -> NoDup D ->
  exists js : list job, jobs (execute t h cfg ch execReq).2 = jobs h ++ js /\
    dispatch_inv (D ++ map job_batch js) (execute t h cfg ch execReq).2 /\ NoDup (D ++ map job_batch js) /\
    Forall (fun j => glen (job_requests j) = threshold /\ exists signers, endorsed (job_hash j) (job_requests j) signers) js.
Proof.
  intros Hi HndD. destruct (host_execute_cases t h cfg ch execReq) as [[[b ->] _]|(signer & Hv & Hc)].
  { exists []. rewrite !app_nil_r. split_and!; try done. eapply dispatch_inv_sub; try done. apply Hi. }
  destruct (joined t h _ (F cfg)) as [br h1] eqn:Ej. destruct Hc as [-> _].
  pose proof (joined_batch_ok D t h _ _ br h1 Hi Ej) as (Hbr & Ep & Ejobs & Hnext & Huniq).
  exists (started br execReq signer (F cfg)). cbn [jobs]. rewrite Ejobs, Ep. destruct Hi as [H1 H2 H3 H4].
  set (hash := ComputeRequest_Hash execReq) in *. pose proof (started_ok D (next_id h1) hash br execReq signer) as Hst.
  assert (forall b, b ∈ map job_batch (started br execReq signer (F cfg)) -> b = br_id br /\ (br_id br ∉ D)) as Hjb.
  { intros b (j & -> & Hj)%list_elem_of_fmap. destruct (Hst j Hbr eq_refl Hv Hj) as (<- & Hn & _). done. }
  split_and!; [done| | |].
  - assert (forall k it, items (Set_ t (pendingRequestsCache h) hash (extended br ch execReq signer (F cfg)) None) !! k = Some it ->
      k = hash /\ Value it = extended br ch execReq signer (F cfg) \/ k <> hash /\ items (pendingRequestsCache h) !! k = Some it) as Hlk.
    { intros k it. unfold Set_. rewrite setLocked_lookup by done. destruct (decide (k = hash)); [intros [= <-]; by left|].
      destruct (decide _); [done|]. by right. }
    split; cbn [pendingRequestsCache next_id]; [by apply setLocked_inv| | |].
    + intros k it [[-> ->]|[Hne Hit]]%Hlk; [by apply extended_ok|].
      destruct (H2 k it Hit) as [? ? ? ? Hd]. split; try done; cbn; [lia|].
      intros [Hin|[Hb _]%Hjb]%elem_of_app; [auto|]. by destruct Hne; eapply Huniq.
    + intros k k' it it' [[-> ->]|[Hne Hit]]%Hlk [[-> Ev]|[Hne' Hit']]%Hlk; rewrite ?Ev, ?extended_id; intros Heq; eauto.
      symmetry; eauto.
    + intros b [Hin%H4|[-> _]%Hjb]%elem_of_app; [lia|]. apply Hbr.
  - apply NoDup_app. split_and!; [done|intros b Hb [-> Hn]%Hjb; done|].
    unfold started. destruct (decide _); [constructor|]. destruct (_ =? _); [apply NoDup_singleton | constructor].
  - apply Forall_forall. intros j Hj. by destruct (Hst j Hbr eq_refl Hv Hj) as (_ & _ & ? & ?).
Qed.

Lemma dispatch_inv_step D t h l :
  match l with HRequest _ _ _ => False | _ => True end -> dispatch_inv D h -> dispatch_inv D (step h (t, l)).
Proof.
  intros Hl Hi. pose proof (di_cache D h Hi) as Hc.
  assert (forall h' k, next_id h' = next_id h -> pendingRequestsCache h' = Delete (pendingRequestsCache h) k ->
    dispatch_inv D h') as Hdel.
  { intros h' k En Ep. eapply dispatch_inv_sub; [done..|rewrite Ep; by apply Delete_inv|].
    intros k' it. rewrite Ep. cbn. intros [_ ?]%lookup_delete_Some. done. }
  destruct l as [|i r|b sd|b|cf|]; [done|..]; cbn [host_step].
  - destruct (jobs h !! i) as [j|]; [|done]. destruct (mutex_held h); [done|].
    unfold completeBatch. destruct (Get _ _ _); [by eapply Hdel|]. by eapply dispatch_inv_sub.
  - destruct (timers h !! b) as [tm|]; [|done]. destruct (mutex_held h); [done|]. destruct (_ || _); [|done].
    unfold failBatchIfNotProcessed. destruct (Get _ _ _) as [br|]; [|by eapply dispatch_inv_sub].
    destruct (processingRequest br); [by eapply dispatch_inv_sub | by eapply Hdel].
  - destruct (timers h !! b) as [tm|]; [|done]. destruct (tm_done tm); [|done]. by eapply dispatch_inv_sub.
  - by eapply dispatch_inv_sub.
  - eapply dispatch_inv_sub; [done..|by apply gc_inv|]. cbn [pendingRequestsCache]. intros k it.
    rewrite gc_lookup by done. destruct (items _ !! k) as [it'|]; [|done]. by destruct (expired t it').
Qed.

(** The calls to the enclave started along a history, in order. *)
Fixpoint dispatched h tr : list job :=
  match tr with
  | [] => []
  | (t, l) :: tr' =>
      match l with
      | HRequest _ _ _ => drop (length (jobs h)) (jobs (step h (t, l)))
      | _ => []
      end ++ dispatched (step h (t, l)) tr'
  end.

(** The requests of a history all read the configuration [cfg]. *)
Definition under_config tr : Prop :=
  Forall (fun e : Z * host_label => match e.2 with HRequest c _ _ => c = cfg | _ => True end) tr.

Lemma dispatched_run tr : forall D h, under_config tr -> dispatch_inv D h -> NoDup D ->
  NoDup (D ++ map job_batch (dispatched h tr)) /\
  Forall (fun j => glen (job_requests j) = threshold /\ exists signers, endorsed (job_hash j) (job_requests j) signers)
    (dispatched h tr).
Proof.
  induction tr as [|[t l] tr IH]; intros D h Hu Hi Hnd; [cbn; by rewrite app_nil_r|].
  apply Forall_cons in Hu as [Hl Hu]. cbn [snd] in Hl.
  assert (forall D', NoDup D' -> D' = D -> dispatch_inv D (step h (t, l)) -> NoDup (D ++ map job_batch (dispatched (step h (t, l)) tr)) /\
    Forall (fun j => glen (job_requests j) = threshold /\ exists signers, endorsed (job_hash j) (job_requests j) signers)
      (dispatched (step h (t, l)) tr)) as Hskip by auto.
  destruct l as [c ch execReq|i r|b sd|b|cf|]; cbn [dispatched app];
    try (eapply Hskip; [done..|by apply dispatch_inv_step]).
  subst c. destruct (dispatch_inv_request D t h ch execReq Hi Hnd) as (js & Ej & Hi' & Hnd' & Hf).
  change (step h (t, HRequest cfg ch execReq)) with (execute t h cfg ch execReq).2. rewrite Ej, drop_app_length.
  destruct (IH _ _ Hu Hi' Hnd') as [H1 H2]. rewrite map_app, app_assoc. split; [done|]. apply Forall_app. done.
Qed.

Lemma dispatch_inv_new : dispatch_inv [] NewHostServer.
Proof. split; [apply New_inv| | |]; try done. intros b Hb. by apply elem_of_nil in Hb. Qed.

(** While the configuration stays the same, every batch is forwarded to the
    enclave at most once, and each forwarded batch holds exactly the threshold
    number of requests: the same request, validly signed by that many distinct
    configured signers. *)
Theorem dispatch_exact_quorum tr :
  under_config tr ->
  NoDup (map job_batch (dispatched NewHostServer tr)) /\
  Forall (fun j => glen (job_requests j) = quorumThreshold bft (F cfg) /\
    exists signers, endorsed (job_hash j) (job_requests j) signers) (dispatched NewHostServer tr).
Proof. intros Hu. apply (dispatched_run tr [] NewHostServer Hu dispatch_inv_new). constructor. Qed.

Lemma verify_batch_endorsed hash (reqs : list SignedComputeRequest) : forall signers i (seen : gset bytes),
  Forall2 (fun (r : SignedComputeRequest) s => ComputeRequest_Hash r = hash /\
    VerifySignature (compute_payload hash) (Signature r) (Signers cfg) = Ok s) reqs signers ->
  verify_batch cfg hash i reqs seen = Ok (list_to_set (map sha256 signers) ∪ seen).
Proof.
  induction reqs as [|r reqs IH]; intros signers i seen Hf; inversion Hf as [|? s ? ss [Hh Hv] Hf' E1 E2]; subst.
  - cbn. by rewrite union_empty_l_L.
  - cbn [verify_batch map list_to_set]. rewrite decide_False by auto. rewrite Hv, (IH ss) by done.
    f_equal. set_solver.
Qed.

Lemma endorsed_member hash reqs signers p : Forall2 (fun (r : SignedComputeRequest) s => ComputeRequest_Hash r = hash /\
    VerifySignature (compute_payload hash) (Signature r) (Signers cfg) = Ok s) reqs signers ->
  p ∈ signers -> p ∈ Signers cfg.
Proof.
  intros Hf [i Hi]%list_elem_of_lookup_1. destruct (Forall2_lookup_r _ _ _ _ _ Hf Hi) as (r & _ & _ & Hv).
  by apply VerifySignature_sound in Hv as [? _].
Qed.

(** C22 Host and enclave fit together: under the same configuration, a batch
    the host forwards passes the enclave's signature check as the request it was
    collected for and reaches the enclave's quorum, for either threshold of the
    host, unless two signing keys collide under SHA-256. *)
Theorem dispatched_batch_admitted tr j :
  under_config tr -> 0 <= F cfg < 2 ^ 31 -> j ∈ dispatched NewHostServer tr ->
  exists req set, check_signatures cfg (job_requests j) = Ok (job_hash j, req, set) /\
    (quorum cfg set = true \/ exists p q, p ∈ Signers cfg /\ q ∈ Signers cfg /\ collision p q).
Proof.
  intros Hu HF Hj.
  destruct (dispatched_run tr [] NewHostServer Hu dispatch_inv_new) as [_ Hall]; [constructor|].
  rewrite Forall_forall in Hall. destruct (Hall j Hj) as (Hlen & signers & Hf & Hnd).
  pose proof (Forall2_length _ _ _ Hf) as Hl.
  destruct (job_requests j) as [|req reqs] eqn:Er.
  { exfalso. revert Hlen. unfold quorumThreshold, u32, glen. cbn. destruct bft; rewrite Z.mod_small; lia. }
  assert (ComputeRequest_Hash req = job_hash j) as Hh by (by inversion Hf as [|? ? ? ? [Hh _]]).
  exists req, (list_to_set (map sha256 signers) ∪ ∅). unfold check_signatures.
  rewrite Hh, (verify_batch_endorsed _ _ signers) by done. split; [done|].
  destruct (hashes_distinct signers Hnd) as [(p & q & Hp & Hq & Hc)|Hnd'].
  - right. exists p, q. split_and!; [..|done]; eapply endorsed_member; done.
  - left. unfold quorum. rewrite union_empty_r_L, size_list_to_set by done. rewrite length_map, <- Hl.
    apply negb_true_iff, Z.ltb_ge. unfold glen in Hlen. rewrite Hlen.
    unfold quorumThreshold, u32. destruct bft; rewrite Z.mod_small; lia.
Qed.
End Dispatch.
End HostSafety.
