(* ===== verification/HostExamples.v ===== *)
(** * HostExamples: the host at concrete inputs

    Witnesses for the theorems of [HostSafety], and behaviours of the host
    when its configuration changes or is malformed. *)

From Stdlib Require Import Sorted.
From S2P Require Import Prelude Sha256 Types Cache Services Keychain Emitter Server ServerSafety ServerToy Host HostSafety.

Definition signed_by (p : bytes) : SignedComputeRequest := mkSigned toy_request (toy_sig p).

Abbreviation toy_host_run := (host_run false QuorumTimeout).
Abbreviation toy_dispatched := (dispatched (verified := toy_Verify) false QuorumTimeout).

(** Two signers reach the quorum of [toy_config]; the enclave answers; a third
    request of another kind times out. *)
Definition other_request : ComputeRequest :=
  mkComputeRequest zero32 "exec-2" (bs "data") [] [] [] (sample_key 1) [] "confidential-echo@1.0.0-alpha" "1.0.0".

Definition toy_answer : batchResponse := Err (EnclaveFailed "enclave down" None).

Definition toy_history : list (Z * host_label) :=
  [(0, HRequest toy_config 0 (signed_by signer1));
   (1, HRequest toy_config 1 (mkSigned other_request (toy_sig signer1)));
   (2, HRequest toy_config 2 (signed_by signer2));
   (3, HJobDone 0 toy_answer);
   (30 * second, HTimer 1 false)].

Example toy_history_sent :
  sent (toy_host_run NewHostServer toy_history) =
  [(0%nat, toy_answer); (2%nat, toy_answer); (1%nat, Err (QuorumTimedOut 1 2))].
Proof. vm_compute. reflexivity. Qed.

Ltac sorted_times := repeat constructor; vm_compute; discriminate.

Lemma host_answers_once_witness :
  NoDup (map fst (sent (toy_host_run NewHostServer toy_history))) /\
  (forall ch, ch ∈ map fst (sent (toy_host_run NewHostServer toy_history)) -> ch ∈ channels toy_history).
Proof.
  apply (host_answers_once false QuorumTimeout toy_history).
  - sorted_times.
  - by_compute.
Defined.

(** A timer that has fired is not stopped by the end of its batch.  The first batch fails when its
    timer fires; a node repeats its request at once, and the timer, getting the mutex next, fails the
    new batch of the same hash in its first second. *)
Definition stale_timer : list (Z * host_label) :=
  [(0, HRequest toy_config 0 (signed_by signer1)); (1 * second, HRequest toy_config 1 (signed_by signer2));
   (30 * second, HJobDone 0 toy_answer); (30 * second, HRequest toy_config 2 (signed_by signer1));
   (30 * second, HTimer 0 false)].

Example stale_timer_fails_retry :
  sent (toy_host_run NewHostServer stale_timer) =
  [(0%nat, toy_answer); (1%nat, toy_answer); (2%nat, Err (QuorumTimedOut 1 2))].
Proof. vm_compute. reflexivity. Qed.

Lemma toy_signers_sound : sound_signers (verified := toy_Verify) toy_config.
Proof. intros m sig n. apply ed25519_no_panic. by repeat constructor. Qed.

Lemma waiter_never_lost_witness :
  let h := toy_host_run NewHostServer ([(0, HRequest toy_config 0 (signed_by signer1))] ++
    (1, HRequest toy_config 1 (mkSigned other_request (toy_sig signer1))) :: [(2, HCollect)]) in
  1%nat ∈ map fst (sent h) \/
  (exists i, forall r, (1%nat, r) ∈ sent (host_step false QuorumTimeout h (30 * second, HJobDone i r))) \/
  (exists b received threshold, forall isShutdown : bool,
     (1%nat, Err (if isShutdown then ServerShutdown else QuorumTimedOut received threshold))
       ∈ sent (host_step false QuorumTimeout h (30 * second, HTimer b isShutdown))).
Proof.
  apply (waiter_never_lost false QuorumTimeout [(0, HRequest toy_config 0 (signed_by signer1))] 1 toy_config 1
    (mkSigned other_request (toy_sig signer1)) [(2, HCollect)] false (30 * second)).
  - sorted_times.
  - sorted_times.
  - by_compute.
  - repeat (apply Forall_cons; split; [exact toy_signers_sound || done|]). constructor.
  - vm_compute. reflexivity.
  - vm_compute. split; discriminate.
Defined.

Lemma dispatch_exact_quorum_witness :
  toy_dispatched NewHostServer toy_history <> [] /\
  NoDup (map job_batch (toy_dispatched NewHostServer toy_history)) /\
  Forall (fun j => glen (job_requests j) = quorumThreshold false (F toy_config) /\
    exists signers, endorsed (verified := toy_Verify) toy_config (job_hash j) (job_requests j) signers)
    (toy_dispatched NewHostServer toy_history).
Proof.
  split; [vm_compute; discriminate|].
  apply (dispatch_exact_quorum false QuorumTimeout toy_config toy_history). repeat constructor.
Defined.

Definition toy_job : job := mkJob (ComputeRequest_Hash toy_request) 0 [signed_by signer1; signed_by signer2].

Lemma dispatched_batch_admitted_witness :
  exists req set, check_signatures (verified := toy_Verify) toy_config (job_requests toy_job) = Ok (job_hash toy_job, req, set) /\
    (quorum toy_config set = true \/ exists p q, p ∈ Signers toy_config /\ q ∈ Signers toy_config /\ collision p q).
Proof.
  apply (dispatched_batch_admitted false QuorumTimeout toy_config toy_history toy_job).
  - repeat constructor.
  - by_compute.
  - apply list_elem_of_lookup_2 with (i := 0%nat). vm_compute. reflexivity.
Defined.

(** ** Configuration changes under a batch *)

Definition grown_config : EnclaveConfig := mkConfig [signer1; signer2; signer3; signer4] (bs "mpk") 1 2.

(** A batch in flight is forwarded a second time when the fault bound grows
    from 1 to 2 before the next signer's request arrives: the number of requests
    equals the threshold twice. *)
Theorem reconfiguration_redispatches :
  map (fun j => (job_batch j, glen (job_requests j)))
    (toy_dispatched NewHostServer
      [(0, HRequest toy_config 0 (signed_by signer1));
       (1, HRequest toy_config 1 (signed_by signer2));
       (2, HConfig grown_config);
       (3, HRequest grown_config 2 (signed_by signer3))]) = [(0%nat, 2); (0%nat, 3)].
Proof. vm_compute. reflexivity. Qed.

(** A configured signer key that is not 32 bytes long makes the signature
    check panic while the batch mutex is held; no later request is served. *)
Theorem malformed_key_wedges_host :
  let bad := mkConfig [bs "short"; signer1; signer2] (bs "mpk") 1 1 in
  let r1 := host_execute (verified := toy_Verify) false QuorumTimeout 0 NewHostServer bad 0 (signed_by signer1) in
  r1.1 = HPanicked /\
  forall t ch r, (host_execute (verified := toy_Verify) false QuorumTimeout t r1.2 toy_config ch r).1 = HBlocked.
Proof. split; [vm_compute; reflexivity|]. intros t ch r. unfold host_execute. reflexivity. Qed.
