(* ===== verification/Selector.v ===== *)
(** * Selector: which enclave serves a request

    Models [src/enclave-client/enclave-selector/round_robin_enclave_selector.go].
    The nodes of a DON each run a selector and must agree on the enclave of a
    request without talking to each other. *)

From S2P Require Import Prelude Sha256 Types Cache.

Inductive select_error := NoNodesAvailable | NoLiveEnclaves.

(** [new(big.Int).SetBytes]. *)
Definition big_endian (b : bytes) : Z := fold_left (fun acc x => acc * 256 + Z_of_byte x) b 0.

Definition calcMod (b : bytes) (modulus : Z) : Z := big_endian b mod modulus.

Definition isEnclaveDead (deadEnclaves : gset bytes) (enclaveID : bytes) : bool :=
  bool_decide (enclaveID ∈ deadEnclaves).

Definition SetEnclaveLiveness (deadEnclaves : gset bytes) (enclaveID : bytes) (isAlive : bool) : gset bytes :=
  if isAlive then deadEnclaves ∖ {[enclaveID]} else {[enclaveID]} ∪ deadEnclaves.

(** The search loop, [n] iterations before [offset] reaches [len(nodes)]. *)
Fixpoint select_loop (deadEnclaves : gset bytes) (nodes : list Enclave) (baseIndex offset : Z) (n : nat)
    : option Enclave :=
  match n with
  | O => None
  | S n' =>
      match nodes !! Z.to_nat ((baseIndex + offset) mod glen nodes) with
      | None => None                                   (* index out of range *)
      | Some selectedNode =>
          if isEnclaveDead deadEnclaves (EnclaveID selectedNode)
          then select_loop deadEnclaves nodes baseIndex (offset + 1) n'
          else Some selectedNode
      end
  end.

Definition matching (checkRequirements : option (Enclave -> bool)) (enclaves : list Enclave) : list Enclave :=
  match checkRequirements with
  | None => enclaves
  | Some check => List.filter check enclaves
  end.

Definition SelectEnclaves (deadEnclaves : gset bytes) (enclaves : list Enclave) (requestID : bytes)
    (checkRequirements : option (Enclave -> bool)) : result select_error (list Enclave) :=
  let nodes := matching checkRequirements enclaves in
  if glen nodes =? 0 then Err NoNodesAvailable
  else
    let baseIndex := calcMod requestID (glen nodes) in
    match select_loop deadEnclaves nodes baseIndex 0 (length nodes) with
    | Some selectedNode => Ok [selectedNode]
    | None => Err NoLiveEnclaves
    end.

(** ** Reference: rotate the matching nodes, take the first live one *)

Definition rotate_to (i : nat) (l : list Enclave) : list Enclave := drop i l ++ take i l.

Definition select_spec (deadEnclaves : gset bytes) (nodes : list Enclave) (requestID : bytes) : option Enclave :=
  List.find (fun e => negb (isEnclaveDead deadEnclaves (EnclaveID e)))
    (rotate_to (Z.to_nat (calcMod requestID (glen nodes))) nodes).

Section SelectorLemmas.
Implicit Types (nodes : list Enclave) (dead : gset bytes).

Lemma rotate_lookup nodes (i k : nat) :
  (i < length nodes)%nat -> (k < length nodes)%nat ->
  rotate_to i nodes !! k = nodes !! ((i + k) mod length nodes)%nat.
Proof.
  intros Hi Hk. unfold rotate_to. destruct (decide (k < length nodes - i)%nat) as [Hlt|Hge].
  - rewrite lookup_app_l by (rewrite length_drop; lia). rewrite lookup_drop, Nat.mod_small by lia. done.
  - rewrite lookup_app_r by (rewrite length_drop; lia). rewrite length_drop, lookup_take_lt by lia. f_equal.
    apply (Nat.mod_unique _ _ 1); lia.
Qed.

Lemma length_rotate nodes i : length (rotate_to i nodes) = length nodes.
Proof. unfold rotate_to. rewrite length_app, length_drop, length_take. lia. Qed.

Lemma rotate_perm nodes i : rotate_to i nodes ≡ₚ nodes.
Proof. unfold rotate_to. rewrite (comm (++)). by rewrite take_drop. Qed.

Lemma select_loop_find dead nodes (i : nat) : (i < length nodes)%nat -> forall n k,
  (k + n = length nodes)%nat ->
  select_loop dead nodes (Z.of_nat i) (Z.of_nat k) n =
  List.find (fun e => negb (isEnclaveDead dead (EnclaveID e))) (drop k (rotate_to i nodes)).
Proof.
  intros Hi. induction n as [|n IH]; intros k Hk; cbn [select_loop].
  - rewrite drop_ge; [done|]. rewrite length_rotate. lia.
  - destruct (lookup_lt_is_Some_2 (rotate_to i nodes) k) as [e He]; [rewrite length_rotate; lia|].
    rewrite (drop_S _ e) by done. cbn [find].
    rewrite rotate_lookup in He by lia.
    replace (Z.to_nat ((Z.of_nat i + Z.of_nat k) mod glen nodes)) with ((i + k) mod length nodes)%nat.
    2:{ unfold glen. rewrite <- Nat2Z.inj_add, <- Nat2Z.inj_mod, Nat2Z.id. done. }
    rewrite He. destruct (isEnclaveDead dead (EnclaveID e)); [|done]. cbn [negb].
    replace (Z.of_nat k + 1) with (Z.of_nat (S k)) by lia. apply IH. lia.
Qed.

Lemma calcMod_range requestID nodes : nodes <> [] -> 0 <= calcMod requestID (glen nodes) < glen nodes.
Proof. intros Hn. apply Z.mod_pos_bound. unfold glen. destruct nodes; [done|]. cbn. lia. Qed.

Lemma SelectEnclaves_find dead enclaves requestID check :
  let nodes := matching check enclaves in
  SelectEnclaves dead enclaves requestID check =
  if decide (nodes = []) then Err NoNodesAvailable
  else match select_spec dead nodes requestID with Some e => Ok [e] | None => Err NoLiveEnclaves end.
Proof.
  cbn zeta. unfold SelectEnclaves, select_spec. set (nodes := matching check enclaves).
  destruct (decide (nodes = [])) as [->|Hne]; [done|].
  assert ((glen nodes =? 0) = false) as -> by (apply Z.eqb_neq; unfold glen; destruct nodes; [done | cbn; lia]).
  pose proof (calcMod_range requestID nodes Hne) as Hr. set (b := calcMod requestID (glen nodes)) in *.
  rewrite <- (Z2Nat.id b) at 1 by lia. rewrite (select_loop_find dead nodes (Z.to_nat b)) with (k := 0%nat).
  - by rewrite drop_0.
  - unfold glen in Hr. lia.
  - lia.
Qed.

Lemma find_first {A} (P : A -> bool) (l : list A) (x : A) :
  List.find P l = Some x <->
  exists before after, l = before ++ x :: after /\ P x = true /\ forall y, y ∈ before -> P y = false.
Proof.
  induction l as [|y l IH]; cbn [find].
  - split; [done|]. by intros ([|] & ? & ? & _).
  - destruct (P y) eqn:E.
    + split; [intros [= ->]; exists [], l; split_and!; [done..|]; intros z Hz; by apply elem_of_nil in Hz|].
      intros ([|z before] & after & Hl & Hx & Hb); [by injection Hl as -> ->|].
      injection Hl as -> ->. rewrite (Hb z) in E; [done|]. apply elem_of_cons. by left.
    + rewrite IH. split; intros (before & after & Hl & Hx & Hb).
      * exists (y :: before), after. subst l. split_and!; [done..|]. intros z [->|Hz]%elem_of_cons; auto.
      * destruct before as [|z before]; injection Hl as -> ->; [congruence|].
        exists before, after. split_and!; [done..|]. intros z' Hz. apply Hb, elem_of_cons. by right.
Qed.

Lemma dead_spec dead id : negb (isEnclaveDead dead id) = true <-> id ∉ dead.
Proof. unfold isEnclaveDead. rewrite negb_true_iff. apply bool_decide_eq_false. Qed.
Lemma dead_spec' dead id : negb (isEnclaveDead dead id) = false <-> id ∈ dead.
Proof. unfold isEnclaveDead. rewrite negb_false_iff. apply bool_decide_eq_true. Qed.

Lemma SelectEnclaves_Ok dead enclaves requestID check sel :
  let nodes := matching check enclaves in
  SelectEnclaves dead enclaves requestID check = Ok sel <->
  exists e before after, sel = [e] /\
    rotate_to (Z.to_nat (calcMod requestID (glen nodes))) nodes = before ++ e :: after /\
    (EnclaveID e ∉ dead) /\ (forall x, x ∈ before -> EnclaveID x ∈ dead).
Proof.
  cbn zeta. rewrite SelectEnclaves_find. destruct (decide _) as [->|Hne].
  - split; [done|]. intros (e & before & after & _ & Hr & _). apply (f_equal length) in Hr.
    rewrite length_rotate, length_app in Hr. cbn in Hr. lia.
  - destruct (select_spec _ _ _) as [e|] eqn:E; unfold select_spec in E.
    + apply find_first in E as (b & a & Hl & He & Hb). split.
      * intros [= <-]. exists e, b, a. split_and!; [done..|by apply dead_spec|]. intros x Hx. by apply dead_spec', Hb.
      * intros (e' & b' & a' & -> & Hr & He' & Hb'). do 2 f_equal.
        assert (List.find (fun e => negb (isEnclaveDead dead (EnclaveID e))) (b' ++ e' :: a') = Some e') as H1.
        { apply find_first. exists b', a'. split_and!; [done|by apply dead_spec|]. intros y Hy. by apply dead_spec', Hb'. }
        assert (List.find (fun e => negb (isEnclaveDead dead (EnclaveID e))) (b ++ e :: a) = Some e) as H2.
        { apply find_first. by exists b, a. }
        rewrite <- Hr, Hl in H1. congruence.
    + split; [done|]. intros (e' & b' & a' & -> & Hr & He' & _).
      pose proof (find_none _ _ E e') as Hn. cbn beta in Hn. rewrite Hr in Hn.
      apply dead_spec in He'. rewrite He' in Hn. discriminate Hn. apply in_app_iff. right. by left.
Qed.

Lemma matching_sub check enclaves e : e ∈ matching check enclaves -> e ∈ enclaves.
Proof. destruct check as [f|]; [|done]. cbn. by intros [? _]%elem_of_filter_bool. Qed.
End SelectorLemmas.

(** The selector picks the first live enclave, in the cyclic order that starts
    at the request ID modulo their number, among the enclaves that meet the
    requirements, and fails exactly when there is none; so nodes that list the
    same enclaves pick the same one, whatever they believe about enclaves
    that do not precede it in that order. *)
Theorem selection_converges (dead dead' : gset bytes) (enclaves : list Enclave) (requestID : bytes)
    (check : option (Enclave -> bool)) (e : Enclave) :
  SelectEnclaves dead enclaves requestID check = Ok [e] ->
  exists before after,
    rotate_to (Z.to_nat (calcMod requestID (glen (matching check enclaves)))) (matching check enclaves)
      = before ++ e :: after /\
    e ∈ enclaves /\ (forall f, check = Some f -> f e = true) /\ (EnclaveID e ∉ dead) /\
    (forall x, x ∈ before -> EnclaveID x ∈ dead) /\
    ((forall x, x ∈ before -> EnclaveID x ∈ dead') -> EnclaveID e ∉ dead' ->
     SelectEnclaves dead' enclaves requestID check = Ok [e]).
Proof.
  intros (e' & before & after & [= <-] & Hr & He & Hb)%SelectEnclaves_Ok. exists before, after.
  assert (e ∈ matching check enclaves) as Hin.
  { rewrite <- (rotate_perm (matching check enclaves)), Hr. apply elem_of_app. right. apply elem_of_cons. by left. }
  assert (e ∈ enclaves /\ forall f, check = Some f -> f e = true) as [H1 H2].
  { destruct check as [f|]; [|done]. cbn in Hin. apply elem_of_filter_bool in Hin as [? ?].
    split; [done|]. by intros f' [= <-]. }
  split_and!; [done..|]. intros Hb' He'. apply SelectEnclaves_Ok. by exists e, before, after.
Qed.

Definition sample_node (id : bytes) (ty : string) : Enclave := mkEnclave id "http://e" [bs "m"] ty "" [] "".

Lemma selection_converges_witness :
  let nodes := [sample_node (bs "a") "NITRO"; sample_node (bs "b") "SGX"; sample_node (bs "c") "NITRO"] in
  let check := Some (fun e => bool_decide (EnclaveType e = "NITRO"%string)) in
  SelectEnclaves {[bs "a"]} nodes [byte_of_Z 4] check = Ok [sample_node (bs "c") "NITRO"] /\
  exists before after,
    rotate_to (Z.to_nat (calcMod [byte_of_Z 4] (glen (matching check nodes)))) (matching check nodes)
      = before ++ sample_node (bs "c") "NITRO" :: after /\
    sample_node (bs "c") "NITRO" ∈ nodes /\
    (forall f, check = Some f -> f (sample_node (bs "c") "NITRO") = true) /\
    (EnclaveID (sample_node (bs "c") "NITRO") ∉ ({[bs "a"]} : gset bytes)) /\
    (forall x, x ∈ before -> EnclaveID x ∈ ({[bs "a"]} : gset bytes)) /\
    ((forall x, x ∈ before -> EnclaveID x ∈ ({[bs "a"; bs "b"]} : gset bytes)) ->
     EnclaveID (sample_node (bs "c") "NITRO") ∉ ({[bs "a"; bs "b"]} : gset bytes) ->
     SelectEnclaves {[bs "a"; bs "b"]} nodes [byte_of_Z 4] check = Ok [sample_node (bs "c") "NITRO"]).
Proof.
  intros nodes check. assert (SelectEnclaves {[bs "a"]} nodes [byte_of_Z 4] check = Ok [sample_node (bs "c") "NITRO"]) as H.
  { vm_compute. reflexivity. }
  split; [exact H|]. exact (selection_converges {[bs "a"]} {[bs "a"; bs "b"]} nodes [byte_of_Z 4] check _ H).
Defined.
