(* ===== verification/Pool.v ===== *)
(** * Pool: the client that talks to a pool of enclaves

    Models [src/enclave-client/pool.go], [src/enclave-client/attestation-validator/validator.go]
    and [src/enclave/fake/attestor.go].  Every response of an enclave is accepted only
    with an attestation that one of the enclave's trusted measurements validates.

    The network is an argument of each operation: what the attempts of a call
    return.  A body is its length and what [json.Unmarshal] makes of it.  The
    goroutines of one operation work on different enclaves and meet only in the
    caches, so an operation runs them one after the other, in the order in which
    they finish.  Validation of Nitro documents is the library's and a
    parameter.  Of the metrics, those of a failed execution are modelled; logs are left
    out. *)

From Stdlib Require Import SpecFloat Ascii.
From S2P Require Import Prelude Float Codec Sha256 Types Cache Emitter Observability Selector.

Record CacheConfig := mkCacheConfig {
  MaxTTL : Z;
  DefaultTTL : Z;
  CleanupInterval : Z;
  EnableCache : bool;
  TTLBufferPercent : spec_float;
  EnableProactiveRefresh : bool;
  RefreshIntervalPercent : spec_float;
  MinRefreshInterval : Z;
  RefreshTimeout : Z;
}.

Record SessionConfig := mkSessionConfig {
  EnableSessionPersistence : bool;
  SessionHeaderName : string;
}.

Record cachedPublicKeyData := mkCachedKeys {
  cpk_Data : EnclavePublicKeyData;
  cpk_OriginalTTLs : list Z;
  cpk_CachedAt : Z;
}.

(** The session store keeps one header, the configured one, per key. *)
Record enclavePool := mkPool {
  nodes : list Enclave;
  deadEnclaves : gset bytes;
  publicKeyCache : option (Cache cachedPublicKeyData);
  lastRefresh : gmap bytes Z;
  sessionStore : gmap bytes string;
}.

Inductive pool_error :=
| SelectionFailed (e : select_error)
| BadURL
| MalformedAuthHeader
| TimeoutUnresolved
| TransportFailed
| BodyUnreadable
| BodyTooLarge
| RequestFailed (status : Z)
| BadResponseJSON
| UnconfiguredKeys
| NoTrustedMeasurements
| AttestationRejected (attempts : nat)
| EnclaveNotFound (enclaveID : bytes)
| MismatchedRequestHash
| MismatchedApplicationRequestID
| NoEnclavesInPool.

(** The outcome of a call: a result, or a panic. *)
Inductive outcome (A : Type) := Returns (r : result pool_error A) | Panics.
Arguments Returns {A} r.
Arguments Panics {A}.

Record http_response (A : Type) := mkHttp {
  hr_status : Z;
  hr_length : option Z;          (* of the body; [None] when it cannot be read *)
  hr_session : string;           (* value of the configured session header *)
  hr_json : option A;            (* the decoded body *)
}.
Arguments mkHttp {A}.
Arguments hr_status {A}.
Arguments hr_length {A}.
Arguments hr_session {A}.
Arguments hr_json {A}.

(** What a public-key fetch meets: the resolved timeout, the answer of each
    attempt ([None] is a transport error) and whether the caller's context ends
    during the backoff after it. *)
Record key_call := mkKeyCall {
  kc_timeout : bool;
  kc_do : nat -> option (http_response PublicKeyResponse);
  kc_cancelled : nat -> bool;
}.

(** The body of an answer that is not [200]: its text and, if it decodes, the error
    response it is. *)
Record error_body := mkErrorBody { eb_text : string; eb_response : option EnclaveErrorResponse }.

Record exec_call := mkExecCall { ec_do : option (http_response ExecuteResponse); ec_body : error_body }.

Definition MaxEnclaveResponseBodyBytes : Z := 10 * 2 ^ 20.
Definition EnclaveTypeFake : string := "FAKE".
Definition FakeAttestationDocument : string := "fake-attestation".

(** [strings.Split(header, ":")] has two components: one colon. *)
Fixpoint colons (s : string) : nat :=
  match s with
  | EmptyString => 0
  | String c s' => (if Ascii.eqb c ":"%char then 1 else 0) + colons s'
  end.

Definition SetAuthHeader (e : Enclave) : result pool_error unit :=
  if bool_decide (EnclaveAuthHeader e = ""%string) then Ok tt
  else if (S (colons (EnclaveAuthHeader e)) =? 2)%nat then Ok tt
  else Err MalformedAuthHeader.

(** ** Conversions of [float64(d) * percent] *)

Definition scale_duration (out_of_range : Z) (d : Z) (percent : spec_float) : Z :=
  int_of_float out_of_range (float_mul (float_of_int d) percent).

(** ** Defaults: the buffer is the float64 nearest to 0.1 *)

Definition DefaultPublicKeyRequestTimeout : Z := 5 * second.

Definition DefaultCacheConfig : CacheConfig :=
  mkCacheConfig (30 * minute) (5 * minute) (10 * minute) true
    (S754_finite false 7205759403792794 (-56)) true (S754_zero false) (10 * second)
    DefaultPublicKeyRequestTimeout.
Definition DefaultSessionConfig : SessionConfig := mkSessionConfig true "Sticky-Session-A".

Section Pool.
Context `{HS : Sha256}.
Variables (nitro_ValidateAttestation : bytes -> bytes -> bytes -> bool) (url_ok : string -> bool).
Variables (cacheConfig : CacheConfig) (sessionConfig : SessionConfig) (publicKeyRetriesMax : Z) (out_of_range : Z).

(** ** Attestation *)

Definition fake_ValidateAttestation (attestation _ _ : bytes) : bool :=
  bool_decide (attestation = bs FakeAttestationDocument).

Definition ForEnclaveType (enclaveType : string) : bytes -> bytes -> bytes -> bool :=
  if bool_decide (enclaveType = EnclaveTypeFake) then fake_ValidateAttestation
  else nitro_ValidateAttestation.

(** Whether one of the measurements validates, and the number of errors before it. *)
Fixpoint try_measurements (validator : bytes -> bytes -> bytes -> bool) (attestation userData : bytes)
    (values : list bytes) (errs : nat) : bool * nat :=
  match values with
  | [] => (false, errs)
  | measurements :: rest =>
      if validator attestation userData measurements then (true, errs)
      else try_measurements validator attestation userData rest (S errs)
  end.

Fixpoint validateAttestationAgainstEnclaves (enclaves : list Enclave) (attestation userData : bytes) (errs : nat)
    : bool * nat :=
  match enclaves with
  | [] => (false, errs)
  | enclave :: rest =>
      match try_measurements (ForEnclaveType (EnclaveType enclave)) attestation userData (TrustedValues enclave) errs with
      | (true, errs) => (true, errs)
      | (false, errs) => validateAttestationAgainstEnclaves rest attestation userData errs
      end
  end.

Definition validateAttestation (enclave : Enclave) (userData attestation : bytes) : result pool_error unit :=
  match validateAttestationAgainstEnclaves [enclave] attestation userData 0 with
  | (true, _) => Ok tt
  | (false, O) => Err NoTrustedMeasurements
  | (false, errs) => Err (AttestationRejected errs)
  end.

(** ** Sessions *)

Definition updateSession (c : enclavePool) (keys : list bytes) (headerValue : string) : enclavePool :=
  if negb (EnableSessionPersistence sessionConfig) then c
  else if bool_decide (SessionHeaderName sessionConfig = ""%string) || bool_decide (headerValue = ""%string) then c
  else mkPool (nodes c) (deadEnclaves c) (publicKeyCache c) (lastRefresh c)
         (fold_left (fun (m : gmap bytes string) (key : bytes) =>
            if glen key =? 0 then m else <[b64_encode key := headerValue]> m) keys (sessionStore c)).

(** The session header added to a request for [key], if any. *)
Definition applySession (c : enclavePool) (key : bytes) : option string :=
  if negb (EnableSessionPersistence sessionConfig) then None else sessionStore c !! b64_encode key.

(** ** Public-key cache *)

Definition min_ttl (ttl : Z) (ttls : list Z) : Z :=
  fold_left (fun minTTL ttl => if ttl <? minTTL then ttl else minTTL) ttls ttl.

Definition calculateEffectiveTTL (enclaveTTLs : list Z) : Z :=
  let minTTL :=
    match enclaveTTLs with
    | ttl :: ttls =>
        let m := min_ttl ttl ttls in
        if MaxTTL cacheConfig <? m then MaxTTL cacheConfig else m
    | [] => DefaultTTL cacheConfig
    end in
  let bufferTime := scale_duration out_of_range minTTL (TTLBufferPercent cacheConfig) in
  let bufferTime := if bufferTime <? second then second else bufferTime in
  i64 (minTTL - bufferTime).

Definition set_cache (c : enclavePool) (k : Cache cachedPublicKeyData) : enclavePool :=
  mkPool (nodes c) (deadEnclaves c) (Some k) (lastRefresh c) (sessionStore c).

Definition getCachedPublicKey (now : Z) (c : enclavePool) (enclaveID : bytes) : option EnclavePublicKeyData :=
  match publicKeyCache c with
  | Some cache => if EnableCache cacheConfig then cpk_Data <$> Get now cache enclaveID else None
  | None => None
  end.

Definition setCachedPublicKey (now : Z) (c : enclavePool) (enclaveID : bytes) (data : EnclavePublicKeyData) : enclavePool :=
  match publicKeyCache c with
  | Some cache =>
      if negb (EnableCache cacheConfig) then c
      else
        let effectiveTTL := calculateEffectiveTTL (pkr_TTLs (epk_Response data)) in
        if effectiveTTL <=? 0 then c
        else set_cache c (Set_ now cache enclaveID (mkCachedKeys data (pkr_TTLs (epk_Response data)) now) (Some effectiveTTL))
  | None => c
  end.

(** ** Fetching the keys of one enclave *)

(** The attempts, [n] of them left: the first answer, or [None]. *)
Fixpoint fetch_attempts (call : key_call) (attempt n : nat) : option (http_response PublicKeyResponse) :=
  match n with
  | O => None
  | S n' =>
      match kc_do call attempt with
      | Some resp => Some resp
      | None =>
          match n' with
          | O => None                                            (* the last attempt: no backoff *)
          | S _ => if kc_cancelled call attempt then None else fetch_attempts call (S attempt) n'
          end
      end
  end.

(** Reading a response: the guards before the body is trusted to be JSON. *)
Definition read_response {A} (resp : http_response A) : result pool_error A :=
  match hr_length resp with
  | None => Err BodyUnreadable
  | Some len =>
      if MaxEnclaveResponseBodyBytes <? len then Err BodyTooLarge
      else if negb (hr_status resp =? 200) then Err (RequestFailed (hr_status resp))
      else match hr_json resp with None => Err BadResponseJSON | Some out => Ok out end
  end.

Definition getSingleEnclavePublicKey (c : enclavePool) (enclave : Enclave) (call : key_call)
    : outcome EnclavePublicKeyData * enclavePool :=
  if negb (url_ok (EnclaveURL enclave)) then (Returns (Err BadURL), c)
  else match SetAuthHeader enclave with
  | Err e => (Returns (Err e), c)
  | Ok _ =>
      if negb (kc_timeout call) then (Returns (Err TimeoutUnresolved), c)
      else if publicKeyRetriesMax <? 0 then (Panics, c)           (* no attempt: a nil response *)
      else match fetch_attempts call 0 (S (Z.to_nat publicKeyRetriesMax)) with
      | None => (Returns (Err TransportFailed), c)
      | Some resp =>
          match read_response resp with
          | Err e => (Returns (Err e), c)
          | Ok out =>
              if IsZero (pkr_Config out) then (Returns (Err UnconfiguredKeys), c)
              else match validateAttestation enclave (PublicKeyHash out) (pkr_Attestation out) with
              | Err e => (Returns (Err e), c)
              | Ok _ =>
                  let c := updateSession c (pkr_PublicKeys out) (hr_session resp) in
                  (Returns (Ok (mkEnclavePublicKeyData out (EnclaveID enclave))), c)
              end
          end
      end
  end.

(** One goroutine of [GetPublicKeys]: the network first, the cache on failure. *)
Definition fetch_or_cached (now : Z) (c : enclavePool) (enclave : Enclave) (call : key_call)
    : outcome EnclavePublicKeyData * enclavePool :=
  match getSingleEnclavePublicKey c enclave call with
  | (Returns (Err e), c) =>
      match getCachedPublicKey now c (EnclaveID enclave) with
      | Some cached => (Returns (Ok cached), c)
      | None => (Returns (Err e), c)
      end
  | (Returns (Ok data), c) => (Returns (Ok data), setCachedPublicKey now c (EnclaveID enclave) data)
  | (Panics, c) => (Panics, c)
  end.

(** [errgroup] over [enclaves]: the answers in the order they arrive, or the
    first error; every goroutine runs to its end. *)
Fixpoint fetch_group (now : Z) (c : enclavePool) (enclaves : list Enclave) (calls : bytes -> key_call)
    : outcome (list EnclavePublicKeyData) * enclavePool :=
  match enclaves with
  | [] => (Returns (Ok []), c)
  | enclave :: rest =>
      match fetch_or_cached now c enclave (calls (EnclaveID enclave)) with
      | (Panics, c) => (Panics, c)
      | (Returns r, c) =>
          match fetch_group now c rest calls with
          | (Panics, c) => (Panics, c)
          | (Returns rs, c) =>
              (Returns (match r, rs with
                        | Err e, _ => Err e
                        | Ok _, Err e => Err e
                        | Ok data, Ok datas => Ok (data :: datas)
                        end), c)
          end
      end
  end.

(** [order] is the order in which the goroutines of the selected enclaves finish. *)
Definition GetPublicKeys (now : Z) (c : enclavePool) (requestID : bytes) (checkRequirements : option (Enclave -> bool))
    (order : list Enclave -> list Enclave) (calls : bytes -> key_call) : outcome (list EnclavePublicKeyData) * enclavePool :=
  match SelectEnclaves (deadEnclaves c) (nodes c) requestID checkRequirements with
  | Err e => (Returns (Err (SelectionFailed e)), c)
  | Ok enclaves => fetch_group now c (order enclaves) calls
  end.

(** ** Refreshing *)

Definition set_liveness (c : enclavePool) (enclaveID : bytes) (isAlive : bool) : enclavePool :=
  mkPool (nodes c) (SetEnclaveLiveness (deadEnclaves c) enclaveID isAlive) (publicKeyCache c) (lastRefresh c) (sessionStore c).

Definition refreshSingleKey (now : Z) (c : enclavePool) (enclave : Enclave) (call : key_call) : outcome unit * enclavePool :=
  match getSingleEnclavePublicKey c enclave call with
  | (Panics, c) => (Panics, c)
  | (Returns (Err e), c) => (Returns (Err e), set_liveness c (EnclaveID enclave) false)
  | (Returns (Ok data), c) =>
      let c := setCachedPublicKey now c (EnclaveID enclave) data in
      let c := set_liveness c (EnclaveID enclave) true in
      (Returns (Ok tt), mkPool (nodes c) (deadEnclaves c) (publicKeyCache c)
                         (<[EnclaveID enclave := now]> (lastRefresh c)) (sessionStore c))
  end.

(** Best effort: errors of one enclave do not stop the others. *)
Fixpoint refresh_all (now : Z) (c : enclavePool) (enclaves : list Enclave) (calls : bytes -> key_call) : outcome unit * enclavePool :=
  match enclaves with
  | [] => (Returns (Ok tt), c)
  | enclave :: rest =>
      match refreshSingleKey now c enclave (calls (EnclaveID enclave)) with
      | (Panics, c) => (Panics, c)
      | (Returns _, c) => refresh_all now c rest calls
      end
  end.

Definition refreshAllCachedKeys (now : Z) (c : enclavePool) (order : list Enclave -> list Enclave)
    (calls : bytes -> key_call) : outcome unit * enclavePool :=
  refresh_all now c (order (nodes c)) calls.

(** ** Changing the nodes *)

Fixpoint validateNodes (c : enclavePool) (enclaves : list Enclave) (calls : bytes -> key_call) : outcome unit * enclavePool :=
  match enclaves with
  | [] => (Returns (Ok tt), c)
  | enclave :: rest =>
      match getSingleEnclavePublicKey c enclave (calls (EnclaveID enclave)) with
      | (Panics, c) => (Panics, c)
      | (Returns r, c) =>
          match validateNodes c rest calls with
          | (Panics, c) => (Panics, c)
          | (Returns rs, c) => (Returns (match r with Err e => Err e | Ok _ => rs end), c)
          end
      end
  end.

(** [UpdateNodes]; the refresh it starts in the background is a later
    [refreshAllCachedKeys]. *)
Definition UpdateNodes (c : enclavePool) (newNodes : list Enclave) (order : list Enclave -> list Enclave)
    (calls : bytes -> key_call) : outcome unit * enclavePool :=
  if bool_decide (EnclavesList_Hash newNodes = EnclavesList_Hash (nodes c)) then (Returns (Ok tt), c)
  else match validateNodes c (order newNodes) calls with
  | (Panics, c) => (Panics, c)
  | (Returns (Err e), c) => (Returns (Err e), c)
  | (Returns (Ok _), c) =>
      (Returns (Ok tt),
       match publicKeyCache c with
       | Some cache =>
           if EnableCache cacheConfig
           then mkPool newNodes (deadEnclaves c) (Some (Flush cache))
                  (if EnableProactiveRefresh cacheConfig then ∅ else lastRefresh c) (sessionStore c)
           else mkPool newNodes (deadEnclaves c) (Some cache) (lastRefresh c) (sessionStore c)
       | None => mkPool newNodes (deadEnclaves c) None (lastRefresh c) (sessionStore c)
       end)
  end.

(** ** Executing requests *)

Fixpoint find_nodes (pool : list Enclave) (eIDs : list bytes) : result pool_error (list Enclave) :=
  match eIDs with
  | [] => Ok []
  | enclaveID :: rest =>
      match List.find (fun node => bool_decide (EnclaveID node = enclaveID)) pool with
      | None => Err (EnclaveNotFound enclaveID)
      | Some node => let? found := find_nodes pool rest in Ok (node :: found)
      end
  end.

Definition execute_one (enclave : Enclave) (req : SignedComputeRequest) (call : exec_call) : result pool_error ExecuteResponse :=
  if negb (url_ok (EnclaveURL enclave)) then Err BadURL
  else
    let? _ := SetAuthHeader enclave in
    match ec_do call with
    | None => Err TransportFailed
    | Some resp =>
        let? out := read_response resp in
        let? _ := validateAttestation enclave (ExecuteResponse_UserDataHash out (Version req)) (er_Attestation out) in
        if bool_decide (er_RequestHash out <> ComputeRequest_Hash req) then Err MismatchedRequestHash
        else if bool_decide (Version req <> ServiceConfidentialComputeVersionLegacy) &&
                bool_decide (er_ApplicationRequestID out <> ApplicationRequestID req)
        then Err MismatchedApplicationRequestID
        else Ok out
    end.

(** What a failed execution emits when the pool has an emitter: the events of the
    enclave's error body, the list if there is one, or that the attestation did not
    validate.  [order] visits the legacy map, [text] is [err.Error()]. *)
Definition enclave_scope : gmap string any := {[ "component"%string := AString "enclave" ]}.

Definition error_events (order : gmap string (gmap string any) -> list (string * gmap string any)) (b : error_body) : list MetricEvent :=
  match eb_response b with
  | None => []
  | Some r =>
      match eer_MetricEvents r with
      | [] => map (fun e => scoped enclave_scope e.1 e.2) (order (eer_Metrics r))
      | evs => map (fun ev => scoped enclave_scope (Event ev) (Details ev)) evs
      end
  end.

Definition execute_one_events (order : gmap string (gmap string any) -> list (string * gmap string any)) (text : pool_error -> string)
    (enclave : Enclave) (req : SignedComputeRequest) (call : exec_call) : list MetricEvent :=
  match execute_one enclave req call with
  | Err (RequestFailed _) => error_events order (ec_body call)
  | Err (AttestationRejected _ as e) | Err (NoTrustedMeasurements as e) =>
      [mkEvent "attestation_validation_failed"
         (list_to_map [("enclave.id"%string, AString (string_of (b64_encode (EnclaveID enclave))));
                       ("endpoint"%string, AString "execute"); ("error"%string, AString (text e))])]
  | _ => []
  end.

(** [err.Error()] of a request that was not answered with [200]: the enclave's message
    if the body has one. *)
Definition execute_failed_text (b : error_body) : string :=
  String.append "execute failed: "
    (match eb_response b with
     | Some r => if bool_decide (eer_Error r = ""%string) then eb_text b else eer_Error r
     | None => eb_text b
     end).

(** The goroutines, one per enclave; [reqs] shorter than [enclaves] is an index
    out of range. *)
Fixpoint execute_group (enclaves : list Enclave) (reqs : list SignedComputeRequest) (calls : nat -> exec_call) (i : nat)
    : outcome (list ExecuteResponse) :=
  match enclaves with
  | [] => Returns (Ok [])
  | enclave :: enclaves' =>
      match reqs with
      | [] => Panics
      | req :: reqs' =>
          match execute_group enclaves' reqs' calls (S i) with
          | Panics => Panics
          | Returns rs => Returns (let? out := execute_one enclave req (calls i) in let? outs := rs in Ok (out :: outs))
          end
      end
  end.

Definition ExecuteBatch (c : enclavePool) (timeout_ok : bool) (reqs : list SignedComputeRequest) (eIDs : list bytes)
    (calls : nat -> exec_call) : outcome (list ExecuteResponse) :=
  if negb timeout_ok then Returns (Err TimeoutUnresolved)
  else match find_nodes (nodes c) eIDs with
  | Err e => Returns (Err e)
  | Ok enclaves => execute_group enclaves reqs calls 0
  end.

(** ** Configuration votes *)

Record UpdateConfigResponse := mkUpdateResponse {
  ucr_Applied : bool;
  ucr_Config : EnclaveConfig;
  ucr_Attestation : bytes;
}.

(** [Ok true] when the enclave applied the configuration, [Ok false] when it
    recorded the vote. *)
Definition updateSingleEnclaveConfig (enclave : Enclave) (answer : option (http_response UpdateConfigResponse))
    : result pool_error bool :=
  if negb (url_ok (EnclaveURL enclave)) then Err BadURL
  else
    let? _ := SetAuthHeader enclave in
    match answer with
    | None => Err TransportFailed
    | Some resp =>
        match hr_length resp with
        | None => Err BodyUnreadable
        | Some len =>
            if MaxEnclaveResponseBodyBytes <? len then Err BodyTooLarge
            else if hr_status resp =? 202 then Ok false
            else
              let? out := read_response resp in
              if negb (ucr_Applied out) then Ok false
              else
                let? _ := validateAttestation enclave (SetConfigResponse_UserDataHash (ucr_Config out)) (ucr_Attestation out) in
                Ok true
        end
    end.

(** Best effort: the joined errors of the enclaves that failed. *)
Definition UpdateConfig (c : enclavePool) (timeout_ok : bool)
    (answers : bytes -> option (http_response UpdateConfigResponse)) : result (list pool_error) unit :=
  if negb timeout_ok then Err [TimeoutUnresolved]
  else if glen (nodes c) =? 0 then Err [NoEnclavesInPool]
  else
    let errs := flat_map (fun enclave =>
        match updateSingleEnclaveConfig enclave (answers (EnclaveID enclave)) with Err e => [e] | Ok _ => [] end) (nodes c) in
    match errs with [] => Ok tt | _ => Err errs end.

(** [GetConfigs]: in the order of the nodes. *)
Fixpoint get_configs (c : enclavePool) (enclaves : list Enclave) (calls : bytes -> key_call)
    : outcome (list EnclaveConfig) * enclavePool :=
  match enclaves with
  | [] => (Returns (Ok []), c)
  | enclave :: rest =>
      match getSingleEnclavePublicKey c enclave (calls (EnclaveID enclave)) with
      | (Panics, c) => (Panics, c)
      | (Returns r, c) =>
          match get_configs c rest calls with
          | (Panics, c) => (Panics, c)
          | (Returns rs, c) =>
              (Returns (let? data := r in let? cfgs := rs in Ok (pkr_Config (epk_Response data) :: cfgs)), c)
          end
      end
  end.

Definition GetConfigs (c : enclavePool) (calls : bytes -> key_call) : outcome (list EnclaveConfig) * enclavePool :=
  if glen (nodes c) =? 0 then (Returns (Err NoEnclavesInPool), c)
  else get_configs c (nodes c) calls.

(** ** Construction *)

Definition NewPoolWithConfig (now : Z) (ns : list Enclave) (resolver_given : bool) (order : list Enclave -> list Enclave)
    (calls : bytes -> key_call) : option (outcome enclavePool) :=
  if negb resolver_given then None
  else
    let c := mkPool ns ∅ None ∅ ∅ in
    if EnableCache cacheConfig then
      let c := set_cache c (NewCache (Some (DefaultTTL cacheConfig)) (Some (CleanupInterval cacheConfig))) in
      if EnableProactiveRefresh cacheConfig then
        match refreshAllCachedKeys now c order calls with
        | (Panics, _) => Some Panics
        | (Returns _, c) => Some (Returns (Ok c))
        end
      else Some (Returns (Ok c))
    else Some (Returns (Ok c)).

End Pool.
