(* ===== verification/PoolSafety.v ===== *)
(** * PoolSafety: what the client accepts from enclaves

    Responses, public keys and configurations are accepted only with an
    attestation, cached keys are not used past their lifetime, and the node list
    changes only to nodes that have answered. *)

From Stdlib Require Import SpecFloat.
From S2P Require Import Prelude Float Codec Sha256 Types Cache Selector Pool.

Section PoolSafety.
Context `{HS : Sha256}.
Variables (nitro : bytes -> bytes -> bytes -> bool) (url_ok : string -> bool).
Variables (cc : CacheConfig) (sc : SessionConfig) (retries : Z) (oor : Z).
Implicit Types (c : enclavePool) (e : Enclave) (now : Z).

Abbreviation fetch := (getSingleEnclavePublicKey nitro url_ok sc retries).
Abbreviation store := (setCachedPublicKey cc oor).
Abbreviation effectiveTTL := (calculateEffectiveTTL cc oor).

(** ** Attestation *)

(** One of the enclave's trusted measurements validates the document. *)
Definition trusted e (userData attestation : bytes) : Prop :=
  exists m, m ∈ TrustedValues e /\ ForEnclaveType nitro (EnclaveType e) attestation userData m = true.

Lemma try_measurements_spec v att ud values errs :
  match try_measurements v att ud values errs with
  | (true, _) => exists m, m ∈ values /\ v att ud m = true
  | (false, n) => n = (errs + length values)%nat /\ forall m, m ∈ values -> v att ud m = false
  end.
Proof.
  revert errs. induction values as [|m values IH]; intros errs; cbn [try_measurements].
  - split; [cbn; lia|]. intros m Hm. by apply elem_of_nil in Hm.
  - destruct (v att ud m) eqn:E; [exists m; split; [apply elem_of_cons; by left | done]|].
    specialize (IH (S errs)). destruct (try_measurements _ _ _ _ _) as [[] n].
    + destruct IH as (m' & Hm & Hv). exists m'. split; [apply elem_of_cons; by right | done].
    + destruct IH as [-> Hall]. split; [cbn; lia|]. intros m' [->|Hm]%elem_of_cons; auto.
Qed.

Lemma validateAttestation_spec e ud att :
  match validateAttestation nitro e ud att with
  | Ok _ => trusted e ud att
  | Err x => ~ trusted e ud att /\
      x = (if decide (TrustedValues e = []) then NoTrustedMeasurements else AttestationRejected (length (TrustedValues e)))
  end.
Proof.
  unfold validateAttestation, trusted. cbn [validateAttestationAgainstEnclaves].
  pose proof (try_measurements_spec (ForEnclaveType nitro (EnclaveType e)) att ud (TrustedValues e) 0) as H.
  destruct (try_measurements _ _ _ _ _) as [[] n]; [done|]. destruct H as [-> Hall]. cbn [Nat.add].
  assert (~ exists m, m ∈ TrustedValues e /\ ForEnclaveType nitro (EnclaveType e) att ud m = true) as Hno.
  { intros (m & Hm & Hv). rewrite Hall in Hv by done. done. }
  destruct (TrustedValues e) as [|m l]; cbn [length]; (split; [done|]); by destruct (decide _).
Qed.

Lemma validateAttestation_Ok e ud att u : validateAttestation nitro e ud att = Ok u -> trusted e ud att.
Proof. intros E. pose proof (validateAttestation_spec e ud att) as H. by rewrite E in H. Qed.

(** ** Executing *)

Lemma read_response_Ok {A} (r : http_response A) (a : A) :
  read_response r = Ok a -> hr_status r = 200 /\ hr_json r = Some a /\
    exists n, hr_length r = Some n /\ n <= MaxEnclaveResponseBodyBytes.
Proof.
  unfold read_response. destruct (hr_length r) as [n|]; [|done].
  destruct (_ <? n) eqn:E; [done|]. destruct (hr_status r =? 200) eqn:Es; [|done]. cbn.
  destruct (hr_json r) eqn:Ej; [|done]. intros [= ->]. apply Z.ltb_ge in E. apply Z.eqb_eq in Es. eauto.
Qed.

(** What the client knows about an accepted response. *)
Definition accepted e (req : SignedComputeRequest) (out : ExecuteResponse) : Prop :=
  trusted e (ExecuteResponse_UserDataHash out (Version req)) (er_Attestation out) /\
  er_RequestHash out = ComputeRequest_Hash req /\
  (Version req <> ServiceConfidentialComputeVersionLegacy -> er_ApplicationRequestID out = ApplicationRequestID req).

Lemma execute_one_Ok e req call out : execute_one nitro url_ok e req call = Ok out -> accepted e req out.
Proof.
  unfold execute_one. destruct (negb _); [done|]. destruct (SetAuthHeader e); [|done]. cbn [rbind].
  destruct (ec_do call) as [resp|]; [|done]. destruct (read_response resp) as [o|]; [|done]. cbn [rbind].
  destruct (validateAttestation _ _ _ _) as [u|] eqn:Ev; [|done]. cbn [rbind].
  case_bool_decide as Eh; [done|]. destruct (_ && _) eqn:Ea; [done|]. intros [= ->].
  apply validateAttestation_Ok in Ev. split_and!; [done|done|].
  intros Hv. apply andb_false_iff in Ea as [Ea|Ea]; apply bool_decide_eq_false in Ea; [done|by apply dec_stable].
Qed.

Lemma execute_group_Ok enclaves : forall reqs calls i outs,
  execute_group nitro url_ok enclaves reqs calls i = Returns (Ok outs) ->
  length outs = length enclaves /\
  forall j e, enclaves !! j = Some e -> exists req out, reqs !! j = Some req /\ outs !! j = Some out /\ accepted e req out.
Proof.
  induction enclaves as [|e enclaves IH]; intros reqs calls i outs; cbn [execute_group].
  - intros [= <-]. split; [done|]. by intros.
  - destruct reqs as [|req reqs]; [done|]. destruct (execute_group _ _ _ _ _ _) as [rs|] eqn:Eg; [|done].
    destruct (execute_one _ _ _ _ _) as [out|] eqn:Eo; [|done]. cbn [rbind]. destruct rs as [outs'|]; [|done].
    cbn [rbind]. intros [= <-]. destruct (IH _ _ _ _ Eg) as [Hl Hall]. split; [cbn; lia|].
    intros [|j] e' He; [|by apply (Hall j e')]. injection He as ->. exists req, out. split_and!; [done..|].
    by eapply execute_one_Ok.
Qed.

Lemma find_nodes_Ok pool eIDs enclaves :
  find_nodes pool eIDs = Ok enclaves ->
  length enclaves = length eIDs /\
  forall j id, eIDs !! j = Some id -> exists e, enclaves !! j = Some e /\ e ∈ pool /\ EnclaveID e = id.
Proof.
  revert enclaves. induction eIDs as [|id eIDs IH]; intros enclaves; cbn [find_nodes].
  - intros [= <-]. split; [done|]. by intros.
  - destruct (List.find _ _) as [node|] eqn:Ef; [|done]. destruct (find_nodes pool eIDs) as [l|]; [|done].
    cbn [rbind]. intros [= <-]. destruct (IH l eq_refl) as [Hl Hall]. split; [cbn; lia|].
    intros [|j] id' Hid; [|by apply (Hall j id')]. injection Hid as <-. exists node.
    apply List.find_some in Ef as [Hin Hb%bool_decide_eq_true]. split_and!; [done|by apply list_elem_of_In|done].
Qed.

Lemma batch_accepted c timeout_ok reqs eIDs calls outs :
  ExecuteBatch nitro url_ok c timeout_ok reqs eIDs calls = Returns (Ok outs) ->
  length outs = length eIDs /\
  forall j id, eIDs !! j = Some id ->
    exists e req out, e ∈ nodes c /\ EnclaveID e = id /\ reqs !! j = Some req /\ outs !! j = Some out /\
      accepted e req out.
Proof.
  unfold ExecuteBatch. destruct (negb _); [done|]. destruct (find_nodes _ _) as [enclaves|] eqn:Ef; [|done].
  intros [Hl Hall]%execute_group_Ok. apply find_nodes_Ok in Ef as [Hl' Hf]. split; [congruence|].
  intros j id Hid. destruct (Hf j id Hid) as (e & He & Hin & Heid). destruct (Hall j e He) as (req & out & Hr & Ho & Ha).
  eauto 10.
Qed.

(** Every response comes from the network. *)
Lemma execute_group_received enclaves : forall reqs calls i outs out,
  execute_group nitro url_ok enclaves reqs calls i = Returns (Ok outs) -> out ∈ outs ->
  exists j resp, ec_do (calls j) = Some resp /\ hr_json resp = Some out.
Proof.
  induction enclaves as [|e enclaves IH]; intros reqs calls i outs out; cbn [execute_group].
  - intros [= <-] ?%elem_of_nil. done.
  - destruct reqs as [|req reqs]; [done|]. destruct (execute_group _ _ _ _ _ _) as [rs|] eqn:Eg; [|done].
    destruct (execute_one _ _ _ _ _) as [o|] eqn:Eo; [|done]. cbn [rbind]. destruct rs as [outs'|]; [|done].
    cbn [rbind]. intros [= <-] [->|Ho]%elem_of_cons; [|by eapply IH]. unfold execute_one in Eo.
    destruct (negb _); [done|]. destruct (SetAuthHeader e); [|done]. cbn [rbind] in Eo.
    destruct (ec_do (calls i)) as [resp|] eqn:Ed; [|done]. exists i, resp. split; [done|].
    apply rbind_Ok_inv in Eo as (o' & (_ & Hj & _)%read_response_Ok & Eo). apply rbind_Ok_inv in Eo as (_ & _ & Eo).
    destruct (bool_decide (_ <> _)); [done|]. destruct (_ && _); [done|]. by injection Eo as <-.
Qed.

Lemma batch_received c timeout_ok reqs eIDs calls outs out :
  ExecuteBatch nitro url_ok c timeout_ok reqs eIDs calls = Returns (Ok outs) -> out ∈ outs ->
  exists j resp, ec_do (calls j) = Some resp /\ hr_json resp = Some out.
Proof.
  unfold ExecuteBatch. destruct (negb _); [done|]. destruct (find_nodes _ _); [|done]. apply execute_group_received.
Qed.

(** A batch execution that succeeds returns one response per requested
    enclave, in order, each with an attestation validated by a measurement the
    client trusts for that enclave of the pool, over the response itself, and
    bound to the request sent to it: same request hash and, outside the legacy
    version, same application request ID. *)
Theorem batch_responses_validated c timeout_ok reqs eIDs calls outs :
  ExecuteBatch nitro url_ok c timeout_ok reqs eIDs calls = Returns (Ok outs) ->
  length outs = length eIDs /\
  forall j id, eIDs !! j = Some id ->
    exists e req out, e ∈ nodes c /\ EnclaveID e = id /\ reqs !! j = Some req /\ outs !! j = Some out /\
      accepted e req out.
Proof. apply batch_accepted. Qed.

Section EndToEnd.
(** [genuine m x]: an enclave with measurement [m] had the value [x] attested. *)
Variable genuine : bytes -> hashed -> Prop.
Hypothesis nitro_sound : forall att ud m,
  nitro att ud m = true -> exists x, genuine m x /\ id_ok x = true /\ hash_of x = ud.
Hypothesis genuine_ok : forall m er v, genuine m (HResponse er v) -> ExecuteResponse_ok er.

(** [out] is what an enclave that [e] trusts produced for [req]. *)
Definition produced_for e (req : SignedComputeRequest) (out : ExecuteResponse) : Prop :=
  exists m er v, m ∈ TrustedValues e /\ genuine m (HResponse er v) /\ er_bound er = er_bound out /\
    er_RequestHash er = ComputeRequest_Hash req /\
    (Version req <> ServiceConfidentialComputeVersionLegacy -> er_ApplicationRequestID er = ApplicationRequestID req).

(** A value attested under a measurement that [e] trusts collides with [out] (or
    its configuration with that of [out]) under SHA-256. *)
Definition collides_with e (req : SignedComputeRequest) (out : ExecuteResponse) : Prop :=
  exists m x, m ∈ TrustedValues e /\ genuine m x /\
    (collision (preimage x) (ExecuteResponse_writes out (Version req)) \/
     exists er v, x = HResponse er v /\
       collision (EnclaveConfig_writes (er_Config er)) (EnclaveConfig_writes (er_Config out))).

Lemma accepted_produced e req out :
  ExecuteResponse_ok out -> EnclaveType e <> EnclaveTypeFake -> accepted e req out ->
  produced_for e req out \/ collides_with e req out.
Proof.
  intros Hout Hty ((m & Hm & Hv) & Hh & Hid). unfold ForEnclaveType in Hv.
  rewrite bool_decide_eq_false_2 in Hv by done. destruct (nitro_sound _ _ _ Hv) as (x & Hg & Hx & E).
  change (ExecuteResponse_UserDataHash out (Version req)) with (hash_of (HResponse out (Version req))) in E.
  assert (id_ok (HResponse out (Version req)) = true) as Hy by (apply Nat.eqb_eq, Hout).
  apply sha256_eq_or_collision in E as [E|E]; [|by right; exists m, x; auto].
  pose proof (preimage_tag _ _ Hx Hy E) as Ht. destruct x as [| |er v| | |]; try done. clear Ht.
  apply response_preimage_binds in E as [(Hb & Hleg & Happ)|E];
    [|right; exists m, (HResponse er v); split_and!; [done..|by eauto]|by eauto|done].
  left. exists m, er, v. split_and!; [done..| |].
  - rewrite <- Hh. unfold er_bound in Hb. congruence.
  - intros Hn. rewrite <- (Hid Hn). apply Happ. tauto.
Qed.

(** C4 End to end: suppose a document that Nitro validation accepts for a
    measurement carries user data that an enclave with this measurement
    had attested, the hash of one of the six hashed kinds of value.  Then every
    response of a successful batch execution on enclaves that are not fake ones
    was produced by an enclave with a measurement the client trusts for it, with
    the same request ID, request hash, output and configuration, for
    the very request that was sent; the only other possibility is that what the
    enclave attested and what the client received are a SHA-256 collision. *)
Theorem accepted_responses_genuine c timeout_ok reqs eIDs calls outs :
  ExecuteBatch nitro url_ok c timeout_ok reqs eIDs calls = Returns (Ok outs) ->
  Forall ExecuteResponse_ok outs -> Forall (fun e => EnclaveType e <> EnclaveTypeFake) (nodes c) ->
  forall j id, eIDs !! j = Some id ->
  exists e req out, e ∈ nodes c /\ EnclaveID e = id /\ reqs !! j = Some req /\ outs !! j = Some out /\
    (produced_for e req out \/ collides_with e req out).
Proof.
  intros H Hok Hty j id Hid. destruct (batch_accepted _ _ _ _ _ _ H) as [_ Hall].
  destruct (Hall j id Hid) as (e & req & out & He & Heid & Hr & Ho & Ha). exists e, req, out. split_and!; try done.
  rewrite Forall_forall in Hty. apply accepted_produced; [by eapply Forall_lookup_1|by apply Hty|done].
Qed.
End EndToEnd.

(** ** Public keys *)

(** Keys of [e] that the client may use. *)
Definition valid_keys e (data : EnclavePublicKeyData) : Prop :=
  epk_EnclaveID data = EnclaveID e /\ IsZero (pkr_Config (epk_Response data)) = false /\
  trusted e (PublicKeyHash (epk_Response data)) (pkr_Attestation (epk_Response data)).

Lemma fetch_frame c e call out c' : fetch c e call = (out, c') ->
  nodes c' = nodes c /\ deadEnclaves c' = deadEnclaves c /\ publicKeyCache c' = publicKeyCache c /\
  lastRefresh c' = lastRefresh c.
Proof.
  unfold getSingleEnclavePublicKey. intros H.
  repeat case_match; injection H as <- <-; try done.
  unfold updateSession. by repeat case_match.
Qed.

Lemma fetch_Ok c e call data c' : fetch c e call = (Returns (Ok data), c') -> valid_keys e data.
Proof.
  unfold getSingleEnclavePublicKey. intros H.
  repeat case_match; try discriminate. injection H as <- <-. split_and!; [done..|].
  eapply validateAttestation_Ok; eauto.
Qed.

(** The attempts stop at the first answer and there are at most [retries + 1]. *)
Lemma fetch_attempts_first call n : forall k r,
  fetch_attempts call k n = Some r <->
  exists j, (j < n)%nat /\ kc_do call (k + j)%nat = Some r /\
    forall i, (i < j)%nat -> kc_do call (k + i)%nat = None /\ kc_cancelled call (k + i)%nat = false.
Proof.
  induction n as [|n IH]; intros k r; cbn [fetch_attempts]; [split; [done|]; intros (j & ? & _); lia|].
  destruct (kc_do call k) as [r0|] eqn:E.
  - split.
    + intros [= <-]. exists 0%nat. rewrite Nat.add_0_r. split_and!; [lia|done|]. lia.
    + intros ([|j] & Hj & Hd & Hn); [rewrite Nat.add_0_r in Hd; congruence|].
      destruct (Hn 0%nat) as [H0 _]; [lia|]. rewrite Nat.add_0_r in H0. congruence.
  - destruct n as [|n'].
    { split; [done|]. intros ([|j] & Hj & Hd & _); [rewrite Nat.add_0_r in Hd; congruence | lia]. }
    destruct (kc_cancelled call k) eqn:Ec.
    + split; [done|]. intros ([|j] & Hj & Hd & Hn); [rewrite Nat.add_0_r in Hd; congruence|].
      destruct (Hn 0%nat) as [_ H0]; [lia|]. rewrite Nat.add_0_r in H0. congruence.
    + rewrite IH. split; intros (j & Hj & Hd & Hn).
      * exists (S j). rewrite <- Nat.add_succ_comm. split_and!; [lia|done|].
        intros [|i] Hi; [by rewrite Nat.add_0_r | rewrite <- Nat.add_succ_comm; apply Hn; lia].
      * destruct j as [|j]; [rewrite Nat.add_0_r in Hd; congruence|]. exists j.
        rewrite Nat.add_succ_comm. split_and!; [lia|done|]. intros i Hi. rewrite Nat.add_succ_comm. apply Hn. lia.
Qed.

(** ** Lifetimes *)

Lemma min_ttl_le ttl ttls : min_ttl ttl ttls <= ttl /\ Forall (fun x => min_ttl ttl ttls <= x) ttls.
Proof.
  unfold min_ttl. revert ttl. induction ttls as [|x ttls IH]; intros ttl; cbn [fold_left]; [split; [lia | done]|].
  destruct (IH (if x <? ttl then x else ttl)) as [H1 H2].
  destruct (x <? ttl) eqn:E; [apply Z.ltb_lt in E | apply Z.ltb_ge in E]; (split; [lia|]); constructor; try lia; done.
Qed.

Lemma min_ttl_in ttl ttls : min_ttl ttl ttls ∈ ttl :: ttls.
Proof.
  unfold min_ttl. revert ttl. induction ttls as [|x ttls IH]; intros ttl; cbn [fold_left]; [apply list_elem_of_singleton; done|].
  specialize (IH (if x <? ttl then x else ttl)). destruct (x <? ttl); set_solver.
Qed.

Hypothesis config_sane : 0 <= MaxTTL cc <= max_duration /\ 0 <= DefaultTTL cc <= max_duration.
Hypothesis oor_i64 : is_i64 oor.

Lemma scale_duration_range d p : is_i64 (scale_duration oor d p).
Proof.
  unfold scale_duration, int_of_float. destruct (float_trunc _) as [z|]; [|done].
  destruct ((min_duration <=? _) && _) eqn:E; [|done].
  apply andb_true_iff in E as [E1%Z.leb_le E2%Z.leb_le]. unfold is_i64, min_duration, max_duration in *. lia.
Qed.

(** A second or more is taken off the shortest lifetime. *)
Lemma effectiveTTL_bound ttls :
  Forall (fun x => 0 <= x <= max_duration) ttls ->
  effectiveTTL ttls <= max_duration - second /\ forall ttl, ttl ∈ ttls -> effectiveTTL ttls + second <= ttl.
Proof.
  intros Hall. unfold calculateEffectiveTTL.
  match goal with |- context [scale_duration _ ?m _] => set (minTTL := m) end.
  assert (0 <= minTTL <= max_duration /\ forall ttl, ttl ∈ ttls -> minTTL <= ttl) as [Hm Hle].
  { unfold minTTL. destruct ttls as [|t0 ttls]; [split; [lia|]; intros x Hx; by apply elem_of_nil in Hx|].
    destruct (min_ttl_le t0 ttls) as [H1 H2]. rewrite Forall_forall in Hall, H2. pose proof (Hall _ (min_ttl_in t0 ttls)).
    destruct (_ <? _) eqn:E; [apply Z.ltb_lt in E | apply Z.ltb_ge in E]; (split; [lia|]);
      intros x [->|Hx]%elem_of_cons; try lia; specialize (H2 x Hx); lia. }
  set (b := if _ <? second then _ else _).
  assert (second <= b <= max_duration) as Hb.
  { pose proof (scale_duration_range minTTL (TTLBufferPercent cc)) as Hr. unfold is_i64, max_duration, second in *. unfold b.
    destruct (_ <? _) eqn:E; [lia|]. apply Z.ltb_ge in E. lia. }
  rewrite i64_id by (unfold is_i64, max_duration, second in *; lia).
  split; [lia|]. intros ttl Ht. specialize (Hle ttl Ht). lia.
Qed.

(** ** Invariant of the cache *)

(** A cached entry: validated for an enclave that was in the pool, with a
    lifetime below the keys' own. *)
Definition entry_ok (known : list Enclave) (id : bytes) (it : CacheItem cachedPublicKeyData) : Prop :=
  (exists e, e ∈ known /\ EnclaveID e = id /\ valid_keys e (cpk_Data (Value it))) /\
  CreationTime it = cpk_CachedAt (Value it) /\
  TimeToLive it = effectiveTTL (pkr_TTLs (epk_Response (cpk_Data (Value it)))).

Record pool_inv (known : list Enclave) c : Prop := {
  pi_nodes : nodes c ⊆ known;
  pi_cache : forall cache, publicKeyCache c = Some cache -> cache_inv cache;
  pi_entries : forall cache id it, publicKeyCache c = Some cache -> items cache !! id = Some it -> entry_ok known id it;
}.

Lemma pool_inv_frame known c c' : pool_inv known c -> nodes c' = nodes c -> publicKeyCache c' = publicKeyCache c ->
  pool_inv known c'.
Proof. intros [H1 H2 H3] En Ec. split; rewrite ?En, ?Ec; done. Qed.

Lemma pool_inv_fetch known c e call : pool_inv known c -> pool_inv known (fetch c e call).2.
Proof.
  intros H. destruct (fetch c e call) as [out c'] eqn:E. destruct (fetch_frame _ _ _ _ _ E) as (? & _ & ? & _).
  by eapply pool_inv_frame.
Qed.

Lemma pool_inv_store known now c e data :
  pool_inv known c -> e ∈ known -> valid_keys e data -> pool_inv known (store now c (EnclaveID e) data).
Proof.
  intros Hi He Hv. unfold setCachedPublicKey. destruct (publicKeyCache c) as [cache|] eqn:Ec; [|done].
  destruct (negb _); [done|]. destruct (_ <=? 0); [done|]. destruct Hi as [H1 H2 H3]. split; cbn.
  - done.
  - intros cache' [= <-]. by apply setLocked_inv, H2.
  - intros cache' id it [= <-]. unfold Set_. rewrite setLocked_lookup by by apply H2.
    destruct (decide (id = EnclaveID e)) as [->|]; [intros [= <-]; split; eauto|].
    destruct (decide _); [done|]. by apply H3.
Qed.

(** What the cache returns is valid and within its lifetime. *)
Lemma pool_inv_cached known now c id data :
  pool_inv known c -> getCachedPublicKey cc now c id = Some data ->
  exists e t0, e ∈ known /\ EnclaveID e = id /\ valid_keys e data /\
    (Forall (fun x => 0 <= x <= max_duration) (pkr_TTLs (epk_Response data)) ->
     forall ttl, ttl ∈ pkr_TTLs (epk_Response data) -> now + second <= t0 + ttl).
Proof.
  intros [H1 H2 H3]. unfold getCachedPublicKey. destruct (publicKeyCache c) as [cache|]; [|done].
  destruct (EnableCache cc); [|done]. unfold Get. destruct (items cache !! id) as [it|] eqn:E; [|done].
  destruct (expired now it) eqn:Ex; [done|]. intros [= <-].
  destruct (H3 cache id it eq_refl E) as ((e & He & Hid & Hv) & Hcr & Httl). exists e, (CreationTime it).
  split_and!; [done..|]. intros Hall ttl Ht. destruct (effectiveTTL_bound _ Hall) as [Hmax Hle]. specialize (Hle ttl Ht).
  unfold expired, time_sub in Ex. apply Z.ltb_ge in Ex. rewrite Httl in Ex. unfold min_duration, max_duration, second in *. lia.
Qed.

(** ** Steps of the pool

    [known] collects the enclaves that are or were in the pool: a fetch begun
    before the nodes changed may finish afterwards ([step_late]). *)

Abbreviation get_keys := (GetPublicKeys nitro url_ok cc sc retries oor).
Abbreviation fetch_one := (fetch_or_cached nitro url_ok cc sc retries oor).

Definition collect now c : enclavePool :=
  match publicKeyCache c with
  | Some cache => set_cache c (garbageCollect now cache).2
  | None => c
  end.

Definition completion_order (order : list Enclave -> list Enclave) : Prop := forall l, order l ≡ₚ l.

Inductive pool_step : list Enclave * enclavePool -> list Enclave * enclavePool -> Prop :=
| step_get known c now requestID check order calls :
    completion_order order ->
    pool_step (known, c) (known, (get_keys now c requestID check order calls).2)
| step_refresh known c now order calls :
    completion_order order ->
    pool_step (known, c) (known, (refreshAllCachedKeys nitro url_ok cc sc retries oor now c order calls).2)
| step_update known c newNodes order calls :
    completion_order order ->
    pool_step (known, c) (newNodes ++ known, (UpdateNodes nitro url_ok cc sc retries c newNodes order calls).2)
| step_configs known c calls :
    pool_step (known, c) (known, (GetConfigs nitro url_ok sc retries c calls).2)
| step_late known c now e call :
    e ∈ known -> pool_step (known, c) (known, (fetch_one now c e call).2)
| step_collect known c now :
    pool_step (known, c) (known, collect now c).

Definition new_pool (ns : list Enclave) : enclavePool :=
  mkPool ns ∅ (if EnableCache cc then Some (NewCache (Some (DefaultTTL cc)) (Some (CleanupInterval cc))) else None) ∅ ∅.

Lemma pool_inv_fetch_one known now c e call :
  pool_inv known c -> e ∈ known -> pool_inv known (fetch_one now c e call).2.
Proof.
  intros Hi He. unfold fetch_or_cached. pose proof (pool_inv_fetch known c e call Hi) as Hf.
  destruct (fetch c e call) as [[[data|x]|] c'] eqn:E; cbn [snd] in *; [|by destruct (getCachedPublicKey _ _ _ _)|done].
  apply pool_inv_store; [done..|]. by eapply fetch_Ok.
Qed.

Lemma pool_inv_group known now calls enclaves : forall c,
  pool_inv known c -> (forall e, e ∈ enclaves -> e ∈ known) ->
  pool_inv known (fetch_group nitro url_ok cc sc retries oor now c enclaves calls).2.
Proof.
  induction enclaves as [|e enclaves IH]; intros c Hi Hsub; [done|]. cbn [fetch_group].
  pose proof (pool_inv_fetch_one known now c e (calls (EnclaveID e)) Hi) as H1.
  destruct (fetch_one _ _ _ _) as [[r|] c1]; cbn [snd] in *; [|apply H1; set_solver].
  pose proof (IH c1 (H1 ltac:(set_solver)) ltac:(set_solver)) as H2.
  by destruct (fetch_group _ _ _ _ _ _ _ _ _ _) as [[rs|] c2].
Qed.

Lemma pool_inv_refresh known now calls enclaves : forall c,
  pool_inv known c -> (forall e, e ∈ enclaves -> e ∈ known) ->
  pool_inv known (refresh_all nitro url_ok cc sc retries oor now c enclaves calls).2.
Proof.
  induction enclaves as [|e enclaves IH]; intros c Hi Hsub; [done|]. cbn [refresh_all].
  assert (pool_inv known (refreshSingleKey nitro url_ok cc sc retries oor now c e (calls (EnclaveID e))).2) as H1.
  { unfold refreshSingleKey. pose proof (pool_inv_fetch known c e (calls (EnclaveID e)) Hi) as Hf.
    destruct (fetch c e _) as [[[data|x]|] c'] eqn:E; cbn [snd] in *; [| |done].
    - eapply (pool_inv_frame known (store now c' (EnclaveID e) data)); [|done..].
      apply pool_inv_store; [done|set_solver|by eapply fetch_Ok].
    - by eapply pool_inv_frame. }
  destruct (refreshSingleKey _ _ _ _ _ _ _ _ _ _) as [[r|] c1]; cbn [snd] in *; [|done]. apply IH; [done|set_solver].
Qed.

Lemma pool_inv_validate known calls enclaves : forall c,
  pool_inv known c -> pool_inv known (validateNodes nitro url_ok sc retries c enclaves calls).2.
Proof.
  induction enclaves as [|e enclaves IH]; intros c Hi; [done|]. cbn [validateNodes].
  pose proof (pool_inv_fetch known c e (calls (EnclaveID e)) Hi) as H1.
  destruct (fetch c e _) as [[r|] c1]; cbn [snd] in *; [|done].
  specialize (IH c1 H1). by destruct (validateNodes _ _ _ _ _ _ _) as [[rs|] c2].
Qed.

Lemma pool_inv_configs known calls enclaves : forall c,
  pool_inv known c -> pool_inv known (get_configs nitro url_ok sc retries c enclaves calls).2.
Proof.
  induction enclaves as [|e enclaves IH]; intros c Hi; [done|]. cbn [get_configs].
  pose proof (pool_inv_fetch known c e (calls (EnclaveID e)) Hi) as H1.
  destruct (fetch c e _) as [[r|] c1]; cbn [snd] in *; [|done].
  specialize (IH c1 H1). by destruct (get_configs _ _ _ _ _ _ _) as [[rs|] c2].
Qed.

Lemma pool_inv_more known known' c : pool_inv known c -> known ⊆ known' -> pool_inv known' c.
Proof.
  intros [H1 H2 H3] Hs. split; [set_solver|done|]. intros cache id it Hc Hit.
  destruct (H3 cache id it Hc Hit) as ((e & He & ?) & ?). split; [|done]. exists e. set_solver.
Qed.

Lemma pool_inv_step s s' : pool_step s s' -> pool_inv s.1 s.2 -> pool_inv s'.1 s'.2.
Proof.
  destruct 1 as [known c now rid check order calls Ho|known c now order calls Ho|known c ns order calls Ho
                |known c calls|known c now e call He|known c now]; cbn [fst snd]; intros Hi.
  - unfold GetPublicKeys. destruct (SelectEnclaves _ _ _ _) as [sel|] eqn:Es; [|done].
    apply pool_inv_group; [done|]. intros e. rewrite (Ho sel). intros He. apply (pi_nodes _ _ Hi).
    apply SelectEnclaves_Ok in Es as (e' & b & a & -> & Hr & _). apply list_elem_of_singleton in He as ->.
    eapply matching_sub. rewrite <- rotate_perm, Hr. set_solver.
  - unfold refreshAllCachedKeys. apply pool_inv_refresh; [done|]. intros e. rewrite (Ho (nodes c)). apply (pi_nodes _ _ Hi).
  - unfold UpdateNodes. apply (pool_inv_more known (ns ++ known)) in Hi; [|set_solver].
    destruct (bool_decide _); [done|]. pose proof (pool_inv_validate (ns ++ known) calls (order ns) c Hi) as Hv.
    destruct (validateNodes _ _ _ _ _ _ _) as [[[u|x]|] c1]; cbn [snd] in *; [|done..].
    destruct Hv as [H1 H2 H3]. split; cbn.
    + repeat case_match; cbn; set_solver.
    + destruct (publicKeyCache c1) as [k|]; [|done]. destruct (EnableCache cc); cbn; intros k' [= <-]; [apply Flush_inv | eauto].
    + destruct (publicKeyCache c1) as [k|]; [|done]. destruct (EnableCache cc); cbn; intros k' id it [= <-]; [|by eapply H3].
      cbn. by rewrite lookup_empty.
  - unfold GetConfigs. destruct (_ =? 0); [done|]. by apply pool_inv_configs.
  - by apply pool_inv_fetch_one.
  - destruct Hi as [H1 H2 H3]. unfold collect. destruct (publicKeyCache c) as [k|] eqn:Ek; [|split; by rewrite ?Ek].
    split; cbn; [done|intros k' [= <-]; apply gc_inv; eauto|]. intros k' id it [= <-]. rewrite gc_lookup by eauto.
    destruct (items k !! id) as [it'|] eqn:Ei; [|done]. destruct (expired now it'); [done|]. intros [= <-]. eauto.
Qed.

Lemma pool_inv_new ns : pool_inv ns (new_pool ns).
Proof.
  split; cbn; [done| |]; destruct (EnableCache cc); try done.
  - intros k [= <-]. apply New_inv.
  - intros k id it [= <-]. unfold NewCache. by rewrite New_lookup.
Qed.

Lemma pool_inv_reachable ns known c : rtc pool_step (ns, new_pool ns) (known, c) -> pool_inv known c.
Proof.
  intros H. change (pool_inv (known, c).1 (known, c).2).
  revert H. generalize (known, c). intros s H.
  refine (rtc_ind_r (fun s => pool_inv s.1 s.2) (ns, new_pool ns) (pool_inv_new ns) _ s H).
  intros s1 s2 _ Hs Hi. by eapply pool_inv_step.
Qed.

(** Fetched now, or cached within the lifetime of the keys. *)
Definition usable now (known : list Enclave) (sel : Enclave) (data : EnclavePublicKeyData) : Prop :=
  valid_keys sel data \/
  exists e t0, e ∈ known /\ EnclaveID e = EnclaveID sel /\ valid_keys e data /\
    (Forall (fun x => 0 <= x <= max_duration) (pkr_TTLs (epk_Response data)) ->
     forall ttl, ttl ∈ pkr_TTLs (epk_Response data) -> now + second <= t0 + ttl).

Lemma fetch_one_Ok known now c e call data c' :
  pool_inv known c -> fetch_one now c e call = (Returns (Ok data), c') -> usable now known e data.
Proof.
  intros Hi. unfold fetch_or_cached. pose proof (pool_inv_fetch known c e call Hi) as Hf.
  destruct (fetch c e call) as [[[data'|x]|] c1] eqn:E; cbn [snd] in Hf; [|destruct (getCachedPublicKey _ _ _ _) eqn:Eg|]; [|..|done].
  - intros [= -> _]. left. by eapply fetch_Ok.
  - intros [= -> _]. right. eapply pool_inv_cached in Eg as (e' & t0 & H1 & H2 & H3 & H4); [|done]. eauto 10.
  - done.
Qed.

(** In every reachable state of the pool, whatever refreshes, node changes
    and late fetches happened before, a successful [GetPublicKeys] returns the
    keys of exactly one enclave, which is in the pool, satisfies the requirements
    and is not known to be dead.  The keys carry a non-empty configuration and an
    attestation validated for an enclave with that ID, fetched just now or
    cached; cached keys are used only up to a second before the shortest lifetime
    the enclave announced. *)
Theorem returned_keys_usable ns known c now requestID check order calls datas c' :
  rtc pool_step (ns, new_pool ns) (known, c) -> completion_order order ->
  get_keys now c requestID check order calls = (Returns (Ok datas), c') ->
  exists sel data, datas = [data] /\ sel ∈ nodes c /\ (forall f, check = Some f -> f sel = true) /\
    (EnclaveID sel ∉ deadEnclaves c) /\ epk_EnclaveID data = EnclaveID sel /\ usable now known sel data.
Proof.
  intros Hreach%pool_inv_reachable Ho. unfold GetPublicKeys.
  destruct (SelectEnclaves _ _ _ _) as [sel|] eqn:Es; [|done].
  apply SelectEnclaves_Ok in Es as (e & b & a & -> & Hr & Hlive & _).
  assert (order [e] = [e]) as -> by (apply Permutation_singleton_r, Ho).
  assert (e ∈ matching check (nodes c)) as Hin by (rewrite <- rotate_perm, Hr; set_solver).
  cbn [fetch_group]. destruct (fetch_one _ _ _ _) as [[[data|x]|] c1] eqn:E; [|done..]. intros [= <- <-].
  pose proof (fetch_one_Ok _ _ _ _ _ _ _ Hreach E) as Hu. exists e, data.
  split_and!; [done|by eapply matching_sub| |done| |done].
  - intros f ->. cbn in Hin. by apply elem_of_filter_bool in Hin as [_ ?].
  - destruct Hu as [(-> & _)|(e' & t0 & _ & <- & (-> & _) & _)]; done.
Qed.

(** ** Node changes *)

Lemma validateNodes_Ok calls enclaves : forall c u c',
  validateNodes nitro url_ok sc retries c enclaves calls = (Returns (Ok u), c') ->
  forall e, e ∈ enclaves -> exists data, valid_keys e data.
Proof.
  induction enclaves as [|e enclaves IH]; intros c u c' H e' He; [by apply elem_of_nil in He|]. cbn [validateNodes] in H.
  destruct (fetch c e _) as [[r|] c1] eqn:E; [|done].
  destruct (validateNodes _ _ _ _ _ _ _) as [[rs|] c2] eqn:Ev; [|done]. destruct r as [data|]; [|done].
  injection H as -> <-. apply elem_of_cons in He as [->|He]; [exists data; by eapply fetch_Ok | by eapply IH].
Qed.

Lemma validateNodes_frame calls enclaves : forall c,
  nodes (validateNodes nitro url_ok sc retries c enclaves calls).2 = nodes c /\
  publicKeyCache (validateNodes nitro url_ok sc retries c enclaves calls).2 = publicKeyCache c.
Proof.
  induction enclaves as [|e enclaves IH]; intros c; [done|]. cbn [validateNodes].
  destruct (fetch c e _) as [[r|] c1] eqn:E; destruct (fetch_frame _ _ _ _ _ E) as (En & _ & Ec & _); [|done].
  specialize (IH c1). destruct (validateNodes _ _ _ _ _ _ _) as [[rs|] c2]; cbn in *; rewrite <- En, <- Ec; done.
Qed.

(** [UpdateNodes] is all or nothing: on an error the node list and the key
    cache stay as they were; on success either the list is unchanged (or its hash
    collides), or every new node has presented attested keys under a non-empty
    configuration and no key fetched before the change is left in the cache. *)
Theorem update_nodes_atomic c newNodes order calls r c' :
  Forall Enclave_ok newNodes -> Forall Enclave_ok (nodes c) -> fits newNodes -> fits (nodes c) ->
  completion_order order ->
  UpdateNodes nitro url_ok cc sc retries c newNodes order calls = (Returns r, c') ->
  match r with
  | Err _ => nodes c' = nodes c /\ publicKeyCache c' = publicKeyCache c
  | Ok _ =>
      (c' = c /\ (newNodes = nodes c \/ collision (EnclavesList_writes newNodes) (EnclavesList_writes (nodes c)))) \/
      (nodes c' = newNodes /\ (forall e, e ∈ newNodes -> exists data, valid_keys e data) /\
       forall now id, getCachedPublicKey cc now c' id = None)
  end.
Proof.
  intros H1 H2 H3 H4 Ho. unfold UpdateNodes. case_bool_decide as Eh.
  - intros [= <- <-]. left. split; [done|]. apply sha256_eq_or_collision in Eh as [E|E]; [left|by right].
    by apply EnclavesList_writes_inj.
  - pose proof (validateNodes_frame calls (order newNodes) c) as [En Ec].
    destruct (validateNodes _ _ _ _ _ _ _) as [[[u|x]|] c1] eqn:Ev; cbn [snd] in *; [| |done].
    + intros [= <- <-]. right. split_and!.
      * repeat case_match; done.
      * intros e He. eapply validateNodes_Ok; [done|]. by rewrite (Ho newNodes).
      * intros now id. unfold getCachedPublicKey. destruct (publicKeyCache c1) as [k|]; [|done].
        destruct (EnableCache cc); cbn; [|done]. unfold Get. cbn. by rewrite lookup_empty.
    + intros [= <- <-]. done.
Qed.

(** ** Sessions *)

Lemma fold_sessions keys v : forall (m : gmap bytes string) key,
  key ∈ keys -> key <> [] ->
  fold_left (fun (m : gmap bytes string) (key : bytes) => if glen key =? 0 then m else <[b64_encode key := v]> m) keys m
    !! b64_encode key = Some v.
Proof.
  induction keys as [|k keys IH] using rev_ind; intros m key Hin Hne; [by apply elem_of_nil in Hin|].
  rewrite fold_left_app. cbn [fold_left]. destruct (decide (b64_encode k = b64_encode key)) as [E|E].
  - destruct (glen k =? 0) eqn:Ek; [|rewrite E; apply lookup_insert_eq].
    assert (k = []) as -> by (apply Z.eqb_eq in Ek; unfold glen in Ek; destruct k; [done | cbn in Ek; lia]).
    apply elem_of_app in Hin as [Hin| ->%list_elem_of_singleton]; [by apply IH | done].
  - assert (key ∈ keys) as Hin' by (apply elem_of_app in Hin as [?| ->%list_elem_of_singleton]; done).
    destruct (_ =? 0); [by apply IH|]. rewrite lookup_insert_ne by done. by apply IH.
Qed.

(** A request encrypted to a key goes back to the session the key came from. *)
Lemma session_sticks c keys v key :
  EnableSessionPersistence sc = true -> SessionHeaderName sc <> ""%string -> v <> ""%string -> key ∈ keys -> key <> [] ->
  applySession sc (updateSession sc c keys v) key = Some v.
Proof.
  intros He Hn Hv Hin Hne. unfold applySession, updateSession. rewrite He. cbn [negb].
  rewrite !bool_decide_eq_false_2 by done. cbn [orb sessionStore]. by apply fold_sessions.
Qed.
End PoolSafety.
