(* ===== verification/Lifecycle.v ===== *)
(** * Lifecycle: the background loops of a node and how they are stopped

    Models [refreshCacheLoop], [Close], [NewPool] and [GetCacheStats] of
    [src/enclave-client/pool.go], [startEnclaveRefreshLoop] and [Close] of
    [src/capabilities/framework/executor.go] and the life cycle of
    [base_action.go].  A node runs two loops, one that refreshes the enclaves and one,
    inside the pool, that refreshes their keys; [Close] may be called at any time and
    by several callers.  A step is one critical section, one channel operation or one
    turn of a loop; the work of a turn is modelled by the other files. *)

From Stdlib Require Import SpecFloat.
From S2P Require Import Prelude Float Codec Sha256 Types Cache Selector Pool.

(** ** The state *)

Inductive loop := NotStarted | Waiting | Working | Ended.

#[export] Instance loop_eq_dec : EqDecision loop.
Proof. solve_decision. Defined.

(** [refreshStopCh] is whether the channel is set; [refreshCtx_done] whether the
    loop's context is cancelled. *)
Record pool_life := mkPoolLife {
  refreshStopCh : bool;
  refreshCtx_done : bool;
  pool_loop : loop;
}.

Record life := mkLife {
  initialized : bool;
  refreshCancel : bool;          (* is it set *)
  ctx_done : bool;
  exec_loop : loop;
  enclaveClient : option pool_life;
}.

Definition NewRealExecutor : life := mkLife false false false NotStarted None.

(** ** Starting *)

Section Intervals.
Variables (out_of_range : Z) (cacheConfig : CacheConfig).

Definition interval_of_ttl : Z :=
  int_of_float out_of_range (float_mul (float_of_int (DefaultTTL cacheConfig)) (RefreshIntervalPercent cacheConfig)).

Definition refresh_interval : Z :=
  if interval_of_ttl <? MinRefreshInterval cacheConfig then MinRefreshInterval cacheConfig else interval_of_ttl.

(** [time.NewTicker] panics unless the interval is positive: [None] is the end of
    the process. *)
Definition NewTicker (interval : Z) : option loop := if 0 <? interval then Some Waiting else None.

(** The pool's part of [NewPoolWithConfig]. *)
Definition start_pool : option pool_life :=
  if EnableCache cacheConfig && EnableProactiveRefresh cacheConfig then
    l ← NewTicker refresh_interval; Some (mkPoolLife true false l)
  else Some (mkPoolLife false false NotStarted).

Definition startEnclaveRefreshLoop (interval : Z) (p : pool_life) : option life :=
  t ← NewTicker interval; Some (mkLife true true false t (Some p)).

(** [initLazily] as far as the loops go: the first call that succeeds makes the pool
    and starts both.  [ok] is whether its other steps, those of the executor's model,
    succeed; where they do not, a pool already made is closed again. *)
Definition initLazily (interval : Z) (ok : bool) (l : life) : option life :=
  if initialized l then Some l
  else if negb ok then Some l
  else p ← start_pool; startEnclaveRefreshLoop interval p.

End Intervals.

(** ** The loops *)

(** A turn of [select]: the ticker fires, the work of the turn ends, or the context is done. *)
Inductive turn := Fires | Finishes | SeesDone.

Definition loop_turn (t : turn) (done : bool) (l : loop) : option loop :=
  match t, l with
  | Fires, Waiting => Some Working
  | Finishes, Working => Some Waiting
  | SeesDone, Waiting => if done then Some Ended else None
  | _, _ => None
  end.

(** ** Closing *)

Definition stopped (l : loop) : bool := match l with NotStarted | Ended => true | _ => false end.

(** The critical section of the pool's [Close]: the channel is closed, once, and the
    context cancelled, after which the call waits for the loop to have [stopped]; or
    there is nothing to do. *)
Definition pool_Close (p : pool_life) : option pool_life :=
  if refreshStopCh p then Some (mkPoolLife false true (pool_loop p)) else None.

(** Where a call of the executor's [Close] is.  [cancel] and [client] are its local
    variables, as whether they are set. *)
Inductive closer :=
| CloseCalled
| CloseCancels (client : bool)
| CloseAwaitsLoop (client : bool)
| ClosesPool (cancel : bool)
| CloseAwaitsPool (cancel : bool)
| CloseReturned (cancel client : bool).

Definition set_exec (b d : bool) (l : life) : life := mkLife (initialized l) b d (exec_loop l) (enclaveClient l).

(** The next step of a call; [None] where it has to wait. *)
Definition Close_step (c : closer) (l : life) : option (closer * life) :=
  match c with
  | CloseCalled =>
      let cancel := refreshCancel l in
      let client := bool_decide (is_Some (enclaveClient l)) in
      Some (if cancel then CloseCancels client else if client then ClosesPool false else CloseReturned false false,
            set_exec false (ctx_done l) l)
  | CloseCancels client => Some (CloseAwaitsLoop client, set_exec (refreshCancel l) true l)
  | CloseAwaitsLoop client =>
      if bool_decide (exec_loop l = Ended) then Some (if client then ClosesPool true else CloseReturned true false, l) else None
  | ClosesPool cancel =>
      p ← enclaveClient l;
      match pool_Close p with
      | Some p => Some (CloseAwaitsPool cancel, mkLife (initialized l) (refreshCancel l) (ctx_done l) (exec_loop l) (Some p))
      | None => Some (CloseReturned cancel true, l)
      end
  | CloseAwaitsPool cancel =>
      p ← enclaveClient l; if stopped (pool_loop p) then Some (CloseReturned cancel true, l) else None
  | CloseReturned _ _ => None
  end.

(** ** All together *)

Inductive life_label :=
| Initializes (out_of_range : Z) (cacheConfig : CacheConfig) (interval : Z) (ok : bool)
| ExecTurn (t : turn)
| PoolTurn (t : turn)
| CallsClose (k : nat)
| CloseGoesOn (k : nat).

Definition life_state : Type := life * gmap nat closer.

Definition life_step (a : life_label) (s : life_state) : option life_state :=
  let '(l, calls) := s in
  match a with
  | Initializes oor cc interval ok => l' ← initLazily oor cc interval ok l; Some (l', calls)
  | ExecTurn t =>
      x ← loop_turn t (ctx_done l) (exec_loop l);
      Some (mkLife (initialized l) (refreshCancel l) (ctx_done l) x (enclaveClient l), calls)
  | PoolTurn t =>
      p ← enclaveClient l; x ← loop_turn t (refreshCtx_done p) (pool_loop p);
      Some (mkLife (initialized l) (refreshCancel l) (ctx_done l) (exec_loop l)
              (Some (mkPoolLife (refreshStopCh p) (refreshCtx_done p) x)), calls)
  | CallsClose k => if decide (calls !! k = None) then Some (l, <[k := CloseCalled]> calls) else None
  | CloseGoesOn k => c ← calls !! k; '(c', l') ← Close_step c l; Some (l', <[k := c']> calls)
  end.

Definition life_run (s : life_state) (tr : list life_label) : option life_state :=
  foldl (fun s a => s ≫= life_step a) (Some s) tr.

Definition life_init : life_state := (NewRealExecutor, ∅).

(** ** What never goes back *)

Record pool_after (p p' : pool_life) : Prop := {
  pa_stop : refreshStopCh p = false -> refreshStopCh p' = false;
  pa_done : refreshCtx_done p = true -> refreshCtx_done p' = true;
  pa_loop : stopped (pool_loop p) = true -> stopped (pool_loop p') = true;
}.

Record life_after (l l' : life) : Prop := {
  la_init : initialized l' = true;
  la_cancel : refreshCancel l = false -> refreshCancel l' = false;
  la_done : ctx_done l = true -> ctx_done l' = true;
  la_loop : exec_loop l = Ended -> exec_loop l' = Ended;
  la_pool : forall p, enclaveClient l = Some p -> exists p', enclaveClient l' = Some p' /\ pool_after p p';
}.

#[export] Instance pool_after_preorder : PreOrder pool_after.
Proof. split; [by intros p; split|]. intros p q r [] []. split; auto. Qed.

Lemma life_after_refl l : initialized l = true -> life_after l l.
Proof. split; [done..|]. intros p ?. exists p. by split. Qed.
#[local] Hint Resolve life_after_refl : core.

Lemma life_after_trans l l1 l2 : life_after l l1 -> life_after l1 l2 -> life_after l l2.
Proof.
  intros [] []. split; auto. intros p Hp. destruct (la_pool0 p Hp) as (p1 & H1 & ?). destruct (la_pool1 p1 H1) as (p2 & H2 & ?).
  exists p2. split; [done|]. by transitivity p1.
Qed.

Lemma loop_turn_running t done l x : loop_turn t done l = Some x -> stopped l = false.
Proof. by destruct t, l. Qed.

Lemma Close_step_after c l c' l' : initialized l = true -> Close_step c l = Some (c', l') -> life_after l l'.
Proof.
  assert (forall b d, initialized l = true -> (refreshCancel l = false -> b = false) -> (ctx_done l = true -> d = true) ->
    life_after l (set_exec b d l)) as Hs.
  { intros b d Hi Hb Hd. split; cbn; try done. intros p ?. exists p. by split. }
  intros Hi. destruct c as [| | |cancel|cancel|]; cbn [Close_step]; unfold pool_Close.
  - intros [= _ <-]. by apply Hs.
  - intros [= _ <-]. by apply Hs.
  - case_bool_decide; [|done]. intros [= _ <-]. auto.
  - destruct (enclaveClient l) as [p|] eqn:Ep; cbn; [|done]. destruct (refreshStopCh p); intros [= _ <-]; [|auto].
    split; cbn; try done. rewrite Ep. intros ? [= <-]. eexists. split; [done|]. by split.
  - destruct (enclaveClient l) as [p|]; cbn; [|done]. case_match; [|done]. intros [= _ <-]. auto.
  - done.
Qed.

Lemma life_step_after a l calls l' calls' :
  initialized l = true -> life_step a (l, calls) = Some (l', calls') -> life_after l l'.
Proof.
  intros Hi H. destruct a; cbn in H.
  - unfold initLazily in H. rewrite Hi in H. cbn in H. simplify_eq. auto.
  - destruct (loop_turn _ _ _) as [x|] eqn:Et; cbn in H; [|done]. simplify_eq. apply loop_turn_running in Et.
    split; cbn; try done; [intros He; by rewrite He in Et|]. intros p ?. exists p. by split.
  - destruct (enclaveClient l) as [p|] eqn:Ep; cbn in H; [|done]. destruct (loop_turn _ _ _) as [x|] eqn:Et; cbn in H; [|done]. simplify_eq.
    apply loop_turn_running in Et. split; cbn; try done. rewrite Ep. intros ? [= <-]. eexists. split; [done|]. split; cbn; congruence.
  - case_decide; simplify_eq. auto.
  - destruct (calls !! k) as [c|]; cbn in H; [|done]. destruct (Close_step c l) as [[c' l1]|] eqn:Ec; cbn in H; [|done]. simplify_eq.
    by eapply Close_step_after.
Qed.

Lemma life_run_cons s a tr : life_run s (a :: tr) = life_step a s ≫= (fun s' => life_run s' tr).
Proof.
  unfold life_run. cbn. destruct (life_step a s) as [s'|]; cbn; [done|]. induction tr as [|b tr IH]; [done|]. by cbn.
Qed.

Lemma life_run_after tr l calls l' calls' :
  initialized l = true -> life_run (l, calls) tr = Some (l', calls') -> life_after l l'.
Proof.
  revert l calls. induction tr as [|a tr IH]; intros l calls Hi; [by intros [= <- <-]; auto|]. rewrite life_run_cons.
  destruct (life_step a (l, calls)) as [[l1 c1]|] eqn:E; cbn; [|done]. intros H. apply life_step_after in E; [|done].
  eapply life_after_trans; [done|]. eapply IH; [apply E|done].
Qed.

(** ** Invariant *)

(** What a call knows of the state at the point it has reached. *)
Definition closer_knows (c : closer) (l : life) : Prop :=
  match c with
  | CloseCalled => True
  | CloseCancels client => initialized l = true /\ client = true /\ refreshCancel l = false
  | CloseAwaitsLoop client => initialized l = true /\ client = true /\ refreshCancel l = false /\ ctx_done l = true
  | ClosesPool cancel => initialized l = true /\ refreshCancel l = false
  | CloseAwaitsPool cancel => initialized l = true /\ refreshCancel l = false /\
      exists p, enclaveClient l = Some p /\ refreshStopCh p = false /\ refreshCtx_done p = true
  | CloseReturned cancel client => client = true -> initialized l = true /\ refreshCancel l = false /\
      exists p, enclaveClient l = Some p /\ refreshStopCh p = false
  end.

Lemma closer_knows_after c l l' : life_after l l' -> (closer_knows c l -> closer_knows c l').
Proof.
  intros [Hi Hc Hd Hl Hp]. destruct c; cbn; try (intros; destruct_and?; split_and!; by auto).
  - done.
  - intros (_ & H & p & (p' & ? & [])%Hp & ? & ?). split_and!; auto. exists p'. auto.
  - intros H Hcl. destruct (H Hcl) as (_ & ? & p & (p' & ? & [])%Hp & ?). split_and!; auto. exists p'. auto.
Qed.

Definition at_cancel (c : closer) : Prop := match c with CloseCancels _ | CloseAwaitsLoop _ => True | _ => False end.
Definition at_pool (c : closer) : Prop := match c with CloseAwaitsPool _ => True | _ => False end.

Record life_inv (s : life_state) : Prop := {
  li_none : initialized s.1 = false -> refreshCancel s.1 = false /\ enclaveClient s.1 = None /\ exec_loop s.1 = NotStarted;
  li_client : initialized s.1 = true -> exec_loop s.1 <> NotStarted /\ is_Some (enclaveClient s.1);
  li_knows : forall k c, s.2 !! k = Some c -> closer_knows c s.1;
  li_exec : initialized s.1 = true -> refreshCancel s.1 = false ->
    exec_loop s.1 = Ended \/ exists k c, s.2 !! k = Some c /\ at_cancel c;
  li_pool : forall p, enclaveClient s.1 = Some p -> refreshStopCh p = false ->
    stopped (pool_loop p) = true \/ exists k c, s.2 !! k = Some c /\ at_pool c;
}.

Lemma closer_knows_early c l l' : initialized l = false -> closer_knows c l -> closer_knows c l'.
Proof. intros Hi. destruct c; cbn; rewrite ?Hi; try (by intros (? & _)); [done|]. intros H Hc. by destruct (H Hc). Qed.

(** A call other than the one that moves keeps its place. *)
Lemma other_call (P : closer -> Prop) (calls : gmap nat closer) k c c' :
  calls !! k = Some c -> ~ P c -> (exists k c, calls !! k = Some c /\ P c) -> exists j d, <[k := c']> calls !! j = Some d /\ P d.
Proof.
  intros Hk HP (j & d & Hj & Hd). exists j, d. split; [|done]. rewrite lookup_insert_ne; [done|]. intros ->. congruence.
Qed.

Lemma this_call (P : closer -> Prop) (calls : gmap nat closer) k c' : P c' -> exists j d, <[k := c']> calls !! j = Some d /\ P d.
Proof. intros HP. exists k, c'. split; [apply lookup_insert_eq|done]. Qed.

Lemma knows_insert (calls : gmap nat closer) k c' l' :
  (forall j d, calls !! j = Some d -> closer_knows d l') -> closer_knows c' l' ->
  forall j d, <[k := c']> calls !! j = Some d -> closer_knows d l'.
Proof. intros H Hc j d. destruct (decide (k = j)) as [->|]; [rewrite lookup_insert_eq|rewrite lookup_insert_ne by done]; naive_solver. Qed.

Lemma Close_step_knows c l calls c' l' :
  life_inv (l, calls) -> closer_knows c l -> Close_step c l = Some (c', l') -> closer_knows c' l'.
Proof.
  intros [Hn Hc _ _ _]. cbn in *. destruct c as [|cl|cl|cancel|cancel|]; cbn [Close_step]; unfold pool_Close.
  - intros _ [= <- <-]. destruct (initialized l) eqn:Ei.
    + rewrite (bool_decide_true _ (proj2 (Hc eq_refl))). destruct (refreshCancel l); cbn; by rewrite Ei.
    + destruct (Hn eq_refl) as (-> & -> & _). by cbn.
  - intros (Hi & -> & Hr) [= <- <-]. by cbn.
  - intros (Hi & -> & Hr & _). case_bool_decide; [|done]. by intros [= <- <-].
  - intros (Hi & Hr). destruct (enclaveClient l) as [p|] eqn:Ep; cbn; [|done]. destruct (refreshStopCh p) eqn:Es; intros [= <- <-]; cbn; [by eauto 8|].
    intros _. by eauto 6.
  - intros (Hi & Hr & p & Ep & Hs & Hd). rewrite Ep. cbn. case_match; [|done]. intros [= <- <-] _. by eauto 6.
  - done.
Qed.

Lemma life_inv_init : life_inv life_init.
Proof. by split. Qed.

Lemma life_inv_Initializes l calls oor cc interval ok l' :
  life_inv (l, calls) -> initLazily oor cc interval ok l = Some l' -> life_inv (l', calls).
Proof.
  intros Hinv. unfold initLazily. destruct (initialized l) eqn:Ei; [by intros [= <-]|]. destruct ok; cbn [negb]; [|by intros [= <-]].
  destruct (start_pool oor cc) as [p|] eqn:Ep; cbn; [|done]. unfold startEnclaveRefreshLoop, NewTicker. destruct (0 <? interval); cbn; [|done]. intros [= <-].
  split; cbn; try done.
  - intros k c Hk. eapply closer_knows_early, (li_knows _ Hinv); done.
  - intros ? [= <-] Hs. left. unfold start_pool in Ep. destruct (EnableCache cc && EnableProactiveRefresh cc); [|by injection Ep as <-].
    by destruct (NewTicker _); cbn in Ep; simplify_eq.
Qed.

Lemma life_inv_turn l calls x p :
  life_inv (l, calls) -> x <> NotStarted -> (exec_loop l = Ended -> x = Ended) ->
  (forall q, enclaveClient l = Some q -> exists q', p = Some q' /\ refreshStopCh q' = refreshStopCh q /\ pool_after q q') ->
  (enclaveClient l = None -> p = None) -> initialized l = true ->
  life_inv (mkLife (initialized l) (refreshCancel l) (ctx_done l) x p, calls).
Proof.
  intros Hinv Hx He Hp Hn Hi. destruct (li_client _ Hinv Hi) as [_ [q Hq]]. cbn in Hq. destruct (Hp q Hq) as (q' & -> & Hs & Ha).
  assert (life_after l (mkLife (initialized l) (refreshCancel l) (ctx_done l) x (Some q'))) as Hla.
  { split; cbn; try done. intros ? Hq2. rewrite Hq in Hq2. injection Hq2 as <-. by exists q'. }
  split; cbn.
  - congruence.
  - by eauto.
  - intros k c Hk. eapply closer_knows_after, (li_knows _ Hinv); done.
  - intros _ Hr. destruct (li_exec _ Hinv Hi Hr) as [?|?]; auto.
  - intros ? [= <-] Hf. rewrite Hs in Hf. destruct (li_pool _ Hinv q Hq Hf) as [?|?]; [left; by apply Ha|auto].
Qed.

Ltac other_remains := right; eapply other_call; [eassumption|cbn; tauto|eassumption].

Lemma life_inv_Close l calls k c c' l' :
  life_inv (l, calls) -> calls !! k = Some c -> Close_step c l = Some (c', l') -> life_inv (l', <[k := c']> calls).
Proof.
  intros Hinv Hk Hs. pose proof (Close_step_knows _ _ _ _ _ Hinv (li_knows _ Hinv k c Hk) Hs) as Hkc.
  assert (forall j d, calls !! j = Some d -> closer_knows d l') as Hkn.
  { intros j d Hj. destruct (initialized l) eqn:Ei; [eapply closer_knows_after; [by eapply Close_step_after|]|eapply closer_knows_early; [done|]];
      by apply (li_knows _ Hinv j d Hj). }
  pose proof (knows_insert calls k c' l' Hkn Hkc) as Hknows. destruct Hinv as [Hn Hc Hw He Hp]. cbn in *.
  assert (initialized l' = initialized l /\ exec_loop l' = exec_loop l /\ (enclaveClient l' = None <-> enclaveClient l = None) /\
    (refreshCancel l = false -> refreshCancel l' = false)) as (Ei & Ee & En & Er).
  { destruct c; cbn in Hs; unfold pool_Close in Hs; [..|done].
    - by simplify_eq/=.
    - by simplify_eq/=.
    - case_bool_decide; by simplify_eq/=.
    - destruct (enclaveClient l) as [p|] eqn:Ep; cbn in Hs; [|done]. destruct (refreshStopCh p); simplify_eq/=; split_and!; naive_solver.
    - destruct (enclaveClient l) as [p|] eqn:Ep; cbn in Hs; [|done]. destruct (stopped (pool_loop p)); simplify_eq/=; split_and!; naive_solver. }
  split; cbn; rewrite ?Ei, ?Ee; auto.
  - intros (Hr & Hnone & ?)%Hn. split_and!; [by apply Er|by apply En|done].
  - intros [? Hsome]%Hc. split; [done|]. apply not_eq_None_Some. intros Hx%En. by rewrite Hx in Hsome; destruct Hsome.
  - intros Hi Hr. destruct c as [|cl|cl|cancel|cancel|]; cbn in Hs; unfold pool_Close in Hs.
    + simplify_eq/=. destruct (refreshCancel l) eqn:Erc; [right; by apply this_call|].
      destruct (He Hi eq_refl) as [?|?]; [auto|other_remains].
    + simplify_eq/=. right. by apply this_call.
    + case_bool_decide; [auto|done].
    + destruct (enclaveClient l) as [p|]; cbn in Hs; [|done]. destruct (refreshStopCh p); simplify_eq/=; (destruct (He Hi Hr) as [?|?]; [auto|other_remains]).
    + destruct (enclaveClient l); cbn in Hs; [|done]. case_match; simplify_eq/=; (destruct (He Hi Hr) as [?|?]; [auto|other_remains]).
    + done.
  - intros p Hq Hf. destruct c as [|cl|cl|cancel|cancel|]; cbn in Hs; unfold pool_Close in Hs.
    + simplify_eq/=. destruct (Hp p Hq Hf) as [?|?]; [auto|other_remains].
    + simplify_eq/=. destruct (Hp p Hq Hf) as [?|?]; [auto|other_remains].
    + case_bool_decide; simplify_eq/=. destruct (Hp p Hq Hf) as [?|?]; [auto|other_remains].
    + destruct (enclaveClient l) as [q|] eqn:Eq; cbn in Hs; [|done]. destruct (refreshStopCh q) eqn:Es; simplify_eq/=; [right; by apply this_call|].
      destruct (Hp _ eq_refl Es) as [?|?]; [auto|other_remains].
    + destruct (enclaveClient l) as [q|] eqn:Eq; cbn in Hs; [|done]. destruct (stopped (pool_loop q)) eqn:Es; simplify_eq/=. left. congruence.
    + done.
Qed.

Lemma life_inv_step a s s' : life_inv s -> life_step a s = Some s' -> life_inv s'.
Proof.
  destruct s as [l calls]. intros Hinv. destruct a as [oor cc interval ok|t|t|k|k]; cbn [life_step].
  - destruct (initLazily _ _ _ _ _) as [l'|] eqn:E; cbn; [|done]. intros [= <-]. by eapply life_inv_Initializes.
  - destruct (loop_turn _ _ _) as [x|] eqn:Et; cbn; [|done]. intros [= <-]. pose proof (loop_turn_running _ _ _ _ Et) as Hr.
    destruct (initialized l) eqn:Ei; [|destruct (li_none _ Hinv Ei) as (_ & _ & Hx); cbn in Hx; by rewrite Hx in Hr].
    rewrite <- Ei. apply life_inv_turn; try done; [by destruct t, (exec_loop l), (ctx_done l); simplify_eq/=| |].
    + intros He. by rewrite He in Hr.
    + intros q ->. by exists q.
  - destruct (enclaveClient l) as [p|] eqn:Ep; cbn; [|done]. destruct (loop_turn _ _ _) as [x|] eqn:Et; cbn; [|done]. intros [= <-].
    pose proof (loop_turn_running _ _ _ _ Et) as Hr.
    destruct (initialized l) eqn:Ei; [|by destruct (li_none _ Hinv Ei) as (_ & ? & _); simplify_eq/=].
    rewrite <- Ei. apply life_inv_turn; try done; [apply (li_client _ Hinv Ei)| |by rewrite Ep].
    rewrite Ep. intros ? [= <-]. eexists. do 2 (split; [done|]). split; cbn; congruence.
  - case_decide as Hk; [|done]. intros [= <-]. destruct Hinv as [Hn Hc Hw He Hp].
    assert (forall P : closer -> Prop, (exists j d, calls !! j = Some d /\ P d) -> exists j d, <[k := CloseCalled]> calls !! j = Some d /\ P d) as Hm.
    { intros P (j & d & Hj & Hd). exists j, d. split; [|done]. rewrite lookup_insert_ne; [done|congruence]. }
    split; cbn in *; auto; [by apply knows_insert| |].
    + intros Hi Hr. destruct (He Hi Hr); auto.
    + intros p Hq Hf. destruct (Hp p Hq Hf); auto.
  - destruct (calls !! k) as [c|] eqn:Ek; cbn; [|done]. destruct (Close_step c l) as [[c' l']|] eqn:Ec; cbn; [|done]. intros [= <-].
    by eapply life_inv_Close.
Qed.

Lemma life_inv_run tr s s' : life_inv s -> life_run s tr = Some s' -> life_inv s'.
Proof.
  revert s. induction tr as [|a tr IH]; intros s Hs; [by intros [= <-]|]. rewrite life_run_cons.
  destruct (life_step a s) as [s1|] eqn:E; cbn; [|done]. apply IH. by eapply life_inv_step.
Qed.

(** ** What [Close] achieves *)

Definition returned (c : closer) : bool := match c with CloseReturned _ _ => true | _ => false end.

(** Neither loop runs. *)
Definition quiet (l : life) : Prop := exec_loop l = Ended /\ exists p, enclaveClient l = Some p /\ stopped (pool_loop p) = true.

Lemma quiet_after l l' : life_after l l' -> quiet l -> quiet l'.
Proof. intros [] [? (p & (p' & ? & [])%la_pool0 & ?)]. split; eauto. Qed.

(** The steps a waiting call depends on: its own, and the turns of the loops. *)
Definition helps (k : nat) (a : life_label) : Prop :=
  match a with ExecTurn Finishes | ExecTurn SeesDone | PoolTurn Finishes | PoolTurn SeesDone => True | CloseGoesOn j => j = k | _ => False end.

(** [k]'s call can return in at most [n] such steps. *)
Definition can_return (n : nat) (k : nat) (s : life_state) : Prop :=
  exists tr s' cancel client, Forall (helps k) tr /\ (length tr <= n)%nat /\ life_run s tr = Some s' /\ s'.2 !! k = Some (CloseReturned cancel client).

Lemma can_return_step n k s s' a : helps k a -> life_step a s = Some s' -> can_return n k s' -> can_return (S n) k s.
Proof.
  intros Ha Hs (tr & s2 & cancel & client & Hf & Hl & Hr & Hk). exists (a :: tr), s2, cancel, client.
  split; [by constructor|]. split; [cbn; lia|]. split; [|done]. by rewrite life_run_cons, Hs.
Qed.

Lemma can_return_mono n m k s : (n <= m)%nat -> can_return n k s -> can_return m k s.
Proof. intros ? (tr & s2 & cancel & client & ? & ? & ? & ?). exists tr, s2, cancel, client. split_and!; try done. lia. Qed.

Lemma can_return_now n k l calls cancel client : calls !! k = Some (CloseReturned cancel client) -> can_return n k (l, calls).
Proof. intros Hk. exists [], (l, calls), cancel, client. split; [done|]. split; [cbn; lia|]. done. Qed.

(** One step of the call itself. *)
Lemma can_return_own n k l calls c c' l' :
  calls !! k = Some c -> Close_step c l = Some (c', l') -> can_return n k (l', <[k := c']> calls) -> can_return (S n) k (l, calls).
Proof. intros Hk Hs. apply (can_return_step n k _ _ (CloseGoesOn k)); [done|]. cbn. by rewrite Hk; cbn; rewrite Hs. Qed.

Lemma await_pool n k l calls cancel p :
  calls !! k = Some (CloseAwaitsPool cancel) -> enclaveClient l = Some p -> refreshCtx_done p = true -> can_return (3 + n) k (l, calls).
Proof.
  intros Hk Hp Hd.
  assert (forall m l', (exists q, enclaveClient l' = Some q /\ stopped (pool_loop q) = true) -> can_return (S m) k (l', calls)) as Hlast.
  { intros m l' (q & Hq & Hs). eapply can_return_own; [done|cbn; by rewrite Hq; cbn; rewrite Hs|]. eapply can_return_now, lookup_insert_eq. }
  assert (forall m l' q, enclaveClient l' = Some q -> refreshCtx_done q = true -> pool_loop q = Waiting -> can_return (S (S m)) k (l', calls)) as Hwait.
  { intros m l' q Hq Hqd Hw. eapply (can_return_step _ _ _ _ (PoolTurn SeesDone)); [done|cbn; rewrite Hq; cbn; rewrite Hw, Hqd; done|].
    apply Hlast. by eexists. }
  destruct (pool_loop p) eqn:El; [apply Hlast; exists p; by rewrite El|by eapply Hwait|..|apply Hlast; exists p; by rewrite El].
  eapply (can_return_step _ _ _ _ (PoolTurn Finishes)); [done|cbn; rewrite Hp; cbn; rewrite El; done|]. by eapply Hwait.
Qed.

Lemma close_pool n k l calls cancel :
  calls !! k = Some (ClosesPool cancel) -> is_Some (enclaveClient l) -> can_return (4 + n) k (l, calls).
Proof.
  intros Hk [p Hp]. destruct (refreshStopCh p) eqn:Es.
  - eapply can_return_own; [done|cbn; unfold pool_Close; by rewrite Hp; cbn; rewrite Es|]. eapply await_pool; [apply lookup_insert_eq|done..].
  - eapply can_return_own; [done|cbn; unfold pool_Close; by rewrite Hp; cbn; rewrite Es|]. eapply can_return_now, lookup_insert_eq.
Qed.

Lemma await_loop n k l calls client :
  calls !! k = Some (CloseAwaitsLoop client) -> ctx_done l = true -> exec_loop l <> NotStarted -> is_Some (enclaveClient l) ->
  can_return (7 + n) k (l, calls).
Proof.
  intros Hk Hd Hn Hp.
  assert (forall m l', exec_loop l' = Ended -> is_Some (enclaveClient l') -> can_return (5 + m) k (l', calls)) as Hlast.
  { intros m l' He Hp'. eapply can_return_own; [done|cbn; by rewrite bool_decide_true|].
    destruct client; [eapply close_pool; [apply lookup_insert_eq|done]|eapply can_return_now, lookup_insert_eq]. }
  assert (forall m l', exec_loop l' = Waiting -> ctx_done l' = true -> is_Some (enclaveClient l') -> can_return (6 + m) k (l', calls)) as Hwait.
  { intros m l' He Hd' Hp'. eapply (can_return_step _ _ _ _ (ExecTurn SeesDone)); [done|cbn; rewrite He, Hd'; done|]. by apply Hlast. }
  destruct (exec_loop l) eqn:El; [done| | |].
  - by apply (Hwait (S n)).
  - eapply (can_return_step _ _ _ _ (ExecTurn Finishes)); [done|cbn; rewrite El; done|]. by apply Hwait.
  - by apply (Hlast (S (S n))).
Qed.

Lemma close_returns k l calls c : life_inv (l, calls) -> calls !! k = Some c -> can_return 9 k (l, calls).
Proof.
  intros Hinv Hk. pose proof (li_knows _ Hinv k c Hk) as Hw. destruct Hinv as [Hn Hc _ _ _]. cbn in *.
  destruct c as [|cl|cl|cancel|cancel|]; cbn in Hw.
  - eapply can_return_own; [done|done|]. destruct (initialized l) eqn:Ei; [|destruct (Hn eq_refl) as (-> & -> & _); by eapply can_return_now, lookup_insert_eq].
    destruct (Hc eq_refl) as [He Hp]. rewrite bool_decide_true by done.
    destruct (refreshCancel l); [|apply (close_pool 4) with false; [apply lookup_insert_eq|done]].
    eapply can_return_own; [apply lookup_insert_eq|done|]. eapply (await_loop 0); [apply lookup_insert_eq|done..].
  - destruct Hw as (Hi & -> & _). destruct (Hc Hi) as [He Hp].
    eapply can_return_own; [done|done|]. eapply (await_loop 1); [apply lookup_insert_eq|done..].
  - destruct Hw as (Hi & _ & _ & Hd). destruct (Hc Hi) as [He Hp]. by eapply (await_loop 2).
  - destruct Hw as (Hi & _). destruct (Hc Hi) as [He Hp]. by eapply (close_pool 5).
  - destruct Hw as (_ & _ & p & Hp & _ & Hd). by eapply (await_pool 6).
  - by eapply can_return_now.
Qed.

(** C28 However calls of [Close] interleave with each other, with the initialisation and
    with the two background loops, a call is never stuck: nine steps of its own and
    of the loops it waits for let it return.  Once every call made has returned and
    one of them found the executor initialised, both loops have ended, and no later
    step starts them again: no key or enclave is refreshed any more. *)
Theorem close_stops_loops (tr : list life_label) (l : life) (calls : gmap nat closer) :
  life_run life_init tr = Some (l, calls) ->
  (forall k c, calls !! k = Some c -> can_return 9 k (l, calls)) /\
  forall k cancel, calls !! k = Some (CloseReturned cancel true) -> (forall j c, calls !! j = Some c -> returned c = true) ->
    forall tr' l' calls', life_run (l, calls) tr' = Some (l', calls') -> quiet l'.
Proof.
  intros Hrun. pose proof (life_inv_run _ _ _ life_inv_init Hrun) as Hinv. split; [by intros; eapply close_returns|].
  intros k cancel Hk Hall tr' l' calls' Hrun'. destruct (li_knows _ Hinv k _ Hk eq_refl) as (Hi & Hr & p & Hp & Hs).
  eapply quiet_after; [by eapply life_run_after|]. split.
  - destruct (li_exec _ Hinv Hi Hr) as [?|(j & c & Hj & Hc)]; [done|]. specialize (Hall j c Hj). by destruct c.
  - exists p. split; [done|]. destruct (li_pool _ Hinv p Hp Hs) as [?|(j & c & Hj & Hc)]; [done|]. specialize (Hall j c Hj). by destruct c.
Qed.

(** *** Runs *)

Definition toy_cache : CacheConfig := mkCacheConfig 0 0 0 true (S754_zero false) true (S754_zero false) second 0.
Definition starts : life_label := Initializes 0 toy_cache second true.

(** The loops are at work when two callers close; each waits for one loop. *)
Definition toy_close : list life_label :=
  [starts; ExecTurn Fires; PoolTurn Fires; CallsClose 0; CallsClose 1; CloseGoesOn 0; CloseGoesOn 1; CloseGoesOn 0; CloseGoesOn 1;
   ExecTurn Finishes; ExecTurn SeesDone; CloseGoesOn 0; CloseGoesOn 0].

(** Here the first call has returned while the pool's loop still works: the other
    call took the channel, and waits for it. *)
Example first_close_returns_early :
  (fun s : life_state => (s.2 !! 0%nat, s.2 !! 1%nat, pool_loop <$> enclaveClient s.1)) <$> life_run life_init toy_close =
  Some (Some (CloseReturned true true), Some (CloseAwaitsPool false), Some Working).
Proof. vm_compute. reflexivity. Qed.

Definition toy_closed : list life_label := toy_close ++ [PoolTurn Finishes; PoolTurn SeesDone; CloseGoesOn 1].

Definition toy_quiet : life := mkLife true false true Ended (Some (mkPoolLife false true Ended)).
Definition toy_returned : gmap nat closer := {[0%nat := CloseReturned true true; 1%nat := CloseReturned false true]}.

Lemma close_stops_loops_witness : life_run life_init toy_closed = Some (toy_quiet, toy_returned) /\ quiet toy_quiet.
Proof.
  assert (life_run life_init toy_closed = Some (toy_quiet, toy_returned)) as Hrun by (vm_compute; reflexivity).
  split; [exact Hrun|]. refine (proj2 (close_stops_loops toy_closed toy_quiet toy_returned Hrun) 0%nat true _ _ [] toy_quiet toy_returned _).
  - vm_compute. reflexivity.
  - refine (_ : map_Forall (fun _ c => returned c = true) toy_returned). by_compute.
  - reflexivity.
Defined.

(** An executor closed before its first request is initialised by a later one, and
    its loops then run. *)
Example closed_before_use :
  (fun s : life_state => (s.2 !! 0%nat, exec_loop s.1)) <$> life_run life_init [CallsClose 0; CloseGoesOn 0; starts; ExecTurn Fires] =
  Some (Some (CloseReturned false false), Working).
Proof. vm_compute. reflexivity. Qed.

(** ** The rest of the pool *)

(** The two intervals are positive, so that the tickers do not panic, exactly if the
    settings are: nothing checks them. *)
Lemma refresh_interval_positive oor cc : 0 < MinRefreshInterval cc -> 0 < refresh_interval oor cc.
Proof. unfold refresh_interval. destruct (Z.ltb_spec (interval_of_ttl oor cc) (MinRefreshInterval cc)); lia. Qed.

Example unset_interval_panics oor : initLazily oor toy_cache 0 true NewRealExecutor = None.
Proof. unfold initLazily. cbn [initialized NewRealExecutor negb]. by destruct (start_pool oor toy_cache). Qed.

Section Stats.
Variables (out_of_range : Z) (cacheConfig : CacheConfig).

Record refresh_stats := mkRefreshStats { fresh_enclaves : Z; stale_enclaves : Z; refresh_interval_seconds : spec_float }.
Record cache_stats := mkCacheStats {
  item_count : Z;
  max_ttl_seconds : spec_float;
  default_ttl_seconds : spec_float;
  ttl_buffer_percent : spec_float;
  proactive_refresh : option refresh_stats;
}.

(** [None] is a pool without a cache. *)
Definition GetCacheStats (now : Z) (c : enclavePool) : option cache_stats :=
  match publicKeyCache c with
  | Some k =>
      if EnableCache cacheConfig then
        Some (mkCacheStats (Size k) (seconds_of (MaxTTL cacheConfig)) (seconds_of (DefaultTTL cacheConfig)) (TTLBufferPercent cacheConfig)
          (if EnableProactiveRefresh cacheConfig then
             let cutoff := now - DefaultTTL cacheConfig in
             Some (mkRefreshStats
               (map_fold (fun _ t n => if cutoff <? t then n + 1 else n) 0 (lastRefresh c))
               (map_fold (fun _ t n => if cutoff <? t then n else n + 1) 0 (lastRefresh c))
               (seconds_of (interval_of_ttl out_of_range cacheConfig)))
           else None))
      else None
  | None => None
  end.

Lemma stats_partition (m : gmap bytes Z) cutoff :
  map_fold (fun _ t n => if cutoff <? t then n + 1 else n) 0 m + map_fold (fun _ t n => if cutoff <? t then n else n + 1) 0 m = Z.of_nat (size m).
Proof.
  induction m as [|i x m Hi Hf IH] using map_first_key_ind; [done|].
  rewrite !map_fold_insert_first_key, map_size_insert_None by done. destruct (cutoff <? x); lia.
Qed.

End Stats.
