(* ===== verification/Tracker.v ===== *)
(** * Tracker: keeping an enclave's configuration in step with its DON

    Models [src/enclave/config-tracker/config_tracker.go] and [loadConfigFromEnv]
    of [main.go], with the endpoints of [src/enclave/nitro/host/host.go] it goes
    through: [handleGetPublicKeys], [handleSetConfig] and [injectSettings].  The
    registry contract is an input; the enclave at the other end is [Server]. *)

From S2P Require Import Prelude Codec Text Order Sha256 Types Cache Keychain Services Emitter Server.
From S2P Require Import ServerSafety ServerConfig Host Pool.

(** ** The host's endpoints *)

Module HostProxy.

(** What a call to the enclave yields: no answer, an answer whose body cannot be
    read, or status, size and decoded content. *)
Inductive enclave_answer (A : Type) :=
| NoAnswer
| BodyUnreadable
| Answer (status : Z) (size : Z) (body : option A).
Arguments NoAnswer {A}.
Arguments BodyUnreadable {A}.
Arguments Answer {A} status size body.

(** The host's reply: a status, and the enclave's body when it relays one. *)
Record reply (A : Type) := mkReply { status : Z; relayed : option (Z * option A) }.
Arguments mkReply {A} status relayed.
Arguments status {A} _.
Arguments relayed {A} _.

Definition StatusRequestTimeout : Z := 408.
Definition StatusBadGateway : Z := 502.

Definition handleGetPublicKeys (h : hostServer) (method : string) (disconnected : bool)
    (answer : enclave_answer PublicKeyResponse) : reply PublicKeyResponse * hostServer :=
  if negb (bool_decide (method = "GET"%string)) then (mkReply StatusMethodNotAllowed None, h)
  else match answer with
  | NoAnswer => (mkReply (if disconnected then StatusRequestTimeout else StatusInternalServerError) None, h)
  | BodyUnreadable => (mkReply StatusBadGateway None, h)
  | Answer code size body =>
      if MaxEnclaveResponseBodyBytes <? size then (mkReply StatusBadGateway None, h)
      else
        let h := if code =? StatusOK then (maybeRecoverConfig h body).2 else h in
        (mkReply code (Some (size, body)), h)
  end.

(** POST /config through [proxyConfig]. *)
Definition handleSetConfig (h : hostServer) (body_ok : bool) (answer : enclave_answer EnclaveConfig) : reply EnclaveConfig * hostServer :=
  if negb body_ok then (mkReply StatusBadRequest None, h)
  else match answer with
  | NoAnswer | BodyUnreadable => (mkReply StatusInternalServerError None, h)
  | Answer code size body =>
      match proxyConfig h body_ok (Some (code, body)) apply_set_config with
      | (PORelayed code, h) => (mkReply code (Some (size, body)), h)
      | (_, h) => (mkReply StatusInternalServerError None, h)
      end
  end.

(** *** Injecting the settings *)

Definition initialRetryDelay : Z := 2 * second.
Definition maxRetryDelay : Z := 30 * second.

(** One attempt: the context had ended before it, no answer came, the enclave
    answered with a status, or the context ended while waiting to retry. *)
Inductive attempt := CtxDone | Failed | Answered (status : Z) | CtxDoneWaiting.

Definition accepted (code : Z) : bool := (code =? StatusNoContent) || (code =? StatusOK).

(** The attempts in order, with the delays waited; [None] while still retrying. *)
Fixpoint injectSettings (retryDelay : Z) (attempts : list attempt) : list Z * option bool :=
  match attempts with
  | [] => ([], None)
  | CtxDone :: _ => ([], Some false)
  | CtxDoneWaiting :: _ => ([], Some false)
  | a :: rest =>
      if match a with Answered code => accepted code | _ => false end then ([], Some true)
      else let '(delays, r) := injectSettings (Z.min (retryDelay * 2) maxRetryDelay) rest in (retryDelay :: delays, r)
  end.

(** The wait before retry [i] of the injection. *)
Definition backoff (i : nat) : Z := Z.min (initialRetryDelay * 2 ^ Z.of_nat i) maxRetryDelay.

Lemma backoff_next i : Z.min (backoff i * 2) maxRetryDelay = backoff (S i).
Proof.
  unfold backoff, initialRetryDelay, maxRetryDelay, second. rewrite Nat2Z.inj_succ, Z.pow_succ_r by lia. lia.
Qed.

Definition retried (a : attempt) : bool :=
  match a with Failed => true | Answered code => negb (accepted code) | _ => false end.

Lemma injectSettings_from k fails code :
  forallb retried fails = true -> accepted code = true ->
  injectSettings (backoff k) (fails ++ [Answered code]) = (map backoff (seq k (length fails)), Some true).
Proof.
  intros Hf Hc. revert k Hf. induction fails as [|a fails IH]; intros k; cbn [app injectSettings forallb].
  - by rewrite Hc.
  - intros [Ha Hf]%andb_true_iff. specialize (IH (S k) Hf). cbn [length seq map].
    destruct a; cbn in Ha; try done.
    + by rewrite backoff_next, IH.
    + apply negb_true_iff in Ha. by rewrite Ha, backoff_next, IH.
Qed.

(** Settings reach an enclave that is still booting: after any number of failed
    or rejected attempts the first accepted one ends the injection, and the waits
    between attempts double from two seconds up to thirty. *)
Theorem settings_injected (fails : list attempt) (code : Z) :
  forallb retried fails = true -> accepted code = true ->
  injectSettings initialRetryDelay (fails ++ [Answered code]) = (map backoff (seq 0 (length fails)), Some true) /\
  Forall (fun d => 2 * second <= d <= 30 * second) (map backoff (seq 0 (length fails))).
Proof.
  intros Hf Hc. split; [by apply (injectSettings_from 0)|]. apply Forall_map, Forall_forall. intros i _. cbn.
  unfold backoff, initialRetryDelay, maxRetryDelay, second. pose proof (Z.pow_pos_nonneg 2 (Z.of_nat i)). lia.
Qed.

End HostProxy.

(** ** The tracker *)

Record DONInfo := mkDON { don_F : Z; NodeP2PIds : list bytes }.

Record configTracker := mkTracker {
  initialT : Z;
  initialMasterPublicKey : bytes;
  requireBFTQuorum : bool;
}.

Inductive tracker_error :=
| GetDONFailed
| FIsZero
| FetchFailed
| ConfigReadFailed
| ConfigTooLarge
| ConfigUnmarshal
| ConfigStatus (code : Z)
| PostFailed
| PostStatus (code : Z).

(** Signatures the configured quorum needs, and whether the DON is too small for it. *)
Definition requiredSignatures (ct : configTracker) (don : DONInfo) : Z :=
  let requiredF := u32 (don_F don) in
  if requireBFTQuorum ct then u32 (u32 (2 * requiredF) + 1) else u32 (requiredF + 1).
Definition quorum_unreachable (ct : configTracker) (don : DONInfo) : bool :=
  u32 (glen (NodeP2PIds don)) <? requiredSignatures ct don.

(** Signers and F agree with the DON. *)
Definition in_sync (don : DONInfo) (c : EnclaveConfig) : bool :=
  bool_decide (sort_bytes (Signers c) = sort_bytes (NodeP2PIds don)) && (F c =? u32 (don_F don)).

(** The configuration to install over the current one. *)
Definition target (ct : configTracker) (don : DONInfo) (c : EnclaveConfig) : EnclaveConfig :=
  mkConfig (sort_bytes (NodeP2PIds don))
    (if glen (cfg_MasterPublicKey c) =? 0 then initialMasterPublicKey ct else cfg_MasterPublicKey c)
    (if T c =? 0 then initialT ct else T c)
    (u32 (don_F don)).

Section Rounds.
(** The host's endpoints over a state [W]. *)
Context {W : Type}.
Variables (get : W -> HostProxy.enclave_answer PublicKeyResponse * W) (post : EnclaveConfig -> W -> option Z * W).

(** The configuration the enclave reports; none yet is the zero configuration. *)
Definition current_config (answer : HostProxy.enclave_answer PublicKeyResponse) : result tracker_error EnclaveConfig :=
  match answer with
  | HostProxy.NoAnswer => Err FetchFailed
  | HostProxy.BodyUnreadable => Err ConfigReadFailed
  | HostProxy.Answer code size body =>
      if code =? StatusOK then
        if MaxEnclaveResponseBodyBytes <? size then Err ConfigTooLarge
        else match body with None => Err ConfigUnmarshal | Some r => Ok (pkr_Config r) end
      else if code =? StatusServiceUnavailable then Ok zeroConfig
      else Err (ConfigStatus code)
  end.

(** Whether the enclave had a configuration already. *)
Definition postConfig (c : EnclaveConfig) (w : W) : result tracker_error bool * W :=
  let '(r, w) := post c w in
  match r with
  | None => (Err PostFailed, w)
  | Some code =>
      if code =? StatusConflict then (Ok true, w)
      else if negb (code =? StatusOK) then (Err (PostStatus code), w)
      else (Ok false, w)
  end.

Definition checkUpdates (ct : configTracker) (don : option DONInfo) (w : W) : result tracker_error bool * W :=
  match don with
  | None => (Err GetDONFailed, w)
  | Some don =>
      if don_F don =? 0 then (Err FIsZero, w)
      else
        let '(answer, w) := get w in
        match current_config answer with
        | Err e => (Err e, w)
        | Ok out =>
            if negb (in_sync don out) then
              let '(r, w) := postConfig (target ct don out) w in
              match r with Err e => (Err e, w) | Ok _ => (Ok true, w) end
            else (Ok true, w)
        end
  end.

(** [Start]: one round per registry answer. *)
Fixpoint rounds (ct : configTracker) (dons : list (option DONInfo)) (w : W) : W :=
  match dons with
  | [] => w
  | don :: dons => rounds ct dons (checkUpdates ct don w).2
  end.

End Rounds.

(** ** The tracker, the host and the enclave together *)

Section Together.
Context `{HS : Sha256} `{HE : EnclaveEnv} `{HT : TDH2}
  {verified : bytes -> bytes -> bytes -> bool} `{HV : !SignatureVerifier verified}.

(** The size of an encoded public-keys response. *)
Variable size : PublicKeyResponse -> Z.

Definition parties : Type := enclaveServer * hostServer.

Definition through_get (now : Z) (w : parties) : HostProxy.enclave_answer PublicKeyResponse * parties :=
  let '(s, h) := w in
  let '(r, s) := handleGetPublicKeys now s "GET" [] in
  let answer :=
    match r with
    | HttpOK code resp => HostProxy.Answer code (size resp) (Some resp)
    | HttpError code _ => HostProxy.Answer code 0 None
    | HttpPanic => HostProxy.NoAnswer
    end in
  let '(reply, h) := HostProxy.handleGetPublicKeys h "GET" false answer in
  (match HostProxy.relayed reply with
   | Some (n, body) => HostProxy.Answer (HostProxy.status reply) n body
   | None => HostProxy.Answer (HostProxy.status reply) 0 None
   end, (s, h)).

Definition through_post (c : EnclaveConfig) (w : parties) : option Z * parties :=
  let '(s, h) := w in
  let '(r, s) := handleSetConfig s "POST" (Decoded (Some c)) in
  let answer :=
    match r with
    | HttpOK code (cfg, _) => HostProxy.Answer code 0 (Some cfg)
    | HttpError code _ => HostProxy.Answer code 0 None
    | HttpPanic => HostProxy.NoAnswer
    end in
  let '(reply, h) := HostProxy.handleSetConfig h true answer in
  (Some (HostProxy.status reply), (s, h)).

Definition tracker_round (now : Z) (ct : configTracker) (don : option DONInfo) (w : parties)
    : result tracker_error bool * parties :=
  checkUpdates (through_get now) through_post ct don w.

Lemma in_sync_spec don c : in_sync don c = true <-> Signers c ≡ₚ NodeP2PIds don /\ F c = u32 (don_F don).
Proof. unfold in_sync. by rewrite andb_true_iff, bool_decide_eq_true, Z.eqb_eq, sort_bytes_eq. Qed.

Lemma target_in_sync ct don c : in_sync don (target ct don c) = true.
Proof. apply in_sync_spec. split; [apply sort_bytes_perm|done]. Qed.

Lemma IsZero_zero c : IsZero c = true -> c = zeroConfig.
Proof.
  destruct c as [s m t f]. unfold IsZero. cbn. intros [[[?%Z.eqb_eq ?%Z.eqb_eq]%andb_true_iff Hs%Z.eqb_eq]%andb_true_iff Hm%Z.eqb_eq]%andb_true_iff.
  unfold glen in *. destruct s, m; try done. by subst.
Qed.

Lemma getPublicKeys_answer now s :
  match (handleGetPublicKeys now s "GET" []).1 with
  | HttpOK code resp => code = StatusOK /\ pkr_Config resp = config s /\ IsZero (config s) = false
  | HttpError code _ => code <> StatusOK /\ (code = StatusServiceUnavailable <-> IsZero (config s) = true)
  | HttpPanic => False
  end.
Proof.
  unfold handleGetPublicKeys. rewrite EnclaveConfig_Copy_id, bool_decide_true by done. cbn [negb].
  destruct (IsZero (config s)) eqn:Ez; [done|]. unfold select_keypairs. rewrite decide_True by done.
  destruct (GetKeyPairs now (keychain s)) as [|kp kps]; [done|].
  by destruct (attestPublicKeys _ _ _) as [[att|] s'].
Qed.

(** What the tracker is told of the enclave's configuration is its configuration. *)
Lemma get_reports now s h :
  let '(answer, (s', h')) := through_get now (s, h) in
  config s' = config s /\ configSet s' = configSet s /\ allowReconfig s' = allowReconfig s /\
  (forall c, current_config answer = Ok c -> c = config s) /\
  (IsZero (config s) = true -> current_config answer = Ok zeroConfig).
Proof.
  unfold through_get. pose proof (handleGetPublicKeys_config now s "GET" []) as (H1 & H2 & H3 & _).
  pose proof (getPublicKeys_answer now s) as Ha. destruct (handleGetPublicKeys now s "GET" []) as [r s']. cbn [fst snd] in *.
  unfold HostProxy.handleGetPublicKeys. rewrite bool_decide_true by done. cbn [negb].
  destruct r as [code e|code resp|]; [..|done].
  - destruct Ha as [Hok Hz]. apply Z.eqb_neq in Hok. change (MaxEnclaveResponseBodyBytes <? 0) with false.
    rewrite Hok. cbn [HostProxy.relayed HostProxy.status current_config]. rewrite Hok. split_and!; [done..| |].
    + intros c. destruct (Z.eqb_spec code StatusServiceUnavailable) as [E|]; [|done]. intros [= <-].
      symmetry. apply IsZero_zero. tauto.
    + intros Ez. by rewrite (proj2 Hz Ez).
  - destruct Ha as (-> & Hc & Hz). rewrite Hz.
    destruct (MaxEnclaveResponseBodyBytes <? size resp) eqn:Es; cbn [HostProxy.relayed HostProxy.status current_config Z.eqb].
    + by split_and!.
    + rewrite Es. split_and!; [done..| |]; [|done]. by intros c [= <-].
Qed.

(** Whether POST /config is refused as a second initial configuration. *)
Definition locked (s : enclaveServer) : bool := configSet s && negb (allowReconfig s).

Lemma post_effect c s h :
  let '(code, (s', h')) := through_post c (s, h) in
  allowReconfig s' = allowReconfig s /\
  (if locked s then code = Some StatusConflict /\ config s' = config s /\ configSet s' = configSet s /\ h' = h
   else config s' = c /\ configSet s' = true /\
     (code = Some StatusOK /\ h_config h' = c \/
      code = Some StatusInternalServerError /\ h' = h /\ exists w d, (CreateAttestation w d).2 = None)).
Proof.
  unfold through_post, handleSetConfig, locked. rewrite bool_decide_true by done. cbn [negb].
  destruct (configSet s && negb (allowReconfig s)); [done|].
  set (s1 := notify_app _ c). destruct (notify_frame (set_configSet (set_config s c) true) c) as (_ & N1 & _ & N2 & N3). fold s1 in N1, N2, N3.
  unfold attest. destruct (CreateAttestation (world s1) (SetConfigResponse_UserDataHash c)) as [w [att|]] eqn:E.
  - unfold HostProxy.handleSetConfig, proxyConfig. cbn. rewrite N1, N2, N3. split_and!; try done. by left.
  - unfold HostProxy.handleSetConfig, proxyConfig. cbn. rewrite N1, N2, N3. cbn. split_and!; try done. right. split_and!; try done.
    exists (world s1), (SetConfigResponse_UserDataHash c). by rewrite E.
Qed.

Lemma round_effect now ct don s h :
  let '(r, (s', h')) := tracker_round now ct (Some don) (s, h) in
  allowReconfig s' = allowReconfig s /\
  ((config s' = config s /\ configSet s' = configSet s /\ (r = Ok true -> in_sync don (config s) = true \/ locked s = true)) \/
   (locked s = false /\ in_sync don (config s) = false /\ config s' = target ct don (config s) /\ configSet s' = true /\
     (r = Ok true -> h_config h' = config s'))).
Proof.
  unfold tracker_round, checkUpdates. destruct (don_F don =? 0); [split; [done|]; left; by split_and!|].
  pose proof (get_reports now s h) as Hg. destruct (through_get now (s, h)) as [answer [s1 h1]].
  destruct Hg as (G1 & G2 & G3 & Gc & _). destruct (current_config answer) as [c|e]; [|split; [done|]; left; by split_and!].
  rewrite (Gc c eq_refl). destruct (in_sync don (config s)) eqn:Ei; cbn [negb]; [split; [done|]; left; split_and!; by auto|].
  unfold postConfig. pose proof (post_effect (target ct don (config s)) s1 h1) as Hp.
  destruct (through_post _ (s1, h1)) as [code [s2 h2]]. unfold locked in *. rewrite G2, G3 in Hp. destruct Hp as [P1 Hp].
  destruct (configSet s && negb (allowReconfig s)) eqn:El.
  - destruct Hp as (-> & P2 & P3 & ->). cbn. rewrite P1, P2, P3. split; [done|]. left. split_and!; by auto.
  - destruct Hp as (P2 & P3 & [[-> P4]|(-> & -> & _)]); cbn; rewrite P1, P2, P3; (split; [done|]); right; by split_and!.
Qed.

(** C26 A round of the tracker changes the enclave's configuration only when it
    disagrees with the DON and the enclave accepts a configuration, and then to the
    DON's members and F with the threshold and master key the enclave already had.
    A round that reports success leaves enclave and DON in agreement, and the host
    with the enclave's configuration after an update, unless the enclave was
    configured by another and refuses to be reconfigured. *)
Theorem tracker_round_safe (now : Z) (ct : configTracker) (don : DONInfo) (s s' : enclaveServer) (h h' : hostServer)
    (r : result tracker_error bool) :
  tracker_round now ct (Some don) (s, h) = (r, (s', h')) ->
  (config s' = config s \/
   locked s = false /\ in_sync don (config s) = false /\ config s' = target ct don (config s) /\
   (T (config s) <> 0 -> T (config s') = T (config s)) /\
   (cfg_MasterPublicKey (config s) <> [] -> cfg_MasterPublicKey (config s') = cfg_MasterPublicKey (config s))) /\
  (r = Ok true ->
   (Signers (config s') ≡ₚ NodeP2PIds don /\ F (config s') = u32 (don_F don)) \/ locked s = true /\ config s' = config s).
Proof.
  intros Hr. pose proof (round_effect now ct don s h) as He. rewrite Hr in He.
  destruct He as [_ [(E1 & _ & Hok)|(Hl & Hs & E1 & _ & _)]].
  - split; [by left|]. intros [Hi|Hl]%Hok; [left|by right]. rewrite E1. by apply in_sync_spec.
  - rewrite E1. split.
    + right. split_and!; try done; unfold target; cbn; intros H.
      * by rewrite (proj2 (Z.eqb_neq _ _) H).
      * destruct (cfg_MasterPublicKey (config s)); done.
    + left. apply in_sync_spec, target_in_sync.
Qed.

(** One round configures a fresh enclave: whatever the DON, of F at least one, the
    enclave ends with the DON's members and F and the initial threshold and master
    key, the host with the same configuration, and from then on rounds for the same
    DON change nothing. *)
Theorem tracker_configures_fresh (now : Z) (ct : configTracker) (don : DONInfo) (s : enclaveServer) (h : hostServer) :
  (forall w d, (CreateAttestation w d).2 <> None) ->
  1 <= don_F don < 256 -> config s = zeroConfig -> configSet s = false ->
  exists s' h',
    tracker_round now ct (Some don) (s, h) = (Ok true, (s', h')) /\
    config s' = mkConfig (sort_bytes (NodeP2PIds don)) (initialMasterPublicKey ct) (initialT ct) (don_F don) /\
    h_config h' = config s' /\
    forall later, let s'' := (tracker_round later ct (Some don) (s', h')).2.1 in config s'' = config s'.
Proof.
  intros Hatt HF Hz Hset. assert (u32 (don_F don) = don_F don) as HF' by (apply u32_id; unfold is_u32; lia).
  assert (in_sync don zeroConfig = false) as Hi.
  { apply not_true_iff_false. intros [_ H]%in_sync_spec. cbn in H. lia. }
  unfold tracker_round at 1, checkUpdates. rewrite (proj2 (Z.eqb_neq (don_F don) 0)) by lia.
  pose proof (get_reports now s h) as Hg. destruct (through_get now (s, h)) as [answer [s1 h1]].
  destruct Hg as (G1 & G2 & G3 & _ & Gz). rewrite Gz by (by rewrite Hz). rewrite Hi. cbn [negb]. unfold postConfig.
  pose proof (post_effect (target ct don zeroConfig) s1 h1) as Hp. destruct (through_post _ (s1, h1)) as [code [s2 h2]].
  unfold locked in Hp. rewrite G2, Hset in Hp. cbn [andb] in Hp. destruct Hp as (_ & P2 & _ & [[-> P4]|(_ & _ & w & d & Hn)]); [|by destruct (Hatt w d)].
  exists s2, h2. split; [done|]. rewrite P2, P4. split; [unfold target; cbn; by rewrite HF'|]. split; [done|]. intros later.
  pose proof (round_effect later ct don s2 h2) as He. destruct (tracker_round later ct (Some don) (s2, h2)) as [r [s3 h3]].
  cbn. rewrite <- P2. destruct He as [_ [(E & _)|(_ & Hs & _)]]; [done|]. rewrite P2, target_in_sync in Hs. done.
Qed.

End Together.

(** ** Configuration of the tracker process *)

Module TrackerEnv.

(** [big.Int.SetString(s, 10)]. *)
Definition SetString10 (s : bytes) : option Z :=
  let number (t : bytes) := match t with [] => None | _ => digits_from t 0 end in
  match s with
  | c :: t => if Z_of_byte c =? 45 then Z.opp <$> number t else if Z_of_byte c =? 43 then number t else number s
  | [] => None
  end.

Inductive env_error :=
| Required (name : string)
| Malformed (name : string)
| TMustBePositive.

Section Load.
(** The environment; the address, and the node list in JSON, of the libraries. *)
Context {Address NodeConfig : Type}.
Variables (Getenv : string -> bytes) (ParseAddress : bytes -> option Address) (Unmarshal : bytes -> option (list NodeConfig)).

Record env_config := mkEnvConfig {
  CAP_REG_ADDR : Address;
  CHAIN_ID : Z;
  DON_ID : Z;
  HOST_PORT : bytes;
  CONFIG_PORT : bytes;
  NODE_CONFIG : list NodeConfig;
  env_tracker : configTracker;
}.

(** A required variable, parsed. *)
Definition variable {A} (name : string) (parse : bytes -> option A) : result env_error A :=
  match Getenv name with
  | [] => Err (Required name)
  | s => match parse s with None => Err (Malformed name) | Some a => Ok a end
  end.

Definition loadConfigFromEnv : result env_error env_config :=
  let? capRegAddr := variable "CAP_REG_ADDR" ParseAddress in
  let? chainID := variable "CHAIN_ID" SetString10 in
  let? donID := variable "DON_ID" (ParseUint_bits 32) in
  let? hostPort := variable "HOST_PORT" Some in
  let? configPort := variable "CONFIG_PORT" Some in
  let? nodeConfig := variable "NODE_CONFIG" Unmarshal in
  let? masterPublicKey := variable "INITIAL_MASTER_PUBLIC_KEY" hex_decode in
  let? tval := variable "INITIAL_T" (ParseUint_bits 32) in
  if tval =? 0 then Err TMustBePositive
  else
    let requireBFTQuorum := bool_decide (Getenv "REQUIRE_BFT_QUORUM" = bs "true") in
    Ok (mkEnvConfig capRegAddr chainID donID hostPort configPort nodeConfig (mkTracker tval masterPublicKey requireBFTQuorum)).

Lemma variable_Ok {A} name (parse : bytes -> option A) a :
  variable name parse = Ok a -> Getenv name <> [] /\ parse (Getenv name) = Some a.
Proof.
  unfold variable. destruct (Getenv name) as [|c s]; [done|]. destruct (parse (c :: s)); [|done]. by intros [= <-].
Qed.

(** A tracker that starts has all it needs to configure an enclave: the DON and
    the threshold are 32-bit numbers, the threshold is positive, and the master key
    is not empty, so the configuration it installs is complete. *)
Theorem tracker_env_complete (e : env_config) :
  loadConfigFromEnv = Ok e ->
  is_u32 (DON_ID e) /\ 0 < initialT (env_tracker e) < 2 ^ 32 /\ initialMasterPublicKey (env_tracker e) <> [] /\
  HOST_PORT e <> [] /\ CONFIG_PORT e <> [] /\
  forall don c, 1 <= don_F don < 256 -> IsZero (target (env_tracker e) don c) = false /\
    T (target (env_tracker e) don c) <> 0 /\ cfg_MasterPublicKey (target (env_tracker e) don c) <> [].
Proof.
  unfold loadConfigFromEnv.
  intros (addr & _ & (cid & _ & (did & Hd%variable_Ok & (hp & Hh%variable_Ok & (cp & Hc%variable_Ok & (nc & _ & (mpk & Hm%variable_Ok &
    (t & Ht%variable_Ok & H)%rbind_Ok_inv)%rbind_Ok_inv)%rbind_Ok_inv)%rbind_Ok_inv)%rbind_Ok_inv)%rbind_Ok_inv)%rbind_Ok_inv)%rbind_Ok_inv.
  destruct (Z.eqb_spec t 0) as [|Hz]; [done|]. injection H as <-. cbn [DON_ID env_tracker HOST_PORT CONFIG_PORT initialT initialMasterPublicKey].
  destruct Hd as [_ (_ & _ & Hd)%ParseUint_bits_Some], Ht as [_ (_ & _ & Ht)%ParseUint_bits_Some], Hh as [? [= <-]], Hc as [? [= <-]].
  assert (mpk <> []) as Hk. { intros ->. destruct Hm as [Hn Hm%hex_decode_length]. by destruct (Getenv "INITIAL_MASTER_PUBLIC_KEY"). }
  split; [exact Hd|]. split; [lia|]. split_and!; try done. intros don c HF. unfold target, IsZero. cbn [T F Signers cfg_MasterPublicKey].
  assert (u32 (don_F don) = don_F don) as -> by (apply u32_id; unfold is_u32; lia).
  rewrite (proj2 (Z.eqb_neq (don_F don) 0)) by lia. rewrite andb_false_r. split; [done|].
  split; [by destruct (Z.eqb_spec (T c) 0)|].
  destruct (Z.eqb_spec (glen (cfg_MasterPublicKey c)) 0) as [|Hl]; [done|]. intros E. by rewrite E in Hl.
Qed.

End Load.
End TrackerEnv.
