(* ===== verification/TrackerExamples.v ===== *)
(** * TrackerExamples: concrete rounds of the tracker

    The theorems of [Tracker] on the toy enclave of [ServerToy]. *)

From S2P Require Import Prelude Codec Order Sha256 Types Cache Keychain Services Server ServerToy Host Pool Tracker.

Definition toy_don : DONInfo := mkDON 1 [signer3; signer1; signer2; signer4].
Definition toy_tracker : configTracker := mkTracker 2 (bs "mpk0") false.
Definition toy_size (r : PublicKeyResponse) : Z := 1000.

(** [tracker_round_safe] at an enclave that may be reconfigured: members change,
    threshold and master key stay. *)
Lemma tracker_round_safe_witness :
  exists s' h',
    tracker_round toy_size 5 toy_tracker (Some toy_don) (configured true, NewHostServer) = (Ok true, (s', h')) /\
    Signers (config s') ≡ₚ NodeP2PIds toy_don.
Proof.
  assert (exists r s' h', tracker_round toy_size 5 toy_tracker (Some toy_don) (configured true, NewHostServer) = (r, (s', h')) /\ r = Ok true)
    as (r & s' & h' & Hr & ->).
  { assert ((tracker_round toy_size 5 toy_tracker (Some toy_don) (configured true, NewHostServer)).1 = Ok true) as H
      by (vm_compute; reflexivity).
    destruct (tracker_round toy_size 5 toy_tracker (Some toy_don) (configured true, NewHostServer)) as [r [s' h']].
    exists r, s', h'. split; [done|exact H]. }
  exists s', h'. split; [exact Hr|].
  destruct (tracker_round_safe toy_size 5 toy_tracker toy_don (configured true) s' NewHostServer h' (Ok true) Hr) as [_ H].
  destruct (H eq_refl) as [[HP _]|[Hl _]]; [exact HP|]. exfalso. vm_compute in Hl. discriminate Hl.
Defined.

(** [tracker_configures_fresh] at the fresh toy enclave. *)
Lemma tracker_configures_fresh_witness :
  exists s' h', tracker_round toy_size 5 toy_tracker (Some toy_don) (fresh_server false, NewHostServer) = (Ok true, (s', h')) /\
    config s' = mkConfig [signer1; signer2; signer3; signer4] (bs "mpk0") 2 1.
Proof.
  destruct (tracker_configures_fresh toy_size 5 toy_tracker toy_don (fresh_server false) NewHostServer) as (s' & h' & H1 & H2 & _).
  - intros w d. discriminate.
  - vm_compute. split; [discriminate|reflexivity].
  - reflexivity.
  - reflexivity.
  - exists s', h'. split; [exact H1|]. rewrite H2. reflexivity.
Defined.

Definition toy_getenv (name : string) : bytes :=
  if decide (name = "DON_ID"%string) then bs "7"
  else if decide (name = "CHAIN_ID"%string) then bs "-11155111"
  else if decide (name = "INITIAL_T"%string) then bs "3"
  else if decide (name = "INITIAL_MASTER_PUBLIC_KEY"%string) then bs "00ff"
  else bs "8080".

(** [tracker_env_complete] at a complete environment. *)
Lemma tracker_env_complete_witness :
  exists e, TrackerEnv.loadConfigFromEnv toy_getenv (fun a => Some a) (fun n => Some [n]) = Ok e /\ 0 < initialT (TrackerEnv.env_tracker e).
Proof.
  assert (exists e, TrackerEnv.loadConfigFromEnv toy_getenv (fun a => Some a) (fun n => Some [n]) = Ok e) as [e He]
    by (eexists; vm_compute; reflexivity).
  exists e. split; [exact He|].
  exact (proj1 (proj1 (proj2 (TrackerEnv.tracker_env_complete toy_getenv (fun a => Some a) (fun n => Some [n]) e He)))).
Defined.

(** [settings_injected] at an enclave that boots after two attempts. *)
Lemma settings_injected_witness :
  HostProxy.injectSettings HostProxy.initialRetryDelay [HostProxy.Failed; HostProxy.Answered 503; HostProxy.Answered 204] =
    ([2 * second; 4 * second], Some true).
Proof.
  exact (proj1 (HostProxy.settings_injected [HostProxy.Failed; HostProxy.Answered 503] 204 eq_refl eq_refl)).
Defined.
