(* ===== verification/PoolExamples.v ===== *)
(** * PoolExamples: the client at concrete inputs

    Witnesses for the theorems of [PoolSafety] with a toy attestation scheme
    (a document is the measurement followed by the user data), and the late
    fetch that survives a change of the trusted measurements. *)

From Stdlib Require Import SpecFloat.
From S2P Require Import Prelude Codec Sha256 Types Cache Keychain Services Emitter Server ServerToy Selector Pool PoolSafety.

Definition toy_nitro (att ud m : bytes) : bool := bool_decide (att = m ++ ud).
Definition any_url (_ : string) : bool := true.

(** Half an hour minus a tenth of it. *)
Example effective_ttl_capped : calculateEffectiveTTL DefaultCacheConfig 0 [24 * hour; 2 * hour] = 27 * minute.
Proof. vm_compute. reflexivity. Qed.

Definition toy_keys (m : bytes) : PublicKeyResponse :=
  let p att := mkPublicKeyResponse [sample_key 1] [0] [24 * hour] toy_config att in
  p (m ++ PublicKeyHash (p [])).

Definition node_with (m : bytes) : Enclave := mkEnclave (sample_key 5) "http://e" [m] "NITRO" "" [] (string_of m).

Definition answers (p : PublicKeyResponse) : key_call :=
  mkKeyCall true (fun n => if (n =? 0)%nat then None else Some (mkHttp 200 (Some 100) "pod-7" (Some p))) (fun _ => false).
Definition unreachable : key_call := mkKeyCall true (fun _ => None) (fun _ => false).

Definition serving (m : bytes) (_ : bytes) : key_call := answers (toy_keys m).
Definition down (_ : bytes) : key_call := unreachable.

Abbreviation toy_get := (GetPublicKeys toy_nitro any_url DefaultCacheConfig DefaultSessionConfig 2 0).
Abbreviation toy_pool_step := (pool_step toy_nitro any_url DefaultCacheConfig DefaultSessionConfig 2 0).

Lemma same_order : completion_order (fun l => l).
Proof. intros l. reflexivity. Qed.

(** Fetch once, then serve from the cache while the enclave is down. *)
Definition pool0 : enclavePool := new_pool DefaultCacheConfig [node_with (bs "old")].
Definition pool1 : enclavePool := (toy_get 0 pool0 (sample_key 9) None (fun l => l) (serving (bs "old"))).2.

Lemma pool1_reachable : rtc toy_pool_step ([node_with (bs "old")], pool0) ([node_with (bs "old")], pool1).
Proof.
  eapply rtc_once. exact (step_get _ _ _ _ _ _ [node_with (bs "old")] pool0 0 (sample_key 9) None _ (serving (bs "old")) same_order).
Defined.

Definition toy_data : EnclavePublicKeyData := mkEnclavePublicKeyData (toy_keys (bs "old")) (sample_key 5).

Lemma default_sane : 0 <= MaxTTL DefaultCacheConfig <= max_duration /\ 0 <= DefaultTTL DefaultCacheConfig <= max_duration.
Proof. by_compute. Qed.

Lemma returned_keys_usable_witness :
  toy_get (20 * minute) pool1 (sample_key 9) None (fun l => l) down = (Returns (Ok [toy_data]), pool1) /\
  exists sel data, [toy_data] = [data] /\ sel ∈ nodes pool1 /\
    (forall f : Enclave -> bool, None = Some f -> f sel = true) /\
    (EnclaveID sel ∉ deadEnclaves pool1) /\ epk_EnclaveID data = EnclaveID sel /\
    usable toy_nitro (20 * minute) [node_with (bs "old")] sel data.
Proof.
  assert (toy_get (20 * minute) pool1 (sample_key 9) None (fun l => l) down = (Returns (Ok [toy_data]), pool1)) as H.
  { vm_compute. reflexivity. }
  split; [exact H|].
  exact (returned_keys_usable toy_nitro any_url DefaultCacheConfig DefaultSessionConfig 2 0 default_sane
    ltac:(by_compute) [node_with (bs "old")] [node_with (bs "old")] pool1 (20 * minute) (sample_key 9) None (fun l => l) down
    [toy_data] pool1 pool1_reachable same_order H).
Defined.

Lemma old_ok : Enclave_ok (node_with (bs "old")).
Proof. split; by_compute. Qed.
Lemma new_ok : Enclave_ok (node_with (bs "new")).
Proof. split; by_compute. Qed.

Definition toy_update : outcome unit * enclavePool :=
  UpdateNodes toy_nitro any_url DefaultCacheConfig DefaultSessionConfig 2 pool1 [node_with (bs "new")] (fun l => l)
    (serving (bs "new")).

Lemma update_nodes_atomic_witness :
  (toy_update.2 = pool1 /\ ([node_with (bs "new")] = nodes pool1 \/
     collision (EnclavesList_writes [node_with (bs "new")]) (EnclavesList_writes (nodes pool1)))) \/
  (nodes toy_update.2 = [node_with (bs "new")] /\
   (forall e, e ∈ [node_with (bs "new")] -> exists data, valid_keys toy_nitro e data) /\
   forall now id, getCachedPublicKey DefaultCacheConfig now toy_update.2 id = None).
Proof.
  apply (update_nodes_atomic toy_nitro any_url DefaultCacheConfig DefaultSessionConfig 2
    pool1 [node_with (bs "new")] (fun l => l) (serving (bs "new")) (Ok tt) toy_update.2).
  - constructor; [apply new_ok | constructor].
  - change (nodes pool1) with [node_with (bs "old")]. constructor; [apply old_ok | constructor].
  - by_compute.
  - by_compute.
  - exact same_order.
  - vm_compute. reflexivity.
Defined.

(** A fetch that was in flight while the trusted measurements of an enclave
    were replaced stores its keys after the cache was flushed; when the enclave is
    then unreachable, the pool hands out keys that only the replaced measurement
    ever validated. *)
Theorem late_fetch_revives_old_keys :
  exists known c,
    rtc toy_pool_step ([node_with (bs "old")], pool0) (known, c) /\
    nodes c = [node_with (bs "new")] /\
    (toy_get (2 * minute) c (sample_key 9) None (fun l => l) down).1 = Returns (Ok [toy_data]) /\
    ~ valid_keys toy_nitro (node_with (bs "new")) toy_data.
Proof.
  eexists _, _. split_and!.
  - eapply rtc_l; [exact (step_update _ _ _ _ _ _ _ pool0 [node_with (bs "new")] (fun l => l) (serving (bs "new")) same_order)|].
    eapply rtc_l; [|apply rtc_refl].
    exact (step_late _ _ _ _ _ _ _ _ (1 * minute) (node_with (bs "old")) (answers (toy_keys (bs "old")))
      (list_elem_of_further _ _ _ (list_elem_of_here _ _))).
  - vm_compute. reflexivity.
  - vm_compute. reflexivity.
  - intros (_ & _ & m & Hm & Hv). apply list_elem_of_singleton in Hm as ->. vm_compute in Hv. discriminate Hv.
Qed.

(** ** Executing one request *)

Definition toy_exec_response : ExecuteResponse :=
  let r att := mkExecuteResponse zero32 "exec-1" (ComputeRequest_Hash toy_request) (bs "out") toy_config att ∅ [] in
  r (bs "new" ++ ExecuteResponse_UserDataHash (r []) "1.0.0").

Definition toy_signed : SignedComputeRequest := mkSigned toy_request (toy_sig signer1).

Definition toy_exec_calls (_ : nat) : exec_call := mkExecCall (Some (mkHttp 200 (Some 100) "" (Some toy_exec_response))) (mkErrorBody "" None).

Lemma batch_responses_validated_witness :
  length [toy_exec_response] = length [sample_key 5] /\
  forall j id, [sample_key 5] !! j = Some id ->
    exists e req out, e ∈ nodes toy_update.2 /\ EnclaveID e = id /\ [toy_signed] !! j = Some req /\
      [toy_exec_response] !! j = Some out /\ accepted toy_nitro e req out.
Proof.
  apply (batch_responses_validated toy_nitro any_url toy_update.2 true [toy_signed] [sample_key 5] toy_exec_calls).
  vm_compute. reflexivity.
Defined.

(** A validator that accepts one document: the one of [toy_exec_response]. *)
Definition strict_nitro (att ud m : bytes) : bool :=
  bool_decide (m = bs "new") && bool_decide (ud = ExecuteResponse_UserDataHash toy_exec_response "1.0.0").

Lemma toy_exec_response_ok : ExecuteResponse_ok toy_exec_response.
Proof. split; try by_compute. split; by_compute. Qed.

Definition toy_genuine (m : bytes) (x : hashed) : Prop := m = bs "new" /\ x = HResponse toy_exec_response "1.0.0".

Lemma accepted_responses_genuine_witness :
  exists e req out, e ∈ nodes toy_update.2 /\ EnclaveID e = sample_key 5 /\ [toy_signed] !! 0%nat = Some req /\
    [toy_exec_response] !! 0%nat = Some out /\
    (produced_for toy_genuine e req out \/ collides_with toy_genuine e req out).
Proof.
  apply (accepted_responses_genuine strict_nitro any_url toy_genuine) with
    (timeout_ok := true) (eIDs := [sample_key 5]) (calls := toy_exec_calls).
  - intros att ud m H. apply andb_true_iff in H as [H1%bool_decide_eq_true H2%bool_decide_eq_true].
    exists (HResponse toy_exec_response "1.0.0"). split_and!; [done|done|]. by rewrite H2.
  - intros m er v [_ [= -> _]]. apply toy_exec_response_ok.
  - vm_compute. reflexivity.
  - repeat constructor; apply toy_exec_response_ok.
  - vm_compute. repeat constructor. discriminate.
  - reflexivity.
Defined.
