(* ===== verification/EvmAddress.v ===== *)
(** * EvmAddress: normalising workflow owners

    Models [src/util/evm_address.go].  Owners arrive as hexadecimal strings in
    several spellings and leave in the checksummed form; strings are byte
    strings here.  Keccak-256 is a parameter. *)

From S2P Require Import Prelude Codec.

Definition AddressLength : nat := 20.

(** [hex.DecodeString] with the error dropped: the pairs before the first bad one. *)
Fixpoint hex_prefix (b : bytes) : bytes :=
  match b with
  | x :: y :: b' =>
      match hex_value x, hex_value y with
      | Some hi, Some lo => byte_of_Z (16 * hi + lo) :: hex_prefix b'
      | _, _ => []
      end
  | _ => []
  end.

Definition Hex2Bytes (str : bytes) : bytes := hex_prefix str.

Definition has0xPrefix (str : bytes) : bool :=
  match str with
  | a :: b :: _ => bool_decide (a = byte_of_Z 48) && (bool_decide (b = byte_of_Z 120) || bool_decide (b = byte_of_Z 88))
  | _ => false
  end.

Definition FromHex (s : bytes) : bytes :=
  let s := if has0xPrefix s then drop 2 s else s in
  let s := if glen s mod 2 =? 1 then byte_of_Z 48 :: s else s in
  Hex2Bytes s.

(** [SetBytes] on a zero address. *)
Definition BytesToAddress (b : bytes) : bytes :=
  let b := if (AddressLength <? length b)%nat then drop (length b - AddressLength) b else b in
  repeat (byte_of_Z 0) (AddressLength - length b) ++ b.

Definition HexToAddress (s : bytes) : bytes := BytesToAddress (FromHex s).

Section Checksum.
Variable keccak256 : bytes -> bytes.

Definition address_hex (a : bytes) : bytes := [byte_of_Z 48; byte_of_Z 120] ++ hex_encode a.

(** The digit at position [i], upper case when its nibble of the hash exceeds 7;
    the index into the 32-byte hash is below 20. *)
Definition checksum_digit (hash : bytes) (i : nat) (c : byte) : byte :=
  let hashByte := Z_of_byte (default (byte_of_Z 0) (hash !! ((i - 2) / 2)%nat)) in
  let nibble := if (i mod 2 =? 0)%nat then Z.shiftr hashByte 4 else Z.land hashByte 15 in
  if (57 <? Z_of_byte c) && (7 <? nibble) then byte_of_Z (Z_of_byte c - 32) else c.

Definition checksumHex (a : bytes) : bytes :=
  let buf := address_hex a in
  let hash := keccak256 (drop 2 buf) in
  take 2 buf ++ imap (fun i c => checksum_digit hash (i + 2) c) (drop 2 buf).

Definition Address_String (a : bytes) : bytes := checksumHex a.

(** ** Round trip *)

(** A lower-case hexadecimal digit in either case. *)
Lemma hex_value_case n c : 0 <= n < 16 -> (c = hex_digit n \/ (c = byte_of_Z (Z_of_byte (hex_digit n) - 32) /\ 57 < Z_of_byte (hex_digit n))) ->
  hex_value c = Some n.
Proof.
  intros Hn. assert (n ∈ seqZ 0 16) as Hin by (apply elem_of_seqZ; lia). clear Hn.
  intros [->|[-> Hc]].
  - revert n Hin. apply Forall_forall. by_compute.
  - apply Z.ltb_lt in Hc. revert n Hin Hc.
    apply (Forall_forall (fun n => (57 <? Z_of_byte (hex_digit n)) = true ->
      hex_value (byte_of_Z (Z_of_byte (hex_digit n) - 32)) = Some n)). by_compute.
Qed.

Lemma checksum_digit_value hash i n : 0 <= n < 16 -> hex_value (checksum_digit hash i (hex_digit n)) = Some n.
Proof.
  intros Hn. apply hex_value_case; [done|]. unfold checksum_digit. destruct (_ && _) eqn:E; [right|by left].
  apply andb_true_iff in E as [E%Z.ltb_lt _]. done.
Qed.

Lemma hex_prefix_checksum hash a : forall k,
  hex_prefix (imap (fun i c => checksum_digit hash (i + k) c) (hex_encode a)) = a.
Proof.
  induction a as [|x a IH]; intros k; [done|]. cbn [hex_encode imap hex_prefix].
  pose proof (Z_of_byte_range x) as Hr.
  unfold compose. rewrite !checksum_digit_value by (split; [try apply Z.div_pos; try apply Z.mod_pos_bound; lia |
    try apply Z.div_lt_upper_bound; try apply Z.mod_pos_bound; lia]).
  rewrite <- Z.div_mod by lia. rewrite byte_of_Z_of_byte. f_equal. etransitivity; [|exact (IH (S (S k)))]. f_equal.
  apply imap_ext. intros i c Hi. cbn. f_equal. lia.
Qed.

(** Reading the printed form of an address gives the address. *)
Lemma address_roundtrip a : length a = AddressLength -> HexToAddress (Address_String a) = a.
Proof.
  intros Hl. unfold HexToAddress, Address_String, checksumHex, FromHex, address_hex. cbn [app take drop has0xPrefix].
  rewrite !bool_decide_eq_true_2 by done. cbn [andb orb]. set (hash := keccak256 _).
  assert (glen (imap (fun i c => checksum_digit hash (i + 2) c) (hex_encode a)) = 40) as Hlen.
  { unfold glen. rewrite length_imap, hex_encode_length, Hl. done. }
  rewrite !drop_0, take_0. cbn [app]. rewrite Hlen. change (40 mod 2 =? 1) with false. cbn iota. unfold Hex2Bytes. rewrite hex_prefix_checksum.
  unfold BytesToAddress. by rewrite Hl, Nat.ltb_irrefl, Hl, Nat.sub_diag.
Qed.

Lemma BytesToAddress_length b : length (BytesToAddress b) = AddressLength.
Proof.
  unfold BytesToAddress. destruct (_ <? _)%nat eqn:E; rewrite length_app, repeat_length.
  - apply Nat.ltb_lt in E. rewrite length_drop. lia.
  - apply Nat.ltb_ge in E. lia.
Qed.

(** Normalising an owner is idempotent and always yields a string of 42
    characters that reads back as the same 20-byte address; so both sides of
    the relay see one spelling of an owner. *)
Theorem owner_normalised s :
  let owner := Address_String (HexToAddress s) in
  HexToAddress owner = HexToAddress s /\ Address_String (HexToAddress owner) = owner /\ length owner = 42%nat.
Proof.
  intros owner. pose proof (BytesToAddress_length (FromHex s)) as Hl. fold (HexToAddress s) in Hl.
  assert (HexToAddress owner = HexToAddress s) as E by (by apply address_roundtrip).
  split_and!; [done|by rewrite E|]. unfold owner, Address_String, checksumHex, address_hex.
  rewrite length_app, length_imap, length_take, length_drop. cbn [app length]. rewrite hex_encode_length, Hl. done.
Qed.
End Checksum.
