(* ===== verification/Relay.v ===== *)
(** * Relay: the enclave's calls to the relay DON

    Models [src/enclave/apps/confidential-workflows/app/remote_dispatcher.go] and the
    failover of [src/enclave/apps/confidential-workflows/gateway/client.go].  A workflow
    inside the enclave calls capabilities and reads secrets through a gateway
    that it does not trust: the enclave counts the signatures of the relay nodes
    itself.

    The relay's message types and their hashes ([confidentialrelay]) and protobuf
    come from other modules and are parameters; so is what the gateway answers.
    The diagnostics of an entry are in [RelayResponse]; logs are left out. *)

From S2P Require Import Prelude Codec Order Sha256 Types Cache Keychain Services.

(** ** Quorum over the responses of the relay nodes *)

Record relayEntry := mkEntry {
  sigHash : bytes;
  groupHash : bytes;
  re_signature : bytes;
  re_idx : nat;
}.

Inductive quorum_out :=
| QuorumIdx (idx : nat)
| VerifierMissing
| SignersMissing
| QuorumNotMet (required : Z)
| QuorumPanic.

(** The order of the winners: more signers first, then the smaller hash. *)
Definition winner_lt (a b : bytes * Z) : bool :=
  if negb (a.2 =? b.2) then b.2 <? a.2 else bytes_lt a.1 b.1.

(** The first element of the sorted winners. *)
Definition first_winner (ws : list (bytes * Z)) : option (bytes * Z) :=
  fold_left (fun best w => match best with
                           | None => Some w
                           | Some b => if winner_lt w b then Some w else Some b
                           end) ws None.

Section Quorum.
Context `{HS : Sha256} {verified : bytes -> bytes -> bytes -> bool} `{HV : !SignatureVerifier verified}.
Variable RelayResponseSignaturePayload : bytes -> bytes.

Record tally := mkTally {
  signersByHash : gmap bytes (gset bytes);
  firstIdxByHash : gmap bytes nat;
}.

Definition count_entry (cfg : EnclaveConfig) (t : tally) (e : relayEntry) : option tally :=
  match VerifySignature (RelayResponseSignaturePayload (sigHash e)) (re_signature e) (Signers cfg) with
  | Err (VerifyPanic _) => None
  | Err _ => Some t
  | Ok signer =>
      let '(mkTally sets first) := t in
      match sets !! groupHash e with
      | Some set => Some (mkTally (<[groupHash e := {[sha256 signer]} ∪ set]> sets) first)
      | None => Some (mkTally (<[groupHash e := {[sha256 signer]}]> sets) (<[groupHash e := re_idx e]> first))
      end
  end.

Fixpoint count_entries (cfg : EnclaveConfig) (t : tally) (entries : list relayEntry) : option tally :=
  match entries with
  | [] => Some t
  | e :: rest => match count_entry cfg t e with None => None | Some t => count_entries cfg t rest end
  end.

Definition winners (required : Z) (sets : gmap bytes (gset bytes)) : list (bytes * Z) :=
  flat_map (fun p : bytes * gset bytes =>
    if required <=? Z.of_nat (size p.2) then [(p.1, Z.of_nat (size p.2))] else []) (map_to_list sets).

Definition selectQuorumResult (verifier_configured : bool) (entries : list relayEntry) (cfg : EnclaveConfig) : quorum_out :=
  if negb verifier_configured then VerifierMissing
  else if glen (Signers cfg) =? 0 then SignersMissing
  else
    let required := F cfg + 1 in
    match count_entries cfg (mkTally ∅ ∅) entries with
    | None => QuorumPanic
    | Some t =>
        match first_winner (winners required (signersByHash t)) with
        | None => QuorumNotMet required
        | Some (hash, _) => QuorumIdx (default 0%nat (firstIdxByHash t !! hash))
        end
    end.

(** ** Proofs *)

Implicit Types (e : relayEntry) (cfg : EnclaveConfig) (entries : list relayEntry) (h g : bytes).

Definition signed_entry cfg e (s : bytes) : Prop :=
  VerifySignature (RelayResponseSignaturePayload (sigHash e)) (re_signature e) (Signers cfg) = Ok s.

Record tally_ok cfg (seen : list relayEntry) (t : tally) : Prop := {
  to_sets : forall h x, x ∈ default ∅ (signersByHash t !! h) <->
    exists e s, e ∈ seen /\ groupHash e = h /\ signed_entry cfg e s /\ x = sha256 s;
  to_first : forall h, is_Some (signersByHash t !! h) ->
    exists e s, e ∈ seen /\ groupHash e = h /\ signed_entry cfg e s /\ firstIdxByHash t !! h = Some (re_idx e);
}.

Lemma count_signed cfg t e s t' : signed_entry cfg e s -> count_entry cfg t e = Some t' ->
  signersByHash t' = <[groupHash e := {[sha256 s]} ∪ default ∅ (signersByHash t !! groupHash e)]> (signersByHash t) /\
  firstIdxByHash t' = if decide (is_Some (signersByHash t !! groupHash e)) then firstIdxByHash t
                      else <[groupHash e := re_idx e]> (firstIdxByHash t).
Proof.
  unfold signed_entry, count_entry. intros ->. destruct t as [sets first]. cbn.
  destruct (sets !! groupHash e) as [set|] eqn:Es; intros [= <-]; cbn.
  - rewrite decide_True by eauto. done.
  - rewrite decide_False by (intros [? ?]; done). by rewrite union_empty_r_L.
Qed.

Lemma count_skipped cfg t e t' : (forall s, ~ signed_entry cfg e s) -> count_entry cfg t e = Some t' -> t' = t.
Proof.
  unfold signed_entry, count_entry. intros Hno. destruct (VerifySignature _ _ _) as [s|[]]; try congruence.
  by destruct (Hno s).
Qed.

Lemma signed_dec cfg e : (exists s, signed_entry cfg e s) \/ forall s, ~ signed_entry cfg e s.
Proof. unfold signed_entry. destruct (VerifySignature _ _ _) as [s|]; [left; eauto | right; congruence]. Qed.

Lemma snoc_signers cfg seen e h x :
  (exists e' s, e' ∈ seen ++ [e] /\ groupHash e' = h /\ signed_entry cfg e' s /\ x = sha256 s) <->
  (exists e' s, e' ∈ seen /\ groupHash e' = h /\ signed_entry cfg e' s /\ x = sha256 s) \/
  (exists s, groupHash e = h /\ signed_entry cfg e s /\ x = sha256 s).
Proof.
  setoid_rewrite elem_of_app. setoid_rewrite list_elem_of_singleton. split.
  - intros (e' & s & [Hin| ->] & H); [left | right]; eauto.
  - intros [(e' & s & Hin & H)|(s & H)]; eauto 8.
Qed.

Lemma count_entry_ok cfg seen t e t' :
  tally_ok cfg seen t -> count_entry cfg t e = Some t' -> tally_ok cfg (seen ++ [e]) t'.
Proof.
  intros [H1 H2] Ht. destruct (signed_dec cfg e) as [[s Hs]|Hno].
  - destruct (count_signed cfg t e s t' Hs Ht) as [Es Ef]. split.
    + intros h x. rewrite snoc_signers, <- H1, Es. destruct (decide (h = groupHash e)) as [->|Hne].
      * rewrite lookup_insert_eq. cbn. rewrite elem_of_union, elem_of_singleton.
        split; [intros [->|?]; eauto|]. intros [?|(s' & _ & Hs' & ->)]; [by right|]. left. unfold signed_entry in *. congruence.
      * rewrite lookup_insert_ne by done. split; [by left|]. by intros [?|(s' & ? & _)].
    + intros h. rewrite Es, Ef. destruct (decide (h = groupHash e)) as [->|Hne].
      * intros _. destruct (decide (is_Some _)) as [Hi|].
        -- destruct (H2 _ Hi) as (e' & s' & ? & ? & ? & ?). exists e', s'. set_solver.
        -- exists e, s. rewrite lookup_insert_eq. set_solver.
      * rewrite lookup_insert_ne by done. intros Hi. destruct (H2 _ Hi) as (e' & s' & ? & ? & ? & Hf). exists e', s'.
        destruct (decide _); [set_solver|]. rewrite lookup_insert_ne by done. set_solver.
  - rewrite (count_skipped cfg t e t' Hno Ht). split.
    + intros h x. rewrite snoc_signers, <- H1. split; [by left|]. intros [?|(s & _ & Hs & _)]; [done|]. by destruct (Hno s).
    + intros h Hi. destruct (H2 _ Hi) as (e' & s' & ? & ?). exists e', s'. set_solver.
Qed.

Lemma count_entries_ok cfg entries : forall seen t t',
  tally_ok cfg seen t -> count_entries cfg t entries = Some t' -> tally_ok cfg (seen ++ entries) t'.
Proof.
  induction entries as [|e entries IH]; intros seen t t' Ht; cbn [count_entries].
  - intros [= <-]. by rewrite app_nil_r.
  - destruct (count_entry cfg t e) as [t1|] eqn:E; [|done]. intros Hc.
    rewrite (cons_middle e seen entries), app_assoc. eapply IH; [|done]. by eapply count_entry_ok.
Qed.

Lemma count_entries_total cfg entries :
  (forall e n, e ∈ entries ->
     VerifySignature (RelayResponseSignaturePayload (sigHash e)) (re_signature e) (Signers cfg) <> Err (VerifyPanic n)) ->
  forall t, is_Some (count_entries cfg t entries).
Proof.
  induction entries as [|e entries IH]; intros Hno t; cbn [count_entries]; [eauto|].
  assert (is_Some (count_entry cfg t e)) as [t1 Ht1].
  { unfold count_entry. specialize (Hno e). destruct (VerifySignature _ _ _) as [s|v]; [destruct t; case_match; eauto|].
    destruct v as [| |n]; eauto. destruct (Hno n); set_solver. }
  rewrite Ht1. apply IH. intros e' n He'. apply Hno. set_solver.
Qed.

Lemma tally_ok_empty cfg : tally_ok cfg [] (mkTally ∅ ∅).
Proof.
  split; cbn.
  - intros h x. rewrite lookup_empty. cbn. split; [set_solver|]. intros (e & s & He & _). by apply elem_of_nil in He.
  - intros h. rewrite lookup_empty. by intros [? ?].
Qed.

Lemma first_winner_in ws : forall best w,
  fold_left (fun best w => match best with
                           | None => Some w
                           | Some b => if winner_lt w b then Some w else Some b
                           end) ws best = Some w -> best = Some w \/ w ∈ ws.
Proof.
  induction ws as [|x ws IH]; intros best w; cbn [fold_left]; [by left|]. intros [H|H]%IH; [|set_solver].
  destruct best as [b|]; [destruct (winner_lt x b)|]; injection H as ->; set_solver.
Qed.

Lemma first_winner_some ws : forall best, (is_Some best \/ ws <> []) ->
  is_Some (fold_left (fun best w => match best with
                           | None => Some w
                           | Some b => if winner_lt w b then Some w else Some b
                           end) ws best).
Proof.
  induction ws as [|x ws IH]; intros best Hb; cbn [fold_left]; [by destruct Hb|]. apply IH. left.
  destruct best as [b|]; [destruct (winner_lt x b)|]; eauto.
Qed.

Lemma winners_in (required : Z) (sets : gmap bytes (gset bytes)) (h : bytes) (n : Z) :
  (h, n) ∈ winners required sets <-> exists set, sets !! h = Some set /\ n = Z.of_nat (size set) /\ required <= n.
Proof.
  unfold winners. rewrite list_elem_of_In, in_flat_map. split.
  - intros ([h' set] & Hin & Hw). cbn in Hw. apply list_elem_of_In, elem_of_map_to_list in Hin.
    destruct (required <=? _) eqn:E; [|done]. destruct Hw as [[= -> <-]|[]]. apply Z.leb_le in E. eauto.
  - intros (set & Hl & -> & Hr). exists (h, set). split; [by apply list_elem_of_In, elem_of_map_to_list|].
    cbn. apply Z.leb_le in Hr as ->. by left.
Qed.

(** What a quorum stands on: distinct signers' hashes, more than [F] of them. *)
Lemma selectQuorumResult_idx (vc : bool) entries cfg (i : nat) :
  selectQuorumResult vc entries cfg = QuorumIdx i ->
  exists (e : relayEntry) (set : gset bytes), e ∈ entries /\ re_idx e = i /\ (exists s, signed_entry cfg e s) /\
    F cfg + 1 <= Z.of_nat (size set) /\
    forall x, x ∈ set -> exists e' s, e' ∈ entries /\ groupHash e' = groupHash e /\ signed_entry cfg e' s /\ x = sha256 s.
Proof.
  unfold selectQuorumResult. destruct (negb vc); [done|]. destruct (_ =? 0); [done|].
  destruct (count_entries _ _ _) as [t|] eqn:Ec; [|done]. apply (count_entries_ok _ _ [] _ _ (tally_ok_empty cfg)) in Ec.
  destruct Ec as [H1 H2]. unfold first_winner. destruct (fold_left _ _ _) as [[h n]|] eqn:Ew; [|done]. intros [= <-].
  apply first_winner_in in Ew as [Ew|Ew]; [done|]. apply winners_in in Ew as (set & Hl & -> & Hr).
  destruct (H2 h) as (e & s & He & Hg & Hs & Hf); [eauto|]. exists e, set. rewrite Hf. cbn.
  split_and!; [done..|eauto|done|]. intros x Hx. specialize (H1 h x). rewrite Hl in H1. cbn in H1. rewrite Hg. by apply H1.
Qed.

(** Some signer behind the chosen result is honest. *)
Lemma quorum_honest (vc : bool) entries cfg (i : nat) (faulty : gset bytes) :
  Z.of_nat (size faulty) <= F cfg -> selectQuorumResult vc entries cfg = QuorumIdx i ->
  exists e s e' p, e ∈ entries /\ re_idx e = i /\ signed_entry cfg e s /\ e' ∈ entries /\ groupHash e' = groupHash e /\
    p ∈ Signers cfg /\ (p ∉ faulty) /\ verified p (RelayResponseSignaturePayload (sigHash e')) (re_signature e') = true.
Proof.
  intros Hbft (e & set & He & Hi & (s & Hs) & Hq & Hset)%selectQuorumResult_idx.
  destruct (set_preimages sha256 (fun p => exists e', e' ∈ entries /\ groupHash e' = groupHash e /\ signed_entry cfg e' p) set)
    as (l & Hnd & Hlen & Hl).
  { intros x (e' & p & ? & ? & ? & ->)%Hset. naive_solver. }
  destruct (exists_outside l faulty Hnd) as (p & Hp & Hnf); [lia|].
  rewrite Forall_forall in Hl. destruct (Hl p Hp) as (e' & He' & Hg & Hs').
  apply VerifySignature_sound in Hs' as [? ?]. by exists e, s, e', p.
Qed.

(** C6 The enclave's check of relayed results is Byzantine fault tolerant: if at
    most F of the configured signers are faulty and every response that an honest
    signer has signed belongs to the result [g], then the result the enclave
    uses belongs to [g], whatever other responses and signatures the untrusted
    gateway adds. *)
Theorem relay_result_agreed (vc : bool) entries cfg (i : nat) (faulty : gset bytes) g
    (Hbft : Z.of_nat (size faulty) <= F cfg)
    (Hhonest : forall e p, e ∈ entries -> p ∈ Signers cfg -> p ∉ faulty ->
       verified p (RelayResponseSignaturePayload (sigHash e)) (re_signature e) = true -> groupHash e = g) :
  selectQuorumResult vc entries cfg = QuorumIdx i ->
  exists e s, e ∈ entries /\ re_idx e = i /\ groupHash e = g /\ signed_entry cfg e s.
Proof.
  intros (e & s & e' & p & He & Hi & Hs & He' & Hg & Hp & Hnf & Hv)%(quorum_honest _ _ _ _ _ Hbft).
  exists e, s. rewrite <- Hg. eauto.
Qed.

(** Faulty responses cannot block the enclave either: once the bundle holds
    validly signed responses of [F+1] distinct signers for one result, a
    result is chosen, unless two signing keys collide under SHA-256. *)
Theorem relay_result_found entries cfg (good : list relayEntry) (signers : list bytes) g
    (Hnopanic : forall e n, e ∈ entries ->
       VerifySignature (RelayResponseSignaturePayload (sigHash e)) (re_signature e) (Signers cfg) <> Err (VerifyPanic n)) :
  good ⊆ entries -> Forall2 (fun e p => groupHash e = g /\ signed_entry cfg e p) good signers ->
  NoDup signers -> F cfg + 1 <= glen signers -> 0 <= F cfg ->
  (exists i, selectQuorumResult true entries cfg = QuorumIdx i) \/
  (exists p q, p ∈ signers /\ q ∈ signers /\ collision p q).
Proof.
  intros Hsub Hgood Hnd Hq HF. destruct (hashes_distinct signers Hnd) as [Hc|Hnd']; [by right|left].
  assert (Signers cfg <> []) as Hne.
  { destruct signers as [|p signers]; [unfold glen in Hq; cbn in Hq; lia|]. inversion Hgood as [|e ? ? ? [_ Hs]]; subst.
    apply VerifySignature_sound in Hs as [Hs _]. by intros E; rewrite E, elem_of_nil in Hs. }
  unfold selectQuorumResult. cbn [negb].
  assert ((glen (Signers cfg) =? 0) = false) as -> by (apply Z.eqb_neq; unfold glen; destruct (Signers cfg); cbn; [done | lia]).
  destruct (count_entries_total cfg entries Hnopanic (mkTally ∅ ∅)) as [t Ht]. rewrite Ht.
  apply (count_entries_ok _ _ [] _ _ (tally_ok_empty cfg)) in Ht as [H1 _].
  assert (list_to_set (map sha256 signers) ⊆ default ∅ (signersByHash t !! g)) as Hin.
  { intros x (p & -> & [k Hk]%list_elem_of_lookup_1)%elem_of_list_to_set%list_elem_of_fmap. apply H1.
    destruct (Forall2_lookup_r _ _ _ _ _ Hgood Hk) as (e & He & Hg & Hs). exists e, p. split_and!; try done.
    apply Hsub. by eapply list_elem_of_lookup_2. }
  apply subseteq_size in Hin. rewrite size_list_to_set, length_map in Hin by done.
  destruct (signersByHash t !! g) as [set|] eqn:Eg; [|unfold glen in Hq; cbn in Hin; rewrite size_empty in Hin; lia].
  assert ((g, Z.of_nat (size set)) ∈ winners (F cfg + 1) (signersByHash t)) as Hw.
  { apply winners_in. exists set. unfold glen in Hq. cbn in Hin. split_and!; [done..|lia]. }
  destruct (first_winner_some (winners (F cfg + 1) (signersByHash t)) None) as [[h n] Hf].
  { right. intros E. by rewrite E, elem_of_nil in Hw. }
  unfold first_winner. rewrite Hf. eauto.
Qed.
End Quorum.
