(* ===== verification/Dispatcher.v ===== *)
(** * Dispatcher: capability calls and secret reads through the relay

    The rest of [src/enclave/apps/confidential-workflows/app/remote_dispatcher.go] and of
    [src/enclave/apps/confidential-workflows/gateway/client.go]: failover between
    gateways, the retry window, the order of the secrets handed to the workflow
    and their decryption.  What the network does is an argument: the answer of
    each attempt, how long it took and whether the context ended. *)

From Stdlib Require Import Ascii String.
From S2P Require Import Prelude Codec Sha256 Types Cache Keychain Services EvmAddress Relay.

(** ** One gateway *)

Record RPCError := mkRPCError { rpc_Code : Z; rpc_Message : string }.

Definition gatewayFanOutFailure : string := "failed to forward user request to nodes".
Definition gatewayQuorumExpiry : string := "request expired".

Inductive gateway_error :=
| NoGatewayURLs
| RequestIDFailed
| GatewayEncodingFailed
| GatewayAttestationFailed
| GatewayBadURL
| GatewaySendFailed
| GatewayReadFailed
| GatewayBodyTooLarge
| GatewayHTTP (status : Z)
| GatewayBadJSON
| GatewayContextDone
| AllGatewaysFailed (n : nat)
| GatewayRPC (e : RPCError).

(** A decoded JSON-RPC response: an error, or a result that may be absent. *)
Definition rpc_response : Type := RPCError + option bytes.

Inductive gw_answer :=
| GwUnreachable
| GwUnreadable
| GwAnswer (status : Z) (len : Z) (decoded : option rpc_response).

Definition MaxGatewayBodyBytes : Z := 10 * 2 ^ 20.

Inductive send_out (A E : Type) :=
| Verified (r : result E A)                         (* what [verify] made of an answer *)
| Terminal (e : gateway_error) (transient : list gateway_error)
| WindowClosed (transient : list gateway_error).
Arguments Verified {A E}.
Arguments Terminal {A E}.
Arguments WindowClosed {A E}.

Section Gateway.
(** Codes of the [jsonrpc2] package. *)
Variables (ErrInternal ErrServerOverloaded : Z).

Definition Retryable (e : RPCError) : bool :=
  if (rpc_Code e =? ErrInternal) && contains (rpc_Message e) gatewayFanOutFailure then true
  else if (rpc_Code e =? ErrServerOverloaded) && contains (rpc_Message e) gatewayQuorumExpiry then true
  else false.

(** [sendOne]: the result, or an error with the failover flag. *)
Definition sendOne (url_ok : bool) (answer : gw_answer) : result (bool * gateway_error) (option bytes) :=
  if negb url_ok then Err (false, GatewayBadURL)
  else match answer with
  | GwUnreachable => Err (true, GatewaySendFailed)
  | GwUnreadable => Err (true, GatewayReadFailed)
  | GwAnswer status len decoded =>
      if MaxGatewayBodyBytes <? len then Err (false, GatewayBodyTooLarge)
      else match decoded with
      | Some (inl e) => Err (false, GatewayRPC e)
      | _ =>
          if negb (status =? 200) then Err (500 <=? status, GatewayHTTP status)
          else match decoded with
          | Some (inr result) => Ok result
          | _ => Err (false, GatewayBadJSON)
          end
      end
  end.

(** The failover loop from attempt [i], [left] attempts before [n]: [ask] is
    what a URL answers, [dead i] and [dead_wait i] whether the context has ended
    before attempt [i] or during the pause after it. *)
Fixpoint failover (urls : list string) (start : Z) (ask : string -> bool * gw_answer) (dead dead_wait : Z -> bool)
    (i : Z) (left : nat) (errs : nat) : option (result gateway_error (option bytes)) :=
  match left with
  | O => Some (Err (AllGatewaysFailed errs))
  | S left' =>
      if dead i then Some (Err GatewayContextDone)
      else match urls !! Z.to_nat (Z.rem (start + i) (glen urls)) with
      | None => None
      | Some url =>
          let '(url_ok, answer) := ask url in
          match sendOne url_ok answer with
          | Ok result => Some (Ok result)
          | Err (false, e) => Some (Err e)
          | Err (true, e) =>
              match left' with
              | O => Some (Err (AllGatewaysFailed (S errs)))
              | S _ => if dead_wait i then Some (Err GatewayContextDone)
                       else failover urls start ask dead dead_wait (i + 1) left' (S errs)
              end
          end
      end
  end.

(** [SendRequest]: [prepared] is the outcome of building the request once.
    [None] is an index out of range; the cursor wraps at 64 bits. *)
Definition SendRequest (urls : list string) (cursor : Z) (prepared : result gateway_error unit)
    (ask : string -> bool * gw_answer) (dead dead_wait : Z -> bool)
    : option (result gateway_error (option bytes)) * Z :=
  if glen urls =? 0 then (Some (Err NoGatewayURLs), cursor)
  else match prepared with
  | Err e => (Some (Err e), cursor)
  | Ok _ =>
      (failover urls (i64 cursor) ask dead dead_wait 0 (length urls) 0, u64 (cursor + 1))
  end.

(** ** The retry window *)

(** Errors after which the loop does not try again. *)
Definition terminal_error (e : gateway_error) : bool :=
  match e with GatewayRPC rpc => negb (Retryable rpc) | _ => false end.

Section Retry.
Context {A E : Type}.
(** What attempt [n] answers and how long it takes when its context stays open; the error
    it gives when the context ends first ([cut]: of the context, or of the gateways' last
    HTTP call).  The retry context ends at [closing]. *)
Variables (attempt : nat -> result gateway_error (option bytes)) (cut : nat -> gateway_error) (took : nat -> Z).
Variables (verify : option bytes -> result E A) (retryBackoff closing : Z).

(** Attempt [n], started at [t], and the instant it is over: a call under a context
    does not outlive it. *)
Definition attempt_at (t : Z) (n : nat) : result gateway_error (option bytes) * Z :=
  if closing <? t + took n then (Err (cut n), closing) else (attempt n, t + took n).

(** The loop at instant [t], attempt [n]. *)
Fixpoint sendWithRetry_loop (fuel : nat) (t : Z) (n : nat) (transientErrs : list gateway_error) : option (send_out A E) :=
  match fuel with
  | O => None
  | S fuel' =>
      if closing <=? t then Some (WindowClosed transientErrs)
      else match attempt_at t n with
      | (Ok resultJSON, _) => Some (Verified (verify resultJSON))
      | (Err e, t) =>
          if terminal_error e then Some (Terminal e transientErrs)
          else
            let transientErrs := transientErrs ++ [e] in
            if closing <=? t + retryBackoff then Some (WindowClosed transientErrs)
            else sendWithRetry_loop fuel' (t + retryBackoff) (S n) transientErrs
      end
  end.
End Retry.
End Gateway.

Definition DefaultGatewayRetryBackoff : Z := 1 * second.
Definition DefaultGatewayRetryTimeout : Z := 2 * minute.

(** The settings [NewRemoteDispatcher] ends up with. *)
Definition dispatcher_backoff (retryBackoff : Z) : Z :=
  if retryBackoff <=? 0 then DefaultGatewayRetryBackoff else retryBackoff.
Definition dispatcher_timeout (retryTimeout : Z) : Z :=
  if retryTimeout <=? 0 then DefaultGatewayRetryTimeout else retryTimeout.

(** The instant at which the retry context ends: the window opens at [t0], and the
    caller's context may end before, at its deadline or because it is cancelled. *)
Definition retry_closing (retryTimeout t0 : Z) (caller_end : option Z) : Z :=
  let window := t0 + dispatcher_timeout retryTimeout in
  match caller_end with Some d => Z.min d window | None => window end.

(** The fuel is one attempt per backoff. *)
Definition sendWithRetry {A E} (ErrInternal ErrServerOverloaded : Z) (attempt : nat -> result gateway_error (option bytes))
    (cut : nat -> gateway_error) (took : nat -> Z) (verify : option bytes -> result E A) (retryBackoff retryTimeout : Z)
    (t0 : Z) (caller_end : option Z) : option (send_out A E) :=
  let closing := retry_closing retryTimeout t0 caller_end in
  let backoff := dispatcher_backoff retryBackoff in
  sendWithRetry_loop ErrInternal ErrServerOverloaded attempt cut took verify backoff closing
    (S (Z.to_nat ((closing - t0) / backoff))) t0 0 [].

Section RetryProofs.
Context {A E : Type}.
Variables (EI EO : Z) (attempt : nat -> result gateway_error (option bytes)) (cut : nat -> gateway_error) (took : nat -> Z).
Variables (verify : option bytes -> result E A).
Hypothesis took_nonneg : forall n, 0 <= took n.

Section Window.
Variables (backoff closing t0 : Z).

(** The instant at which attempt [n] is due, and what it answers then. *)
Fixpoint due (n : nat) : Z := match n with O => t0 | S n => due n + took n + backoff end.
Definition answer_due (n : nat) : result gateway_error (option bytes) := (attempt_at attempt cut took closing (due n) n).1.

(** The attempts that are due before the window closes are made, as long as they fail in
    a way worth repeating; the first other answer ends the call, and nothing else but
    the end of the window does. *)
Definition returns_exactly (out : send_out A E) : Prop :=
  exists errs, let n := length errs in
  (forall i e, errs !! i = Some e -> due i < closing /\ answer_due i = Err e /\ terminal_error EI EO e = false) /\
  match out with
  | Verified r => due n + took n <= closing /\ exists json, attempt n = Ok json /\ r = verify json
  | Terminal e tr => due n < closing /\ answer_due n = Err e /\ terminal_error EI EO e = true /\ tr = errs
  | WindowClosed tr => closing <= due n /\ tr = errs
  end.

Lemma attempt_due n : 0 < backoff -> let '(r, t) := attempt_at attempt cut took closing (due n) n in
  answer_due n = r /\ (forall json, r = Ok json -> due n + took n <= closing /\ attempt n = Ok json) /\
  (closing <= t + backoff -> closing <= due (S n)) /\ (t + backoff < closing -> t + backoff = due (S n)).
Proof.
  intros Hb. unfold answer_due, attempt_at. cbn [due]. destruct (Z.ltb_spec closing (due n + took n)); cbn [fst]; split_and!; try done; lia.
Qed.

Lemma retry_loop_returns : 0 < backoff -> forall fuel errs,
  (forall i e, errs !! i = Some e -> due i < closing /\ answer_due i = Err e /\ terminal_error EI EO e = false) ->
  closing - due (length errs) < Z.of_nat fuel * backoff -> (0 < fuel)%nat ->
  exists out, sendWithRetry_loop EI EO attempt cut took verify backoff closing fuel (due (length errs)) (length errs) errs = Some out /\
    returns_exactly out.
Proof.
  intros Hb. induction fuel as [|fuel IH]; intros errs Herrs Hf Hpos; [lia|]. cbn [sendWithRetry_loop]. set (n := length errs) in *.
  destruct (Z.leb_spec closing (due n)) as [Hd|Hd]; [eexists; split; [done|]; by exists errs|].
  pose proof (attempt_due n Hb) as Ha. destruct (attempt_at _ _ _ _ _ _) as [[json|e] t]; destruct Ha as (Hr & Hok & Hclosed & Hopen).
  { destruct (Hok json eq_refl). eexists. split; [done|]. exists errs. eauto. }
  destruct (terminal_error EI EO e) eqn:Et; [eexists; split; [done|]; by exists errs|].
  assert (forall i e', (errs ++ [e]) !! i = Some e' -> due i < closing /\ answer_due i = Err e' /\ terminal_error EI EO e' = false) as Herrs'.
  { intros i e' [[_ Hi]|[-> <-]]%lookup_snoc_Some; [by apply Herrs|done]. }
  assert (length (errs ++ [e]) = S n) as Hl by (rewrite length_app; cbn; lia).
  destruct (Z.leb_spec closing (t + backoff)) as [Hc|Hc].
  - eexists. split; [done|]. exists (errs ++ [e]). rewrite Hl. eauto.
  - pose proof (Hopen Hc) as Ht. rewrite Nat2Z.inj_succ, Z.mul_succ_l in Hf. rewrite Ht, <- Hl. pose proof (took_nonneg n).
    apply IH; [done|rewrite Hl; cbn [due] in *; lia|]. cbn [due] in Ht. destruct fuel; lia.
Qed.
End Window.

(** C35 A call to the relay comes back, whatever the gateways do and whatever settings
    were injected, and retries exactly as long as it may: attempt after attempt is made,
    each a backoff after the end of the one before, while the retry context is open and
    the attempts fail in a way worth repeating.  The call returns what the verification
    makes of the first answer, which came within the context; or the first
    terminal error, with the failures before it; or, only if the context has ended before
    another attempt is due, that the window has closed, with the failure of every
    attempt made.  The context ends with the injected timeout or with the caller's. *)
Theorem sendWithRetry_returns retryBackoff retryTimeout t0 caller_end :
  exists out, sendWithRetry EI EO attempt cut took verify retryBackoff retryTimeout t0 caller_end = Some out /\
    returns_exactly (dispatcher_backoff retryBackoff) (retry_closing retryTimeout t0 caller_end) t0 out.
Proof.
  unfold sendWithRetry. assert (0 < dispatcher_backoff retryBackoff) as Hb.
  { unfold dispatcher_backoff, DefaultGatewayRetryBackoff, second. destruct (_ <=? 0) eqn:Eb; [lia|]. by apply Z.leb_gt in Eb. }
  apply (retry_loop_returns _ _ t0 Hb _ []); [by intros i e Hi; rewrite lookup_nil in Hi| |lia].
  cbn [length due]. set (d := retry_closing _ _ _ - t0). rewrite Nat2Z.inj_succ.
  destruct (decide (0 <= d)) as [Hd|Hd].
  - rewrite Z2Nat.id by (apply Z.div_pos; lia). pose proof (Z.mul_succ_div_gt d _ Hb). lia.
  - assert (0 <= Z.of_nat (Z.to_nat (d / dispatcher_backoff retryBackoff))) by lia. nia.
Qed.
End RetryProofs.

(** A cursor in the positive half never leads out of the list of URLs. *)
Lemma SendRequest_in_range (urls : list string) (cursor : Z) prepared ask dead dead_wait :
  0 <= cursor < 2 ^ 63 - glen urls -> is_Some (SendRequest urls cursor prepared ask dead dead_wait).1.
Proof.
  intros Hc. unfold SendRequest. destruct (glen urls =? 0) eqn:E0; [eauto|]. apply Z.eqb_neq in E0.
  destruct prepared; [|eauto]. cbn [fst]. assert (i64 cursor = cursor) as ->.
  { apply i64_id. unfold is_i64. unfold glen in *. lia. }
  assert (forall left i errs, 0 <= i -> is_Some (failover urls cursor ask dead dead_wait i left errs)) as Hf; [|by apply Hf].
  induction left as [|left IH]; intros i errs Hi; cbn [failover]; [eauto|]. destruct (dead i); [eauto|].
  destruct (lookup_lt_is_Some_2 urls (Z.to_nat (Z.rem (cursor + i) (glen urls)))) as [url Hu].
  { pose proof (Z.rem_bound_pos (cursor + i) (glen urls)). unfold glen in *. lia. }
  rewrite Hu. destruct (ask url) as [ok answer]. destruct (sendOne ok answer) as [r|[[] e]]; [eauto| |eauto].
  destruct left as [|left']; [eauto|]. destruct (dead_wait i); [eauto|]. apply IH. lia.
Qed.

(** ** Secrets *)

Record SecretIdentifier := mkSecretID { si_Key : string; si_Namespace : string }.

#[export] Instance SecretIdentifier_eq_dec : EqDecision SecretIdentifier.
Proof. solve_decision. Defined.
#[export] Instance SecretIdentifier_countable : Countable SecretIdentifier.
Proof.
  refine (inj_countable' (fun i => (si_Key i, si_Namespace i)) (fun p => mkSecretID p.1 p.2) _). by intros [].
Defined.

Record SecretEntry := mkSecretEntry {
  se_ID : SecretIdentifier;
  se_Ciphertext : bytes;
  se_EncryptedShares : list bytes;
}.

Inductive order_error := UnexpectedSecret (id : SecretIdentifier) | DuplicateSecret (id : SecretIdentifier).

(** The requested identifiers without repetitions, first occurrences first. *)
Fixpoint requested_order (requested : list SecretIdentifier) (want : gset SecretIdentifier) (order : list SecretIdentifier)
    : gset SecretIdentifier * list SecretIdentifier :=
  match requested with
  | [] => (want, order)
  | s :: rest =>
      if decide (s ∈ want) then requested_order rest want order
      else requested_order rest ({[s]} ∪ want) (order ++ [s])
  end.

Fixpoint index_entries (want : gset SecretIdentifier) (got : list SecretEntry) (byID : gmap SecretIdentifier SecretEntry)
    : result order_error (gmap SecretIdentifier SecretEntry) :=
  match got with
  | [] => Ok byID
  | g :: rest =>
      if decide (se_ID g ∉ want) then Err (UnexpectedSecret (se_ID g))
      else if decide (is_Some (byID !! se_ID g)) then Err (DuplicateSecret (se_ID g))
      else index_entries want rest (<[se_ID g := g]> byID)
  end.

Definition orderRelaySecrets (requested : list SecretIdentifier) (got : list SecretEntry)
    : result order_error (list (SecretIdentifier * option SecretEntry)) :=
  let '(want, order) := requested_order requested ∅ [] in
  let? byID := index_entries want got ∅ in
  Ok (map (fun id => (id, byID !! id)) order).

Section Order.
Implicit Types (id : SecretIdentifier) (want : gset SecretIdentifier).

Lemma requested_order_spec requested : forall want order,
  NoDup order -> (forall id, id ∈ order <-> id ∈ want) ->
  let '(want', order') := requested_order requested want order in
  NoDup order' /\ (forall id, id ∈ order' <-> id ∈ want') /\ (forall id, id ∈ want' <-> id ∈ want \/ id ∈ requested) /\
  exists new, order' = order ++ new /\ sublist new requested.
Proof.
  induction requested as [|s rest IH]; intros want order Hnd Hiff; cbn [requested_order].
  - split_and!; [done..|set_solver|]. exists []. rewrite app_nil_r. split; [done|constructor].
  - destruct (decide (s ∈ want)) as [Hin|Hnin].
    + specialize (IH want order Hnd Hiff). destruct (requested_order rest want order) as [w o].
      destruct IH as (H1 & H2 & H3 & new & H4 & H5). split_and!; [done..|set_solver|].
      exists new. split; [done|]. by apply sublist_cons.
    + specialize (IH ({[s]} ∪ want) (order ++ [s])). destruct (requested_order rest _ _) as [w o].
      destruct IH as (H1 & H2 & H3 & new & H4 & H5).
      * apply NoDup_app. split_and!; [done| |apply NoDup_singleton]. intros x Hx ->%list_elem_of_singleton. by apply Hnin, Hiff.
      * intros id. rewrite elem_of_app, list_elem_of_singleton, elem_of_union, elem_of_singleton, Hiff. tauto.
      * split_and!; [done..|set_solver|]. exists (s :: new). split; [by rewrite H4, <- app_assoc|]. by apply sublist_skip.
Qed.

Lemma index_entries_Ok want got : forall (byID m : gmap SecretIdentifier SecretEntry),
  index_entries want got byID = Ok m ->
  NoDup (map se_ID got) /\ (forall g, g ∈ got -> se_ID g ∈ want) /\
  (forall id e, m !! id = Some e <-> byID !! id = Some e \/ (e ∈ got /\ se_ID e = id)) /\
  (forall g, g ∈ got -> byID !! se_ID g = None).
Proof.
  induction got as [|g got IH]; intros byID m; cbn [index_entries].
  - intros [= <-]. split_and!; [constructor|set_solver| |set_solver]. intros id e. split; [by left|]. set_solver.
  - destruct (decide (se_ID g ∉ want)) as [|Hw]; [done|]. apply dec_stable in Hw.
    destruct (decide (is_Some _)) as [|Hn]; [done|]. apply eq_None_not_Some in Hn.
    intros (H1 & H2 & H3 & H4)%IH. cbn [map]. split_and!.
    + apply NoDup_cons. split; [|done]. intros (g' & E & Hg')%list_elem_of_fmap. specialize (H4 g' Hg').
      rewrite <- E, lookup_insert_eq in H4. done.
    + intros g' [->|Hg']%elem_of_cons; [done|]. auto.
    + intros id e. rewrite H3, lookup_insert_Some, elem_of_cons. split.
      * intros [[[<- <-]|[Hne Hb]]|[He <-]]; auto.
      * intros [Hb|[[->|He] <-]]; auto. left. right. split; [congruence|done].
    + intros g' [->|Hg']%elem_of_cons; [done|]. specialize (H4 g' Hg'). apply lookup_insert_None in H4 as [? _]. done.
Qed.

(** The secrets handed to a workflow are exactly those it asked for: one slot
    per distinct requested identifier, in the order of the request; a slot
    holds the relay's entry with that identifier or is empty if there is none;
    every entry of the relay is in its slot.  Anything else, an identifier that
    was not requested or a repeated one, is refused. *)
Lemma order_spec requested got ordered :
  orderRelaySecrets requested got = Ok ordered ->
  NoDup (map fst ordered) /\ sublist (map fst ordered) requested /\
  (forall id, id ∈ requested <-> id ∈ map fst ordered) /\
  (forall id e, (id, Some e) ∈ ordered <-> e ∈ got /\ se_ID e = id) /\
  (forall id, (id, None) ∈ ordered -> id ∈ requested /\ forall e, e ∈ got -> se_ID e <> id).
Proof.
  unfold orderRelaySecrets. pose proof (requested_order_spec requested ∅ []) as Hr.
  destruct (requested_order requested ∅ []) as [want order].
  destruct Hr as (H1 & H2 & H3 & new & -> & H5); [constructor|set_solver|]. cbn [app] in *.
  destruct (index_entries want got ∅) as [m|] eqn:Ei; [|done]. cbn [rbind]. intros [= <-].
  apply index_entries_Ok in Ei as (H6 & H7 & H8 & _).
  rewrite map_map. cbn [fst]. rewrite map_id.
  assert (forall id e, m !! id = Some e <-> e ∈ got /\ se_ID e = id) as Hm.
  { intros id e. rewrite H8, lookup_empty. naive_solver. }
  assert (forall id v, (id, v) ∈ map (fun id => (id, m !! id)) new <-> id ∈ new /\ v = m !! id) as Hin.
  { intros id v. rewrite list_elem_of_fmap. naive_solver. }
  split_and!; [done|done|set_solver| |].
  - intros id e. rewrite Hin, <- Hm. split; [naive_solver|]. intros Hl. split; [|done].
    apply Hm in Hl as [He <-]. apply H2. auto.
  - intros id [Hid Hn]%Hin. split; [set_solver|]. intros e He <-. assert (m !! se_ID e = Some e) by (by apply Hm). congruence.
Qed.
End Order.

(** ** Calls *)

Record SecretsRequestParams := mkSecretsParams {
  sp_WorkflowID : string;
  sp_Owner : bytes;
  sp_ExecutionID : string;
  sp_OrgID : string;
  sp_CallbackID : Z;
  sp_Secrets : list SecretIdentifier;
  sp_EnclavePublicKey : bytes;
  sp_EnclaveConfig : EnclaveConfig;
  sp_SignedComputeRequests : list SignedComputeRequest;
  sp_Attestation : bytes;
}.

Record SecretsResponseResult := mkSecretsResult { sr_RawVaultPublicKey : bytes; sr_Secrets : list SecretEntry }.

Record CapabilityRequestParams := mkCapabilityParams {
  cp_WorkflowID : string;
  cp_Owner : bytes;
  cp_ExecutionID : string;
  cp_OrgID : string;
  cp_ReferenceID : Z;
  cp_CapabilityID : string;
  cp_Payload : bytes;
  cp_EnclaveConfig : EnclaveConfig;
  cp_Attestation : bytes;
}.

Record CapabilityResponseResult := mkCapabilityResult { cr_Error : string; cr_Payload : bytes }.

Inductive relay_error :=
| KeypairUnavailable (e : keychain_error)
| ParamsEncodingFailed
| RelayAttestationFailed
| BundleUndecodable
| NoRelayQuorum (out : quorum_out)
| SecretsInvalid (e : order_error)
| PayloadUndecodable.

Inductive decrypt_error :=
| CiphertextEncoding
| ShareEncoding (i : nat)
| ShareOpening (i : nat)
| SecretAggregation (e : aggregate_error).

(** One response to the workflow: a value, or an error. *)
Inductive SecretResponse :=
| SecretValue (id : SecretIdentifier) (value : bytes)
| SecretMissing (id : SecretIdentifier)
| SecretFailed (id : SecretIdentifier) (e : decrypt_error).

Definition response_id (r : SecretResponse) : SecretIdentifier :=
  match r with SecretValue id _ | SecretMissing id | SecretFailed id _ => id end.

Definition defaultSecretsNamespace : string := "main".
Definition relaySecretsCallbackIDDomain : string := "chainlink-confidential-compute/relay-secrets-callback-id/v1".

(** [int32(binary.BigEndian.Uint32(h[:4]) | 1<<31)]. *)
Definition callback_id_of (h : bytes) : Z :=
  let w := fold_left (fun acc x => acc * 256 + Z_of_byte x) (take 4 h) 0 in
  let w := Z.lor w (2 ^ 31) in
  if w <? 2 ^ 31 then w else w - 2 ^ 32.

Definition secret_ids (requests : list (string * string)) : list SecretIdentifier :=
  map (fun r => mkSecretID r.1 (if bool_decide (r.2 = ""%string) then defaultSecretsNamespace else r.2)) requests.

(** [enclaveConfigFor]: the copy that travels in a relay request. *)
Definition enclaveConfigFor (c : EnclaveConfig) : EnclaveConfig :=
  mkConfig (map (fun s => s) (Signers c)) (cfg_MasterPublicKey c) (T c) (F c).

Definition toRelaySignedComputeRequests (reqs : list SignedComputeRequest) : list SignedComputeRequest :=
  map (fun r : SignedComputeRequest => mkSigned
    (mkComputeRequest (RequestID r) (ApplicationRequestID r) (PublicData r) (Ciphertexts r) (CiphertextNames r)
       (EncryptedDecryptionKeyShares r) (EnclaveEphemeralPublicKey r) (MasterPublicKey r) (AppID r) (Version r))
    (Signature r)) reqs.

Section Calls.
Context `{HS : Sha256} `{HT : TDH2} {verified : bytes -> bytes -> bytes -> bool} `{HV : !SignatureVerifier verified}.
Variables (keccak256 : bytes -> bytes) (OpenAnonymous : bytes -> bytes -> bytes -> option bytes).
(** JSON and protobuf of the relay messages, their hashes, attestation. *)
Variables (RelayResponseSignaturePayload : bytes -> bytes).
Variables (marshal_secrets : SecretsRequestParams -> option bytes) (marshal_capability : CapabilityRequestParams -> option bytes).
Variables (decode_secrets_bundle : bytes -> option (list (SecretsResponseResult * bytes))).
Variables (decode_capability_bundle : bytes -> option (list (CapabilityResponseResult * bytes))).
Variables (secrets_hash : SecretsResponseResult -> SecretsRequestParams -> option bytes).
Variables (capability_hash : CapabilityResponseResult -> CapabilityRequestParams -> option bytes).
(** [canonicalCapabilityPayload]: an error, no rewrite, or the rewritten payload. *)
Context {canonical_error : Type}.
Variables (canonicalCapabilityPayload : bytes -> result canonical_error (option bytes)).
Variables (proto_response : bytes -> option bytes).
Variables (attest_secrets : SecretsRequestParams -> option bytes) (attest_capability : CapabilityRequestParams -> option bytes).

Definition relaySecretsCallbackID (params : SecretsRequestParams) : option Z :=
  let identity := mkSecretsParams (sp_WorkflowID params) (sp_Owner params) (sp_ExecutionID params) (sp_OrgID params)
    (sp_CallbackID params) (sp_Secrets params) (sp_EnclavePublicKey params) (sp_EnclaveConfig params) [] [] in
  (fun json => callback_id_of (sha256 (bs relaySecretsCallbackIDDomain ++ [byte_of_Z 10] ++ json))) <$> marshal_secrets identity.

(** [secretsEntries]: responses whose result cannot be hashed are skipped. *)
Definition secretsEntries (bundle : list (SecretsResponseResult * bytes)) (params : SecretsRequestParams) : list relayEntry :=
  omap (fun p : nat * (SecretsResponseResult * bytes) =>
    (fun h => mkEntry h h p.2.2 p.1) <$> secrets_hash p.2.1 params) (imap pair bundle).

Definition capabilityEntries (bundle : list (CapabilityResponseResult * bytes)) (params : CapabilityRequestParams) : list relayEntry :=
  omap (fun p : nat * (CapabilityResponseResult * bytes) =>
    let '(i, (res, sig)) := p in
    match capability_hash res params with
    | None => None
    | Some sigHash =>
        let groupHash :=
          match canonicalCapabilityPayload (cr_Payload res) with
          | Ok (Some canonical) => default sigHash (capability_hash (mkCapabilityResult (cr_Error res) canonical) params)
          | _ => sigHash
          end in
        Some (mkEntry sigHash groupHash sig i)
    end) (imap pair bundle).

(** The [verify] functions handed to [sendWithRetry]. *)
Definition verify_secrets (cfg : EnclaveConfig) (params : SecretsRequestParams) (json : option bytes)
    : result relay_error SecretsResponseResult :=
  match decode_secrets_bundle (default [] json) with
  | None => Err BundleUndecodable
  | Some bundle =>
      match selectQuorumResult RelayResponseSignaturePayload true (secretsEntries bundle params) cfg with
      | QuorumIdx idx => match bundle !! idx with Some (res, _) => Ok res | None => Err BundleUndecodable end
      | out => Err (NoRelayQuorum out)
      end
  end.

Definition verify_capability (cfg : EnclaveConfig) (params : CapabilityRequestParams) (json : option bytes)
    : result relay_error CapabilityResponseResult :=
  match decode_capability_bundle (default [] json) with
  | None => Err BundleUndecodable
  | Some bundle =>
      match selectQuorumResult RelayResponseSignaturePayload true (capabilityEntries bundle params) cfg with
      | QuorumIdx idx => match bundle !! idx with Some (res, _) => Ok res | None => Err BundleUndecodable end
      | out => Err (NoRelayQuorum out)
      end
  end.

Fixpoint open_shares (now : Z) (kp : boxKeypair) (i : nat) (encShares : list bytes) : result decrypt_error (list bytes) :=
  match encShares with
  | [] => Ok []
  | encShare :: rest =>
      match b64_decode encShare with
      | None => Err (ShareEncoding i)
      | Some encBytes =>
          match Decrypt OpenAnonymous now kp encBytes with
          | Err _ => Err (ShareOpening i)
          | Ok share => let? shares := open_shares now kp (S i) rest in Ok (share :: shares)
          end
      end
  end.

Definition decryptSecret (now : Z) (kp : boxKeypair) (entry : SecretEntry) (masterPK : bytes) (threshold : Z)
    : result decrypt_error bytes :=
  match b64_decode (se_Ciphertext entry) with
  | None => Err CiphertextEncoding
  | Some ciphertext =>
      let? shares := open_shares now kp 0 (se_EncryptedShares entry) in
      match AggregateShares ciphertext shares masterPK threshold with
      | Ok plaintext => Ok plaintext
      | Err e => Err (SecretAggregation e)
      end
  end.

Definition secret_response (now : Z) (kp : boxKeypair) (masterPK : bytes) (threshold : Z)
    (o : SecretIdentifier * option SecretEntry) : SecretResponse :=
  match o.2 with
  | None => SecretMissing o.1
  | Some entry =>
      match decryptSecret now kp entry masterPK threshold with
      | Err e => SecretFailed (se_ID entry) e
      | Ok plaintext => SecretValue (se_ID entry) plaintext
      end
  end.

(** [GetSecrets]; [send] is [sendWithRetry] for the given parameters. *)
Definition GetSecrets (now : Z) (skc : boxKeychain) (cfg : EnclaveConfig) (workflowID : string) (requestID : bytes)
    (requests : list (string * string)) (callbackID : Z) (owner : bytes) (executionID orgID : string)
    (signedRequests : list SignedComputeRequest)
    (send : bytes -> (option bytes -> result relay_error SecretsResponseResult) ->
            send_out SecretsResponseResult relay_error)
    : (send_out (list SecretResponse) relay_error) * boxKeychain :=
  match GetKeyPairForRequest now skc requestID with
  | (Err e, skc) => (Verified (Err (KeypairUnavailable e)), skc)
  | (Ok kp, skc) =>
      let secrets := secret_ids requests in
      let params := mkSecretsParams workflowID (Address_String keccak256 (HexToAddress owner)) executionID orgID callbackID
        secrets (hex_encode (publicKey kp)) (enclaveConfigFor cfg) (toRelaySignedComputeRequests signedRequests) [] in
      match relaySecretsCallbackID params with
      | None => (Verified (Err ParamsEncodingFailed), skc)
      | Some relayCallbackID =>
          let with_att att := mkSecretsParams (sp_WorkflowID params) (sp_Owner params) (sp_ExecutionID params)
            (sp_OrgID params) relayCallbackID secrets (sp_EnclavePublicKey params) (sp_EnclaveConfig params)
            (sp_SignedComputeRequests params) att in
          match attest_secrets (with_att []) with
          | None => (Verified (Err RelayAttestationFailed), skc)
          | Some att =>
              let params := with_att att in
              match marshal_secrets params with
              | None => (Verified (Err ParamsEncodingFailed), skc)
              | Some paramsJSON =>
                  (match send paramsJSON (verify_secrets cfg params) with
                   | Terminal e tr => Terminal e tr
                   | WindowClosed tr => WindowClosed tr
                   | Verified (Err e) => Verified (Err e)
                   | Verified (Ok res) =>
                       let masterPK :=
                         if bool_decide (sr_RawVaultPublicKey res = []) then cfg_MasterPublicKey cfg
                         else default (cfg_MasterPublicKey cfg) (hex_decode (sr_RawVaultPublicKey res)) in
                       Verified (match orderRelaySecrets secrets (sr_Secrets res) with
                                 | Err e => Err (SecretsInvalid e)
                                 | Ok ordered => Ok (map (secret_response now kp masterPK (T cfg)) ordered)
                                 end)
                   end, skc)
              end
          end
      end
  end.

(** The response handed to the workflow: the relay's error, or the message. *)
Inductive CapabilityResponse := CapabilityFailed (msg : string) | CapabilityReply (message : bytes).

Definition CallCapability (cfg : EnclaveConfig) (workflowID : string) (owner : bytes) (executionID orgID : string)
    (callbackID : Z) (capabilityID : string) (payloadBytes : bytes)
    (send : bytes -> (option bytes -> result relay_error CapabilityResponseResult) ->
            send_out CapabilityResponseResult relay_error)
    : send_out CapabilityResponse relay_error :=
  let with_att att := mkCapabilityParams workflowID (Address_String keccak256 (HexToAddress owner)) executionID orgID
    callbackID capabilityID (b64_encode payloadBytes) (enclaveConfigFor cfg) att in
  match attest_capability (with_att []) with
  | None => Verified (Err RelayAttestationFailed)
  | Some att =>
      let params := with_att att in
      match marshal_capability params with
      | None => Verified (Err ParamsEncodingFailed)
      | Some paramsJSON =>
          match send paramsJSON (verify_capability cfg params) with
          | Terminal e tr => Terminal e tr
          | WindowClosed tr => WindowClosed tr
          | Verified (Err e) => Verified (Err e)
          | Verified (Ok res) =>
              if negb (bool_decide (cr_Error res = ""%string)) then Verified (Ok (CapabilityFailed (cr_Error res)))
              else match b64_decode (cr_Payload res) ≫= proto_response with
              | None => Verified (Err PayloadUndecodable)
              | Some message => Verified (Ok (CapabilityReply message))
              end
          end
      end
  end.

(** ** Proofs *)

Lemma toRelay_id (reqs : list SignedComputeRequest) : toRelaySignedComputeRequests reqs = reqs.
Proof. unfold toRelaySignedComputeRequests. induction reqs as [|[[] ?] reqs IH]; [done|]. cbn. by rewrite IH. Qed.

(** The relay's view of the requests has the hashes that the nodes signed. *)
Lemma toRelay_hash (reqs : list SignedComputeRequest) :
  map (fun r : SignedComputeRequest => ComputeRequest_Hash r) (toRelaySignedComputeRequests reqs) =
  map (fun r : SignedComputeRequest => ComputeRequest_Hash r) reqs.
Proof. by rewrite toRelay_id. Qed.

Lemma fold_be_range (l : bytes) : forall acc, 0 <= acc ->
  0 <= fold_left (fun acc x => acc * 256 + Z_of_byte x) l acc < (acc + 1) * 256 ^ Z.of_nat (length l).
Proof.
  induction l as [|x l IH]; intros acc Ha; cbn [fold_left length]; [cbn; lia|].
  pose proof (Z_of_byte_range x). destruct (IH (acc * 256 + Z_of_byte x)) as [H1 H2]; [lia|]. split; [done|].
  eapply Z.lt_le_trans; [exact H2|]. rewrite Nat2Z.inj_succ, Z.pow_succ_r by lia.
  pose proof (Z.pow_pos_nonneg 256 (Z.of_nat (length l))). nia.
Qed.

(** A derived callback ID is negative, so never an ID of a workflow, and never 0. *)
Lemma callback_id_range h : - 2 ^ 31 <= callback_id_of h < 0.
Proof.
  unfold callback_id_of. set (w := fold_left _ _ _).
  assert (0 <= w < 2 ^ 32) as Hw.
  { pose proof (fold_be_range (take 4 h) 0 ltac:(lia)) as Hr. fold w in Hr. split; [lia|].
    assert (length (take 4 h) <= 4)%nat as Hl by (rewrite length_take; lia).
    assert (256 ^ Z.of_nat (length (take 4 h)) <= 256 ^ 4) by (apply Z.pow_le_mono_r; lia). lia. }
  assert (2 ^ 31 <= Z.lor w (2 ^ 31) < 2 ^ 32) as Hlor.
  { assert (Z.log2 (Z.lor w (2 ^ 31)) = 31) as Hlog.
    { rewrite Z.log2_lor, Z.log2_pow2 by lia. apply Z.max_r.
      destruct (decide (w = 0)) as [->|]; [done|]. assert (Z.log2 w < 32) by (apply Z.log2_lt_pow2; lia). lia. }
    assert (0 < Z.lor w (2 ^ 31)) as Hpos.
    { assert (0 <= Z.lor w (2 ^ 31)) by (apply Z.lor_nonneg; lia).
      assert (Z.lor w (2 ^ 31) <> 0) by (rewrite Z.lor_eq_0_iff; lia). lia. }
    pose proof (Z.log2_spec _ Hpos) as Hs. rewrite Hlog in Hs. done. }
  destruct (_ <? _) eqn:E; [apply Z.ltb_lt in E; lia|]. lia.
Qed.

(** A workflow that reads secrets gets one answer per distinct secret it asked
    for, in the order it asked, each named after the secret requested, with the
    empty namespace read as "main"; this holds for whatever the relay returns. *)
Theorem secrets_answered_in_order now skc cfg workflowID requestID requests callbackID owner executionID orgID
    signedRequests send responses skc' :
  GetSecrets now skc cfg workflowID requestID requests callbackID owner executionID orgID signedRequests send =
    (Verified (Ok responses), skc') ->
  NoDup (map response_id responses) /\ sublist (map response_id responses) (secret_ids requests) /\
  (forall id, id ∈ secret_ids requests <-> id ∈ map response_id responses).
Proof.
  unfold GetSecrets. destruct (GetKeyPairForRequest now skc requestID) as [[kp|] skc1]; [|done].
  destruct (relaySecretsCallbackID _) as [rid|]; [|done]. destruct (attest_secrets _) as [att|]; [|done].
  destruct (marshal_secrets _) as [json|]; [|done]. destruct (send _ _) as [[res|]| |]; [|done..].
  destruct (orderRelaySecrets _ _) as [ordered|] eqn:Eo; [|done]. intros [= <- _].
  apply order_spec in Eo as (H1 & H2 & H3 & H4 & _).
  assert (map response_id (map (secret_response now kp
    (if bool_decide (sr_RawVaultPublicKey res = []) then cfg_MasterPublicKey cfg
     else default (cfg_MasterPublicKey cfg) (hex_decode (sr_RawVaultPublicKey res))) (T cfg)) ordered) = map fst ordered) as ->; [|done].
  rewrite map_map. apply map_ext_in. intros [id [e|]] Hin; [|done]. apply list_elem_of_In, H4 in Hin as [_ <-].
  unfold secret_response. cbn. by destruct (decryptSecret _ _ _ _ _).
Qed.
End Calls.
