(* ===== verification/RelayResponse.v ===== *)
(** * RelayResponse: what the relay's answers have in common

    Models [src/enclave/apps/confidential-workflows/app/relay_response.go]: the form
    under which the enclave groups the answers of the relay nodes, and the diagnostics
    of a failed quorum.  Protobuf is an argument; a report is decoded to its fields. *)

From stdpp Require Import pretty.
From S2P Require Import Prelude Codec Order Text Sha256 Types Cache Keychain Services EvmAddress Relay Dispatcher.

(** ** Messages *)

(** What a report holds beside its signatures, with the fields unknown to the enclave's version of the
    message, which protobuf keeps when it marshals again. *)
Record report_body := mkBody {
  rb_ConfigDigest : bytes;
  rb_SeqNr : Z;
  rb_ReportContext : bytes;
  rb_RawReport : bytes;
  rb_unknown : bytes;
}.
Record attributed_sig := mkSig { as_SignerId : Z; as_Signature : bytes }.
Record ReportResponse := mkReport { rr_body : report_body; rr_Sigs : list attributed_sig }.

Record any_message := mkAny { any_TypeUrl : bytes; any_Value : bytes }.
(** [sdkpb.CapabilityResponse]: the payload, the error, or neither. *)
Inductive sdk_response := RespPayload (a : any_message) | RespError (e : bytes) | RespEmpty.

Definition GetPayload (r : sdk_response) : option any_message := match r with RespPayload a => Some a | _ => None end.
Definition resp_GetError (r : sdk_response) : bytes := match r with RespError e => e | _ => [] end.

Inductive canonical_error := PayloadEncoding | ResponseUnparsable | ReportUnparsable | ReportUnmarshalable | ResponseUnmarshalable.

Section Canonical.
Variables (unmarshal_response : bytes -> result bytes sdk_response) (MessageIs_report : any_message -> bool)
  (UnmarshalTo_report : any_message -> result bytes ReportResponse)
  (MarshalFrom_report : ReportResponse -> option any_message) (marshal_response : sdk_response -> option bytes).

(** [Ok None]: no rewrite. *)
Definition canonicalCapabilityPayload (payload : bytes) : result canonical_error (option bytes) :=
  match b64_decode payload with
  | None => Err PayloadEncoding
  | Some raw =>
      match unmarshal_response raw with
      | Err _ => Err ResponseUnparsable
      | Ok resp =>
          match GetPayload resp with
          | None => Ok None
          | Some inner =>
              if negb (MessageIs_report inner) then Ok None
              else match UnmarshalTo_report inner with
              | Err _ => Err ReportUnparsable
              | Ok report =>
                  match MarshalFrom_report (mkReport (rr_body report) []) with
                  | None => Err ReportUnmarshalable
                  | Some wrapped =>
                      match marshal_response (RespPayload wrapped) with
                      | None => Err ResponseUnmarshalable
                      | Some out => Ok (Some (b64_encode out))
                      end
                  end
              end
          end
      end
  end.

(** ** Diagnostics *)

Definition maxDiagFieldLen : Z := 160.
Definition maxDiagLen : Z := 4096.

Definition truncate (s : bytes) (max : Z) : bytes :=
  if glen s <=? max then s else take (Z.to_nat max) s ++ bs "...truncated".
Definition truncateDiag (s : bytes) : bytes := truncate s maxDiagFieldLen.
Definition join (parts : list bytes) : bytes := strings_Join (bs " ") parts.

Definition shortBytes (b : bytes) : bytes :=
  if glen b =? 0 then bs "none" else hex_encode (if 8 <? glen b then take 8 b else b).
(** What follows the last slash. *)
Definition shortTypeURL (url : bytes) : bytes :=
  match cut_last (byte_of_Z 47) url with Some (_, rest) => rest | None => url end.
Definition shortHash (h : bytes) : bytes := hex_encode (take 4 h).

Context `{HS : Sha256}.
(** [%q] of a string. *)
Variable Quote : bytes -> bytes.

Definition digestOf (b : bytes) : bytes := if glen b =? 0 then bs "empty" else hex_encode (take 4 (sha256 b)).

Definition number (z : Z) : bytes := bs (pretty z).

Definition describe_report (report : ReportResponse) : list bytes :=
  let b := rr_body report in
  let sigs := map (fun s => number (as_SignerId s) ++ bs "/" ++ digestOf (as_Signature s)) (rr_Sigs report) in
  [bs "configDigest=" ++ digestOf (rb_ConfigDigest b); bs "seqNr=" ++ number (rb_SeqNr b);
   bs "reportContext=" ++ digestOf (rb_ReportContext b);
   bs "rawReport=" ++ number (glen (rb_RawReport b)) ++ bs "B/" ++ digestOf (rb_RawReport b);
   bs "sigs=" ++ number (glen (rr_Sigs report)) ++ bs "[" ++ strings_Join (bs ",") sigs ++ bs "]"].

(** [base64_error] is the text of a decoding error. *)
Definition describeCapabilityResult (base64_error : bytes -> bytes) (result : CapabilityResponseResult) : bytes :=
  let parts := if bool_decide (cr_Error result = ""%string) then [] else [bs "resultError=" ++ Quote (truncateDiag (bs (cr_Error result)))] in
  match b64_decode (cr_Payload result) with
  | None => join (parts ++ [bs "payload=undecodable(" ++ base64_error (cr_Payload result) ++ bs ")"])
  | Some raw =>
      let parts := parts ++ [bs "payload=" ++ number (glen raw) ++ bs "B/" ++ digestOf raw] in
      if glen raw =? 0 then join parts
      else match unmarshal_response raw with
      | Err e => join (parts ++ [bs "payload=unparseable(" ++ e ++ bs ")"])
      | Ok resp =>
          let respErr := resp_GetError resp in
          let parts := parts ++ (if bool_decide (respErr = []) then [] else [bs "responseError=" ++ Quote (truncateDiag respErr)]) in
          match GetPayload resp with
          | None => join parts
          | Some inner =>
              let parts := parts ++ [bs "type=" ++ shortTypeURL (any_TypeUrl inner)] in
              if negb (MessageIs_report inner) then join parts
              else match UnmarshalTo_report inner with
              | Err e => join (parts ++ [bs "report=unparseable(" ++ e ++ bs ")"])
              | Ok report => join (parts ++ describe_report report)
              end
          end
      end
  end.

Definition describeSecretsResult (result : SecretsResponseResult) : bytes :=
  let entries := map (fun s => bs (si_Namespace (se_ID s)) ++ bs "/" ++ bs (si_Key (se_ID s)) ++ bs ":ct=" ++ digestOf (se_Ciphertext s) ++
    bs ",shares=" ++ number (glen (se_EncryptedShares s))) (sr_Secrets result) in
  bs "secrets=" ++ number (glen (sr_Secrets result)) ++ bs "[" ++ strings_Join (bs " ") entries ++ bs "]".

(** An entry with the outcome of its verification; [desc] describes its result. *)
Definition diag (e : relayEntry) (desc outcome : bytes) : bytes :=
  bs "[idx=" ++ number (Z.of_nat (re_idx e)) ++ bs " group=" ++ shortHash (groupHash e) ++ bs " sigHash=" ++ shortHash (sigHash e) ++
  bs " " ++ outcome ++ bs " " ++ desc ++ bs "]".

End Canonical.

(** ** Agreement *)

#[export] Instance CapabilityResponseResult_eq_dec : EqDecision CapabilityResponseResult.
Proof. solve_decision. Defined.

Section Agreement.
Context `{HS : Sha256} {verified : bytes -> bytes -> bytes -> bool} `{HV : !SignatureVerifier verified}.
Variables (unmarshal_response : bytes -> result bytes sdk_response) (MessageIs_report : any_message -> bool)
  (UnmarshalTo_report : any_message -> result bytes ReportResponse)
  (MarshalFrom_report : ReportResponse -> option any_message) (marshal_response : sdk_response -> option bytes).
Variables (RelayResponseSignaturePayload : bytes -> bytes) (decode_bundle : bytes -> option (list (CapabilityResponseResult * bytes))).
Variables (capability_hash : CapabilityResponseResult -> CapabilityRequestParams -> option bytes).
(** What is marshalled can be read back. *)
Hypothesis report_round : forall r a, MarshalFrom_report r = Some a -> MessageIs_report a = true /\ UnmarshalTo_report a = Ok r.
Hypothesis response_round : forall a b, marshal_response (RespPayload a) = Some b -> unmarshal_response b = Ok (RespPayload a).

Abbreviation canonical := (canonicalCapabilityPayload unmarshal_response MessageIs_report UnmarshalTo_report MarshalFrom_report marshal_response).
Abbreviation entries := (capabilityEntries capability_hash canonical).
Abbreviation verify := (verify_capability RelayResponseSignaturePayload decode_bundle capability_hash canonical).

(** The report in a payload. *)
Definition report_of (payload : bytes) : option ReportResponse :=
  match b64_decode payload with
  | None => None
  | Some raw =>
      match unmarshal_response raw with
      | Err _ => None
      | Ok resp =>
          match GetPayload resp with
          | Some inner => if MessageIs_report inner then match UnmarshalTo_report inner with Ok r => Some r | Err _ => None end else None
          | None => None
          end
      end
  end.

Lemma canonical_report p c : canonical p = Ok (Some c) ->
  exists r, report_of p = Some r /\ report_of c = Some (mkReport (rr_body r) []).
Proof.
  unfold canonicalCapabilityPayload, report_of. destruct (b64_decode p) as [raw|]; [|done]. destruct (unmarshal_response raw) as [resp|]; [|done].
  destruct (GetPayload resp) as [inner|]; [|done]. destruct (MessageIs_report inner); [|done]. cbn [negb].
  destruct (UnmarshalTo_report inner) as [r|]; [|done]. destruct (MarshalFrom_report _) as [wrapped|] eqn:Em; [|done].
  destruct (marshal_response _) as [out|] eqn:Eo; [|done]. intros [= <-]. exists r. split; [done|].
  rewrite b64_decode_encode, (response_round _ _ Eo). cbn [GetPayload]. by destruct (report_round _ _ Em) as [-> ->].
Qed.

(** Only the body counts. *)
Lemma canonical_body p q r r' : report_of p = Some r -> report_of q = Some r' -> rr_body r = rr_body r' -> canonical p = canonical q.
Proof.
  assert (forall p r, report_of p = Some r -> canonical p =
    match MarshalFrom_report (mkReport (rr_body r) []) with
    | None => Err ReportUnmarshalable
    | Some wrapped => match marshal_response (RespPayload wrapped) with None => Err ResponseUnmarshalable | Some out => Ok (Some (b64_encode out)) end
    end) as H.
  { intros p' r0. unfold canonicalCapabilityPayload, report_of. destruct (b64_decode p') as [raw|]; [|done].
    destruct (unmarshal_response raw) as [resp|]; [|done]. destruct (GetPayload resp) as [inner|]; [|done].
    destruct (MessageIs_report inner); [|done]. cbn [negb]. destruct (UnmarshalTo_report inner) as [r1|]; [|done]. by intros [= ->]. }
  intros Hp Hq Hb. by rewrite (H p r Hp), (H q r' Hq), Hb.
Qed.

(** The form of a result whose hash groups it. *)
Definition grouped (params : CapabilityRequestParams) (res : CapabilityResponseResult) : CapabilityResponseResult :=
  match canonical (cr_Payload res) with
  | Ok (Some c) =>
      let r := mkCapabilityResult (cr_Error res) c in
      match capability_hash r params with Some _ => r | None => res end
  | _ => res
  end.

Lemma entry_spec bundle params e : e ∈ entries bundle params <->
  exists res, bundle !! re_idx e = Some (res, re_signature e) /\ capability_hash res params = Some (sigHash e) /\
    capability_hash (grouped params res) params = Some (groupHash e).
Proof.
  unfold capabilityEntries. rewrite list_elem_of_omap. split.
  - intros ([i [res sig]] & Hin & He). apply elem_of_lookup_imap in Hin as (j & [r s] & [= -> -> ->] & Hj).
    destruct (capability_hash r params) as [h|] eqn:Eh; [|done]. injection He as <-. exists r. cbn. split; [done|]. split; [done|].
    unfold grouped. destruct (canonical (cr_Payload r)) as [[c|]|]; [|done..]. by destruct (capability_hash (mkCapabilityResult _ c) params) eqn:E.
  - intros (res & Hi & Hs & Hg). exists (re_idx e, (res, re_signature e)). split.
    + apply elem_of_lookup_imap. by exists (re_idx e), (res, re_signature e).
    + cbn. rewrite Hs. f_equal. destruct e as [sh gh sig i]. cbn in *. f_equal. unfold grouped in Hg.
      destruct (canonical (cr_Payload res)) as [[c|]|]; [|congruence..].
      destruct (capability_hash (mkCapabilityResult _ c) params) eqn:E; cbn; congruence.
Qed.

Definition reports (B : report_body) (res : CapabilityResponseResult) : Prop :=
  cr_Error res = ""%string /\ exists r, report_of (cr_Payload res) = Some r /\ rr_body r = B.

Lemma grouped_reports params res B : reports B (grouped params res) <-> reports B res.
Proof.
  unfold grouped. destruct (canonical (cr_Payload res)) as [[c|]|] eqn:Ec; [|done..]. destruct (capability_hash _ params); [|done].
  apply canonical_report in Ec as (r & Hr & Hc). unfold reports. cbn [cr_Error cr_Payload]. rewrite Hc, Hr. naive_solver.
Qed.

(** C7 The report a workflow gets is the one its DON agreed on.  If at most F of the
    signers are faulty and every answer that an honest node has signed is a report
    with body [B], whichever subset of OCR signatures it collected, then an answer
    the enclave accepts is a report with body [B] too: canonicalization counts answers
    as agreeing exactly by the body, and lets no other report in, unless the hash of
    the relay's results collides on the two forms compared. *)
Theorem relay_report_agreed (cfg : EnclaveConfig) (params : CapabilityRequestParams) (json : option bytes) (res : CapabilityResponseResult)
    (faulty : gset bytes) (B : report_body) :
  Z.of_nat (size faulty) <= F cfg ->
  (forall bundle r sig h p, decode_bundle (default [] json) = Some bundle -> (r, sig) ∈ bundle -> capability_hash r params = Some h ->
     p ∈ Signers cfg -> p ∉ faulty -> verified p (RelayResponseSignaturePayload h) sig = true -> reports B r) ->
  verify cfg params json = Ok res ->
  reports B res \/
  exists bundle r sig, decode_bundle (default [] json) = Some bundle /\ (r, sig) ∈ bundle /\ reports B r /\
    grouped params res <> grouped params r /\ capability_hash (grouped params res) params = capability_hash (grouped params r) params.
Proof.
  intros Hf Hh. unfold verify_capability. destruct (decode_bundle (default [] json)) as [bundle|]; [|done].
  destruct (selectQuorumResult _ _ _ _) as [idx| | | |] eqn:Eq; try done.
  destruct (bundle !! idx) as [[res' sig']|] eqn:Ei; [|done]. intros [= ->].
  destruct (quorum_honest _ _ _ _ _ _ Hf Eq) as (e & s & e' & p & He & Hidx & _ & He' & Hg & Hp & Hnf & Hv).
  apply entry_spec in He as (r1 & Hr1 & _ & Hg1), He' as (r2 & Hr2 & Hs2 & Hg2). rewrite Hidx, Ei in Hr1. injection Hr1 as <- _.
  assert (reports B r2) as HB by (eapply Hh; [done| |done..]; by eapply list_elem_of_lookup_2).
  destruct (decide (grouped params res = grouped params r2)) as [E|Hne].
  - left. rewrite <- (grouped_reports params). rewrite E. by apply grouped_reports.
  - right. exists bundle, r2, (re_signature e'). split_and!; [done|by eapply list_elem_of_lookup_2|done..|]. congruence.
Qed.

(** ** Availability *)

(** Reports have no strings, so marshalling cannot fail; hashing fails on the
    parameters only. *)
Hypothesis report_marshals : forall r, is_Some (MarshalFrom_report r).
Hypothesis response_marshals : forall a, is_Some (marshal_response (RespPayload a)).
Hypothesis hash_params : forall r r' params, is_Some (capability_hash r params) -> is_Some (capability_hash r' params).

Lemma reports_grouped params B : exists g, forall r, reports B r -> is_Some (capability_hash r params) -> grouped params r = g.
Proof.
  destruct (report_marshals (mkReport B [])) as [wrapped Hw]. destruct (response_marshals wrapped) as [out Ho].
  exists (mkCapabilityResult "" (b64_encode out)). intros r (He & rep & Hr & Hb) Hh. unfold grouped.
  assert (report_of (b64_encode out) = Some (mkReport B [])) as Hc.
  { unfold report_of. rewrite b64_decode_encode, (response_round _ _ Ho). cbn [GetPayload]. by destruct (report_round _ _ Hw) as [-> ->]. }
  rewrite (canonical_body (cr_Payload r) (b64_encode out) rep (mkReport B []) Hr Hc Hb).
  unfold canonicalCapabilityPayload. rewrite b64_decode_encode, (response_round _ _ Ho). cbn [GetPayload].
  destruct (report_round _ _ Hw) as [-> ->]. cbn [negb rr_body]. rewrite Hw, Ho, He.
  destruct (hash_params r (mkCapabilityResult "" (b64_encode out)) params Hh) as [h ->]. done.
Qed.

(** Once [F + 1] signers have signed the same report, with whatever OCR signatures,
    the enclave accepts an answer, unless two signing keys collide under SHA-256. *)
Theorem relay_report_found (cfg : EnclaveConfig) (params : CapabilityRequestParams) (json : option bytes) bundle (B : report_body)
    (good : list relayEntry) (signers : list bytes) :
  decode_bundle (default [] json) = Some bundle ->
  (forall e n, e ∈ entries bundle params ->
     VerifySignature (RelayResponseSignaturePayload (sigHash e)) (re_signature e) (Signers cfg) <> Err (VerifyPanic n)) ->
  good ⊆ entries bundle params ->
  Forall2 (fun e p => signed_entry RelayResponseSignaturePayload cfg e p /\
    forall r, bundle !! re_idx e = Some (r, re_signature e) -> reports B r) good signers ->
  NoDup signers -> F cfg + 1 <= glen signers -> 0 <= F cfg ->
  (exists res, verify cfg params json = Ok res) \/ (exists p q, p ∈ signers /\ q ∈ signers /\ collision p q).
Proof.
  intros Hd Hno Hsub Hgood Hnd Hq HF. destruct (reports_grouped params B) as [g Hg].
  assert (exists h, Forall (fun e => groupHash e = h) good) as [h Hh].
  { exists (default [] (capability_hash g params)). apply Forall_forall. intros e He. pose proof (Hsub e He) as Hin.
    apply entry_spec in Hin as (r & Hr & Hs & Hge). apply list_elem_of_lookup in He as [i Hi].
    destruct (Forall2_lookup_l _ _ _ _ _ Hgood Hi) as (p & _ & _ & Hrep). rewrite (Hg r) in Hge by eauto. by rewrite Hge. }
  destruct (relay_result_found RelayResponseSignaturePayload (entries bundle params) cfg good signers h Hno Hsub) as [[i Hi]|Hc]; try done.
  - apply Forall2_same_length_lookup_2; [by eapply Forall2_length|]. intros i e p He Hp.
    rewrite Forall_forall in Hh. split; [apply Hh; by eapply list_elem_of_lookup_2|].
    destruct (Forall2_lookup_l _ _ _ _ _ Hgood He) as (p' & Hp' & Hs & _). congruence.
  - left. unfold verify_capability. rewrite Hd, Hi. apply selectQuorumResult_idx in Hi as (e & _ & He & <- & _).
    apply entry_spec in He as (r & -> & _). eauto.
  - by right.
Qed.

End Agreement.
