(* ===== verification/RelayExamples.v ===== *)
(** * RelayExamples: the relay calls at concrete inputs *)

From S2P Require Import Prelude Codec Sha256 Types Cache Keychain Services Emitter Server ServerToy EvmAddress Relay Dispatcher RelayResponse.

Definition plain_payload (h : bytes) : bytes := h.

(** Two honest responses, one forged result by a faulty signer, one foreign signature. *)
Definition toy_entries : list relayEntry :=
  [mkEntry (bs "forged") (bs "forged") (toy_sig signer3) 0;
   mkEntry (bs "r1") (bs "result") (toy_sig signer1) 1;
   mkEntry (bs "x") (bs "result") (toy_sig signer4) 2;
   mkEntry (bs "r2") (bs "result") (toy_sig signer2) 3].

Abbreviation toy_select := (selectQuorumResult (verified := toy_Verify) plain_payload true).

Example toy_quorum : toy_select toy_entries toy_config = QuorumIdx 1.
Proof. vm_compute. reflexivity. Qed.

Lemma relay_result_agreed_witness :
  exists e s, e ∈ toy_entries /\ re_idx e = 1%nat /\ groupHash e = bs "result" /\
    signed_entry (verified := toy_Verify) plain_payload toy_config e s.
Proof.
  apply (relay_result_agreed (verified := toy_Verify) plain_payload true toy_entries toy_config 1 {[signer3]} (bs "result")).
  - vm_compute. discriminate.
  - intros e p He Hp Hnf Hv. unfold toy_entries in He. apply elem_of_cons in He as [->|He].
    + exfalso. apply Hnf, elem_of_singleton. apply bool_decide_eq_true in Hv. unfold toy_sig in Hv. cbn in Hv.
      apply (f_equal (take 32)) in Hv. assert (length p = 32%nat) as Hl.
      { assert (Forall (fun q => length q = 32%nat) (Signers toy_config)) as HF by by_compute.
        rewrite Forall_forall in HF. by apply HF. }
      rewrite (take_app_length' p p) in Hv by done. rewrite <- Hv. vm_compute. reflexivity.
    + repeat (apply elem_of_cons in He as [->|He]; [reflexivity|]). by apply elem_of_nil in He.
  - vm_compute. reflexivity.
Defined.

Lemma relay_result_found_witness :
  (exists i, toy_select toy_entries toy_config = QuorumIdx i) \/
  (exists p q, p ∈ [signer1; signer2] /\ q ∈ [signer1; signer2] /\ collision p q).
Proof.
  apply (relay_result_found (verified := toy_Verify) plain_payload toy_entries toy_config
    [mkEntry (bs "r1") (bs "result") (toy_sig signer1) 1; mkEntry (bs "r2") (bs "result") (toy_sig signer2) 3]
    [signer1; signer2] (bs "result")).
  - intros e n _. apply ed25519_no_panic. by_compute.
  - intros e He. unfold toy_entries. set_solver.
  - constructor; [split; vm_compute; reflexivity|]. constructor; [split; vm_compute; reflexivity|]. constructor.
  - by_compute.
  - by_compute.
  - by_compute.
Defined.

(** A gateway that fails twice, then answers. *)
Definition flaky (n : nat) : result gateway_error (option bytes) :=
  if (n <? 2)%nat then Err (GatewayHTTP 503) else Ok (Some (bs "answer")).

Definition accept_all (json : option bytes) : result relay_error bytes := Ok (default [] json).

(** The window cut short, as the last HTTP call reports it. *)
Definition cut_short (_ : nat) : gateway_error := AllGatewaysFailed 1.

Lemma sendWithRetry_returns_witness :
  exists out, sendWithRetry (-32603) (-32000) flaky cut_short (fun _ => 3 * second) accept_all 0 0 0 None = Some out /\
    returns_exactly (-32603) (-32000) flaky cut_short (fun _ => 3 * second) accept_all (1 * second) (2 * minute) 0 out.
Proof.
  apply (sendWithRetry_returns (-32603) (-32000) flaky cut_short (fun _ => 3 * second) accept_all). intros n. vm_compute. discriminate.
Defined.

(** Answered by the third attempt; a caller that gives up during the second attempt
    gets the two failures. *)
Example flaky_answered :
  sendWithRetry (-32603) (-32000) flaky cut_short (fun _ => 3 * second) accept_all 0 0 0 None = Some (Verified (Ok (bs "answer"))) /\
  sendWithRetry (-32603) (-32000) flaky cut_short (fun _ => 3 * second) accept_all 0 0 0 (Some (5 * second)) =
    Some (WindowClosed [GatewayHTTP 503; AllGatewaysFailed 1]).
Proof. vm_compute. split; reflexivity. Qed.

(** ** Secrets *)

Definition id_a : SecretIdentifier := mkSecretID "a" "main".
Definition id_b : SecretIdentifier := mkSecretID "b" "main".

(** A workflow that asks for a secret twice gets fewer answers than requests, so
    the answer at the position of its third request is missing. *)
Theorem repeated_request_shifts_answers :
  orderRelaySecrets [id_a; id_a; id_b] [mkSecretEntry id_b [] []; mkSecretEntry id_a [] []] =
  Ok [(id_a, Some (mkSecretEntry id_a [] [])); (id_b, Some (mkSecretEntry id_b [] []))].
Proof. vm_compute. reflexivity. Qed.

Definition relay_says (res : SecretsResponseResult) (_ : bytes)
    (verify : option bytes -> result relay_error SecretsResponseResult) : send_out SecretsResponseResult relay_error :=
  Verified (Ok res).

Abbreviation toy_get_secrets := (GetSecrets (verified := toy_Verify) (fun _ => []) toy_Open plain_payload (fun _ => Some [])
  (fun _ => None) (fun _ _ => None) (fun _ => Some [])).

Definition toy_secrets_reply : SecretsResponseResult :=
  mkSecretsResult [] [mkSecretEntry id_b (b64_encode (bs "c")) [b64_encode (sample_key 1 ++ bs "1c")]].

Lemma secrets_answered_in_order_witness :
  let answer := toy_get_secrets 10 one_key toy_config "wf" (sample_key 7) [("a", ""); ("b", "main")]%string 3 (bs "ab")
    "exec" "org" toy_batch (relay_says toy_secrets_reply) in
  answer.1 = Verified (Ok [SecretMissing id_a; SecretValue id_b (bs "1c")]) /\
  NoDup (map response_id [SecretMissing id_a; SecretValue id_b (bs "1c")]) /\
  sublist (map response_id [SecretMissing id_a; SecretValue id_b (bs "1c")]) (secret_ids [("a", ""); ("b", "main")]%string) /\
  (forall id, id ∈ secret_ids [("a", ""); ("b", "main")]%string <->
     id ∈ map response_id [SecretMissing id_a; SecretValue id_b (bs "1c")]).
Proof.
  intros answer. assert (answer.1 = Verified (Ok [SecretMissing id_a; SecretValue id_b (bs "1c")])) as H.
  { vm_compute. reflexivity. }
  split; [exact H|].
  eapply (secrets_answered_in_order (verified := toy_Verify) (fun _ => []) toy_Open plain_payload (fun _ => Some [])
    (fun _ => None) (fun _ _ => None) (fun _ => Some []) 10 one_key toy_config "wf" (sample_key 7)
    [("a", ""); ("b", "main")]%string 3 (bs "ab") "exec" "org" toy_batch (relay_says toy_secrets_reply) _ answer.2).
  fold answer. rewrite <- H. exact (surjective_pairing answer).
Defined.

(** ** Reports

    A message format in which the type names the node that collected the OCR
    signature, so that the same report arrives in different payloads. *)

Definition toy_marshal_response (r : sdk_response) : option bytes :=
  match r with
  | RespPayload a => if glen (any_TypeUrl a) <? 256 then Some (byte_of_Z (glen (any_TypeUrl a)) :: any_TypeUrl a ++ any_Value a) else None
  | _ => None
  end.
Definition toy_unmarshal_response (b : bytes) : result bytes sdk_response :=
  match b with
  | n :: rest => let n := Z.to_nat (Z_of_byte n) in Ok (RespPayload (mkAny (take n rest) (drop n rest)))
  | [] => Ok RespEmpty
  end.
Definition toy_body (raw : bytes) : report_body := mkBody [] 0 [] raw [].
Definition toy_UnmarshalTo (a : any_message) : result bytes ReportResponse :=
  Ok (mkReport (toy_body (any_Value a)) (if bool_decide (any_TypeUrl a = bs "report") then [] else [mkSig 1 (any_TypeUrl a)])).
Definition toy_MarshalFrom (r : ReportResponse) : option any_message :=
  match r with
  | mkReport (mkBody [] 0 [] raw []) [] => Some (mkAny (bs "report") raw)
  | _ => None
  end.
Definition toy_is_report (_ : any_message) : bool := true.

Lemma toy_report_round r a : toy_MarshalFrom r = Some a -> toy_is_report a = true /\ toy_UnmarshalTo a = Ok r.
Proof. destruct r as [[[|] [] [|] raw [|]] [|]]; cbn; try done. intros [= <-]. by split. Qed.

Lemma toy_response_round a b : toy_marshal_response (RespPayload a) = Some b -> toy_unmarshal_response b = Ok (RespPayload a).
Proof.
  destruct a as [t v]. cbn. destruct (Z.ltb_spec (glen t) 256); [|done]. intros [= <-]. cbn.
  rewrite Z_of_byte_of_Z, Z.mod_small by (unfold glen in *; lia). unfold glen. by rewrite Nat2Z.id, take_app_length, drop_app_length.
Qed.

(** What a node sends of a report whose OCR signature it got from [peer]. *)
Definition toy_report (peer raw : bytes) : CapabilityResponseResult :=
  mkCapabilityResult "" (b64_encode (default [] (toy_marshal_response (RespPayload (mkAny peer raw))))).
Definition toy_bundle (_ : bytes) : option (list (CapabilityResponseResult * bytes)) :=
  Some [(toy_report (bs "evil") (bs "forged"), toy_sig signer3); (toy_report (bs "peer4") (bs "price 42"), toy_sig signer1);
        (toy_report (bs "peer5") (bs "price 42"), toy_sig signer2)].
Definition payload_hash (r : CapabilityResponseResult) (_ : CapabilityRequestParams) : option bytes := Some (cr_Payload r).
Definition toy_params : CapabilityRequestParams := mkCapabilityParams "" [] "" "" 0 "" [] toy_config [].

Abbreviation toy_verify := (verify_capability (verified := toy_Verify) plain_payload toy_bundle payload_hash
  (canonicalCapabilityPayload toy_unmarshal_response toy_is_report toy_UnmarshalTo toy_MarshalFrom toy_marshal_response)).
Abbreviation toy_reports := (reports toy_unmarshal_response toy_is_report toy_UnmarshalTo (toy_body (bs "price 42"))).
Abbreviation toy_grouped := (grouped toy_unmarshal_response toy_is_report toy_UnmarshalTo toy_MarshalFrom toy_marshal_response payload_hash toy_params).

(** The payloads of the honest nodes differ, and they form a quorum. *)
Example reports_differ_and_agree :
  toy_report (bs "peer4") (bs "price 42") <> toy_report (bs "peer5") (bs "price 42") /\
  toy_verify toy_config toy_params None = Ok (toy_report (bs "peer4") (bs "price 42")).
Proof. split; [by_compute|vm_compute; reflexivity]. Qed.

Lemma toy_sig_of p s : p ∈ Signers toy_config -> toy_Verify p s (toy_sig signer3) = true -> p = signer3.
Proof.
  intros Hp Hv. apply bool_decide_eq_true in Hv. unfold toy_sig in Hv. cbn in Hv.
  apply (f_equal (take 32)) in Hv. assert (length p = 32%nat) as Hl.
  { assert (Forall (fun q => length q = 32%nat) (Signers toy_config)) as HF by by_compute. rewrite Forall_forall in HF. by apply HF. }
  rewrite (take_app_length' p p) in Hv by done. rewrite <- Hv. vm_compute. reflexivity.
Qed.

Lemma relay_report_agreed_witness :
  let res := toy_report (bs "peer4") (bs "price 42") in
  toy_reports res \/
  exists bundle r sig, toy_bundle [] = Some bundle /\ (r, sig) ∈ bundle /\ toy_reports r /\
    toy_grouped res <> toy_grouped r /\ payload_hash (toy_grouped res) toy_params = payload_hash (toy_grouped r) toy_params.
Proof.
  apply (relay_report_agreed (verified := toy_Verify) toy_unmarshal_response toy_is_report toy_UnmarshalTo toy_MarshalFrom toy_marshal_response
    plain_payload toy_bundle payload_hash toy_report_round toy_response_round toy_config toy_params None (toy_report (bs "peer4") (bs "price 42"))
    {[signer3]} (toy_body (bs "price 42"))).
  - vm_compute. discriminate.
  - intros bundle r sig h p [= <-] Hin _ Hp Hnf Hv.
    apply elem_of_cons in Hin as [[= -> ->]|Hin]; [exfalso; apply Hnf, elem_of_singleton; exact (toy_sig_of _ _ Hp Hv)|].
    apply elem_of_cons in Hin as [[= -> ->]|Hin]; [split; [reflexivity|eexists; split; vm_compute; reflexivity]|].
    apply elem_of_cons in Hin as [[= -> ->]|Hin]; [split; [reflexivity|eexists; split; vm_compute; reflexivity]|by apply elem_of_nil in Hin].
  - vm_compute. reflexivity.
Defined.
