(* ===== verification/Fetcher.v ===== *)
(** * Fetcher: verified workflow binaries and their cache

    Models [src/enclave/apps/confidential-workflows/app/fetcher.go]: binaries come
    from untrusted storage, are checked against the hash in the signed request
    and kept in a least-recently-used cache bounded by total size.  The cache is a
    list in order of use, most recent first, with a map from keys to its elements.
    Every operation on it holds the mutex; the fetch itself does not, so [Fetch]
    is a lookup, the raw fetch and an insertion, with anything in between. *)

From S2P Require Import Prelude Codec Sha256 Types.

Record BinaryFetcher := mkFetcher {
  maxCacheBytes : Z;
  cacheBytes : Z;
  f_items : gmap bytes bytes;              (* key -> value of its list element *)
  evictList : list (bytes * bytes);        (* most recent first *)
}.

Definition DefaultMaxBinaryCacheBytes : Z := 256 * 1024 * 1024.

Definition newBinaryFetcher (maxBytes : Z) : BinaryFetcher := mkFetcher maxBytes 0 ∅ [].
Definition NewBinaryFetcher : BinaryFetcher := newBinaryFetcher DefaultMaxBinaryCacheBytes.

Inductive fetch_error := HashRequired | StorageNotProvisioned | StorageFailed | BinaryHashMismatch.

(** The eviction loop, on the list from its back: drop elements while [need]
    more bytes do not fit. *)
Fixpoint evict_back (need maxBytes bytes_ : Z) (items : gmap bytes bytes) (back : list (bytes * bytes))
    : Z * gmap bytes bytes * list (bytes * bytes) :=
  match back with
  | [] => (bytes_, items, [])
  | (key, value) :: back' =>
      if maxBytes <? bytes_ + need
      then evict_back need maxBytes (bytes_ - glen value) (delete key items) back'
      else (bytes_, items, back)
  end.

Definition evict (f : BinaryFetcher) (maxBytes need : Z) : BinaryFetcher :=
  let '(b, items, back) := evict_back need maxBytes (cacheBytes f) (f_items f) (rev (evictList f)) in
  mkFetcher maxBytes b items (rev back).

Definition SetMaxCacheBytes (f : BinaryFetcher) (maxBytes : Z) : BinaryFetcher :=
  if maxBytes <=? 0 then f else evict f maxBytes 0.

(** [MoveToFront] of the element of [key]. *)
Definition move_to_front (key value : bytes) (l : list (bytes * bytes)) : list (bytes * bytes) :=
  (key, value) :: List.filter (fun e => negb (bool_decide (e.1 = key))) l.

Definition cacheGet (f : BinaryFetcher) (key : bytes) : option bytes * BinaryFetcher :=
  match f_items f !! key with
  | None => (None, f)
  | Some value =>
      (Some value, mkFetcher (maxCacheBytes f) (cacheBytes f) (f_items f) (move_to_front key value (evictList f)))
  end.

Definition cachePut (f : BinaryFetcher) (key value : bytes) : BinaryFetcher :=
  match f_items f !! key with
  | Some v => mkFetcher (maxCacheBytes f) (cacheBytes f) (f_items f) (move_to_front key v (evictList f))
  | None =>
      let f := evict f (maxCacheBytes f) (glen value) in
      mkFetcher (maxCacheBytes f) (cacheBytes f + glen value) (<[key := value]> (f_items f)) ((key, value) :: evictList f)
  end.

Section Fetch.
Context `{HS : Sha256}.

(** The first half of [Fetch]: validation and the cache. *)
Definition fetch_begin (f : BinaryFetcher) (binaryHash : bytes) (provisioned : bool)
    : option (result fetch_error bytes) * BinaryFetcher :=
  if glen binaryHash =? 0 then (Some (Err HashRequired), f)
  else if negb provisioned then (Some (Err StorageNotProvisioned), f)
  else match cacheGet f (hex_encode binaryHash) with
  | (Some cached, f) => (Some (Ok cached), f)
  | (None, f) => (None, f)
  end.

(** The second half, on what the storage returned. *)
Definition fetch_end (f : BinaryFetcher) (binaryHash : bytes) (raw : option bytes) : result fetch_error bytes * BinaryFetcher :=
  match raw with
  | None => (Err StorageFailed, f)
  | Some binary =>
      if bool_decide (sha256 binary = binaryHash)
      then (Ok binary, cachePut f (hex_encode binaryHash) binary)
      else (Err BinaryHashMismatch, f)
  end.

Definition Fetch (f : BinaryFetcher) (binaryHash : bytes) (provisioned : bool) (raw : option bytes)
    : result fetch_error bytes * BinaryFetcher :=
  match fetch_begin f binaryHash provisioned with
  | (Some r, f) => (r, f)
  | (None, f) => fetch_end f binaryHash raw
  end.

(** ** Invariant *)

Implicit Types (f : BinaryFetcher) (l : list (bytes * bytes)) (key value : bytes).

Definition total l : Z := fold_right (fun e acc => glen (snd e) + acc) 0 l.

Record fetcher_inv f : Prop := {
  fi_nodup : NoDup (map fst (evictList f));
  fi_items : forall key value, f_items f !! key = Some value <-> (key, value) ∈ evictList f;
  fi_bytes : cacheBytes f = total (evictList f);
  fi_hash : forall key value, (key, value) ∈ evictList f -> key = hex_encode (sha256 value);
  fi_bound : cacheBytes f <= maxCacheBytes f \/ (length (evictList f) <= 1)%nat;
}.

Lemma total_app l1 l2 : total (l1 ++ l2) = total l1 + total l2.
Proof. induction l1 as [|e l1 IH]; cbn; [done|]. unfold total in *. lia. Qed.
Lemma total_nonneg l : 0 <= total l.
Proof. induction l as [|e l IH]; cbn; [done|]. unfold total, glen in *. lia. Qed.
Lemma total_perm l1 l2 : l1 ≡ₚ l2 -> total l1 = total l2.
Proof. induction 1; cbn in *; unfold total in *; try lia. Qed.

Lemma evict_back_spec need maxBytes back : forall bytes_ (items : gmap bytes bytes),
  NoDup (map fst back) -> (forall key value, items !! key = Some value <-> (key, value) ∈ back) -> bytes_ = total back ->
  let '(b, items', back') := evict_back need maxBytes bytes_ items back in
  (exists gone, back = gone ++ back') /\ (forall key value, items' !! key = Some value <-> (key, value) ∈ back') /\
  b = total back' /\ (b + need <= maxBytes \/ back' = []).
Proof.
  induction back as [|[k v] back IH]; intros bytes_ items Hnd Hit Hb; cbn [evict_back].
  - split_and!; [by exists []|done..|by right].
  - destruct (maxBytes <? bytes_ + need) eqn:E.
    + cbn [map fst] in Hnd. apply NoDup_cons in Hnd as [Hk Hnd].
      assert (forall key value, delete k items !! key = Some value <-> (key, value) ∈ back) as Hit'.
      { intros key value. rewrite lookup_delete_Some, Hit, elem_of_cons. split; [naive_solver|]. intros Hin.
        split; [|by right]. intros <-. apply Hk, list_elem_of_fmap. by exists (k, value). }
      specialize (IH (bytes_ - glen v) (delete k items) Hnd Hit'). 
      destruct (evict_back _ _ _ _ _) as [[b items'] back'].
      destruct IH as ((gone & ->) & H2 & H3 & H4); [cbn in Hb; unfold total in *; lia|].
      split_and!; [by exists ((k, v) :: gone)|done..].
    + apply Z.ltb_ge in E. split_and!; [by exists []|done..|by left].
Qed.

Lemma elem_of_rev (l : list (bytes * bytes)) x : x ∈ rev l <-> x ∈ l.
Proof. rewrite !list_elem_of_In. symmetry. apply in_rev. Qed.

Lemma evict_inv f maxBytes need : fetcher_inv f -> 0 <= need ->
  let f' := evict f maxBytes need in
  fetcher_inv f' /\ maxCacheBytes f' = maxBytes /\ (exists gone, evictList f = evictList f' ++ gone) /\
  (cacheBytes f' + need <= maxBytes \/ evictList f' = []).
Proof.
  intros [H1 H2 H3 H4 _] Hneed. unfold evict.
  pose proof (evict_back_spec need maxBytes (rev (evictList f)) (cacheBytes f) (f_items f)) as Hs.
  destruct (evict_back _ _ _ _ _) as [[b items'] back'].
  destruct Hs as ((gone & Hg) & Hi & Hb & Hfit).
  { rewrite map_rev. apply NoDup_ListNoDup, NoDup_rev, NoDup_ListNoDup, H1. }
  { intros k v. by rewrite H2, elem_of_rev. }
  { rewrite H3. apply total_perm. by rewrite <- Permutation_rev. }
  assert (evictList f = rev back' ++ rev gone) as Hl by (by rewrite <- rev_app_distr, <- Hg, rev_involutive).
  cbn. split_and!; [|done|by exists (rev gone)|by destruct Hfit as [?| ->]; auto].
  split; cbn.
  - rewrite Hl, map_app in H1. by apply NoDup_app in H1 as [? _].
  - intros k v. by rewrite Hi, elem_of_rev.
  - rewrite Hb. apply total_perm. by rewrite <- Permutation_rev.
  - intros k v Hin. apply H4. rewrite Hl. apply elem_of_app. by left.
  - destruct Hfit as [?| ->]; [left; lia | by right; cbn; lia].
Qed.

Lemma move_to_front_perm key value l : NoDup (map fst l) -> (key, value) ∈ l -> move_to_front key value l ≡ₚ l.
Proof.
  unfold move_to_front. induction l as [|[k v] l IH]; intros Hnd Hin; [by apply elem_of_nil in Hin|].
  cbn [map fst] in Hnd. apply NoDup_cons in Hnd as [Hk Hnd]. cbn [List.filter fst].
  apply elem_of_cons in Hin as [[= -> ->]|Hin].
  - rewrite bool_decide_eq_true_2 by done. cbn [negb]. f_equiv.
    assert (forall l, k ∉ map fst l -> List.filter (fun e : bytes * bytes => negb (bool_decide (e.1 = k))) l = l) as Hid; [|by rewrite Hid].
    clear. intros l. induction l as [|[k' v'] l IH]; intros Hk; [done|]. cbn in *. apply not_elem_of_cons in Hk as [Hne Hk].
    rewrite bool_decide_eq_false_2 by congruence. cbn. by rewrite IH.
  - assert (k <> key) as Hne by (intros ->; apply Hk, list_elem_of_fmap; by exists (key, value)).
    rewrite bool_decide_eq_false_2 by done. cbn [negb]. rewrite Permutation_swap. f_equiv. by apply IH.
Qed.

Lemma promote_inv f key value : fetcher_inv f -> f_items f !! key = Some value ->
  fetcher_inv (mkFetcher (maxCacheBytes f) (cacheBytes f) (f_items f) (move_to_front key value (evictList f))).
Proof.
  intros [H1 H2 H3 H4 H5] Hk. apply H2 in Hk. pose proof (move_to_front_perm key value (evictList f) H1 Hk) as Hp.
  split; cbn [evictList f_items cacheBytes maxCacheBytes].
  - by rewrite (Permutation_map fst Hp).
  - intros k v. rewrite Hp. apply H2.
  - rewrite H3. symmetry. by apply total_perm.
  - intros k v. rewrite Hp. apply H4.
  - by rewrite (Permutation_length Hp).
Qed.

Lemma cachePut_inv f value : fetcher_inv f -> fetcher_inv (cachePut f (hex_encode (sha256 value)) value).
Proof.
  intros Hi. set (key := hex_encode (sha256 value)). unfold cachePut.
  destruct (f_items f !! key) as [v|] eqn:Ek; [by apply promote_inv|].
  destruct (evict_inv f (maxCacheBytes f) (glen value) Hi) as (Hi' & Hmax & (gone & Hg) & Hfit); [unfold glen; lia|].
  set (f' := evict f (maxCacheBytes f) (glen value)) in *.
  assert (forall v, (key, v) ∉ evictList f') as Hno.
  { intros v Hin. assert ((key, v) ∈ evictList f) as Hin' by (rewrite Hg; set_solver).
    apply (fi_items f Hi) in Hin'. congruence. }
  destruct Hi' as [H1 H2 H3 H4 _]. split; cbn [evictList f_items cacheBytes maxCacheBytes].
  - cbn. apply NoDup_cons. split; [|done]. intros ([k v] & Hk & Hin)%list_elem_of_fmap. cbn in Hk. subst k. by apply (Hno v).
  - intros k v. rewrite elem_of_cons, lookup_insert_Some, H2. split; [naive_solver|].
    intros [[= -> ->]|Hin]; [by left|right]. split; [intros <-; by apply (Hno v) | done].
  - cbn. unfold total in *. lia.
  - intros k v [[= -> ->]|Hin]%elem_of_cons; [done|eauto].
  - destruct Hfit as [?|E]; [left; lia|right]. rewrite E. cbn. lia.
Qed.

Lemma SetMax_inv f n : fetcher_inv f -> fetcher_inv (SetMaxCacheBytes f n) /\
  (0 < n -> cacheBytes (SetMaxCacheBytes f n) <= n).
Proof.
  intros Hi. unfold SetMaxCacheBytes. destruct (n <=? 0) eqn:E; [apply Z.leb_le in E; split; [done|lia]|].
  apply Z.leb_gt in E. destruct (evict_inv f n 0 Hi) as (Hi' & _ & _ & Hfit); [lia|]. split; [done|]. intros _.
  destruct Hfit as [?|El]; [lia|]. rewrite (fi_bytes _ Hi'), El. cbn. lia.
Qed.

(** ** Histories *)

Inductive fetch_label :=
| FBegin (binaryHash : bytes) (provisioned : bool)
| FEnd (binaryHash : bytes) (raw : option bytes)
| FSetMax (n : Z).

Definition fetch_step f (l : fetch_label) : BinaryFetcher :=
  match l with
  | FBegin h p => (fetch_begin f h p).2
  | FEnd h raw => (fetch_end f h raw).2
  | FSetMax n => SetMaxCacheBytes f n
  end.

Lemma fetch_begin_inv f h p : fetcher_inv f -> fetcher_inv (fetch_begin f h p).2.
Proof.
  intros Hi. unfold fetch_begin, cacheGet. destruct (_ =? 0); [done|]. destruct (negb p); [done|].
  destruct (f_items f !! hex_encode h) as [v|] eqn:E; [|done]. cbn. by apply promote_inv.
Qed.

Lemma fetch_end_inv f h raw : fetcher_inv f -> fetcher_inv (fetch_end f h raw).2.
Proof.
  intros Hi. unfold fetch_end. destruct raw as [b|]; [|done]. case_bool_decide as E; [|done]. subst h. by apply cachePut_inv.
Qed.

Lemma fetch_run_inv tr : forall f, fetcher_inv f -> fetcher_inv (fold_left fetch_step tr f).
Proof.
  induction tr as [|[h p|h raw|n] tr IH]; intros f Hi; [done|..]; cbn [fold_left]; apply IH; cbn [fetch_step].
  - by apply fetch_begin_inv.
  - by apply fetch_end_inv.
  - by apply SetMax_inv.
Qed.

Lemma new_inv n : fetcher_inv (newBinaryFetcher n).
Proof.
  split; cbn; [constructor| |done| |by right; lia].
  - intros k v. rewrite lookup_empty. split; [done|]. set_solver.
  - set_solver.
Qed.

Lemma Fetch_inv f h p raw : fetcher_inv f -> fetcher_inv (Fetch f h p raw).2.
Proof.
  intros Hi. unfold Fetch. pose proof (fetch_begin_inv f h p Hi) as Hb.
  destruct (fetch_begin f h p) as [[r|] f1]; [done|]. by apply fetch_end_inv.
Qed.

Lemma Fetch_verified f h p raw binary f' :
  fetcher_inv f -> Fetch f h p raw = (Ok binary, f') -> sha256 binary = h /\ fetcher_inv f'.
Proof.
  intros Hi H. pose proof (Fetch_inv f h p raw Hi) as Hi'. rewrite H in Hi'. split; [|done]. revert H. unfold Fetch.
  destruct (fetch_begin f h p) as [[r|] f1] eqn:E.
  - intros [= -> <-]. unfold fetch_begin, cacheGet in E. destruct (_ =? 0); [done|].
    destruct (negb p); [done|]. destruct (f_items f !! hex_encode h) as [v|] eqn:Ev; [|done]. injection E as <- _.
    apply (fi_items f Hi), (fi_hash f Hi) in Ev. apply (f_equal hex_decode) in Ev.
    rewrite !hex_decode_encode in Ev. congruence.
  - unfold fetch_end. destruct raw as [b|]; [|done]. case_bool_decide; [|done]. by intros [= <- _].
Qed.

(** Integrity of workflow code: after any interleaving of fetches and changes of
    the bound, a fetch that succeeds, from the cache or from storage, returns
    bytes whose SHA-256 is the hash in the request; and the cache's size account
    is exact and within the bound whenever more than one binary is kept. *)
Theorem fetched_binary_verified n tr h p raw binary f' :
  let f := fold_left fetch_step tr (newBinaryFetcher n) in
  Fetch f h p raw = (Ok binary, f') ->
  sha256 binary = h /\ fetcher_inv f'.
Proof. intros f. apply Fetch_verified, fetch_run_inv, new_inv. Qed.
End Fetch.

(** A binary larger than the whole bound is still kept, alone. *)
Example oversized_binary_kept : cacheBytes (cachePut (newBinaryFetcher 3) (bs "k") (bs "12345")) = 5.
Proof. vm_compute. reflexivity. Qed.

Lemma fetched_binary_verified_witness :
  let h := sha256 (Sha256 := sha256_fips) (bs "wasm") in
  let f := fold_left (fetch_step (HS := sha256_fips)) [FEnd h (Some (bs "wasm")); FSetMax 100] (newBinaryFetcher 10) in
  sha256 (Sha256 := sha256_fips) (bs "wasm") = h /\ fetcher_inv (HS := sha256_fips) (Fetch (HS := sha256_fips) f h true None).2.
Proof.
  intros h f. apply (fetched_binary_verified (HS := sha256_fips) 10 [FEnd h (Some (bs "wasm")); FSetMax 100] h true None).
  vm_compute. reflexivity.
Defined.
