(* ===== verification/Resources.v ===== *)
(** * Resources: the enclave's memory and CPU report

    Models [src/enclave/server/memory.go], [src/enclave/server/cpu.go] and the
    handler [handleMemory] of [src/enclave/server/server.go].  The files under
    /proc are byte strings, absent when they cannot be read; unsigned integers wrap
    at 64 bits.  [strings.Fields] splits at ASCII white space here, the only kind
    the kernel writes. *)

From S2P Require Import Prelude Codec Text.

(** ** Text *)

Definition is_space (c : byte) : bool :=
  let z := Z_of_byte c in ((9 <=? z) && (z <=? 13)) || (z =? 32).

(** [strings.Fields], with the field being read. *)
Fixpoint fields_from (s cur : bytes) : list bytes :=
  match s with
  | [] => match cur with [] => [] | _ => [cur] end
  | c :: s' =>
      if is_space c then match cur with [] => fields_from s' [] | _ => cur :: fields_from s' [] end
      else fields_from s' (cur ++ [c])
  end.
Definition fields (s : bytes) : list bytes := fields_from s [].

Definition MaxUint64 : Z := 2 ^ 64 - 1.

(** ** /proc/meminfo and /proc/self/status *)

(** One line: the value it gives to a wanted key. *)
Definition size_field (line : bytes) : option (bytes * Z) :=
  match cut (byte_of_Z 58) line with
  | None => None
  | Some (key, rest) =>
      match fields rest with
      | [n; unit] =>
          if negb (bool_decide (unit = bs "kB")) then None
          else match ParseUint n with
          | None => None
          | Some kb => if MaxUint64 / 1024 <? kb then None else Some (key, u64 (kb * 1024))
          end
      | _ => None
      end
  end.

(** [parseSizeFields]: the destinations are a map; only wanted keys are written. *)
Definition parseSizeFields (data : bytes) (want : gmap bytes Z) : gmap bytes Z :=
  fold_left (fun (dst : gmap bytes Z) line =>
    match size_field line with
    | Some (key, v) => if decide (is_Some (dst !! key)) then <[key := v]> dst else dst
    | None => dst
    end) (split_on (byte_of_Z 10) data) want.

Record memInfo := mkMemInfo { totalBytes : Z; availableBytes : Z }.
Record procStatus := mkProcStatus { rssBytes : Z; peakRSSBytes : Z }.

Definition readMemInfo (file : option bytes) : memInfo :=
  match file with
  | None => mkMemInfo 0 0
  | Some data =>
      let m := parseSizeFields data {[ bs "MemTotal" := 0; bs "MemAvailable" := 0 ]} in
      mkMemInfo (default 0 (m !! bs "MemTotal")) (default 0 (m !! bs "MemAvailable"))
  end.

Definition readProcStatus (file : option bytes) : procStatus :=
  match file with
  | None => mkProcStatus 0 0
  | Some data =>
      let m := parseSizeFields data {[ bs "VmRSS" := 0; bs "VmHWM" := 0 ]} in
      mkProcStatus (default 0 (m !! bs "VmRSS")) (default 0 (m !! bs "VmHWM"))
  end.

Definition mb : Z := 1024 * 1024.
Definition bytesToMB (b : Z) : Z := u64 (b + mb / 2) / mb.

(** ** /proc/stat *)

(** [strings.CutPrefix]. *)
Fixpoint cut_prefix (p s : bytes) : option bytes :=
  match p, s with
  | [], _ => Some s
  | x :: p', y :: s' => if bool_decide (x = y) then cut_prefix p' s' else None
  | _ :: _, [] => None
  end.

Fixpoint sumCPUTicks_from (total : Z) (values : list Z) : option Z :=
  match values with
  | [] => Some total
  | value :: rest => if MaxUint64 - total <? value then None else sumCPUTicks_from (u64 (total + value)) rest
  end.
Definition sumCPUTicks (values : list Z) : option Z := sumCPUTicks_from 0 values.

Definition cpuStatFieldCount : nat := 8.

(** The aggregate line: busy and total ticks. *)
Definition cpu_line (rest : bytes) : option (Z * Z) :=
  let fs := fields rest in
  if (length fs <? cpuStatFieldCount)%nat then None
  else match mapM ParseUint (take cpuStatFieldCount fs) with
  | Some [user; nice; system; idle; iowait; irq; softirq; steal] =>
      match sumCPUTicks [user; nice; system; irq; softirq] with
      | None => None
      | Some busy =>
          match sumCPUTicks [busy; idle; iowait; steal] with
          | None => None
          | Some total => Some (busy, total)
          end
      end
  | _ => None
  end.

Fixpoint find_cpu_line (lines : list bytes) : option (Z * Z) :=
  match lines with
  | [] => None
  | line :: rest => match cut_prefix (bs "cpu ") line with None => find_cpu_line rest | Some r => cpu_line r end
  end.

Definition parseGuestCPUTicks (stat : bytes) : option (Z * Z) := find_cpu_line (split_on (byte_of_Z 10) stat).

Definition procStatClockTicksPerSecond : Z := 100.

Definition cpuTicksToSeconds (ticks : Z) : Z :=
  let seconds := ticks / procStatClockTicksPerSecond in
  if procStatClockTicksPerSecond / 2 <=? ticks mod procStatClockTicksPerSecond then u64 (seconds + 1) else seconds.

Definition readGuestCPUSeconds (file : option bytes) : Z * Z :=
  match file with
  | None => (0, 0)
  | Some data =>
      match parseGuestCPUTicks data with
      | None => (0, 0)
      | Some (busyTicks, totalTicks) => (cpuTicksToSeconds busyTicks, cpuTicksToSeconds totalTicks)
      end
  end.

Definition microsecondsPerSecond : Z := 1000000.

(** [cpuSecondsFromRusage] on the [Sec] and [Usec] of the two times. *)
Definition cpuSecondsFromRusage (userSec userUsec systemSec systemUsec : Z) : Z :=
  let microseconds := u64 (u64 (u64 (i64 (userSec + systemSec)) * microsecondsPerSecond) + u64 (i64 (userUsec + systemUsec))) in
  u64 (microseconds + microsecondsPerSecond / 2) / microsecondsPerSecond.

(** ** The handler *)

Record MemoryEstimateResponse := mkMemoryEstimate {
  UsedMB : Z; RSSMB : Z; TotalMB : Z; AvailableMB : Z; PeakRSSMB : Z;
  ProcessCPUSeconds : Z; GuestCPUBusySeconds : Z; GuestCPUTotalSeconds : Z;
}.

(** [None] is the answer 405 to another method than GET. *)
Definition handleMemory (method : string) (runtimeBytes processCPUSeconds : Z) (meminfo status stat : option bytes)
    : option MemoryEstimateResponse :=
  if negb (bool_decide (method = "GET"%string)) then None
  else
    let info := readMemInfo meminfo in
    let st := readProcStatus status in
    let '(busy, total) := readGuestCPUSeconds stat in
    Some (mkMemoryEstimate (bytesToMB runtimeBytes) (bytesToMB (rssBytes st)) (bytesToMB (totalBytes info))
            (bytesToMB (availableBytes info)) (bytesToMB (peakRSSBytes st)) processCPUSeconds busy total).

(** ** Proofs *)

Definition is_byte_count (n : Z) : Prop := 0 <= n < 2 ^ 64 /\ n mod 1024 = 0.

(** The sizes read are exact: the multiplication never wraps. *)
Lemma size_field_exact line key v : size_field line = Some (key, v) -> is_byte_count v.
Proof.
  unfold size_field. destruct (cut _ line) as [[k rest]|]; [|done].
  destruct (fields rest) as [|n [|unit [|? ?]]]; try done. destruct (negb _); [done|].
  destruct (ParseUint n) as [kb|] eqn:Ep; [|done]. destruct (_ <? kb) eqn:E; [done|]. intros [= _ <-].
  apply ParseUint_range in Ep. apply Z.ltb_ge in E. change (MaxUint64 / 1024) with 18014398509481983 in E.
  unfold is_byte_count. rewrite u64_id by (unfold is_u64; lia). rewrite Z.mod_mul by lia. lia.
Qed.

Lemma parseSizeFields_keys (data : bytes) (want : gmap bytes Z) :
  (forall (k : bytes) v, want !! k = Some v -> is_byte_count v) ->
  forall k : bytes, (is_Some (parseSizeFields data want !! k) <-> is_Some (want !! k)) /\
    forall v, parseSizeFields data want !! k = Some v -> is_byte_count v.
Proof.
  unfold parseSizeFields. generalize (split_on (byte_of_Z 10) data). intros lines. revert want.
  induction lines as [|line lines IH]; intros want Hw k; cbn [fold_left]; [eauto|].
  destruct (size_field line) as [[key v]|] eqn:E; [|by apply IH].
  destruct (decide (is_Some (want !! key))) as [Hs|]; [|by apply IH].
  destruct (IH (<[key := v]> want)) with (k := k) as [H1 H2].
  { intros k' v'. rewrite lookup_insert_Some. intros [[<- <-]|[_ ?]]; [by eapply size_field_exact | eauto]. }
  split; [|done]. rewrite H1. rewrite lookup_insert_is_Some'. split; [intros [<-|?]; done | by right].
Qed.

Lemma bytesToMB_nearest b : 0 <= b < 2 ^ 64 - mb / 2 -> - (mb / 2) <= b - mb * bytesToMB b < mb / 2.
Proof.
  change (mb / 2) with 524288. change mb with 1048576. intros Hb.
  unfold bytesToMB. change (mb / 2) with 524288. change mb with 1048576. rewrite u64_id by (unfold is_u64; lia). dlia.
Qed.

Definition Zsum (l : list Z) : Z := fold_right Z.add 0 l.

Lemma sumCPUTicks_exact values : Forall (fun v => 0 <= v < 2 ^ 64) values -> forall total s, 0 <= total < 2 ^ 64 ->
  sumCPUTicks_from total values = Some s <-> total + Zsum values < 2 ^ 64 /\ s = total + Zsum values.
Proof.
  induction 1 as [|v values Hv Hall IH]; intros total s Ht; cbn [sumCPUTicks_from Zsum fold_right].
  - rewrite Z.add_0_r. split; [intros [= <-]; lia | intros [_ ->]; done].
  - fold (Zsum values). assert (0 <= Zsum values) as Hs.
    { clear -Hall. induction Hall as [|x l Hx Hl IHl]; cbn; [done|]. fold (Zsum l). lia. }
    destruct (_ <? v) eqn:E; [apply Z.ltb_lt in E | apply Z.ltb_ge in E]; unfold MaxUint64 in E.
    + split; [done|]. lia.
    + rewrite IH by (rewrite u64_id; unfold is_u64; lia). rewrite u64_id by (unfold is_u64; lia). lia.
Qed.

Lemma cpuTicksToSeconds_nearest t : 0 <= t < 2 ^ 64 ->
  -50 <= 100 * cpuTicksToSeconds t - t <= 50 /\ 0 <= cpuTicksToSeconds t.
Proof.
  intros Ht. unfold cpuTicksToSeconds, procStatClockTicksPerSecond.
  pose proof (Z.div_mod t 100). pose proof (Z.mod_pos_bound t 100). pose proof (Z.div_pos t 100).
  destruct (_ <=? _) eqn:E; [apply Z.leb_le in E | apply Z.leb_gt in E]; change (100 / 2) with 50 in E.
  - rewrite u64_id by (unfold is_u64; lia). lia.
  - lia.
Qed.

Lemma cpuTicksToSeconds_mono t t' : 0 <= t <= t' -> t' < 2 ^ 64 -> cpuTicksToSeconds t <= cpuTicksToSeconds t'.
Proof.
  intros H H'. unfold cpuTicksToSeconds, procStatClockTicksPerSecond. change (100 / 2) with 50.
  pose proof (Z.div_mod t 100). pose proof (Z.mod_pos_bound t 100). pose proof (Z.div_mod t' 100).
  pose proof (Z.mod_pos_bound t' 100).
  destruct (50 <=? t mod 100) eqn:E, (50 <=? t' mod 100) eqn:E';
    rewrite ?Z.leb_le, ?Z.leb_gt in E, E'; rewrite ?u64_id by (unfold is_u64; lia); lia.
Qed.

Lemma mapM_range l vs : mapM ParseUint l = Some vs -> Forall (fun v => 0 <= v < 2 ^ 64) vs.
Proof.
  intros H%mapM_Some. induction H as [|s v l vs Hs _ IH]; constructor; [by eapply ParseUint_range | done].
Qed.

(** The ticks of an aggregate line: exact sums, the total including the busy part. *)
Lemma cpu_line_exact rest busy total : cpu_line rest = Some (busy, total) ->
  exists user nice system idle iowait irq softirq steal,
    mapM ParseUint (take cpuStatFieldCount (fields rest)) = Some [user; nice; system; idle; iowait; irq; softirq; steal] /\
    busy = user + nice + system + irq + softirq /\ total = busy + idle + iowait + steal /\ 0 <= busy <= total /\ total < 2 ^ 64.
Proof.
  unfold cpu_line. destruct (_ <? _)%nat; [done|]. destruct (mapM _ _) as [vs|] eqn:E; [|done].
  pose proof (mapM_range _ _ E) as Hr.
  destruct vs as [|a [|b [|c [|d [|e [|f [|g [|h [|? ?]]]]]]]]]; try done.
  repeat (apply Forall_cons in Hr as [? Hr]). unfold sumCPUTicks.
  destruct (sumCPUTicks_from 0 [a; b; c; f; g]) as [bu|] eqn:Eb; [|done].
  destruct (sumCPUTicks_from 0 [bu; d; e; h]) as [to|] eqn:Et; [|done]. intros [= <- <-].
  assert (Forall (fun v => 0 <= v < 2 ^ 64) [a; b; c; f; g]) as F1
    by (repeat first [apply Forall_nil_2 | apply Forall_cons_2; [assumption|]]).
  apply (sumCPUTicks_exact _ F1 0 bu ltac:(lia)) in Eb as [Hb ->]. cbn [Zsum fold_right] in Hb.
  assert (Forall (fun v => 0 <= v < 2 ^ 64) [0 + Zsum [a; b; c; f; g]; d; e; h]) as F2.
  { apply Forall_cons_2; [cbn [Zsum fold_right]; lia|].
    repeat first [apply Forall_nil_2 | apply Forall_cons_2; [assumption|]]. }
  apply (sumCPUTicks_exact _ F2 0 to ltac:(lia)) in Et as [Ht ->].
  cbn [Zsum fold_right] in *. exists a, b, c, d, e, f, g, h. split_and!; [done|lia..].
Qed.

(** The CPU report of the enclave is consistent whatever /proc/stat contains: it
    is empty, or the two figures are the exact sums of the kernel's counters,
    none of which overflowed, rounded to the nearest second, and the busy time
    does not exceed the total. *)
Theorem guest_cpu_report file :
  let '(busy, total) := readGuestCPUSeconds file in
  (busy, total) = (0, 0) \/
  exists data busyTicks totalTicks, file = Some data /\ parseGuestCPUTicks data = Some (busyTicks, totalTicks) /\
    0 <= busyTicks <= totalTicks /\ totalTicks < 2 ^ 64 /\
    -50 <= 100 * busy - busyTicks <= 50 /\ -50 <= 100 * total - totalTicks <= 50 /\ 0 <= busy <= total.
Proof.
  unfold readGuestCPUSeconds. destruct file as [data|]; [|by left].
  destruct (parseGuestCPUTicks data) as [[b t]|] eqn:E; [right|by left]. exists data, b, t.
  assert (0 <= b <= t /\ t < 2 ^ 64) as [H1 H2].
  { unfold parseGuestCPUTicks in E. revert E. generalize (split_on (byte_of_Z 10) data). intros lines.
    induction lines as [|line lines IH]; [done|]. cbn [find_cpu_line]. destruct (cut_prefix _ line); [|done].
    intros (? & ? & ? & ? & ? & ? & ? & ? & _ & _ & _ & H)%cpu_line_exact. done. }
  pose proof (cpuTicksToSeconds_nearest b). pose proof (cpuTicksToSeconds_nearest t).
  pose proof (cpuTicksToSeconds_mono b t). split_and!; try done; lia.
Qed.

Lemma parsed_size (data : bytes) (want : gmap bytes Z) (k : bytes) :
  (forall (k : bytes) v, want !! k = Some v -> is_byte_count v) -> is_byte_count (default 0 (parseSizeFields data want !! k)).
Proof.
  intros Hw. destruct (parseSizeFields_keys data want Hw k) as [_ H].
  destruct (parseSizeFields data want !! k) as [v|]; [by apply H | by_compute].
Qed.

(** The sizes read from the kernel's files are exact byte counts: whole kilobytes
    that did not overflow. *)
Lemma sizes_exact meminfo status b :
  b ∈ [totalBytes (readMemInfo meminfo); availableBytes (readMemInfo meminfo);
       rssBytes (readProcStatus status); peakRSSBytes (readProcStatus status)] -> is_byte_count b.
Proof.
  intros Hb.
  assert (forall (k1 k2 : bytes) (k : bytes) v, ({[ k1 := 0; k2 := 0 ]} : gmap bytes Z) !! k = Some v -> is_byte_count v) as Hw.
  { intros k1 k2 k v. rewrite lookup_insert_Some, lookup_singleton_Some. intros [[_ <-]|[_ [_ <-]]]; by_compute. }
  repeat (apply elem_of_cons in Hb as [->|Hb]; [|]); [| | | |by apply elem_of_nil in Hb].
  all: unfold readMemInfo, readProcStatus; destruct meminfo, status; cbn; try (by apply parsed_size, Hw); by_compute.
Qed.

Example meminfo_example :
  readMemInfo (Some (bs "MemTotal:       2048 kB" ++ [byte_of_Z 10] ++ bs "MemAvailable:  12 MB" ++ [byte_of_Z 10])) = mkMemInfo 2097152 0.
Proof. vm_compute. reflexivity. Qed.
