(* ===== verification/HostMetrics.v ===== *)
(** * HostMetrics: what the host measures

    Models [src/enclave/nitro/host/metrics.go]: execution load, memory and CPU of
    the enclave.  The instruments are a list of measurements; creating them is
    modelled in [HostMain].  Every operation runs under its mutex and is one
    step. *)

From S2P Require Import Prelude Codec Text Types Resources.

(** ** Names and conversions *)

Definition executionOutcomeSuccess : string := "success".
Definition executionOutcomeError : string := "error".
Definition executionFailureCapacity : string := "capacity".
Definition executionFailureConflict : string := "conflict".
Definition executionFailureInternal : string := "internal".
Definition executionFailureInvalid : string := "invalid_request".
Definition executionFailureTimeout : string := "timeout".
Definition executionFailureUnknown : string := "unknown".

Definition executionFailureReasonForStatus (status : Z) : string :=
  if (status =? 408) || (status =? 504) then executionFailureTimeout
  else if status =? 409 then executionFailureConflict
  else if status =? 429 then executionFailureCapacity
  else if (400 <=? status) && (status <? 500) then executionFailureInvalid
  else if (500 <=? status) && (status <? 600) then executionFailureInternal
  else executionFailureUnknown.

Definition normalizeSubCapabilityErrorType (errorType : string) : string :=
  if bool_decide (errorType = "dispatch"%string) || bool_decide (errorType = "capability"%string) then errorType
  else "unknown"%string.

Definition MaxInt64 : Z := 2 ^ 63 - 1.

Definition mibToBytes (value : Z) : Z :=
  let bytesPerMiB := 1024 * 1024 in
  if MaxInt64 / bytesPerMiB <? value then MaxInt64 else i64 (value * bytesPerMiB).

Definition saturatingInt64 (value : Z) : Z := if MaxInt64 <? value then MaxInt64 else i64 value.

(** The error types of the failed capability calls among an execution's events, as
    [recordSubCapabilityFailures] of [host.go] records them. *)
Definition recordSubCapabilityFailures (firstAppID : option string) (events : list MetricEvent) : list string :=
  match firstAppID with
  | None => []
  | Some appID =>
      if negb (bool_decide (appID = "confidential-workflows@1.0.0-alpha"%string)) then []
      else omap (fun event =>
        if negb (bool_decide (Event event = "capability_finished"%string)) then None
        else match Details event !! "success"%string with
        | Some (ABool success) =>
            if success then None
            else Some (normalizeSubCapabilityErrorType
                         (match Details event !! "error_type"%string with Some (AString t) => t | _ => ""%string end))
        | _ => None
        end) events
  end.

(** ** Measurements *)

Record executionMetadata := mkMetadata { appID : string; workflowID : string; requestKind : string }.

Definition executionMetricAttributes (md : executionMetadata) : list (string * string) :=
  [("app.id", appID md)]%string ++ (if bool_decide (requestKind md = ""%string) then [] else [("request.kind", requestKind md)]%string).

Definition executionResultAttributes (md : executionMetadata) (outcome failureReason : string) : list (string * string) :=
  executionMetricAttributes md ++ [("outcome", outcome)]%string ++
  (if bool_decide (failureReason = ""%string) then [] else [("failure.reason", failureReason)]%string).

Inductive instrument := executionsStarted | quorumWaitDuration | executionDuration | totalDuration | executionsRejected.
Record measurement := mkMeasurement { m_instrument : instrument; m_value : Z; m_attrs : list (string * string) }.

(** ** Execution load *)

Module Load.

(** An execution in flight, as captured by its finishing closure; a finished one is
    gone, so that finishing twice does nothing. *)
Record running := mkRunning { metadata : executionMetadata; startedAt : Z; quorumWait : Z }.

Record state := mkState {
  inflight : Z;
  inflightMax : Z;
  workflowCountMax : Z;
  workflowRefs : gmap string Z;
  executions : gmap nat running;
  next : nat;
  measured : list measurement;
}.

Definition init : state := mkState 0 0 0 ∅ ∅ 0 [].

(** Returns the handle of the execution. *)
Definition startExecution (now : Z) (md : executionMetadata) (wait : Z) (m : state) : nat * state :=
  let attrs := executionMetricAttributes md in
  let inflight' := i64 (inflight m + 1) in
  let inflightMax' := if inflightMax m <? inflight' then inflight' else inflightMax m in
  let '(refs, countMax) :=
    if bool_decide (workflowID md = ""%string) then (workflowRefs m, workflowCountMax m)
    else
      let refs := <[workflowID md := i64 (default 0 (workflowRefs m !! workflowID md) + 1)]> (workflowRefs m) in
      let active := Z.of_nat (size refs) in
      (refs, if workflowCountMax m <? active then active else workflowCountMax m) in
  (next m,
   mkState inflight' inflightMax' countMax refs (<[next m := mkRunning md now wait]> (executions m)) (S (next m))
     (measured m ++ [mkMeasurement executionsStarted 1 attrs; mkMeasurement quorumWaitDuration wait attrs])).

Definition finish (now : Z) (id : nat) (outcome failureReason : string) (m : state) : state :=
  match executions m !! id with
  | None => m
  | Some r =>
      let md := metadata r in
      let '(outcome, failureReason) :=
        if bool_decide (outcome = executionOutcomeSuccess) then (outcome, ""%string)
        else (executionOutcomeError, if bool_decide (failureReason = ""%string) then executionFailureUnknown else failureReason) in
      let refs :=
        if bool_decide (workflowID md = ""%string) then workflowRefs m
        else
          let n := i64 (default 0 (workflowRefs m !! workflowID md) - 1) in
          if n =? 0 then delete (workflowID md) (workflowRefs m) else <[workflowID md := n]> (workflowRefs m) in
      let duration := Z.max 0 (time_sub now (startedAt r)) in
      let attrs := executionResultAttributes md outcome failureReason in
      mkState (i64 (inflight m - 1)) (inflightMax m) (workflowCountMax m) refs (delete id (executions m)) (next m)
        (measured m ++ [mkMeasurement executionDuration duration attrs; mkMeasurement totalDuration (i64 (quorumWait r + duration)) attrs] ++
         (if bool_decide (failureReason = executionFailureCapacity)
          then [mkMeasurement executionsRejected 1 (executionMetricAttributes md)] else []))
  end.

(** What a collection reports. *)
Record observation := mkObservation {
  obs_inflight : Z;
  obs_inflightMax : Z;
  obs_workflowsActiveMax : Z;
  obs_workflowActive : gset string;
}.

Definition observeExecutionLoad (m : state) : observation * state :=
  (mkObservation (inflight m) (inflightMax m) (workflowCountMax m) (dom (workflowRefs m)),
   mkState (inflight m) (inflight m) (Z.of_nat (size (workflowRefs m))) (workflowRefs m) (executions m) (next m) (measured m)).

Inductive op :=
| Start (now : Z) (md : executionMetadata) (wait : Z)
| Finish (now : Z) (id : nat) (outcome failureReason : string)
| Collect.

Definition step (m : state) (o : op) : state :=
  match o with
  | Start now md wait => (startExecution now md wait m).2
  | Finish now id outcome failureReason => finish now id outcome failureReason m
  | Collect => (observeExecutionLoad m).2
  end.

Definition run (ops : list op) (m : state) : state := fold_left step ops m.

End Load.

(** ** Memory *)

Module Memory.

Record enclaveMemorySnapshot := mkSnapshot {
  totalBytes : Z;
  goRuntimeBytes : Z;
  processRSSBytes : Z;
  availableBytes : Z;
  peakRSSBytes : Z;
}.

Record state := mkState {
  memory : option enclaveMemorySnapshot;
  memoryWindow : option enclaveMemorySnapshot;
}.

Definition init : state := mkState None None.

Definition reading_of (e : MemoryEstimateResponse) : enclaveMemorySnapshot :=
  mkSnapshot (mibToBytes (TotalMB e)) (mibToBytes (UsedMB e)) (mibToBytes (RSSMB e)) (mibToBytes (AvailableMB e)) (mibToBytes (PeakRSSMB e)).

Definition mergeMemoryExtremes (window : option enclaveMemorySnapshot) (reading : enclaveMemorySnapshot) : enclaveMemorySnapshot :=
  match window with
  | None => reading
  | Some w =>
      mkSnapshot
        (if 0 <? totalBytes reading then totalBytes reading else totalBytes w)
        (Z.max (goRuntimeBytes w) (goRuntimeBytes reading))
        (Z.max (processRSSBytes w) (processRSSBytes reading))
        (if (0 <? availableBytes reading) && ((availableBytes w =? 0) || (availableBytes reading <? availableBytes w))
         then availableBytes reading else availableBytes w)
        (Z.max (peakRSSBytes w) (peakRSSBytes reading))
  end.

Definition record (e : MemoryEstimateResponse) (m : state) : state :=
  let reading := reading_of e in
  mkState (Some reading) (Some (mergeMemoryExtremes (memoryWindow m) reading)).

(** The memory part of [clearEnclaveMemory]. *)
Definition clear (m : state) : state := mkState None (memoryWindow m).

Inductive gauge := totalMemory | goRuntimeMemory | processRSSMemory | availableMemory | peakRSSMemory.

(** The gauges of a snapshot, without the zero ones. *)
Definition gauges (s : enclaveMemorySnapshot) : list (gauge * Z) :=
  filter (fun g => 0 < g.2)
    [(totalMemory, totalBytes s); (goRuntimeMemory, goRuntimeBytes s); (processRSSMemory, processRSSBytes s);
     (availableMemory, availableBytes s); (peakRSSMemory, peakRSSBytes s)].

Definition observeEnclaveMemory (m : state) : list (gauge * Z) * state :=
  let snapshot := match memoryWindow m with Some w => Some w | None => memory m end in
  (match snapshot with None => [] | Some s => gauges s end, mkState (memory m) None).

End Memory.

(** ** CPU *)

Module CPU.

Definition guestCPUSampleInterval : Z := 5 * second.

(** [time.Time{}], in nanoseconds since 1970. *)
Definition zero_time : Z := - 62135596800 * second.

(** Utilisation is the quotient of the two numbers. *)
Record guestCPUUtilizationSample := mkSample { busyDelta : Z; totalDelta : Z }.

Record state := mkState {
  processCPUTime : list Z;                      (* the additions to the counter *)
  lastProcessCPUSeconds : option Z;             (* with [hasProcessCPUBaseline] *)
  lastGuestCPU : option (Z * Z);                (* with [hasGuestCPUBaseline] *)
  guestCPUSample : option guestCPUUtilizationSample;
  lastGuestCPUSampleAt : Z;
}.

Definition init : state := mkState [] None None None zero_time.

Definition recordProcessCPUTime (current : Z) (m : state) : state :=
  if current =? 0 then m
  else
    let add := match lastProcessCPUSeconds m with
               | None => 0
               | Some last => saturatingInt64 (if current <? last then current else current - last)
               end in
    mkState (processCPUTime m ++ [add]) (Some current) (lastGuestCPU m) (guestCPUSample m) (lastGuestCPUSampleAt m).

Definition set_guest (m : state) (baseline : option (Z * Z)) (sample : option guestCPUUtilizationSample) : state :=
  mkState (processCPUTime m) (lastProcessCPUSeconds m) baseline sample (lastGuestCPUSampleAt m).

Definition recordGuestCPUUtilization (busy total : Z) (m : state) : state :=
  if (total =? 0) || (total <? busy) then set_guest m None None
  else match lastGuestCPU m with
  | None => set_guest m (Some (busy, total)) None
  | Some (previousBusy, previousTotal) =>
      if (busy <? previousBusy) || (total <? previousTotal) then set_guest m (Some (busy, total)) None
      else
        let totalDelta := total - previousTotal in
        if totalDelta =? 0 then set_guest m (Some (busy, total)) (guestCPUSample m)
        else
          let busyDelta := busy - previousBusy in
          let busyDelta := if (totalDelta <? busyDelta) && (busyDelta - totalDelta =? 1) then totalDelta else busyDelta in
          if totalDelta <? busyDelta then set_guest m (Some (busy, total)) None
          else set_guest m (Some (busy, total)) (Some (mkSample busyDelta totalDelta))
  end.

Definition clear (m : state) : state := set_guest m (lastGuestCPU m) None.

Definition observeGuestCPUUtilization (m : state) : option guestCPUUtilizationSample := guestCPUSample m.

End CPU.

(** ** Polling the enclave *)

Record hostMetrics := mkHostMetrics {
  load : Load.state;
  mem : Memory.state;
  cpu : CPU.state;
}.

Definition recordEnclaveMemory (now : Z) (e : MemoryEstimateResponse) (m : hostMetrics) : hostMetrics :=
  let c := CPU.recordProcessCPUTime (ProcessCPUSeconds e) (cpu m) in
  let c :=
    if CPU.guestCPUSampleInterval <=? time_sub now (CPU.lastGuestCPUSampleAt c) then
      CPU.recordGuestCPUUtilization (GuestCPUBusySeconds e) (GuestCPUTotalSeconds e)
        (CPU.mkState (CPU.processCPUTime c) (CPU.lastProcessCPUSeconds c) (CPU.lastGuestCPU c) (CPU.guestCPUSample c) now)
    else c in
  mkHostMetrics (load m) (Memory.record e (mem m)) c.

Definition clearEnclaveMemory (m : hostMetrics) : hostMetrics :=
  mkHostMetrics (load m) (Memory.clear (mem m)) (CPU.clear (cpu m)).

Definition maxEnclaveMemoryResponseBytes : Z := 64 * 1024.

(** The answer of a poll: none, or unreadable, or status, length and decoded body. *)
Inductive poll_answer :=
| PollFailed
| PollAnswer (status length : Z) (body : option MemoryEstimateResponse).

(** False is an error. *)
Definition collectEnclaveMemory (now : Z) (answer : poll_answer) (m : hostMetrics) : bool * hostMetrics :=
  match answer with
  | PollFailed => (false, m)
  | PollAnswer status length body =>
      if maxEnclaveMemoryResponseBytes <? length then (false, m)
      else if negb (status =? 200) then (false, m)
      else match body with
      | None => (false, m)
      | Some estimate => (true, recordEnclaveMemory now estimate m)
      end
  end.

(** One round of [monitorEnclaveMemory]; [None] when the context has ended. *)
Definition monitor_round (now : Z) (answer : poll_answer) (ended : bool) (m : hostMetrics) : option hostMetrics :=
  let '(ok, m) := collectEnclaveMemory now answer m in
  if ok then Some m else if ended then None else Some (clearEnclaveMemory m).
