(* ===== verification/HostMetricsSafety.v ===== *)
(** * HostMetricsSafety: the host's measurements are exact

    The load gauges against the executions in flight, the memory gauges against the
    readings since the last collection, and the CPU counter against the enclave's
    own. *)

From S2P Require Import Prelude Codec Text Resources HostMetrics.

(** ** Maxima *)

Definition max_of (l : list Z) : Z := fold_right Z.max 0 l.

Lemma max_of_nonneg l : 0 <= max_of l.
Proof. induction l as [|x l IH]; cbn; [done|]. fold (max_of l). lia. Qed.

Lemma max_of_app l k : max_of (l ++ k) = Z.max (max_of l) (max_of k).
Proof.
  induction l as [|x l IH]; cbn [app max_of fold_right].
  - pose proof (max_of_nonneg k). fold (max_of k). lia.
  - fold (max_of (l ++ k)) (max_of l). rewrite IH. lia.
Qed.

Lemma max_of_snoc l x : 0 <= x -> max_of (l ++ [x]) = if max_of l <? x then x else max_of l.
Proof. intros Hx. rewrite max_of_app. cbn. destruct (Z.ltb_spec (max_of l) x); lia. Qed.

(** ** Load *)

Module LoadSafety.
Import Load.

(** The workflows with an execution in flight, and how many executions one has. *)
Definition active (execs : gmap nat running) : gset string :=
  list_to_set (map (fun p => workflowID (metadata p.2)) (map_to_list execs)) ∖ {[""%string]}.
Definition count (w : string) (execs : gmap nat running) : Z :=
  Z.of_nat (size (filter (fun p => workflowID (metadata p.2) = w) execs)).

Lemma elem_of_active w execs :
  w ∈ active execs <-> w <> ""%string /\ exists id r, execs !! id = Some r /\ workflowID (metadata r) = w.
Proof.
  unfold active. rewrite elem_of_difference, elem_of_singleton, elem_of_list_to_set, list_elem_of_In, in_map_iff.
  split.
  - intros [([id r] & <- & Hin) Hw]. split; [done|]. exists id, r. split; [|done].
    by apply elem_of_map_to_list, list_elem_of_In.
  - intros [Hw (id & r & Hr & <-)]. split; [|done]. exists (id, r). split; [done|].
    by apply list_elem_of_In, elem_of_map_to_list.
Qed.

Lemma count_nonzero w execs : count w execs <> 0 <-> exists id r, execs !! id = Some r /\ workflowID (metadata r) = w.
Proof.
  unfold count. split.
  - intros H. destruct (map_choose (filter (fun p => workflowID (metadata p.2) = w) execs)) as (id & r & Hr).
    { intros E. by rewrite E in H. }
    apply map_lookup_filter_Some in Hr. eauto.
  - intros (id & r & Hr & Hw). change 0 with (Z.of_nat 0). rewrite Nat2Z.inj_iff, map_size_empty_iff. intros E.
    by apply (map_filter_empty_not_lookup _ _ id r E).
Qed.

Lemma count_insert w execs id r : execs !! id = None ->
  count w (<[id := r]> execs) = count w execs + (if decide (workflowID (metadata r) = w) then 1 else 0).
Proof.
  intros Hn. unfold count. destruct (decide _) as [E|E].
  - rewrite map_filter_insert_True by done. rewrite map_size_insert_None; [lia|]. apply map_lookup_filter_None. by left.
  - rewrite map_filter_insert_False by done. rewrite delete_id by done. lia.
Qed.

Lemma count_delete w execs id r : execs !! id = Some r ->
  count w (delete id execs) = count w execs - (if decide (workflowID (metadata r) = w) then 1 else 0).
Proof.
  intros Hr. rewrite <- (insert_delete_id execs id r Hr) at 2. rewrite count_insert by apply lookup_delete_eq. lia.
Qed.

Lemma count_le w execs : 0 <= count w execs <= Z.of_nat (size execs).
Proof. unfold count. pose proof (map_size_filter (fun p => workflowID (metadata p.2) = w) execs). lia. Qed.

(** The executions in flight at each point since the last collection. *)
Definition traced (st : state * list (gmap nat running)) (o : op) : state * list (gmap nat running) :=
  let m := step st.1 o in
  (m, match o with Collect => [executions m] | _ => st.2 ++ [executions m] end).
Definition run_traced (ops : list op) : state * list (gmap nat running) := fold_left traced ops (init, [∅]).

Lemma run_traced_run ops : (run_traced ops).1 = run ops init.
Proof.
  unfold run_traced, run.
  enough (forall st, (fold_left traced ops st).1 = fold_left step ops st.1) as H by apply H.
  induction ops as [|o ops IH]; intros st; [done|]. cbn [fold_left]. apply IH.
Qed.

Definition refs_exact (refs : gmap string Z) (execs : gmap nat running) : Prop :=
  forall w, refs !! w = if decide (w = ""%string \/ count w execs = 0) then None else Some (count w execs).

(** The counters follow the executions. *)
Record exact (n : Z) (m : state) (trail : list (gmap nat running)) : Prop := {
  ex_fresh : forall id, (next m <= id)%nat -> executions m !! id = None;
  ex_few : Z.of_nat (size (executions m)) <= n;
  ex_inflight : inflight m = Z.of_nat (size (executions m));
  ex_refs : refs_exact (workflowRefs m) (executions m);
  ex_last : exists before, trail = before ++ [executions m];
  ex_max : inflightMax m = max_of (map (fun e => Z.of_nat (size e)) trail);
  ex_active : workflowCountMax m = max_of (map (fun e => Z.of_nat (size (active e))) trail);
}.

Lemma refs_active refs execs : refs_exact refs execs -> dom refs = active execs.
Proof.
  intros H. apply set_eq. intros w. rewrite elem_of_dom, H, elem_of_active, <- count_nonzero.
  destruct (decide _) as [E|E].
  - split; [by intros []|tauto].
  - split; [tauto|eauto].
Qed.

Lemma refs_default refs execs w : refs_exact refs execs -> w <> ""%string -> default 0 (refs !! w) = count w execs.
Proof. intros H Hw. rewrite H. destruct (decide (w = ""%string \/ count w execs = 0)) as [[?|E]|E]; [done|by rewrite E|done]. Qed.

Lemma refs_start refs execs id r :
  refs_exact refs execs -> execs !! id = None -> Z.of_nat (size execs) < 2 ^ 63 - 1 ->
  let w := workflowID (metadata r) in
  refs_exact (if bool_decide (w = ""%string) then refs else <[w := i64 (default 0 (refs !! w) + 1)]> refs) (<[id := r]> execs).
Proof.
  intros H Hn Hs w w'. rewrite count_insert by done. fold w. pose proof (count_le w execs). pose proof (count_le w' execs).
  assert (w <> ""%string -> i64 (default 0 (refs !! w) + 1) = count w execs + 1) as Hi.
  { intros Hw. rewrite (refs_default _ _ _ H Hw). apply i64_id. unfold is_i64. lia. }
  case_bool_decide as Hw.
  - rewrite H. destruct (decide (w = w')) as [<-|]; [|by rewrite Z.add_0_r]. by rewrite !decide_True by auto.
  - rewrite Hi by done. destruct (decide (w = w')) as [<-|Hne].
    + rewrite lookup_insert_eq, decide_False by lia || (intros [?|?]; [done|lia]). done.
    + by rewrite lookup_insert_ne, H, Z.add_0_r by done.
Qed.

Lemma refs_finish refs execs id r :
  refs_exact refs execs -> execs !! id = Some r -> Z.of_nat (size execs) < 2 ^ 63 ->
  let w := workflowID (metadata r) in
  refs_exact
    (if bool_decide (w = ""%string) then refs
     else let n := i64 (default 0 (refs !! w) - 1) in if n =? 0 then delete w refs else <[w := n]> refs)
    (delete id execs).
Proof.
  intros H Hr Hs w w'. rewrite (count_delete _ _ _ _ Hr). fold w. pose proof (count_le w execs). pose proof (count_le w' execs).
  assert (count w execs <> 0) as Hc by (apply count_nonzero; eauto).
  assert (w <> ""%string -> i64 (default 0 (refs !! w) - 1) = count w execs - 1) as Hi.
  { intros Hw. rewrite (refs_default _ _ _ H Hw). apply i64_id. unfold is_i64. lia. }
  case_bool_decide as Hw.
  - rewrite H. destruct (decide (w = w')) as [<-|]; [|by rewrite Z.sub_0_r]. by rewrite !decide_True by auto.
  - cbn zeta. rewrite Hi by done. destruct (decide (w = w')) as [<-|Hne]; destruct (Z.eqb_spec (count w execs - 1) 0).
    + by rewrite lookup_delete_eq, decide_True by auto.
    + by rewrite lookup_insert_eq, decide_False by tauto.
    + by rewrite lookup_delete_ne, H, Z.sub_0_r by done.
    + by rewrite lookup_insert_ne, H, Z.sub_0_r by done.
Qed.

Lemma exact_init : exact 0 init [∅].
Proof.
  split; try done; [|by exists []]. intros w. change (workflowRefs init) with (∅ : gmap string Z).
  by rewrite lookup_empty, decide_True by auto.
Qed.

(** Another point of the window with as many or fewer. *)
Lemma max_of_below (f : gmap nat running -> Z) trail e e' :
  (forall x, 0 <= f x) -> (exists before, trail = before ++ [e]) -> f e' <= f e -> max_of (map f (trail ++ [e'])) = max_of (map f trail).
Proof. intros Hf [before ->] He. rewrite !map_app, !max_of_app. cbn. pose proof (Hf e). lia. Qed.

Lemma max_of_point (f : gmap nat running -> Z) trail e :
  0 <= f e -> max_of (map f (trail ++ [e])) = if max_of (map f trail) <? f e then f e else max_of (map f trail).
Proof. intros Hf. rewrite map_app. by apply max_of_snoc. Qed.

Lemma exact_collect n m trail : exact n m trail -> exact n (step m Collect) [executions m].
Proof.
  intros [H1 H2 H3 H4 H5 H6 H7]. split; try done; cbn.
  - by exists [].
  - rewrite H3. lia.
  - rewrite <- (refs_active (workflowRefs m) (executions m) H4), size_dom. lia.
Qed.

Lemma exact_start n m trail now md wait :
  n < 2 ^ 63 - 1 -> exact n m trail ->
  exact (n + 1) (step m (Start now md wait)) (trail ++ [executions (step m (Start now md wait))]).
Proof.
  intros Hn [H1 H2 H3 H4 H5 H6 H7]. assert (executions m !! next m = None) as Hf by (by apply H1).
  pose proof (refs_start _ _ (next m) (mkRunning md now wait) H4 Hf ltac:(lia)) as Hr. cbn [metadata] in Hr. cbn zeta in Hr.
  set (execs := <[next m := mkRunning md now wait]> (executions m)) in *.
  assert (Z.of_nat (size execs) = Z.of_nat (size (executions m)) + 1) as Hs by (unfold execs; rewrite map_size_insert_None by done; lia).
  assert (executions (step m (Start now md wait)) = execs) as He.
  { cbn. unfold startExecution. by destruct (bool_decide (workflowID md = ""%string)). }
  rewrite He. cbn [step]. unfold startExecution. fold execs. rewrite H3, H6, (i64_id (Z.of_nat (size (executions m)) + 1)) by (unfold is_i64; lia).
  assert (forall id, (S (next m) <= id)%nat -> execs !! id = None) as Hfresh.
  { intros id Hid. unfold execs. rewrite lookup_insert_ne by lia. apply H1. lia. }
  rewrite <- Hs, <- (max_of_point (fun e => Z.of_nat (size e)) trail execs) by lia.
  destruct (bool_decide (workflowID md = ""%string)).
  - split; cbn; try done; [lia|eauto|].
    rewrite H7. symmetry. eapply (max_of_below (fun e => Z.of_nat (size (active e)))); [lia|exact H5|].
    by rewrite <- (refs_active _ _ H4), <- (refs_active _ _ Hr).
  - split; cbn; try done; [lia|eauto|].
    rewrite (max_of_point (fun e => Z.of_nat (size (active e)))) by lia.
    by rewrite <- (refs_active _ _ Hr), H7, size_dom.
Qed.

Lemma exact_finish n m trail now id outcome reason :
  n < 2 ^ 63 -> exact n m trail ->
  exact n (step m (Finish now id outcome reason)) (trail ++ [executions (step m (Finish now id outcome reason))]).
Proof.
  intros Hn [H1 H2 H3 H4 H5 H6 H7]. cbn [step]. unfold finish. destruct (executions m !! id) as [r|] eqn:Er.
  - pose proof (refs_finish _ _ id r H4 Er ltac:(lia)) as Hr. cbn zeta in Hr.
    assert (Z.of_nat (size (delete id (executions m))) = Z.of_nat (size (executions m)) - 1) as Hs.
    { rewrite map_size_delete_Some by eauto. pose proof (map_size_ne_0_lookup_2 (executions m) id ltac:(eauto)). lia. }
    destruct (if bool_decide (outcome = executionOutcomeSuccess) then _ else _) as [o f]. split; cbn.
    + intros i Hi. rewrite lookup_delete_None. right. by apply H1.
    + lia.
    + rewrite Hs, H3. apply i64_id. unfold is_i64. lia.
    + exact Hr.
    + eauto.
    + rewrite H6. symmetry. eapply (max_of_below (fun e => Z.of_nat (size e))); [lia|exact H5|]. lia.
    + rewrite H7. symmetry. eapply (max_of_below (fun e => Z.of_nat (size (active e)))); [lia|exact H5|].
      apply Nat2Z.inj_le, subseteq_size. intros w. rewrite !elem_of_active. intros [Hw (i & r' & Hi & Hw')].
      split; [done|]. apply lookup_delete_Some in Hi as [_ Hi]. eauto.
  - split; try done; cbn; [eauto| |].
    + rewrite H6. symmetry. by eapply (max_of_below (fun e => Z.of_nat (size e))); [lia|exact H5|].
    + rewrite H7. symmetry. by eapply (max_of_below (fun e => Z.of_nat (size (active e)))); [lia|exact H5|].
Qed.

Lemma exact_weaken n n' m trail : n <= n' -> exact n m trail -> exact n' m trail.
Proof. intros Hn []. split; try done. lia. Qed.

Lemma exact_run ops : glen ops < 2 ^ 63 - 1 -> exact (glen ops) (run_traced ops).1 (run_traced ops).2.
Proof.
  unfold run_traced. induction ops as [|o ops IH] using rev_ind; [intros _; apply exact_init|].
  rewrite glen_snoc, fold_left_app. intros Hn. specialize (IH ltac:(lia)). destruct (fold_left traced ops (init, [∅])) as [m trail].
  cbn [fold_left traced fst snd] in *. destruct o as [now md wait|now id outcome reason|].
  - apply exact_start; [lia|done].
  - eapply exact_weaken; [|apply exact_finish; [|exact IH]]; lia.
  - apply (exact_weaken (glen ops)); [lia|]. exact (exact_collect _ _ _ IH).
Qed.

(** The load gauges are exact.  Over any interleaving of executions starting,
    finishing (also more than once) and metric collections, a collection reports
    the executions in flight and the workflows they belong to, and as peaks the
    largest numbers of executions and of distinct workflows at any point since the
    collection before it: load between collections is never missed, and none is
    reported that did not occur. *)
Theorem load_observed_exactly (ops : list op) :
  glen ops < 2 ^ 63 - 1 ->
  let m := run ops init in
  let trail := (run_traced ops).2 in
  (observeExecutionLoad m).1 =
    mkObservation (Z.of_nat (size (executions m))) (max_of (map (fun e => Z.of_nat (size e)) trail))
      (max_of (map (fun e => Z.of_nat (size (active e))) trail)) (active (executions m)).
Proof.
  intros Hn m trail. destruct (exact_run ops Hn) as [_ _ H3 H4 _ H6 H7]. rewrite run_traced_run in *.
  unfold observeExecutionLoad. cbn [fst]. fold m in H3, H4, H6, H7. by rewrite H3, H6, H7, (refs_active _ _ H4).
Qed.

End LoadSafety.

(** ** Memory *)

Module MemorySafety.
Import Memory.

(** The extremes of readings, oldest first: the last total reported, the highest
    usage, and the lowest availability; zero stands for not reported. *)
Definition min_reported (l : list Z) : Z :=
  match filter (fun z => 0 < z) l with [] => 0 | z :: l => fold_left Z.min l z end.
Definition last_reported (l : list Z) : Z := default 0 (list.last (filter (fun z => 0 < z) l)).

Definition extremes (l : list enclaveMemorySnapshot) : enclaveMemorySnapshot :=
  mkSnapshot (last_reported (map totalBytes l)) (max_of (map goRuntimeBytes l)) (max_of (map processRSSBytes l))
    (min_reported (map availableBytes l)) (max_of (map peakRSSBytes l)).

Definition nonneg (s : enclaveMemorySnapshot) : Prop :=
  0 <= totalBytes s /\ 0 <= goRuntimeBytes s /\ 0 <= processRSSBytes s /\ 0 <= availableBytes s /\ 0 <= peakRSSBytes s.

Lemma last_reported_snoc l z : last_reported (l ++ [z]) = if 0 <? z then z else last_reported l.
Proof.
  unfold last_reported. rewrite filter_app. destruct (Z.ltb_spec 0 z).
  - rewrite (filter_cons_True (fun z => 0 < z)), filter_nil by done. by rewrite last_snoc.
  - rewrite (filter_cons_False (fun z => 0 < z)), filter_nil, app_nil_r by lia. done.
Qed.

Lemma fold_min_pos l z : 0 < z -> Forall (fun x => 0 < x) l -> 0 < fold_left Z.min l z.
Proof. intros Hz Hl. revert z Hz. induction Hl as [|x l Hx _ IH]; intros z Hz; cbn; [done|]. apply IH. lia. Qed.

Lemma min_reported_snoc l z : min_reported (l ++ [z]) =
  if (0 <? z) && ((min_reported l =? 0) || (z <? min_reported l)) then z else min_reported l.
Proof.
  unfold min_reported. rewrite filter_app. destruct (Z.ltb_spec 0 z); cbn [andb].
  - rewrite (filter_cons_True (fun z => 0 < z)), filter_nil by done.
    assert (Forall (fun z => 0 < z) (filter (fun z => 0 < z) l)) as Hf
      by (apply Forall_forall; intros x Hx; by apply list_elem_of_filter in Hx as [? _]).
    destruct (filter (fun z => 0 < z) l) as [|x k]; [done|]. inversion_clear Hf as [|? ? Hx Hk].
    cbn [app]. rewrite fold_left_app. cbn [fold_left]. pose proof (fold_min_pos k x Hx Hk).
    destruct (Z.eqb_spec (fold_left Z.min k x) 0), (Z.ltb_spec z (fold_left Z.min k x)); cbn; lia.
  - rewrite (filter_cons_False (fun z => 0 < z)), filter_nil, app_nil_r by lia. done.
Qed.

Lemma extremes_merge l r : nonneg r ->
  mergeMemoryExtremes (match l with [] => None | _ => Some (extremes l) end) r = extremes (l ++ [r]).
Proof.
  intros (H1 & H2 & H3 & H4 & H5). destruct l as [|r0 l].
  - destruct r as [t g p a k]. cbn in H1, H2, H3, H4, H5. unfold extremes.
    cbn [map app mergeMemoryExtremes totalBytes goRuntimeBytes processRSSBytes availableBytes peakRSSBytes].
    assert (last_reported [t] = t) as -> by (rewrite (last_reported_snoc [] t : last_reported [t] = _); cbn; destruct (Z.ltb_spec 0 t); cbn; lia).
    assert (min_reported [a] = a) as -> by (rewrite (min_reported_snoc [] a : min_reported [a] = _); cbn; destruct (Z.ltb_spec 0 a); cbn; lia).
    cbn. f_equal; lia.
  - generalize (r0 :: l). clear r0 l. intros l. unfold extremes. rewrite !map_app.
    cbn [map mergeMemoryExtremes totalBytes goRuntimeBytes processRSSBytes availableBytes peakRSSBytes].
    rewrite last_reported_snoc, min_reported_snoc, !max_of_app. cbn. f_equal; lia.
Qed.

Inductive op := Record_ (e : MemoryEstimateResponse) | Clear | Collect.

Definition step (m : state) (o : op) : state :=
  match o with Record_ e => record e m | Clear => clear m | Collect => (observeEnclaveMemory m).2 end.

(** The readings since the last collection, and the latest one still valid. *)
Definition seen (st : list enclaveMemorySnapshot * option enclaveMemorySnapshot) (o : op) :=
  match o with
  | Record_ e => (st.1 ++ [reading_of e], Some (reading_of e))
  | Clear => (st.1, None)
  | Collect => ([], st.2)
  end.

Lemma mibToBytes_nonneg v : 0 <= v -> 0 <= mibToBytes v <= MaxInt64.
Proof.
  intros Hv. unfold mibToBytes, MaxInt64. destruct (Z.ltb_spec ((2 ^ 63 - 1) / (1024 * 1024)) v); [lia|].
  rewrite i64_id; unfold is_i64; dlia.
Qed.

Definition is_estimate (e : MemoryEstimateResponse) : Prop :=
  0 <= UsedMB e /\ 0 <= RSSMB e /\ 0 <= TotalMB e /\ 0 <= AvailableMB e /\ 0 <= PeakRSSMB e.

Lemma reading_nonneg e : is_estimate e -> nonneg (reading_of e).
Proof. intros (? & ? & ? & ? & ?). repeat split; by apply mibToBytes_nonneg. Qed.

Definition valid_op (o : op) : Prop := match o with Record_ e => is_estimate e | _ => True end.

Lemma run_seen ops : Forall valid_op ops ->
  let st := fold_left seen ops ([], None) in
  fold_left step ops init = mkState st.2 (match st.1 with [] => None | _ => Some (extremes st.1) end).
Proof.
  induction ops as [|o ops IH] using rev_ind; intros Hv; [done|]. apply Forall_app in Hv as [Hv Ho]. inversion_clear Ho as [|? ? Ho' _].
  rewrite !fold_left_app. cbn [fold_left]. rewrite IH by done. destruct (fold_left seen ops ([], None)) as [l r]. cbn [fst snd].
  destruct o; cbn [step seen fst snd]; [|done..]. unfold record. cbn [memoryWindow].
  rewrite (extremes_merge l) by (by apply reading_nonneg). by destruct l.
Qed.

(** The memory gauges are exact: after any sequence of polls, failed polls and
    collections, a collection reports the extremes of all readings since the one
    before it (highest usage, lowest availability, last total, each over the
    readings that had the field), or the latest reading when there was no poll, and
    nothing when the last poll failed and no reading is left. *)
Theorem memory_observed_exactly (ops : list op) :
  Forall valid_op ops ->
  let '(readings, latest) := fold_left seen ops ([], None) in
  (observeEnclaveMemory (fold_left step ops init)).1 =
    match readings, latest with
    | [], None => []
    | [], Some r => gauges r
    | _, _ => gauges (extremes readings)
    end.
Proof.
  intros Hv. pose proof (run_seen ops Hv) as H. cbn zeta in H. rewrite H.
  destruct (fold_left seen ops ([], None)) as [[|r l] [x|]]; done.
Qed.

End MemorySafety.

(** ** CPU *)

Module CPUSafety.
Import CPU.

Definition total (l : list Z) : Z := fold_right Z.add 0 l.

Lemma total_deltas_app l k : total (l ++ k) = total l + total k.
Proof. induction l as [|x l IH]; [done|]. cbn. unfold total in *. lia. Qed.

Definition record_all (samples : list Z) (m : state) : state := fold_left (fun m s => recordProcessCPUTime s m) samples m.

(** The samples of one run of the enclave: positive and never decreasing. *)
Fixpoint grows (from : Z) (l : list Z) : Prop :=
  match l with [] => True | x :: l => from <= x < 2 ^ 63 /\ grows x l end.

(** The last sample. *)
Fixpoint final (from : Z) (l : list Z) : Z := match l with [] => from | x :: l => final x l end.

Lemma final_range l : forall x, 0 < x < 2 ^ 63 -> grows x l -> x <= final x l < 2 ^ 63.
Proof.
  induction l as [|y l IH]; intros x Hx; cbn; [lia|]. intros [Hy Hl]. specialize (IH y ltac:(lia) Hl). lia.
Qed.

Lemma record_sample last x m : lastProcessCPUSeconds m = Some last -> 0 < x < 2 ^ 63 -> 0 <= last ->
  let m' := recordProcessCPUTime x m in
  total (processCPUTime m') = total (processCPUTime m) + (if x <? last then x else x - last) /\
  lastProcessCPUSeconds m' = Some x.
Proof.
  intros Hm Hx Hl. unfold recordProcessCPUTime. rewrite (proj2 (Z.eqb_neq x 0)), Hm by lia. cbn. split; [|done].
  rewrite total_deltas_app. cbn. rewrite Z.add_0_r. f_equal. unfold saturatingInt64, MaxInt64.
  set (d := if x <? last then x else x - last). assert (0 <= d < 2 ^ 63) by (unfold d; destruct (Z.ltb_spec x last); lia).
  destruct (Z.ltb_spec (2 ^ 63 - 1) d); [lia|]. apply i64_id. unfold is_i64. lia.
Qed.

Lemma record_run samples : forall last m, lastProcessCPUSeconds m = Some last -> 0 < last -> grows last samples ->
  let m' := record_all samples m in
  total (processCPUTime m') = total (processCPUTime m) + (final last samples - last) /\
  lastProcessCPUSeconds m' = Some (final last samples).
Proof.
  induction samples as [|x l IH]; intros last m Hm Hp; [cbn; split; [lia|done]|].
  intros [Hx Hl]. destruct (record_sample last x m Hm ltac:(lia) ltac:(lia)) as [H1 H2].
  destruct (IH x (recordProcessCPUTime x m) H2 ltac:(lia) Hl) as (H3 & H4). cbn zeta in *.
  change (record_all (x :: l) m) with (record_all l (recordProcessCPUTime x m)). cbn [final].
  rewrite H3, H1. destruct (Z.ltb_spec x last); [lia|]. split; [lia|done].
Qed.

(** A run of an enclave: its first sample seen, and the later ones. *)
Definition run_of (r : Z * list Z) : Prop := 0 < r.1 < 2 ^ 63 /\ grows r.1 r.2.
Definition last_of (r : Z * list Z) : Z := final r.1 r.2.
Definition samples_of (runs : list (Z * list Z)) : list Z := concat (map (fun r => r.1 :: r.2) runs).

(** A restart is noticed when the counter starts again below where it was. *)
Fixpoint noticed (last : Z) (runs : list (Z * list Z)) : Prop :=
  match runs with [] => True | r :: runs => r.1 < last /\ noticed (last_of r) runs end.

Lemma record_runs runs : forall last m, lastProcessCPUSeconds m = Some last -> 0 < last < 2 ^ 63 -> Forall run_of runs ->
  let added := total (processCPUTime (record_all (samples_of runs) m)) - total (processCPUTime m) in
  added <= total (map last_of runs) /\ (noticed last runs -> added = total (map last_of runs)).
Proof.
  induction runs as [|[x l] runs IH]; intros last m Hm Hl Hr; [cbn; lia|]. inversion_clear Hr as [|? ? [Hx Hg] Hr']. cbn [fst snd] in *.
  destruct (record_sample last x m Hm ltac:(lia) ltac:(lia)) as [H1 H2].
  destruct (record_run l x _ H2 ltac:(lia) Hg) as (H3 & H4). pose proof (final_range l x Hx Hg) as Hf.
  assert (record_all (samples_of ((x, l) :: runs)) m = record_all (samples_of runs) (record_all l (recordProcessCPUTime x m))) as ->.
  { unfold samples_of, record_all. cbn [map concat app fst snd fold_left]. by rewrite fold_left_app. }
  destruct (IH _ _ H4 ltac:(lia) Hr') as [I1 I2]. cbn zeta in *. cbn [map total fold_right noticed last_of fst snd].
  fold (total (map last_of runs)). change (last_of (x, l)) with (final x l). split.
  - destruct (Z.ltb_spec x last); lia.
  - intros [Hn Hn']. specialize (I2 Hn'). destruct (Z.ltb_spec x last); lia.
Qed.

(** The CPU counter never counts time twice or invents it.  Over the runs of an
    enclave, each reporting a growing counter, the host's counter is at most the
    time of the first run since the host first saw it plus all of the later runs,
    and exactly that when every restart shows as a smaller value. *)
Theorem cpu_counter_exact (first : Z) (samples : list Z) (runs : list (Z * list Z)) :
  0 < first < 2 ^ 63 -> grows first samples -> Forall run_of runs ->
  let counter := total (processCPUTime (record_all (first :: samples ++ samples_of runs) init)) in
  let truth := final first samples - first + total (map last_of runs) in
  counter <= truth /\ (noticed (final first samples) runs -> counter = truth).
Proof.
  intros Hf Hg Hr counter truth. set (m1 := recordProcessCPUTime first init).
  assert (total (processCPUTime m1) = 0 /\ lastProcessCPUSeconds m1 = Some first) as [E0 E1].
  { unfold m1, recordProcessCPUTime. rewrite (proj2 (Z.eqb_neq first 0)) by lia. done. }
  destruct (record_run samples first m1 E1 ltac:(lia) Hg) as [H1 H2]. pose proof (final_range _ _ Hf Hg).
  destruct (record_runs runs _ _ H2 ltac:(lia) Hr) as [H3 H4]. cbn zeta in *.
  assert (counter = total (processCPUTime (record_all (samples_of runs) (record_all samples m1)))) as ->.
  { unfold counter, record_all. cbn [fold_left]. by rewrite fold_left_app. }
  unfold truth. rewrite H1, E0 in *. split; [lia|]. intros Hn. specialize (H4 Hn). lia.
Qed.

(** A utilisation is only ever exported as a fraction between zero and one of
    a positive amount of guest time, whatever the enclave reports. *)
Theorem guest_utilisation_fraction (reports : list (Z * Z)) (s : guestCPUUtilizationSample) :
  guestCPUSample (fold_left (fun m r => recordGuestCPUUtilization r.1 r.2 m) reports init) = Some s ->
  0 <= busyDelta s <= totalDelta s /\ 0 < totalDelta s.
Proof.
  revert s. induction reports as [|[busy tot] reports IH] using rev_ind; [done|]. intros s. rewrite fold_left_app. cbn [fold_left fst snd].
  set (m := fold_left _ reports init) in *. unfold recordGuestCPUUtilization, set_guest.
  destruct ((tot =? 0) || (tot <? busy)) eqn:E0; [done|]. destruct (lastGuestCPU m) as [[pb pt]|]; [|done].
  destruct (Z.ltb_spec busy pb); cbn [orb]; [done|]. destruct (Z.ltb_spec tot pt); [done|].
  destruct (Z.eqb_spec (tot - pt) 0); [cbn; apply IH|].
  set (d := if (tot - pt <? busy - pb) && _ then _ else _).
  assert (0 <= d) by (unfold d; destruct (_ && _); lia).
  destruct (Z.ltb_spec (tot - pt) d); cbn; intros [= <-]. cbn. lia.
Qed.

End CPUSafety.

(** ** Concrete runs *)

Definition wf (id : string) : executionMetadata := mkMetadata "confidential-workflows" id "trigger".

(** [load_observed_exactly] at two executions that overlap between collections. *)
Lemma load_observed_exactly_witness :
  (Load.observeExecutionLoad (Load.run [Load.Start 1 (wf "a") 0; Load.Start 2 (wf "b") 0; Load.Finish 3 0 "success" ""; Load.Finish 4 0 "error" ""] Load.init)).1
  = Load.mkObservation 1 2 2 {["b"%string]}.
Proof.
  rewrite (LoadSafety.load_observed_exactly
    [Load.Start 1 (wf "a") 0; Load.Start 2 (wf "b") 0; Load.Finish 3 0 "success" ""; Load.Finish 4 0 "error" ""] ltac:(by vm_compute)).
  vm_compute. reflexivity.
Defined.

Definition estimate (used available : Z) : MemoryEstimateResponse := mkMemoryEstimate used 10 0 available 0 1 1 2.

(** [memory_observed_exactly] at three polls, one without availability. *)
Lemma memory_observed_exactly_witness :
  (Memory.observeEnclaveMemory (fold_left MemorySafety.step
     [MemorySafety.Record_ (estimate 5 7); MemorySafety.Record_ (estimate 9 0); MemorySafety.Clear; MemorySafety.Record_ (estimate 2 4)]
     Memory.init)).1
  = [(Memory.goRuntimeMemory, 9 * 1048576); (Memory.processRSSMemory, 10 * 1048576); (Memory.availableMemory, 4 * 1048576)].
Proof.
  pose proof (MemorySafety.memory_observed_exactly
    [MemorySafety.Record_ (estimate 5 7); MemorySafety.Record_ (estimate 9 0); MemorySafety.Clear; MemorySafety.Record_ (estimate 2 4)]) as H.
  rewrite H; [vm_compute; reflexivity|]. repeat constructor; by vm_compute.
Defined.

(** [cpu_counter_exact] at an enclave that restarts once. *)
Lemma cpu_counter_exact_witness :
  CPUSafety.total (CPU.processCPUTime (CPUSafety.record_all [10; 12; 15; 3; 4] CPU.init)) = 9.
Proof.
  refine (proj2 (CPUSafety.cpu_counter_exact 10 [12; 15] [(3, [4])] _ _ _) _).
  - lia.
  - cbn. lia.
  - repeat constructor; cbn; lia.
  - cbn. lia.
Defined.

(** [guest_utilisation_fraction] when rounding puts busy time ahead. *)
Lemma guest_utilisation_fraction_witness :
  exists s, CPU.guestCPUSample (fold_left (fun m r => CPU.recordGuestCPUUtilization r.1 r.2 m) [(1, 10); (5, 13)] CPU.init) = Some s /\
    0 <= CPU.busyDelta s <= CPU.totalDelta s.
Proof.
  exists (CPU.mkSample 3 3). split; [vm_compute; reflexivity|].
  exact (proj1 (CPUSafety.guest_utilisation_fraction [(1, 10); (5, 13)] (CPU.mkSample 3 3) eq_refl)).
Defined.
