(* ===== verification/Egress.v ===== *)
(** * Egress: where an enclave may connect to

    Models [src/enclave/nitro/host/proxy-server/server.go] and [policy.go] (the
    parent's SOCKS rule set) and [src/enclave/nitro/proxy-client/policy.go] and
    [client.go] (the enclave's own policy).  The SOCKS library resolves names and
    carries the connection; what it reports is an input. *)

From S2P Require Import Prelude Codec Text.

(** ** Addresses *)

(** [netip.Addr] without zones; an IPv6 address is a 128-bit number. *)
Inductive Addr := V4 (a : Z) | V6 (a : Z).

#[export] Instance Addr_eq_dec : EqDecision Addr.
Proof. solve_decision. Defined.

#[export] Program Instance Addr_countable : Countable Addr :=
  inj_countable (fun x => match x with V4 a => (true, a) | V6 a => (false, a) end)
    (fun p => Some (match p with (true, a) => V4 a | (false, a) => V6 a end)) _.
Next Obligation. by intros []. Qed.

Definition AddrFromSlice (ip : bytes) : option Addr :=
  if glen ip =? 4 then Some (V4 (be_decode ip))
  else if glen ip =? 16 then Some (V6 (be_decode ip))
  else None.

(** An IPv4-mapped IPv6 address becomes the IPv4 address. *)
Definition Unmap (x : Addr) : Addr :=
  match x with
  | V4 a => V4 a
  | V6 a => if Z.shiftr a 32 =? 65535 then V4 (Z.land a (2 ^ 32 - 1)) else V6 a
  end.

Definition Is4 (x : Addr) : bool := match x with V4 _ => true | V6 _ => false end.
Definition IsUnspecified (x : Addr) : bool := match x with V4 a => a =? 0 | V6 a => a =? 0 end.
Definition IsLoopback (x : Addr) : bool := match x with V4 a => Z.shiftr a 24 =? 127 | V6 a => a =? 1 end.
Definition IsLinkLocalUnicast (x : Addr) : bool :=
  match Unmap x with V4 a => Z.shiftr a 16 =? 169 * 256 + 254 | V6 a => Z.land (Z.shiftr a 112) 65472 =? 65152 end.
Definition IsMulticast (x : Addr) : bool :=
  match Unmap x with V4 a => Z.land (Z.shiftr a 24) 240 =? 224 | V6 a => Z.shiftr a 120 =? 255 end.

(** An IPv4 prefix: its address and its length. *)
Record Prefix := mkPrefix { p_Addr : Z; p_Bits : Z }.

Definition ipv4 (a b c d : Z) : Z := ((a * 256 + b) * 256 + c) * 256 + d.

Definition Contains (p : Prefix) (x : Addr) : bool :=
  match x with V4 a => Z.shiftr (Z.lxor a (p_Addr p)) (32 - p_Bits p) =? 0 | V6 _ => false end.

(** ** The parent's rule set *)

Definition safeURLBlockedIPv4 : list Prefix :=
  [mkPrefix (ipv4 10 0 0 0) 8; mkPrefix (ipv4 172 16 0 0) 12; mkPrefix (ipv4 192 168 0 0) 16;
   mkPrefix (ipv4 127 0 0 0) 8; mkPrefix (ipv4 0 0 0 0) 8; mkPrefix (ipv4 169 254 0 0) 16;
   mkPrefix (ipv4 192 0 0 0) 24; mkPrefix (ipv4 192 0 2 0) 24; mkPrefix (ipv4 198 51 100 0) 24;
   mkPrefix (ipv4 203 0 113 0) 24; mkPrefix (ipv4 192 88 99 0) 24; mkPrefix (ipv4 198 18 0 0) 15;
   mkPrefix (ipv4 224 0 0 0) 4; mkPrefix (ipv4 240 0 0 0) 4; mkPrefix (ipv4 255 255 255 255) 32;
   mkPrefix (ipv4 100 64 0 0) 10].

Definition publicProfileAllowsAddress (x : Addr) : bool :=
  Is4 x && forallb (fun blocked => negb (Contains blocked x)) safeURLBlockedIPv4.

Definition alwaysBlockedIPv4Prefixes : list Prefix := [mkPrefix (ipv4 0 0 0 0) 8; mkPrefix (ipv4 240 0 0 0) 4].

Record ruleSet := mkRuleSet {
  localAddresses : gset Addr;
  allowLocalDestinationsForTests : bool;
}.

Definition destinationDenied (r : ruleSet) (x : Addr) : bool :=
  (negb (Is4 x) || IsUnspecified x || IsLinkLocalUnicast x || IsMulticast x) ||
  (negb (allowLocalDestinationsForTests r) && (IsLoopback x || bool_decide (x ∈ localAddresses r))) ||
  existsb (fun prefix => Contains prefix x) alwaysBlockedIPv4Prefixes.

Definition ProxyProfilePublic : string := "public".
Definition ProxyProfileConfigured : string := "configured".
Definition ProxyProfileTest : string := "test".

(** A SOCKS request: the command, the authenticated user and the resolved address. *)
Inductive command := CommandConnect | CommandBind | CommandAssociate.
Record socks_request := mkSocksRequest {
  rq_Command : command;
  rq_username : option string;
  rq_DestIP : option bytes;
}.

Definition Allow (r : ruleSet) (request : socks_request) : bool :=
  match rq_Command request, rq_username request, rq_DestIP request with
  | CommandConnect, Some username, Some ip =>
      match AddrFromSlice ip with
      | None => false
      | Some address =>
          let address := Unmap address in
          if destinationDenied r address then false
          else if bool_decide (username = ProxyProfilePublic) then publicProfileAllowsAddress address
          else bool_decide (username = ProxyProfileConfigured) || bool_decide (username = ProxyProfileTest)
      end
  | _, _, _ => false
  end.

(** ** The enclave's policy *)

Inductive policyKind := policyWorkflowControlled | policyConfiguredEndpoint | policyPreSignedURL | policyInsecureFixture.

Record policy := mkPolicy {
  kind : policyKind;
  profile : string;
  authorities : gset bytes;
}.

Definition workflowControlledPolicy : policy := mkPolicy policyWorkflowControlled ProxyProfilePublic ∅.
Definition preSignedURLPolicy : policy := mkPolicy policyPreSignedURL ProxyProfilePublic ∅.
Definition insecureFixturePolicy : policy := mkPolicy policyInsecureFixture ProxyProfileTest ∅.

Inductive policy_error :=
| EndpointEmpty
| EndpointInvalid
| UnsupportedScheme
| EndpointWithoutPort
| InvalidPort
| HostEmpty
| NoEndpoints
| PortNotWeb
| PortNotHTTPS
| NotConfigured.

Section Policy.
(** The Unicode tables, and [url.Parse]: scheme, host name and port of a URL. *)
Variables (unicode : bytes -> bytes) (url_Parse : bytes -> option (bytes * bytes * bytes)).

Definition canonicalAuthority (host port : bytes) : result policy_error (bytes * Z) :=
  match ParseUint_bits 16 port with
  | None => Err InvalidPort
  | Some portNumber =>
      if portNumber =? 0 then Err InvalidPort
      else
        let host := ToLower unicode (TrimSuffix (bs ".") host) in
        if bool_decide (host = []) then Err HostEmpty
        else Ok (JoinHostPort host (FormatUint portNumber), portNumber)
  end.

Definition default_port (scheme : bytes) : option bytes :=
  let scheme := ToLower unicode scheme in
  if bool_decide (scheme = bs "https") then Some (bs "443")
  else if bool_decide (scheme = bs "http") then Some (bs "80")
  else None.

Definition endpointAuthority (endpoint : bytes) : result policy_error bytes :=
  if bool_decide (endpoint = []) then Err EndpointEmpty
  else if contains (string_of endpoint) "://" then
    match url_Parse endpoint with
    | None => Err EndpointInvalid
    | Some (scheme, hostname, port) =>
        if bool_decide (hostname = []) then Err EndpointInvalid
        else
          let? port := (if bool_decide (port = []) then
                          match default_port scheme with Some p => Ok p | None => Err UnsupportedScheme end
                        else Ok port) in
          let? a := canonicalAuthority hostname port in Ok a.1
    end
  else
    match SplitHostPort endpoint with
    | None => Err EndpointWithoutPort
    | Some (host, port) => let? a := canonicalAuthority host port in Ok a.1
    end.

(** The endpoints of one comma-separated list. *)
Fixpoint add_endpoints (endpoints : list bytes) (authorities : gset bytes) : result policy_error (gset bytes) :=
  match endpoints with
  | [] => Ok authorities
  | endpoint :: rest =>
      let? authority := endpointAuthority (TrimSpace endpoint) in
      add_endpoints rest ({[authority]} ∪ authorities)
  end.

Definition configuredEndpointPolicy (endpoints : list bytes) : result policy_error policy :=
  let? authorities := add_endpoints (concat (map (split_on (byte_of_Z 44)) endpoints)) ∅ in
  if bool_decide (authorities = ∅) then Err NoEndpoints
  else Ok (mkPolicy policyConfiguredEndpoint ProxyProfileConfigured authorities).

Definition validateAuthority (p : policy) (host port : bytes) : result policy_error unit :=
  let? a := canonicalAuthority host port in
  match kind p with
  | policyWorkflowControlled => if negb (a.2 =? 80) && negb (a.2 =? 443) then Err PortNotWeb else Ok tt
  | policyPreSignedURL => if negb (a.2 =? 443) then Err PortNotHTTPS else Ok tt
  | policyInsecureFixture => Ok tt
  | policyConfiguredEndpoint => if bool_decide (a.1 ∈ authorities p) then Ok tt else Err NotConfigured
  end.

(** ** Dialling *)

Inductive dial_error :=
| UnsupportedNetwork
| Blocked (e : option policy_error)     (* a [PolicyError] *)
| HostUnreachable
| ConnectionRefused
| DialFailed (text : bytes).

(** The library reports SOCKS replies only in its error text. *)
Definition mapSOCKSError (text : bytes) : dial_error :=
  if HasSuffix text (bs "unknown error host unreachable") then HostUnreachable
  else if HasSuffix text (bs "unknown error connection refused") then ConnectionRefused
  else if HasSuffix text (bs "unknown error connection not allowed by ruleset") then Blocked None
  else DialFailed text.

(** [socks] is the SOCKS dial: a connection, or the text of its error. *)
Definition DialContext {conn} (p : policy) (socks : string -> bytes -> result bytes conn) (network : string) (address : bytes)
    : result dial_error conn :=
  if negb (bool_decide (network = "tcp"%string)) && negb (bool_decide (network = "tcp4"%string)) then Err UnsupportedNetwork
  else match SplitHostPort address with
  | None => Err (Blocked None)
  | Some (host, port) =>
      match validateAuthority p host port with
      | Err e => Err (Blocked (Some e))
      | Ok _ =>
          match socks (profile p) address with
          | Ok c => Ok c
          | Err text => Err (mapSOCKSError text)
          end
      end
  end.

End Policy.
