(* ===== verification/EgressSafety.v ===== *)
(** * EgressSafety: an enclave reaches only the destinations it is meant to

    The prefixes of the rule set as address ranges, the canonical form of
    destinations, and the two ends together: what a workflow can connect to
    through its dialer and the parent's proxy. *)

From S2P Require Import Prelude Codec Text Egress.

(** ** Prefixes as ranges *)

Lemma Contains_div p a : 0 <= p_Bits p <= 32 ->
  Contains p (V4 a) = true <-> a / 2 ^ (32 - p_Bits p) = p_Addr p / 2 ^ (32 - p_Bits p).
Proof.
  intros Hb. cbn [Contains]. rewrite Z.eqb_eq, Z.shiftr_lxor, Z.lxor_eq_0_iff, !Z.shiftr_div_pow2 by lia. done.
Qed.

Lemma div_range a b k : 0 < k -> b mod k = 0 -> a / k = b / k <-> b <= a < b + k.
Proof.
  intros Hk Hb. apply Z.div_exact in Hb; [|lia]. split.
  - intros E. pose proof (Z.mod_pos_bound a k Hk). pose proof (Z.div_mod a k). rewrite E in *. lia.
  - intros H. symmetry. apply (Z.div_unique_pos _ _ _ (a - b)); lia.
Qed.

(** First and last address of a prefix. *)
Definition first (p : Prefix) : Z := p_Addr p.
Definition last (p : Prefix) : Z := p_Addr p + 2 ^ (32 - p_Bits p) - 1.

Definition masked (p : Prefix) : bool :=
  (0 <=? p_Bits p) && (p_Bits p <=? 32) && (p_Addr p mod 2 ^ (32 - p_Bits p) =? 0).

Lemma Contains_range p a : masked p = true -> Contains p (V4 a) = true <-> first p <= a <= last p.
Proof.
  unfold masked. intros [[H1%Z.leb_le H2%Z.leb_le]%andb_true_iff H3%Z.eqb_eq]%andb_true_iff.
  rewrite Contains_div by lia. rewrite div_range; [|apply Z.pow_pos_nonneg; lia|done]. unfold first, last. lia.
Qed.

(** The address ranges that are not public, by purpose. *)
Definition special_ranges : list (Z * Z) :=
  [(ipv4 0 0 0 0, ipv4 0 255 255 255);           (* this network *)
   (ipv4 10 0 0 0, ipv4 10 255 255 255);         (* private *)
   (ipv4 100 64 0 0, ipv4 100 127 255 255);      (* shared address space *)
   (ipv4 127 0 0 0, ipv4 127 255 255 255);       (* loopback *)
   (ipv4 169 254 0 0, ipv4 169 254 255 255);     (* link local *)
   (ipv4 172 16 0 0, ipv4 172 31 255 255);       (* private *)
   (ipv4 192 0 0 0, ipv4 192 0 0 255);           (* protocol assignments *)
   (ipv4 192 0 2 0, ipv4 192 0 2 255);           (* documentation *)
   (ipv4 192 88 99 0, ipv4 192 88 99 255);       (* relay anycast *)
   (ipv4 192 168 0 0, ipv4 192 168 255 255);     (* private *)
   (ipv4 198 18 0 0, ipv4 198 19 255 255);       (* benchmarking *)
   (ipv4 198 51 100 0, ipv4 198 51 100 255);     (* documentation *)
   (ipv4 203 0 113 0, ipv4 203 0 113 255);       (* documentation *)
   (ipv4 224 0 0 0, ipv4 255 255 255 255)].      (* multicast and reserved *)

Definition special (a : Z) : Prop := Exists (fun r => r.1 <= a <= r.2) special_ranges.

#[export] Instance special_dec a : Decision (special a).
Proof. unfold special. apply _. Defined.

(** The prefix table covers exactly the special ranges. *)
Lemma blocked_special a : existsb (fun p => Contains p (V4 a)) safeURLBlockedIPv4 = true <-> special a.
Proof.
  unfold special. rewrite existsb_exists.
  assert (forall p, In p safeURLBlockedIPv4 -> Contains p (V4 a) = true <-> first p <= a <= last p) as Hr.
  { intros p Hp. apply Contains_range. revert p Hp. apply List.Forall_forall. by repeat constructor. }
  split.
  - intros (p & Hp & H). rewrite Hr in H by done.
    assert (Forall (fun p => Exists (fun r => r.1 <= first p /\ last p <= r.2) special_ranges) safeURLBlockedIPv4) as Hf by by_compute.
    rewrite List.Forall_forall in Hf. eapply Exists_impl; [by apply Hf|]. cbn. lia.
  - intros H. unfold special_ranges in H. rewrite !Exists_cons, Exists_nil in H. cbn in H.
    assert (Exists (fun p => first p <= a <= last p) safeURLBlockedIPv4) as He.
    { unfold safeURLBlockedIPv4. rewrite !Exists_cons. unfold first, last, ipv4 in *. cbn. lia. }
    apply Exists_exists in He as (p & Hp & He). apply list_elem_of_In in Hp. exists p. by rewrite Hr.
Qed.

Lemma public_allows a : publicProfileAllowsAddress (V4 a) = true <-> ~ special a.
Proof.
  unfold publicProfileAllowsAddress. cbn [Is4 andb]. rewrite <- blocked_special, forallb_forall, existsb_exists. split.
  - intros H (p & Hp & Hc). specialize (H p Hp). by rewrite Hc in H.
  - intros H p Hp. apply negb_true_iff, not_true_iff_false. intros Hc. apply H. eauto.
Qed.

(** ** Destinations *)

(** The bytes of an IPv4 address, plain or mapped into IPv6. *)
Definition mapped_prefix : bytes := map byte_of_Z [0; 0; 0; 0; 0; 0; 0; 0; 0; 0; 255; 255].
Definition denotes (ip : bytes) (a : Z) : Prop := (ip = be 4 a \/ ip = mapped_prefix ++ be 4 a) /\ is_u32 a.

Lemma be_decode_range b : 0 <= be_decode b < 256 ^ glen b.
Proof.
  induction b as [|x b IH] using rev_ind; [done|]. rewrite be_decode_app, glen_snoc.
  pose proof (Z_of_byte_range x). rewrite Z.add_1_r, Z.pow_succ_r by apply glen_nonneg. lia.
Qed.

Lemma be_of_decode b : be (length b) (be_decode b) = b.
Proof.
  induction b as [|x b IH] using rev_ind; [done|].
  rewrite length_app, Nat.add_1_r. cbn [be]. rewrite be_decode_app. pose proof (Z_of_byte_range x).
  replace ((256 * be_decode b + Z_of_byte x) / 256) with (be_decode b) by dlia. rewrite IH. do 2 f_equal.
  rewrite <- (byte_of_Z_of_byte x) at 2. unfold byte_of_Z. do 3 f_equal. dlia.
Qed.

Lemma be_split n m z : be (n + m) z = be n (z / 256 ^ Z.of_nat m) ++ be m z.
Proof.
  revert z. induction m as [|m IH]; intros z; [by rewrite Nat.add_0_r, Z.div_1_r, app_nil_r|].
  rewrite Nat.add_succ_r. cbn [be]. rewrite IH, app_assoc. do 2 f_equal.
  rewrite Nat2Z.inj_succ, Z.pow_succ_r, Z.div_div by lia. done.
Qed.

Lemma denotes_spec ip a : (exists x, AddrFromSlice ip = Some x /\ Unmap x = V4 a) <-> denotes ip a.
Proof.
  unfold AddrFromSlice, denotes. pose proof (be_decode_range ip) as Hr. pose proof (be_of_decode ip) as Hb. split.
  - intros (x & Hx & Hu). destruct (Z.eqb_spec (glen ip) 4) as [E|E].
    { injection Hx as <-. injection Hu as <-. rewrite E in Hr. split; [left|unfold is_u32; lia].
      unfold glen in E. by replace (length ip) with 4%nat in Hb by lia. }
    destruct (Z.eqb_spec (glen ip) 16) as [E'|]; [|done]. injection Hx as <-. cbn [Unmap] in Hu.
    destruct (Z.eqb_spec (Z.shiftr (be_decode ip) 32) 65535) as [Hs|]; [|done]. injection Hu as <-.
    change (2 ^ 32 - 1) with (Z.ones 32). rewrite Z.land_ones by lia. rewrite Z.shiftr_div_pow2 in Hs by lia.
    split; [right|exact (u32_range (be_decode ip))]. unfold glen in E'. replace (length ip) with (12 + 4)%nat in Hb by lia.
    rewrite be_split in Hb. change (256 ^ Z.of_nat 4) with (2 ^ 32) in Hb. rewrite Hs in Hb. rewrite <- Hb at 1.
    f_equal. symmetry. exact (be_mod 4 (be_decode ip)).
  - intros [[->| ->] Ha].
    + exists (V4 a). unfold glen. rewrite length_be, be_decode_be. split; [|done]. cbn. do 2 f_equal.
      apply Z.mod_small, Ha.
    + exists (V6 (be_decode (mapped_prefix ++ be 4 a))). unfold glen. rewrite length_app, length_be. split; [done|].
      assert (mapped_prefix ++ be 4 a = be 16 (65535 * 2 ^ 32 + a)) as ->.
      { change 16%nat with (12 + 4)%nat. rewrite be_split. change (256 ^ Z.of_nat 4) with (2 ^ 32). unfold is_u32 in Ha.
        rewrite Z.div_add_l, Z.div_small by lia. f_equal. rewrite <- (be_mod 4 (65535 * 2 ^ 32 + a)).
        change (256 ^ Z.of_nat 4) with (2 ^ 32). rewrite Z.add_comm, Z.mod_add, Z.mod_small by lia. done. }
      unfold is_u32 in Ha. rewrite be_decode_be, Z.mod_small by (change (256 ^ Z.of_nat 16) with (2 ^ 128); lia).
      cbn [Unmap]. rewrite Z.shiftr_div_pow2, Z.div_add_l, Z.div_small by lia. cbn.
      change (2 ^ 32 - 1) with (Z.ones 32). f_equal. rewrite Z.land_ones by lia. rewrite Z.add_comm, Z.mod_add, Z.mod_small; lia.
Qed.

(** What every profile is refused. *)
Definition refused (r : ruleSet) (a : Z) : Prop :=
  a <= ipv4 0 255 255 255 \/ ipv4 169 254 0 0 <= a <= ipv4 169 254 255 255 \/ ipv4 224 0 0 0 <= a \/
  allowLocalDestinationsForTests r = false /\ (ipv4 127 0 0 0 <= a <= ipv4 127 255 255 255 \/ V4 a ∈ localAddresses r).

Lemma denied_spec r a : is_u32 a -> destinationDenied r (V4 a) = true <-> refused r a.
Proof.
  intros Ha. unfold destinationDenied, refused, is_u32, ipv4 in *. cbn [Is4 IsUnspecified IsLinkLocalUnicast IsMulticast Unmap IsLoopback negb].
  assert (forall n, Z.land (Z.shiftr a 24) 240 = n <-> 16 * (a / 2 ^ 28) = n) as Hm.
  { intros n. assert (Z.land (Z.shiftr a 24) 240 = 16 * (a / 2 ^ 28)) as ->; [|done].
    apply Z.bits_inj'. intros i Hi. rewrite Z.land_spec, Z.shiftr_spec by done.
    change 240 with (Z.shiftl (Z.ones 4) 4). change 16 with (2 ^ 4). rewrite Z.mul_comm, <- Z.shiftl_mul_pow2 by lia.
    rewrite !Z.shiftl_spec by done. rewrite <- Z.shiftr_div_pow2 by lia.
    destruct (decide (i < 4)). { rewrite !(Z.testbit_neg_r _ (i - 4)) by lia. by rewrite andb_false_r. }
    rewrite Z.shiftr_spec by lia. replace (i - 4 + 28) with (i + 24) by lia. rewrite Z.testbit_ones_nonneg by lia.
    destruct (Z.ltb_spec (i - 4) 4); [by rewrite andb_true_r|]. rewrite andb_false_r. symmetry.
    apply Z.bits_above_log2; [lia|]. destruct (decide (a = 0)) as [->|]; [cbn; lia|].
    apply Z.log2_lt_pow2; [lia|]. eapply Z.lt_le_trans; [apply Ha|]. apply Z.pow_le_mono_r; lia. }
  rewrite !orb_true_iff, andb_true_iff, negb_true_iff, orb_true_iff, !Z.eqb_eq, bool_decide_eq_true, Hm.
  rewrite !Z.shiftr_div_pow2 by lia. cbn [existsb alwaysBlockedIPv4Prefixes].
  rewrite !orb_true_iff, !Contains_range by done. unfold first, last. cbn [p_Addr p_Bits]. unfold ipv4.
  assert (a / 2 ^ 16 = 169 * 256 + 254 <-> 2851995648 <= a < 2851995648 + 2 ^ 16) as -> by dlia.
  assert (a / 2 ^ 24 = 127 <-> 2130706432 <= a < 2130706432 + 2 ^ 24) as -> by dlia.
  assert (16 * (a / 2 ^ 28) = 224 <-> 3758096384 <= a < 3758096384 + 2 ^ 28) as -> by dlia.
  cbn. split; intuition (try lia); try discriminate.
Qed.

Lemma proxy_Allow r request :
  Allow r request = true <->
  exists username ip a,
    request = mkSocksRequest CommandConnect (Some username) (Some ip) /\ denotes ip a /\ ~ refused r a /\
    (username = ProxyProfilePublic /\ ~ special a \/ username = ProxyProfileConfigured \/ username = ProxyProfileTest).
Proof.
  destruct request as [c u d]. unfold Allow. cbn. split.
  - intros H. destruct c, u as [u|], d as [ip|]; try done. destruct (AddrFromSlice ip) as [x|] eqn:Ex; [|done].
    destruct (destinationDenied r (Unmap x)) eqn:Ed; [done|]. destruct (Unmap x) as [a|a] eqn:Eu; [|done].
    exists u, ip, a. assert (denotes ip a) as Hd by (apply denotes_spec; eauto). repeat split; [apply Hd..| |].
    + by rewrite <- denied_spec, Ed by apply Hd.
    + case_bool_decide; [left; by rewrite <- public_allows|]. right. apply orb_true_iff in H.
      by rewrite !bool_decide_eq_true in H.
  - intros (u' & ip & a & [= -> -> ->] & Hd & Hr & Hu). destruct (proj2 (denotes_spec ip a) Hd) as (x & -> & ->).
    rewrite <- denied_spec in Hr by apply Hd. apply not_true_iff_false in Hr as ->.
    case_bool_decide; [|by destruct Hu as [[? _]|[-> | ->]]]. destruct Hu as [[_ Hs]|[E|E]]; [by apply public_allows|..]; by subst.
Qed.

(** The parent's proxy lets through exactly the CONNECT requests of a known
    profile whose resolved address denotes an IPv4 address (also one hidden in an
    IPv4-mapped IPv6 address) that is neither unspecified, link-local, multicast or
    reserved nor, outside tests, local to the parent; and, for the public profile,
    in none of the special-purpose ranges. *)
Theorem proxy_allows_exactly (r : ruleSet) (request : socks_request) :
  Allow r request = true <->
  exists username ip a,
    request = mkSocksRequest CommandConnect (Some username) (Some ip) /\ denotes ip a /\ ~ refused r a /\
    (username = ProxyProfilePublic /\ ~ special a \/ username = ProxyProfileConfigured \/ username = ProxyProfileTest).
Proof. apply proxy_Allow. Qed.

(** ** Authorities *)

Section Authorities.
Variable unicode : bytes -> bytes.

(** The host a name stands for, and the port a text stands for. *)
Definition host_key (host : bytes) : bytes := ToLower unicode (TrimSuffix (bs ".") host).
Definition port_key (port : bytes) : option Z := n ← ParseUint_bits 16 port; guard (n <> 0);; Some n.

Lemma canonicalAuthority_Ok host port a n :
  canonicalAuthority unicode host port = Ok (a, n) <->
  port_key port = Some n /\ host_key host <> [] /\ a = JoinHostPort (host_key host) (FormatUint n).
Proof.
  unfold canonicalAuthority, port_key, host_key. generalize JoinHostPort, FormatUint. intros join format.
  destruct (ParseUint_bits 16 port) as [z|]; cbn [mbind option_bind]; [|naive_solver].
  destruct (Z.eqb_spec z 0); case_guard; try done; cbn; [naive_solver|]. case_bool_decide; naive_solver.
Qed.

Lemma port_key_u64 port n : port_key port = Some n -> is_u64 n.
Proof.
  unfold port_key. destruct (ParseUint_bits 16 port) as [m|] eqn:E; cbn; [|done]. case_guard; [|done]. intros [= ->].
  apply ParseUint_bits_Some in E as (_ & _ & ?). unfold is_u64. lia.
Qed.

Variable url_Parse : bytes -> option (bytes * bytes * bytes).

(** Host and port an endpoint of the configuration names. *)
Definition endpoint_parts (endpoint : bytes) : option (bytes * bytes) :=
  if bool_decide (endpoint = []) then None
  else if contains (string_of endpoint) "://" then
    '(scheme, hostname, port) ← url_Parse endpoint;
    guard (hostname <> []);;
    port ← (if bool_decide (port = []) then default_port unicode scheme else Some port);
    Some (hostname, port)
  else SplitHostPort endpoint.

Lemma endpointAuthority_Ok endpoint a :
  endpointAuthority unicode url_Parse endpoint = Ok a <->
  exists host port n, endpoint_parts endpoint = Some (host, port) /\ canonicalAuthority unicode host port = Ok (a, n).
Proof.
  assert (forall host port, (let? a := canonicalAuthority unicode host port in Ok a.1) = Ok a <->
    exists host' port' n, Some (host, port) = Some (host', port') /\ canonicalAuthority unicode host' port' = Ok (a, n)) as Hc.
  { intros host port. destruct (canonicalAuthority unicode host port) as [[b n]|] eqn:E; cbn; split; try done.
    - intros [= ->]. eauto 6.
    - intros (? & ? & ? & [= <- <-] & ?). congruence.
    - intros (? & ? & ? & [= <- <-] & ?). congruence. }
  assert ((exists host port n, None = Some (host, port) /\ canonicalAuthority unicode host port = Ok (a, n)) <-> False) as Hn.
  { split; [by intros (? & ? & ? & ? & _)|done]. }
  unfold endpointAuthority, endpoint_parts. case_bool_decide; [by rewrite Hn|]. case_match.
  - destruct (url_Parse endpoint) as [[[scheme host] port]|]; cbn -[default_port]; [|by rewrite Hn].
    case_bool_decide; case_guard; try done; cbn -[default_port]; [by rewrite Hn|].
    case_bool_decide; [|apply Hc]. destruct (default_port unicode scheme) as [q|]; [apply Hc|by rewrite Hn].
  - destruct (SplitHostPort endpoint) as [[host port]|]; [apply Hc|by rewrite Hn].
Qed.

Lemma add_endpoints_Ok endpoints s t :
  add_endpoints unicode url_Parse endpoints s = Ok t ->
  forall a, a ∈ t <-> a ∈ s \/ exists e, e ∈ endpoints /\ endpointAuthority unicode url_Parse (TrimSpace e) = Ok a.
Proof.
  revert s. induction endpoints as [|e endpoints IH]; intros s; cbn.
  - intros [= ->] a. set_solver.
  - destruct (endpointAuthority _ _ _) as [b|] eqn:E; cbn; [|done]. intros H a.
    rewrite (IH _ H a), elem_of_union, elem_of_singleton. setoid_rewrite elem_of_cons. split.
    + intros [[->|?]|(e' & ? & ?)]; eauto.
    + intros [?|(e' & [->|?] & He)]; eauto. rewrite E in He. injection He as ->. auto.
Qed.

(** A configured-endpoint policy admits exactly the destinations its endpoint
    list names: the host is one of the listed hosts up to letter case and one
    trailing dot, with that entry's port (the scheme's port when the entry has
    none) up to its spelling.  No other authority, and no confusion of a host and
    a port, is possible. *)
Theorem configured_policy_exact (endpoints : list bytes) (p : policy) (host port : bytes) :
  configuredEndpointPolicy unicode url_Parse endpoints = Ok p ->
  profile p = ProxyProfileConfigured /\
  (validateAuthority unicode p host port = Ok tt <->
   exists listed e h q n,
     listed ∈ endpoints /\ e ∈ split_on (byte_of_Z 44) listed /\ endpoint_parts (TrimSpace e) = Some (h, q) /\
     port_key q = Some n /\ port_key port = Some n /\ host_key h = host_key host /\ host_key host <> []).
Proof.
  unfold configuredEndpointPolicy. destruct (add_endpoints _ _ _ _) as [s|] eqn:Es; cbn [rbind]; [|done].
  case_bool_decide; [done|]. intros [= <-]. split; [done|]. unfold validateAuthority. cbn [kind authorities]. pose proof (add_endpoints_Ok _ _ _ Es) as Ha.
  assert (forall e, e ∈ concat (map (split_on (byte_of_Z 44)) endpoints) <->
    exists listed, listed ∈ endpoints /\ e ∈ split_on (byte_of_Z 44) listed) as Hc.
  { intros e. rewrite !list_elem_of_In, in_concat. setoid_rewrite in_map_iff. setoid_rewrite list_elem_of_In. naive_solver. }
  split.
  - destruct (canonicalAuthority unicode host port) as [[a n]|] eqn:E; cbn; [|done]. case_bool_decide as Hin; [|done]. intros _.
    apply Ha in Hin as [?|(e & (l & Hl & He)%Hc & (h & q & m & Hp & Hq)%endpointAuthority_Ok)]; [set_solver|].
    apply canonicalAuthority_Ok in E as (Hn & Hh & ->), Hq as (Hm & Hh' & Hj).
    apply JoinHostPort_inj in Hj as [Hk Hf]; [|by eapply FormatUint_no_colon, port_key_u64..].
    apply FormatUint_inj in Hf as <-; [|by eapply port_key_u64..]. by exists l, e, h, q, n.
  - intros (l & e & h & q & n & Hl & He & Hp & Hq & Hn & Hk & Hh).
    assert (canonicalAuthority unicode host port = Ok (JoinHostPort (host_key host) (FormatUint n), n)) as ->
      by (by apply canonicalAuthority_Ok).
    cbn [rbind fst snd]. rewrite bool_decide_true; [done|]. apply Ha. right. exists e. split; [apply Hc; eauto|].
    apply endpointAuthority_Ok. exists h, q, n. split; [done|]. apply canonicalAuthority_Ok. by rewrite Hk.
Qed.

End Authorities.

(** ** Both ends *)

Section BothEnds.
Variable unicode : bytes -> bytes.

(** The SOCKS library: a connection it hands out was let through by the parent's
    rule set, for the profile the enclave announced and the address [peer] of the
    connection. *)
Context {conn : Type} (peer : conn -> bytes) (rules : ruleSet) (socks : string -> bytes -> result bytes conn).
Hypothesis socks_enforced : forall username address c,
  socks username address = Ok c -> Allow rules (mkSocksRequest CommandConnect (Some username) (Some (peer c))) = true.

(** A dialer with the public profile. *)
Lemma public_dial (p : policy) (network : string) (address : bytes) (c : conn) :
  p = workflowControlledPolicy \/ p = preSignedURLPolicy ->
  DialContext unicode p socks network address = Ok c ->
  exists host port n a,
    SplitHostPort address = Some (host, port) /\ port_key port = Some n /\ (n = 80 /\ p = workflowControlledPolicy \/ n = 443) /\
    denotes (peer c) a /\ ~ special a /\ ~ refused rules a.
Proof.
  intros Hp. assert (profile p = ProxyProfilePublic) as Hprof by (by destruct Hp as [-> | ->]).
  unfold DialContext. case_match; [done|]. destruct (SplitHostPort address) as [[host port]|] eqn:Es; [|done].
  rewrite Hprof. destruct (validateAuthority unicode p host port) as [[]|] eqn:Ev; [|done].
  destruct (socks ProxyProfilePublic address) as [c'|] eqn:Ed; [|done]. intros [= ->]. apply socks_enforced in Ed.
  apply proxy_Allow in Ed as (u & ip & a & [= <- <-] & Hd & Hr & [[_ Hs]|[?|?]]); try done.
  unfold validateAuthority in Ev. destruct (canonicalAuthority unicode host port) as [[h n]|] eqn:Ec; cbn in Ev; [|by destruct Hp as [-> | ->]].
  apply canonicalAuthority_Ok in Ec as (Hn & _ & _). exists host, port, n, a. split_and!; try done.
  destruct Hp as [-> | ->]; cbn in Ev; destruct (Z.eqb_spec n 80), (Z.eqb_spec n 443); cbn in Ev; try done; auto.
Qed.

(** Whatever address a workflow dials, a connection it obtains is to port 80 or
    443 of a public IPv4 host: not to the parent, its network or its metadata
    service, nor to any private, local or reserved range, whatever name or
    IPv4-mapped form the workflow used. *)
Theorem workflow_reaches_only_public (network : string) (address : bytes) (c : conn) :
  DialContext unicode workflowControlledPolicy socks network address = Ok c ->
  exists host port n a,
    SplitHostPort address = Some (host, port) /\ port_key port = Some n /\ (n = 80 \/ n = 443) /\
    denotes (peer c) a /\ ~ special a /\ ~ refused rules a.
Proof.
  intros Hd. destruct (public_dial _ _ _ _ (or_introl eq_refl) Hd) as (host & port & n & a & Hs & Hp & Hn & Ha).
  exists host, port, n, a. split_and!; try done; naive_solver.
Qed.

End BothEnds.

(** ** Concrete policies *)

Definition toy_endpoints : list bytes := [bs "API.example.com:8443, b.example.com:1"].
Definition toy_policy : policy :=
  mkPolicy policyConfiguredEndpoint ProxyProfileConfigured {[bs "api.example.com:8443"; bs "b.example.com:1"]}.

(** [configured_policy_exact] at a list of two endpoints: another spelling of the
    first is admitted. *)
Lemma configured_policy_exact_witness :
  validateAuthority (fun s => s) toy_policy (bs "api.EXAMPLE.com.") (bs "08443") = Ok tt.
Proof.
  apply (configured_policy_exact (fun s => s) (fun _ => None) toy_endpoints toy_policy (bs "api.EXAMPLE.com.") (bs "08443")).
  { vm_compute. reflexivity. }
  exists (bs "API.example.com:8443, b.example.com:1"), (bs "API.example.com:8443"), (bs "API.example.com"), (bs "8443"), 8443.
  repeat split; try (vm_compute; reflexivity); [by_compute|by_compute|by vm_compute].
Defined.

(** A SOCKS library in front of a resolver that maps every name to one address. *)
Definition toy_rules : ruleSet := mkRuleSet {[V4 (ipv4 10 0 0 7)]} false.
Definition toy_socks (answer : bytes) (username : string) (address : bytes) : result bytes bytes :=
  if Allow toy_rules (mkSocksRequest CommandConnect (Some username) (Some answer)) then Ok answer
  else Err (bs "unknown error connection not allowed by ruleset").

Lemma toy_socks_enforced answer username address c :
  toy_socks answer username address = Ok c ->
  Allow toy_rules (mkSocksRequest CommandConnect (Some username) (Some c)) = true.
Proof. unfold toy_socks. destruct (Allow _ _) eqn:E; [|done]. by intros [= <-]. Qed.

(** [workflow_reaches_only_public] for a name that resolves to 93.184.216.34; the
    metadata service behind an IPv4-mapped address stays out of reach. *)
Lemma workflow_reaches_only_public_witness :
  (exists host port n a,
     SplitHostPort (bs "example.com:443") = Some (host, port) /\ port_key port = Some n /\ (n = 80 \/ n = 443) /\
     denotes (be 4 (ipv4 93 184 216 34)) a /\ ~ special a /\ ~ refused toy_rules a) /\
  DialContext (fun s => s) workflowControlledPolicy (toy_socks (mapped_prefix ++ be 4 (ipv4 169 254 169 254))) "tcp" (bs "evil.example:443")
    = Err (Blocked None).
Proof.
  split; [|vm_compute; reflexivity].
  apply (workflow_reaches_only_public (fun s => s) (fun c => c) toy_rules (toy_socks (be 4 (ipv4 93 184 216 34)))
    (toy_socks_enforced (be 4 (ipv4 93 184 216 34))) "tcp" (bs "example.com:443") (be 4 (ipv4 93 184 216 34))).
  vm_compute. reflexivity.
Defined.
