(* ===== verification/Outbound.v ===== *)
(** * Outbound: requests from the enclave to the outside

    Models [src/util/http_error.go], [IsRequestBlockedError] of
    [src/util/http_restricted.go] and
    [src/enclave/apps/confidential-workflows/httpfetch/httpfetch.go].  The HTTP
    client that performs a request is a parameter. *)

From S2P Require Import Prelude Codec Text Egress.

(** ** Errors *)

Inductive sentinel :=
| DeadlineExceeded
| EHOSTUNREACH
| ECONNREFUSED
| ECONNRESET
| EOF
| ErrUnexpectedEOF
| ErrSchemeMismatch.

#[export] Instance sentinel_eq_dec : EqDecision sentinel.
Proof. solve_decision. Defined.

(** One error of a chain, by what [errors.Is] and [errors.As] find in it: the
    sentinel it is, the answer of its [Timeout] method when it is a [net.Error],
    [IsNotFound] of a [net.DNSError], operation and text of a [net.OpError], whether
    it is one of the client's destination errors, the answer of its
    [NetworkPolicyBlocked] method, and whether it is a [tls.RecordHeaderError]. *)
Record link := mkLink {
  is_sentinel : option sentinel;
  net_Timeout : option bool;
  dns_IsNotFound : option bool;
  op_error : option (string * option bytes);
  safeurl_error : bool;
  NetworkPolicyBlocked : option bool;
  record_header : bool;
}.

(** An error is the links it unwraps to, outermost first. *)
Definition error := list link.

Definition errors_Is (err : error) (target : sentinel) : bool :=
  existsb (fun l => bool_decide (is_sentinel l = Some target)) err.

(** The first link of the wanted type. *)
Definition errors_As {A} (facet : link -> option A) (err : error) : option A := find_some facet err.

Definition holds (x : option bool) : bool := match x with Some b => b | None => false end.

Definition IsRequestBlockedError (err : error) : bool :=
  existsb safeurl_error err || holds (errors_As NetworkPolicyBlocked err).

(** ** TLS alerts *)

(** [tls.AlertError(code).Error()]. *)
Definition alertText : list (Z * string) :=
  [(0, "close notify"); (10, "unexpected message"); (20, "bad record MAC"); (21, "decryption failed");
   (22, "record overflow"); (30, "decompression failure"); (40, "handshake failure"); (42, "bad certificate");
   (43, "unsupported certificate"); (44, "revoked certificate"); (45, "expired certificate");
   (46, "unknown certificate"); (47, "illegal parameter"); (48, "unknown certificate authority");
   (49, "access denied"); (50, "error decoding message"); (51, "error decrypting message");
   (60, "export restriction"); (70, "protocol version not supported"); (71, "insufficient security level");
   (80, "internal error"); (86, "inappropriate fallback"); (90, "user canceled"); (100, "no renegotiation");
   (109, "missing extension"); (110, "unsupported extension"); (111, "certificate unobtainable");
   (112, "unrecognized name"); (113, "bad certificate status response"); (114, "bad certificate hash value");
   (115, "unknown PSK identity"); (116, "certificate required"); (120, "no application protocol");
   (121, "encrypted client hello required")]%string.

Definition AlertError (code : Z) : bytes :=
  match find_some (fun p => if p.1 =? code then Some p.2 else None) alertText with
  | Some text => bs "tls: " ++ bs text
  | None => bs "tls: alert(" ++ FormatUint code ++ bs ")"
  end.

Definition handshakeRejectionAlerts : list bytes := map AlertError [40; 70; 71; 112; 116; 120].

Definition upstreamTLSFailure (err : error) : bytes :=
  let other :=
    if existsb record_header err || errors_Is err ErrSchemeMismatch
    then bs "upstream did not speak TLS on the requested port" else [] in
  match errors_As op_error err with
  | Some (op, Some text) =>
      if bool_decide (op = "remote error"%string) && bool_decide (text ∈ handshakeRejectionAlerts)
      then bs "upstream rejected the TLS handshake: " ++ text
      else other
  | _ => other
  end.

(** ** Classification *)

Record OutboundHTTPError := mkOutboundHTTPError { oe_StatusCode : Z; oe_Body : bytes }.

#[export] Instance OutboundHTTPError_eq_dec : EqDecision OutboundHTTPError.
Proof. solve_decision. Defined.

(** [None] stands for the nil error. *)
Definition ClassifyOutboundHTTPError (err : option error) : option OutboundHTTPError :=
  match err with
  | None => None
  | Some err =>
      if errors_Is err DeadlineExceeded || holds (errors_As net_Timeout err) then
        Some (mkOutboundHTTPError 504 (bs "upstream request timed out"))
      else if holds (errors_As dns_IsNotFound err) || errors_Is err EHOSTUNREACH then
        Some (mkOutboundHTTPError 502 (bs "upstream host unreachable"))
      else if IsRequestBlockedError err then
        Some (mkOutboundHTTPError 400 (bs "upstream request blocked by enclave network policy"))
      else if errors_Is err ECONNREFUSED then
        Some (mkOutboundHTTPError 502 (bs "upstream connection refused"))
      else if errors_Is err EOF || errors_Is err ErrUnexpectedEOF || errors_Is err ECONNRESET then
        Some (mkOutboundHTTPError 502 (bs "upstream closed the connection before responding"))
      else
        let detail := upstreamTLSFailure err in
        if bool_decide (detail = []) then None else Some (mkOutboundHTTPError 502 detail)
  end.

(** ** Header maps *)

Abbreviation Header := (gmap bytes (list bytes)).

Definition token_byte (c : byte) : bool :=
  let z := Z_of_byte c in
  ((48 <=? z) && (z <=? 57)) || ((65 <=? z) && (z <=? 90)) || ((97 <=? z) && (z <=? 122)) ||
  bool_decide (z ∈ [33; 35; 36; 37; 38; 39; 42; 43; 45; 46; 94; 95; 96; 124; 126]).

Fixpoint capitalise (upper : bool) (s : bytes) : bytes :=
  match s with
  | [] => []
  | c :: s => (if upper then upper_byte c else lower_byte c) :: capitalise (bool_decide (Z_of_byte c = 45)) s
  end.

(** [http.CanonicalHeaderKey]: a name with a byte that no header name has stays as it is. *)
Definition CanonicalHeaderKey (s : bytes) : bytes := if forallb token_byte s then capitalise true s else s.

Definition Header_Add (k v : bytes) (h : Header) : Header :=
  let k := CanonicalHeaderKey k in <[k := default [] (h !! k) ++ [v]]> h.
Definition Header_Set (k v : bytes) (h : Header) : Header := <[CanonicalHeaderKey k := [v]]> h.
Definition Header_Get (k : bytes) (h : Header) : bytes :=
  match h !! CanonicalHeaderKey k with Some (v :: _) => v | _ => [] end.

(** ** Fetching *)

Module httpfetch.

Record Policy := mkPolicy {
  AllowedMethods : list bytes;
  DefaultTimeout : Z;
  MaxResponseBodyBytes : Z;
}.

Definition DefaultPolicy : Policy :=
  mkPolicy (map bs ["GET"; "POST"; "PUT"; "DELETE"; "PATCH"]%string) (30 * second) (1000 * 1024).

(** The capability's request; the maps are in iteration order and the timeout is
    the value of [AsDuration]. *)
Record Request := mkRequest {
  in_Method : bytes;
  in_Url : bytes;
  in_Body : bytes;
  in_Headers : list (bytes * bytes);
  in_MultiHeaders : list (bytes * list bytes);
  in_Timeout : option Z;
}.

(** What the client is asked to send. *)
Record http_request := mkHttpRequest {
  rq_Method : bytes;
  rq_URL : bytes;
  rq_Body : bytes;
  rq_Header : Header;
  rq_timeout : Z;
}.

(** A response; reading its body yields [rs_data] and then fails or ends. *)
Record http_response := mkHttpResponse {
  rs_StatusCode : Z;
  rs_Header : Header;
  rs_data : bytes;
  rs_fails : bool;
}.

Record Response := mkResponse {
  StatusCode : Z;
  Headers : gmap bytes bytes;
  MultiHeaders : Header;
  Body : bytes;
}.

Inductive fetch_error :=
| RequestNil
| MethodNotAllowed
| UrlEmpty
| BuildingRequest
| RequestFailed (err : error)
| ReadingResponse
| BodyExceedsLimit.

(** The fetcher: its policy and the default timeout, which the host can move. *)
Record Fetcher := mkFetcher { policy : Policy; defaultTimeout : Z }.

Definition NewFetcherWithClient (p : Policy) : Fetcher := mkFetcher p (DefaultTimeout p).

Definition SetDefaultTimeout (d : Z) (f : Fetcher) : Fetcher :=
  if d <=? 0 then f else mkFetcher (policy f) d.

Definition resolveTimeout (t : option Z) (def : Z) : Z :=
  match t with Some d => if d <=? 0 then def else d | None => def end.

Definition applyHeaders (r : Request) : Header :=
  match in_MultiHeaders r with
  | [] => fold_left (fun h kv => Header_Set kv.1 kv.2 h) (in_Headers r) ∅
  | mh => fold_left (fun h kvs => fold_left (fun h v => Header_Add kvs.1 v h) kvs.2 h) mh ∅
  end.

Definition flattenHeaders (h : Header) : gmap bytes bytes :=
  omap (M := gmap bytes) (fun vs => match vs with [] => None | _ => Some (strings_Join (bs ", ") vs) end) h.
Definition multiHeaders (h : Header) : Header :=
  omap (M := gmap bytes) (fun vs => match vs with [] => None | _ => Some vs end) h.

(** [io.ReadAll(io.LimitReader(body, limit))]; a failure beyond the limit is not met. *)
Definition read_limited (limit : Z) (r : http_response) : option bytes :=
  if limit <=? 0 then Some []
  else if glen (rs_data r) <? limit then (if rs_fails r then None else Some (rs_data r))
  else Some (take (Z.to_nat limit) (rs_data r)).

Section Fetch.
(** The Unicode tables, what [http.NewRequest] accepts, and the client. *)
Variables (unicode : bytes -> bytes) (NewRequest_ok : bytes -> bytes -> bool).
Variable Do : http_request -> http_response + error.

Definition Fetch (f : Fetcher) (r : option Request) : result fetch_error Response :=
  match r with
  | None => Err RequestNil
  | Some r =>
      let method := ToUpper unicode (TrimSpace (in_Method r)) in
      if negb (bool_decide (method ∈ AllowedMethods (policy f))) then Err MethodNotAllowed
      else if bool_decide (TrimSpace (in_Url r) = []) then Err UrlEmpty
      else
        let timeout := resolveTimeout (in_Timeout r) (defaultTimeout f) in
        if negb (NewRequest_ok method (TrimSpace (in_Url r))) then Err BuildingRequest
        else match Do (mkHttpRequest method (TrimSpace (in_Url r)) (in_Body r) (applyHeaders r) timeout) with
        | inr err =>
            match ClassifyOutboundHTTPError (Some err) with
            | Some he => Ok (mkResponse (u32 (oe_StatusCode he)) ∅ ∅ (oe_Body he))
            | None => Err (RequestFailed err)
            end
        | inl resp =>
            match read_limited (i64 (MaxResponseBodyBytes (policy f) + 1)) resp with
            | None => Err ReadingResponse
            | Some body =>
                if MaxResponseBodyBytes (policy f) <? glen body then Err BodyExceedsLimit
                else Ok (mkResponse (u32 (rs_StatusCode resp)) (flattenHeaders (rs_Header resp)) (multiHeaders (rs_Header resp)) body)
            end
        end
  end.

End Fetch.
End httpfetch.

(** ** Classification of failures *)

(** A link that only adds context: no sentinel, no timeout, nothing to blame. *)
Definition wrapper (l : link) : bool :=
  bool_decide (is_sentinel l = None) && negb (holds (net_Timeout l)) && bool_decide (dns_IsNotFound l = None) &&
  bool_decide (op_error l = None) && negb (safeurl_error l) && bool_decide (NetworkPolicyBlocked l = None) &&
  negb (record_header l).

Lemma wrapper_spec l : wrapper l = true <->
  is_sentinel l = None /\ holds (net_Timeout l) = false /\ dns_IsNotFound l = None /\ op_error l = None /\
  safeurl_error l = false /\ NetworkPolicyBlocked l = None /\ record_header l = false.
Proof. unfold wrapper. rewrite !andb_true_iff, !negb_true_iff, !bool_decide_eq_true. tauto. Qed.

Definition context (ws : error) : Prop := Forall (fun l => wrapper l = true) ws.

Lemma Is_context ws err t : context ws -> errors_Is (ws ++ err) t = errors_Is err t.
Proof.
  induction 1 as [|l ws' Hl _ IH]; [done|]. apply wrapper_spec in Hl as (Hs & _).
  unfold errors_Is in *. cbn. rewrite Hs. apply IH.
Qed.

Lemma exists_context (P : link -> bool) ws err :
  context ws -> (forall l, wrapper l = true -> P l = false) -> existsb P (ws ++ err) = existsb P err.
Proof. intros Hws HP. induction Hws as [|l ws' Hl _ IH]; [done|]. cbn. by rewrite HP. Qed.

Lemma As_context {A} (facet : link -> option A) ws err :
  context ws -> (forall l, wrapper l = true -> facet l = None) -> errors_As facet (ws ++ err) = errors_As facet err.
Proof. intros Hws HP. unfold errors_As. induction Hws as [|l ws' Hl _ IH]; [done|]. cbn. by rewrite HP. Qed.

Lemma timeout_context ws err :
  context ws -> holds (errors_As net_Timeout (ws ++ err)) = true -> holds (errors_As net_Timeout err) = true.
Proof.
  unfold errors_As. induction 1 as [|l ws' Hl _ IH]; [done|]. apply wrapper_spec in Hl as (_ & Ht & _).
  cbn. destruct (net_Timeout l) as [b|]; [|done]. cbn in *. by subst.
Qed.

Lemma classify_context ws err :
  context ws -> holds (errors_As net_Timeout err) = false ->
  ClassifyOutboundHTTPError (Some (ws ++ err)) = ClassifyOutboundHTTPError (Some err).
Proof.
  intros Hws Ht. assert (holds (errors_As net_Timeout (ws ++ err)) = false) as Ht'.
  { apply not_true_iff_false. intros H%timeout_context; [by rewrite Ht in H|done]. }
  unfold ClassifyOutboundHTTPError, IsRequestBlockedError, upstreamTLSFailure.
  by rewrite Ht, Ht', !Is_context, !As_context, !exists_context
    by (done || intros l Hl; apply wrapper_spec in Hl; naive_solver).
Qed.

Lemma context_alone ws : context ws -> ClassifyOutboundHTTPError (Some ws) = None.
Proof. intros Hws. rewrite <- (app_nil_r ws). by rewrite classify_context. Qed.

Lemma classify_status err he : ClassifyOutboundHTTPError err = Some he -> oe_StatusCode he ∈ [400; 502; 504].
Proof.
  unfold ClassifyOutboundHTTPError. destruct err as [err|]; [|done].
  repeat case_match; intros [= <-]; cbn; by_compute.
Qed.

Definition plain : link := mkLink None None None None false None false.

(** An alert the peer sent, as [crypto/tls] reports it. *)
Definition remote_alert (code : Z) : error :=
  [mkLink None (Some false) None (Some ("remote error"%string, Some (AlertError code))) false None false; plain].

Definition rejection_codes : list Z := [40; 70; 71; 112; 116; 120].

(** Of the 256 TLS alerts a peer can send, exactly the six that refuse to
    negotiate become a gateway status; every other one (bad record MAC, decrypt
    error, the certificate family, unknown codes) stays a failure, however the
    error is wrapped.  So does an error that only has context, such as a failed
    certificate verification. *)
Theorem softened_alerts (ws : error) (code : Z) :
  context ws -> 0 <= code < 256 ->
  ClassifyOutboundHTTPError (Some (ws ++ remote_alert code)) =
    (if decide (code ∈ rejection_codes)
     then Some (mkOutboundHTTPError 502 (bs "upstream rejected the TLS handshake: " ++ AlertError code)) else None) /\
  ClassifyOutboundHTTPError (Some ws) = None.
Proof.
  intros Hws Hc. split; [|by apply context_alone]. rewrite classify_context by done.
  assert (code ∈ seqZ 0 256) as Hin by (apply elem_of_seqZ; lia). clear Hc. revert code Hin.
  apply Forall_forall. by_compute.
Qed.

(** ** Failures of the dialer *)

(** The error a failed dial is; [lib] is the chain of an error of the SOCKS library. *)
Definition dial_chain (lib : bytes -> error) (e : dial_error) : error :=
  match e with
  | UnsupportedNetwork => [plain]
  | Blocked _ => [mkLink None None None None false (Some true) false]
  | HostUnreachable => [mkLink (Some EHOSTUNREACH) (Some false) None None false None false]
  | ConnectionRefused => [mkLink (Some ECONNREFUSED) (Some false) None None false None false]
  | DialFailed text => lib text
  end.

(** What a dial failure means to the caller. *)
Definition dial_status (e : dial_error) : option OutboundHTTPError :=
  match e with
  | Blocked _ => Some (mkOutboundHTTPError 400 (bs "upstream request blocked by enclave network policy"))
  | HostUnreachable => Some (mkOutboundHTTPError 502 (bs "upstream host unreachable"))
  | ConnectionRefused => Some (mkOutboundHTTPError 502 (bs "upstream connection refused"))
  | UnsupportedNetwork | DialFailed _ => None
  end.

Lemma dial_classified lib ws e : context ws -> (forall text, context (lib text)) ->
  ClassifyOutboundHTTPError (Some (ws ++ dial_chain lib e)) = dial_status e.
Proof.
  intros Hws Hlib. destruct e; [rewrite classify_context by done; by vm_compute..|].
  apply context_alone. apply Forall_app. split; [done|apply Hlib].
Qed.

Lemma suffix_same_last (s t u : bytes) : s `suffix_of` u -> t `suffix_of` u -> last s = last t \/ s = [] \/ t = [].
Proof.
  intros [s' ->] [t' E]. destruct s as [|x s _] using rev_ind; [auto|]. destruct t as [|y t _] using rev_ind; [auto|].
  left. rewrite !last_snoc. rewrite !app_assoc in E. by apply app_inj_tail in E as [_ ->].
Qed.

Section FetchSafety.
Import httpfetch.
Variables (unicode : bytes -> bytes) (NewRequest_ok : bytes -> bytes -> bool).
Variable Do : http_request -> http_response + error.

(** The request [Fetch] hands to the client. *)
Definition sent (f : Fetcher) (r : Request) : http_request :=
  mkHttpRequest (ToUpper unicode (TrimSpace (in_Method r))) (TrimSpace (in_Url r)) (in_Body r) (applyHeaders r)
    (resolveTimeout (in_Timeout r) (defaultTimeout f)).

Lemma Fetch_Ok f r resp :
  Fetch unicode NewRequest_ok Do f r = Ok resp ->
  exists r', r = Some r' /\ rq_Method (sent f r') ∈ AllowedMethods (policy f) /\ rq_URL (sent f r') <> [] /\
    match Do (sent f r') with
    | inl hr => exists body, read_limited (i64 (MaxResponseBodyBytes (policy f) + 1)) hr = Some body /\
        glen body <= MaxResponseBodyBytes (policy f) /\
        resp = mkResponse (u32 (rs_StatusCode hr)) (flattenHeaders (rs_Header hr)) (multiHeaders (rs_Header hr)) body
    | inr err => exists he, ClassifyOutboundHTTPError (Some err) = Some he /\
        resp = mkResponse (u32 (oe_StatusCode he)) ∅ ∅ (oe_Body he)
    end.
Proof.
  unfold Fetch. destruct r as [r|]; [|done]. case_bool_decide; cbn [negb]; [|done]. case_bool_decide; [done|].
  destruct (NewRequest_ok _ _); cbn [negb]; [|done]. intros Hr. exists r. repeat (split; [done|]).
  unfold sent. destruct (Do _) as [hr|err].
  - destruct (read_limited _ _) as [body|]; [|done]. destruct (Z.ltb_spec (MaxResponseBodyBytes (policy f)) (glen body)); [done|].
    injection Hr as <-. exists body. done.
  - destruct (ClassifyOutboundHTTPError _) as [he|]; [|done]. injection Hr as <-. eauto.
Qed.

Lemma Fetch_failed f r err :
  rq_Method (sent f r) ∈ AllowedMethods (policy f) -> rq_URL (sent f r) <> [] ->
  NewRequest_ok (rq_Method (sent f r)) (rq_URL (sent f r)) = true -> Do (sent f r) = inr err ->
  Fetch unicode NewRequest_ok Do f (Some r) =
    match ClassifyOutboundHTTPError (Some err) with
    | Some he => Ok (mkResponse (u32 (oe_StatusCode he)) ∅ ∅ (oe_Body he))
    | None => Err (RequestFailed err)
    end.
Proof.
  unfold sent. cbn [rq_Method rq_URL]. intros Hm Hu Hn Hd. unfold Fetch.
  by rewrite bool_decide_true, bool_decide_false, Hn, Hd by done.
Qed.

(** The rule-set text ends in another letter than the texts tested before it. *)
Lemma mapSOCKSError_Blocked text :
  (exists e, mapSOCKSError text = Blocked e) <-> HasSuffix text (bs "unknown error connection not allowed by ruleset") = true.
Proof.
  unfold mapSOCKSError, HasSuffix. split.
  - repeat case_bool_decide; try done; by intros [e [=]].
  - intros H%bool_decide_eq_true.
    assert (forall t, t `suffix_of` text -> last t = last (bs "unknown error connection not allowed by ruleset") \/ t = []) as Hl.
    { intros t Ht. destruct (suffix_same_last _ _ _ H Ht) as [?|[?|?]]; auto. done. }
    case_bool_decide as H1; [by destruct (Hl _ H1)|]. case_bool_decide as H2; [by destruct (Hl _ H2)|].
    rewrite bool_decide_true by done. eauto.
Qed.

Lemma blocked_dial {conn} (p : Egress.policy) (socks : string -> bytes -> result bytes conn) address d :
  DialContext unicode p socks "tcp" address = Err d ->
  (exists e, d = Blocked e) <->
  match SplitHostPort address with
  | None => True
  | Some (host, port) =>
      match validateAuthority unicode p host port with
      | Err _ => True
      | Ok _ => exists text, socks (profile p) address = Err text /\
                  HasSuffix text (bs "unknown error connection not allowed by ruleset") = true
      end
  end.
Proof.
  unfold DialContext. cbn [bool_decide decide negb andb]. rewrite bool_decide_true by done. cbn [negb andb].
  destruct (SplitHostPort address) as [[host port]|]; [|intros [= <-]; naive_solver].
  destruct (validateAuthority unicode p host port); [|intros [= <-]; naive_solver].
  destruct (socks (profile p) address) as [c|text]; [done|]. intros [= <-]. rewrite mapSOCKSError_Blocked. naive_solver.
Qed.

Lemma read_whole max r body :
  0 <= max < 2 ^ 63 - 1 -> read_limited (i64 (max + 1)) r = Some body -> glen body <= max ->
  body = rs_data r /\ rs_fails r = false.
Proof.
  intros Hm. rewrite i64_id by (unfold is_i64; lia). unfold read_limited. destruct (Z.leb_spec (max + 1) 0); [lia|].
  destruct (Z.ltb_spec (glen (rs_data r)) (max + 1)).
  - destruct (rs_fails r); [done|]. by intros [= <-].
  - intros [= <-]. unfold glen in *. rewrite length_take. lia.
Qed.

(** A successful fetch sent one request, with an allowed method, a non-empty
    URL and a positive timeout, and returns either the upstream's answer with its
    whole body, within the limit and never cut short, or the status of a failure
    that is the caller's or the upstream's. *)
Theorem fetch_faithful (f : Fetcher) (r : Request) (resp : Response) :
  0 <= MaxResponseBodyBytes (policy f) < 2 ^ 63 - 1 -> 0 < defaultTimeout f ->
  Fetch unicode NewRequest_ok Do f (Some r) = Ok resp ->
  (rq_Method (sent f r) ∈ AllowedMethods (policy f) /\ rq_URL (sent f r) <> [] /\ 0 < rq_timeout (sent f r)) /\
  ((exists hr, Do (sent f r) = inl hr /\ rs_fails hr = false /\ Body resp = rs_data hr /\
      glen (Body resp) <= MaxResponseBodyBytes (policy f) /\ StatusCode resp = u32 (rs_StatusCode hr) /\
      forall k vs, MultiHeaders resp !! k = Some vs <-> rs_Header hr !! k = Some vs /\ vs <> []) \/
   (exists err, Do (sent f r) = inr err /\ StatusCode resp ∈ [400; 502; 504] /\ Headers resp = ∅ /\ MultiHeaders resp = ∅)).
Proof.
  intros Hm Ht (r' & [= <-] & Hmeth & Hurl & H)%Fetch_Ok. split.
  { repeat split; try done. cbn. unfold resolveTimeout. destruct (in_Timeout r) as [d|]; [|done].
    destruct (Z.leb_spec d 0); lia. }
  destruct (Do (sent f r)) as [hr|err].
  - left. destruct H as (body & Hb & Hl & ->). destruct (read_whole _ _ _ Hm Hb Hl) as [-> Hf]. exists hr. cbn [Body StatusCode MultiHeaders].
    repeat (split; [done|]). intros k vs. unfold multiHeaders. rewrite lookup_omap.
    destruct (rs_Header hr !! k) as [[|]|]; cbn; naive_solver.
  - right. destruct H as (he & Hc & ->). exists err. cbn [StatusCode Headers MultiHeaders]. repeat split. apply classify_status in Hc.
    destruct he as [status text]. cbn in *. rewrite !elem_of_cons, elem_of_nil in *.
    by destruct Hc as [->|[->|[->|[]]]]; rewrite u32_id by done; auto.
Qed.

(** A fetch whose dial fails is answered with status 400, and not with a
    capability failure, exactly when the destination is not allowed: it has no host
    and port, the enclave's policy refuses it, or the parent's rule set does. *)
Theorem refused_dial_is_400 {conn} (p : Egress.policy) (socks : string -> bytes -> result bytes conn) (address : bytes)
    (lib : bytes -> error) (ws : error) (f : Fetcher) (r : Request) (d : dial_error) :
  context ws -> (forall text, context (lib text)) ->
  rq_Method (sent f r) ∈ AllowedMethods (policy f) -> rq_URL (sent f r) <> [] ->
  NewRequest_ok (rq_Method (sent f r)) (rq_URL (sent f r)) = true ->
  DialContext unicode p socks "tcp" address = Err d -> Do (sent f r) = inr (ws ++ dial_chain lib d) ->
  (exists resp, Fetch unicode NewRequest_ok Do f (Some r) = Ok resp /\ StatusCode resp = 400) <->
  match SplitHostPort address with
  | None => True
  | Some (host, port) =>
      match validateAuthority unicode p host port with
      | Err _ => True
      | Ok _ => exists text, socks (profile p) address = Err text /\
                  HasSuffix text (bs "unknown error connection not allowed by ruleset") = true
      end
  end.
Proof.
  intros Hws Hlib Hm Hu Hn Hd Hdo. rewrite (Fetch_failed _ _ _ Hm Hu Hn Hdo), dial_classified by done.
  rewrite <- (blocked_dial _ _ _ _ Hd). destruct d; cbn; split; try done; try (intros (? & [= <-] & ?); done); eauto.
  all: by intros [? ?].
Qed.

End FetchSafety.

(** ** Concrete requests *)

(** The [url.Error] a client wraps its failures in. *)
Definition url_error : link := mkLink None (Some false) None None false None false.

Lemma url_error_context : context [url_error].
Proof. by repeat constructor. Qed.

(** [softened_alerts] at "bad record MAC", which stays a failure. *)
Lemma softened_alerts_witness : ClassifyOutboundHTTPError (Some ([url_error] ++ remote_alert 20)) = None.
Proof. rewrite (proj1 (softened_alerts [url_error] 20 url_error_context ltac:(lia))). reflexivity. Defined.

Import httpfetch.

Definition toy_fetcher : Fetcher := NewFetcherWithClient (mkPolicy [bs "GET"] (30 * second) 4).
Definition toy_request : Request := mkRequest (bs " get") (bs "https://example.com:8443/") [] [] [(bs "x-a", [bs "1"; bs "2"])] None.
Definition toy_client (r : http_request) : http_response + error :=
  inl (mkHttpResponse 200 (<[bs "X-B" := [bs "3"]]> ∅) (bs "body") false).

(** [fetch_faithful] at an answer of exactly the limit. *)
Lemma fetch_faithful_witness :
  exists resp, Fetch (fun s => s) (fun _ _ => true) toy_client toy_fetcher (Some toy_request) = Ok resp /\ Body resp = bs "body" /\
    glen (Body resp) <= 4.
Proof.
  assert (exists resp, Fetch (fun s => s) (fun _ _ => true) toy_client toy_fetcher (Some toy_request) = Ok resp) as [resp Hr].
  { eexists. vm_compute. reflexivity. }
  exists resp. split; [exact Hr|].
  destruct (fetch_faithful (fun s => s) (fun _ _ => true) toy_client toy_fetcher toy_request resp ltac:(done) ltac:(done) Hr)
    as [_ [(hr & [= <-] & _ & Hb & Hl & _)|(err & [=] & _)]].
  split; [exact Hb|exact Hl].
Defined.

(** [refused_dial_is_400] at a port the workflow policy refuses. *)
Lemma refused_dial_is_400_witness :
  exists resp, Fetch (fun s => s) (fun _ _ => true) (fun _ => inr ([url_error] ++ dial_chain (fun _ => [plain]) (Blocked (Some PortNotWeb))))
    toy_fetcher (Some toy_request) = Ok resp /\ StatusCode resp = 400.
Proof.
  apply (refused_dial_is_400 (fun s => s) (fun _ _ => true)
    (fun _ => inr ([url_error] ++ dial_chain (fun _ => [plain]) (Blocked (Some PortNotWeb))))
    workflowControlledPolicy (fun _ _ => @Err bytes unit []) (bs "example.com:8443") (fun _ => [plain]) [url_error] toy_fetcher toy_request
    (Blocked (Some PortNotWeb))).
  - exact url_error_context.
  - intros text. by repeat constructor.
  - by_compute.
  - by vm_compute.
  - reflexivity.
  - vm_compute. reflexivity.
  - reflexivity.
  - vm_compute. exact I.
Defined.
