(* ===== verification/HttpApp.v ===== *)
(** * HttpApp: the applications that substitute secrets into templates

    Models [src/enclave/apps/confidential-http/app/app.go] and
    [src/enclave/apps/confidential-echo/app/app.go].  The template engine, the
    message encodings, the HTTP client and AES-GCM are parameters.  Go visits the
    entries of a map in no particular order: the order is an argument. *)

From S2P Require Import Prelude Float Codec Text Utf8 Types Services Emitter Server Outbound.

Definition AppIDConfidentialHTTP : string := "confidential-http@1.0.0-alpha".
Definition AppIDConfidentialEcho : string := "confidential-echo@1.0.0-alpha".
Definition AESGCMEncryptionKey : string := "san_marino_aes_gcm_encryption_key".
Definition NoKeyForEncryption : string := "encryption requested but no AES-GCM key in secrets".
Definition KeyWithoutEncryption : string := "AES-GCM key present but encryption not requested".
Definition BodyTooLarge : string := "response body exceeds maximum allowed size".
Definition maxResponseBytes : Z := 1000 * 1024.
Definition DefaultEnclaveRequestTimeout : Z := 30 * second.

Definition MethodUsesBody (method : bytes) : bool :=
  bool_decide (method = bs "POST") || bool_decide (method = bs "PUT") || bool_decide (method = bs "PATCH").

(** ** Messages *)

Inductive request_body := BodyString (s : bytes) | BodyBytes (b : bytes).

(** [hq_MultiHeaders] in the order the loop visits it; an entry may be nil. *)
Record Request := mkHttpAppRequest {
  hq_Url : bytes;
  hq_Method : bytes;
  hq_Body : option request_body;
  hq_MultiHeaders : list (bytes * option (list bytes));
  hq_TemplatePublicValues : gmap string bytes;
  hq_CustomRootCaCertPem : bytes;
  hq_Timeout : option Z;
  hq_EncryptOutput : bool;
}.

Record Response := mkHttpAppResponse {
  hr_StatusCode : Z;
  hr_Body : bytes;
  hr_MultiHeaders : Header;
}.

(** The client a request goes through, and the request with its [Close] flag. *)
Inductive client := DefaultClient | RootsClient (pem : bytes).
Record outgoing := mkOutgoing { og_client : client; og_request : httpfetch.http_request; og_Close : bool }.

Section App.
(** Templates: parsing, and execution on the values of their keys. *)
Context {Template : Type}.
Variables (Parse : bytes -> option Template) (Render : Template -> gmap string bytes -> option bytes).
(** What [http.NewRequest] and [AppendCertsFromPEM] accept, and the clients. *)
Variables (NewRequest_ok : bytes -> bytes -> bool) (AppendCertsFromPEM : bytes -> bool).
Variables (Do : outgoing -> httpfetch.http_response + error) (error_string : error -> string)
  (read_error_text : httpfetch.http_response -> string).
(** How a response's headers are visited. *)
Variable range_headers : Header -> list (bytes * list bytes).
(** AES-GCM with the nonce read, and the message encodings. *)
Variables (gcm_Seal : bytes -> bytes -> bytes -> bytes) (aes_error_text : aes_error -> string)
  (hex_error_text : bytes -> string).
Variables (Unmarshal : bytes -> result string Request) (Marshal : Response -> result string bytes)
  (missing_method_text : Request -> string).

Definition convertHeaders (h : Header) : Header :=
  fold_left (fun result '(name, values) => <[sanitizeUTF8 name := map sanitizeUTF8 values]> result) (range_headers h) ∅.

(** ** One request *)

Definition build_body (request : Request) (templateData : gmap string bytes) : result string bytes :=
  if MethodUsesBody (hq_Method request) then
    match hq_Body request with
    | Some (BodyString body) =>
        match Parse body with
        | None => Err "error parsing body template"%string
        | Some tmpl =>
            match Render tmpl templateData with
            | None => Err "error executing body template"%string
            | Some processed => Ok processed
            end
        end
    | Some (BodyBytes body) => Ok body
    | None => Ok []
    end
  else Ok [].

(** The values of one header. *)
Fixpoint add_values (headerName : bytes) (values : list bytes) (templateData : gmap string bytes) (h : Header) : result string Header :=
  match values with
  | [] => Ok h
  | headerValueTemplate :: values =>
      match Parse headerValueTemplate with
      | None => Err "error parsing header template"%string
      | Some tmpl =>
          match Render tmpl templateData with
          | None => Err "error executing header template"%string
          | Some processed => add_values headerName values templateData (Header_Add headerName processed h)
          end
      end
  end.

Fixpoint add_headers (headers : list (bytes * option (list bytes))) (templateData : gmap string bytes) (h : Header) : result string Header :=
  match headers with
  | [] => Ok h
  | (headerName, headerValues) :: headers =>
      match headerValues with
      | None => add_headers headers templateData h
      | Some values =>
          if bool_decide (headerName = bs AESGCMEncryptionKey) then add_headers headers templateData h
          else let? h := add_values headerName values templateData h in add_headers headers templateData h
      end
  end.

Definition choose_client (request : Request) : result string client :=
  if 0 <? glen (hq_CustomRootCaCertPem request) then
    if AppendCertsFromPEM (hq_CustomRootCaCertPem request) then Ok (RootsClient (hq_CustomRootCaCertPem request))
    else Err "error parsing custom root CA certificate"%string
  else Ok DefaultClient.

Definition request_timeout (request : Request) : Z :=
  match hq_Timeout request with
  | Some d => if 0 <? d then d else DefaultEnclaveRequestTimeout
  | None => DefaultEnclaveRequestTimeout
  end.

(** Everything up to [client.Do]. *)
Definition prepare (request : Request) (templateData : gmap string bytes) : result string outgoing :=
  let? body := build_body request templateData in
  if negb (NewRequest_ok (hq_Method request) (hq_Url request)) then Err "error creating http request"%string
  else
    let? header := add_headers (hq_MultiHeaders request) templateData ∅ in
    let? client := choose_client request in
    Ok (mkOutgoing client
          (httpfetch.mkHttpRequest (hq_Method request) (hq_Url request) body header (request_timeout request)) true).

(** What becomes of the client's answer. *)
Definition receive (answer : httpfetch.http_response + error) : result string Response :=
  match answer with
  | inr err =>
      match ClassifyOutboundHTTPError (Some err) with
      | Some he => Ok (mkHttpAppResponse (u32 (oe_StatusCode he)) (oe_Body he) ∅)
      | None => Err ("error making http request: " ++ error_string err)%string
      end
  | inl resp =>
      match httpfetch.read_limited (maxResponseBytes + 1) resp with
      | None => Err ("error reading http response: " ++ read_error_text resp)%string
      | Some body =>
          if maxResponseBytes <? glen body then Err (BodyTooLarge ++ " of 1024000 bytes")%string
          else Ok (mkHttpAppResponse (u32 (httpfetch.rs_StatusCode resp)) body (convertHeaders (httpfetch.rs_Header resp)))
      end
  end.

(** The result, and what was sent. *)
Definition executeHTTPRequest (request : Request) (templateData : gmap string bytes) : result string Response * list outgoing :=
  match prepare request templateData with
  | Err e => (Err e, [])
  | Ok out => (receive (Do out), [out])
  end.

(** ** The application *)

(** The secrets join the public values, in the order they are visited. *)
Fixpoint inject (secrets : list (string * bytes)) (templateData : gmap string bytes) : result string (gmap string bytes) :=
  match secrets with
  | [] => Ok templateData
  | (k, v) :: secrets =>
      if bool_decide (k = AESGCMEncryptionKey) then inject secrets templateData
      else match templateData !! k with
      | Some _ => Err ("public input and secret input have the same key: " ++ k)%string
      | None =>
          if negb (utf8_Valid v) then Err ("secret value for key " ++ k ++ " is not valid utf8")%string
          else inject secrets (<[k := v]> templateData)
      end
  end.

Definition run_request (request : Request) (order : list (string * bytes)) : result string Response * list outgoing :=
  match inject order (hq_TemplatePublicValues request) with
  | Err e => (Err e, [])
  | Ok templateData => executeHTTPRequest request templateData
  end.

Definition encrypt_body (nonce : option bytes) (aesKeyHex : bytes) (resp : Response) : result ExecuteError Response :=
  match hex_decode aesKeyHex with
  | None => Err (mkExecuteError ("failed to hex-decode AES-GCM key: " ++ hex_error_text aesKeyHex) StatusBadRequest)
  | Some aesKey =>
      match AESGCMEncrypt gcm_Seal nonce (hr_Body resp) aesKey with
      | Err e => Err (mkExecuteError ("error encrypting response body: " ++ aes_error_text e) StatusInternalServerError)
      | Ok encrypted => Ok (mkHttpAppResponse (hr_StatusCode resp) encrypted (hr_MultiHeaders resp))
      end
  end.

Definition seal_response (nonce : option bytes) (request : Request) (secretsMap : gmap string bytes) (resp : Response) : result ExecuteError Response :=
  match secretsMap !! AESGCMEncryptionKey with
  | Some aesKeyHex => if hq_EncryptOutput request then encrypt_body nonce aesKeyHex resp else Ok resp
  | None => Ok resp
  end.

(** The guards on a decoded request. *)
Definition check_request (request : Request) (secretsMap : gmap string bytes) : result ExecuteError unit :=
  let hasAESKey := bool_decide (is_Some (secretsMap !! AESGCMEncryptionKey)) in
  if hq_EncryptOutput request && negb hasAESKey then Err (mkExecuteError NoKeyForEncryption StatusBadRequest)
  else if negb (hq_EncryptOutput request) && hasAESKey then Err (mkExecuteError KeyWithoutEncryption StatusBadRequest)
  else if bool_decide (hq_Method request = []) then Err (mkExecuteError (missing_method_text request) StatusBadRequest)
  else Ok tt.

(** [Execute]; [order] is how the secrets are visited, [d] how long the batch took. *)
Definition Execute (order : list (string * bytes)) (nonce : option bytes) (d : Z) (appID : string) (inputData : bytes)
    (secretsMap : gmap string bytes) : result ExecuteError bytes * list outgoing * list (string * gmap string any) :=
  if negb (bool_decide (appID = AppIDConfidentialHTTP)) then
    (Err (mkExecuteError ("invalid app ID: expected " ++ AppIDConfidentialHTTP ++ ", got " ++ appID) StatusBadRequest), [], [])
  else match Unmarshal inputData with
  | Err e => (Err (mkExecuteError ("unable to unmarshal request data: " ++ e) StatusBadRequest), [], [])
  | Ok request =>
      match check_request request secretsMap with
      | Err e => (Err e, [], [])
      | Ok _ =>
          let started := ("http_batch_started"%string, details [("num_requests"%string, AInt 1)]) in
          let completed := ("http_batch_completed"%string, details [("num_requests"%string, AInt 1); (duration_key, AFloat (seconds_of d))]) in
          let '(r, sent) := run_request request order in
          match r with
          | Err e => (Err (mkExecuteError ("error in request 0: " ++ e) StatusBadRequest), sent, [started])
          | Ok resp =>
              match seal_response nonce request secretsMap resp with
              | Err e => (Err e, sent, [started])
              | Ok resp =>
                  match Marshal resp with
                  | Err e => (Err (mkExecuteError ("error marshaling combined responses: " ++ e) StatusInternalServerError), sent, [started])
                  | Ok responseBytes => (Ok responseBytes, sent, [started; completed])
                  end
              end
          end
      end
  end.

End App.

(** ** The echo application *)

Section Echo.
Context {Template : Type}.
(** Parsing with [missingkey=error], and the text of its failures. *)
Variables (Parse : bytes -> result string Template) (Render : Template -> gmap string bytes -> result string bytes).

Definition echo_Execute (appID : string) (inputData : bytes) (secretsMap : gmap string bytes)
    : result ExecuteError bytes * list (string * gmap string any) :=
  if negb (bool_decide (appID = AppIDConfidentialEcho)) then
    (Err (mkExecuteError ("invalid app ID: expected " ++ AppIDConfidentialEcho ++ ", got " ++ appID) StatusBadRequest), [])
  else match Parse inputData with
  | Err e => (Err (mkExecuteError ("error parsing template: " ++ e) StatusBadRequest), [])
  | Ok tmpl =>
      match Render tmpl secretsMap with
      | Err e => (Err (mkExecuteError ("error rendering template: " ++ e) StatusBadRequest), [])
      | Ok rendered => (Ok rendered, [("echo_completed"%string, details [("output_bytes"%string, AInt (glen rendered))])])
      end
  end.

End Echo.
