(* ===== verification/HttpAppSafety.v ===== *)
(** * HttpAppSafety: what the HTTP application sends and returns

    Which requests leave the enclave, where the secrets go in them, that the
    encryption key only encrypts, and what the caller gets back. *)

From S2P Require Import Prelude Codec Text Utf8 Types Services Emitter Server Outbound HttpApp.

(** The values a template sees: the public ones and every secret but the key. *)
Definition visible (secretsMap : gmap string bytes) : gmap string bytes := delete AESGCMEncryptionKey secretsMap.

(** The secrets a request admits. *)
Definition admissible (request : Request) (secretsMap : gmap string bytes) : Prop :=
  hq_TemplatePublicValues request ##ₘ visible secretsMap /\ map_Forall (fun _ v => utf8_Valid v = true) (visible secretsMap).

(** [range] visits every entry of a map once. *)
Definition visits {V} (order : list (string * V)) (m : gmap string V) : Prop := order ≡ₚ map_to_list m.

Section Injection.

(** The pairs the loop considers. *)
Definition kept (order : list (string * bytes)) : list (string * bytes) :=
  filter (fun kv => kv.1 <> AESGCMEncryptionKey) order.

Lemma inject_Ok order data data' : NoDup (kept order).*1 ->
  inject order data = Ok data' <->
  (Forall (fun kv => data !! kv.1 = None /\ utf8_Valid kv.2 = true) (kept order) /\ data' = list_to_map (kept order) ∪ data).
Proof.
  revert data. induction order as [|[k v] order IH]; intros data Hnd.
  { cbn. rewrite map_empty_union. split; [intros [= ->]; by split; [constructor|] | by intros [_ ->]]. }
  unfold kept in *. cbn [inject]. rewrite filter_cons in *. cbn [fst] in *.
  destruct (bool_decide_reflect (k = AESGCMEncryptionKey)) as [->|Hk].
  { rewrite decide_False in * by tauto. by apply IH. }
  rewrite decide_True in * by done. cbn [fmap list_fmap fst] in Hnd. apply NoDup_cons in Hnd as [Hin Hnd].
  rewrite Forall_cons. cbn [fst snd]. destruct (data !! k) as [w|] eqn:Ek; [split; [done | intros [[[? _] _] _]; congruence]|].
  destruct (utf8_Valid v); cbn [negb]; [|split; [done | intros [[[_ ?] _] _]; congruence]].
  rewrite IH by done. cbn [list_to_map foldr curry fst snd]. rewrite <- insert_union_l.
  assert (forall f : gmap string bytes, f !! k = None -> f ∪ <[k := v]> data = <[k := v]> (f ∪ data)) as Hun
    by (intros f Hf; by rewrite insert_union_r).
  rewrite Hun by by apply not_elem_of_list_to_map.
  assert (forall kv : string * bytes, kv ∈ filter (fun kv => kv.1 <> AESGCMEncryptionKey) order -> <[k := v]> data !! kv.1 = data !! kv.1) as Hsame.
  { intros kv Hkv. apply lookup_insert_ne. intros ->. apply Hin. by apply list_elem_of_fmap_2. }
  rewrite !Forall_forall. split.
  - intros [H ->]. split; [|done]. split; [done|]. intros kv Hkv. rewrite <- Hsame by done. by apply H.
  - intros [[_ H] ->]. split; [|done]. intros kv Hkv. rewrite Hsame by done. by apply H.
Qed.

Lemma kept_visible order secretsMap : visits order secretsMap -> kept order ≡ₚ map_to_list (visible secretsMap).
Proof.
  intros H. unfold kept, visible. rewrite H. apply NoDup_Permutation; [apply NoDup_filter, NoDup_map_to_list | apply NoDup_map_to_list|].
  intros [k v]. rewrite list_elem_of_filter, !elem_of_map_to_list, lookup_delete_Some. cbn. intuition congruence.
Qed.

(** Injection succeeds on the admissible secrets, with the same values in any order. *)
Lemma inject_exact request order secretsMap data : visits order secretsMap ->
  inject order (hq_TemplatePublicValues request) = Ok data <->
  admissible request secretsMap /\ data = hq_TemplatePublicValues request ∪ visible secretsMap.
Proof.
  intros H. pose proof (kept_visible _ _ H) as Hk.
  assert (NoDup (kept order).*1) as Hnd by (rewrite Hk; apply NoDup_fst_map_to_list).
  rewrite inject_Ok by done.
  assert (list_to_map (kept order) = visible secretsMap) as ->.
  { rewrite <- (list_to_map_to_list (visible secretsMap)). by apply list_to_map_proper. }
  set (pub := hq_TemplatePublicValues request).
  assert (Forall (fun kv => pub !! kv.1 = None /\ utf8_Valid kv.2 = true) (kept order) <-> admissible request secretsMap) as Hadm.
  { rewrite Hk. unfold admissible. fold pub. rewrite map_disjoint_spec. split.
    - rewrite map_Forall_to_list, Forall_forall. intros HF. split.
      + intros k x y Hx Hy. destruct (HF (k, y) (proj2 (elem_of_map_to_list _ _ _) Hy)) as [E _]. cbn in E. congruence.
      + apply Forall_forall. intros [k v] Hkv. by destruct (HF _ Hkv).
    - intros [Hd HF]. apply Forall_forall. intros [k v] Hkv%elem_of_map_to_list. cbn. split.
      + destruct (pub !! k) eqn:E; [|done]. by destruct (Hd _ _ _ E Hkv).
      + exact (HF _ _ Hkv). }
  rewrite Hadm. split; intros [Ha ->]; (split; [done|]); by rewrite map_union_comm by (destruct Ha; by try apply map_disjoint_sym).
Qed.

End Injection.

(** ** Response headers *)

Lemma Valid_token (s : bytes) : utf8_Valid s = true -> sanitizeUTF8 s = s.
Proof. unfold sanitizeUTF8. by intros ->. Qed.

Section Headers.
Variable range_headers : Header -> list (bytes * list bytes).

Lemma fold_headers_inv (P : bytes -> list bytes -> Prop) (l : list (bytes * list bytes)) (acc : Header) :
  (forall name values, P (sanitizeUTF8 name) (map sanitizeUTF8 values)) -> map_Forall P acc ->
  map_Forall P (fold_left (fun result '(name, values) => <[sanitizeUTF8 name := map sanitizeUTF8 values]> result) l acc).
Proof.
  intros HP. revert acc. induction l as [|[name values] l IH]; intros acc Ha; [done|]. cbn [fold_left].
  apply IH. by apply map_Forall_insert_2.
Qed.

Lemma fold_headers_valid (l : list (bytes * list bytes)) (acc : Header) : Forall (fun e => utf8_Valid e.1 = true) l ->
  fold_left (fun result '(name, values) => <[sanitizeUTF8 name := map sanitizeUTF8 values]> result) l acc =
  fold_left (fun result '(name, values) => <[name := map sanitizeUTF8 values]> result) l (acc : Header).
Proof.
  intros H. revert acc. induction H as [|[name values] l Hn _ IH]; intros acc; [done|]. cbn [fold_left fst] in *.
  by rewrite (Valid_token name Hn), IH.
Qed.

Lemma fold_insert_lookup (l : list (bytes * list bytes)) (acc : Header) name : NoDup l.*1 ->
  fold_left (fun result '(name, values) => <[name := map sanitizeUTF8 values]> result) l acc !! name =
  match (list_to_map l : Header) !! name with Some values => Some (map sanitizeUTF8 values) | None => acc !! name end.
Proof.
  revert acc. induction l as [|[n vs] l IH]; intros acc; [done|]. cbn [fmap list_fmap fst]. intros [Hn Hnd]%NoDup_cons.
  cbn [fold_left list_to_map foldr fst snd curry]. rewrite IH by done. destruct (decide (n = name)) as [->|Hne].
  - change (fold_right _ ∅ l) with (list_to_map l : Header). rewrite !lookup_insert_eq.
    by rewrite (not_elem_of_list_to_map_1 (M := gmap bytes) l name Hn).
  - by rewrite !lookup_insert_ne.
Qed.

(** The response headers handed to the message encoder are valid UTF-8 in every
    name and value, whatever bytes the upstream server sent and in whatever order
    they are visited; and when the names are valid, which they are for every header
    the client accepts, no header is lost or merged: each name keeps its values, in
    order, sanitised one by one. *)
Theorem response_headers_utf8 (h : Header) :
  range_headers h ≡ₚ map_to_list h ->
  map_Forall (fun name values => utf8_Valid name = true /\ Forall (fun v => utf8_Valid v = true) values)
    (convertHeaders range_headers h) /\
  (map_Forall (fun name _ => utf8_Valid name = true) h ->
     forall name, convertHeaders range_headers h !! name = map sanitizeUTF8 <$> h !! name).
Proof.
  intros Hr. split.
  - apply fold_headers_inv; [|apply map_Forall_empty]. intros name values. split; [apply sanitize_valid|].
    apply Forall_map, Forall_true. intros. apply sanitize_valid.
  - intros Hv name. unfold convertHeaders. rewrite fold_headers_valid.
    2: { rewrite Hr. apply map_Forall_to_list in Hv. apply (Forall_impl _ _ _ Hv). by intros []. }
    assert (NoDup (range_headers h).*1) as Hnd by (rewrite Hr; apply NoDup_fst_map_to_list).
    rewrite fold_insert_lookup by done.
    rewrite (list_to_map_proper (M := gmap bytes) _ _ Hnd Hr), list_to_map_to_list. by destruct (h !! name).
Qed.

End Headers.

(** ** Requests and responses *)

(** Lists of at most one element are equal when they have the same elements. *)
Lemma singleton_eq {A} (l k : list A) : (length l <= 1)%nat -> (length k <= 1)%nat -> (forall x, x ∈ l <-> x ∈ k) -> l = k.
Proof.
  intros Hl Hk H. destruct l as [|a [|? ?]], k as [|b [|? ?]]; cbn in *; try lia; try done.
  - destruct (H b). set_solver.
  - destruct (H a). set_solver.
  - f_equal. apply list_elem_of_singleton, H. set_solver.
Qed.

Section App.
Context {Template : Type}.
Variables (Parse : bytes -> option Template) (Render : Template -> gmap string bytes -> option bytes).
Variables (NewRequest_ok : bytes -> bytes -> bool) (AppendCertsFromPEM : bytes -> bool).
Variables (Do : outgoing -> httpfetch.http_response + error) (error_string : error -> string)
  (read_error_text : httpfetch.http_response -> string).
Variable range_headers : Header -> list (bytes * list bytes).
Variables (gcm_Seal : bytes -> bytes -> bytes -> bytes) (aes_error_text : aes_error -> string)
  (hex_error_text : bytes -> string).
Variables (Unmarshal : bytes -> result string Request) (Marshal : Response -> result string bytes)
  (missing_method_text : Request -> string).

Local Abbreviation Execute := (Execute Parse Render NewRequest_ok AppendCertsFromPEM Do error_string read_error_text
  range_headers gcm_Seal aes_error_text hex_error_text Unmarshal Marshal missing_method_text).
Local Abbreviation prepare := (prepare Parse Render NewRequest_ok AppendCertsFromPEM).
Local Abbreviation receive := (receive error_string read_error_text range_headers).
Local Abbreviation run_request := (run_request Parse Render NewRequest_ok AppendCertsFromPEM Do error_string read_error_text range_headers).

(** The guards a request passes before anything is sent. *)
Definition accepted (appID : string) (inputData : bytes) (secretsMap : gmap string bytes) (request : Request) : Prop :=
  appID = AppIDConfidentialHTTP /\ Unmarshal inputData = Ok request /\ hq_Method request <> [] /\
  (hq_EncryptOutput request = true <-> is_Some (secretsMap !! AESGCMEncryptionKey)) /\ admissible request secretsMap.

Lemma check_request_Ok request secretsMap :
  check_request missing_method_text request secretsMap = Ok tt <->
  hq_Method request <> [] /\ (hq_EncryptOutput request = true <-> is_Some (secretsMap !! AESGCMEncryptionKey)).
Proof.
  unfold check_request. destruct (hq_EncryptOutput request); repeat case_bool_decide; cbn; naive_solver.
Qed.

(** What is sent is what [prepare] builds. *)
Lemma run_request_sent request order secretsMap o : visits order secretsMap ->
  o ∈ (run_request request order).2 <->
  admissible request secretsMap /\ prepare request (hq_TemplatePublicValues request ∪ visible secretsMap) = Ok o.
Proof.
  intros Hv. unfold HttpApp.run_request. destruct (inject order (hq_TemplatePublicValues request)) as [data|e] eqn:E.
  - apply (inject_exact request order secretsMap data Hv) in E as [Ha ->]. unfold executeHTTPRequest.
    destruct (prepare _ _) as [o'|e]; cbn [snd]; [|set_solver].
    rewrite list_elem_of_singleton. naive_solver.
  - cbn [snd]. split; [set_solver|]. intros [Ha _].
    assert (inject order (hq_TemplatePublicValues request) = Ok (hq_TemplatePublicValues request ∪ visible secretsMap)) by (by apply (inject_exact request order secretsMap _ Hv)).
    congruence.
Qed.

Lemma run_request_once request order : (length (run_request request order).2 <= 1)%nat.
Proof. unfold HttpApp.run_request, executeHTTPRequest. repeat case_match; cbn; lia. Qed.

Lemma Execute_sent order nonce d appID inputData secretsMap :
  (Execute order nonce d appID inputData secretsMap).1.2 =
  if bool_decide (appID = AppIDConfidentialHTTP) then
    match Unmarshal inputData with
    | Err _ => []
    | Ok request => match check_request missing_method_text request secretsMap with Err _ => [] | Ok _ => (run_request request order).2 end
    end
  else [].
Proof. unfold HttpApp.Execute. case_bool_decide; [|done]. cbn [negb]. repeat case_match; by simplify_eq. Qed.

Lemma Execute_sent_iff order nonce d appID inputData secretsMap o : visits order secretsMap ->
  o ∈ (Execute order nonce d appID inputData secretsMap).1.2 <->
  exists request, accepted appID inputData secretsMap request /\
    prepare request (hq_TemplatePublicValues request ∪ visible secretsMap) = Ok o.
Proof.
  intros Hv. rewrite Execute_sent. unfold accepted. case_bool_decide; [|set_solver].
  destruct (Unmarshal inputData) as [request|]; [|set_solver].
  destruct (check_request missing_method_text request secretsMap) as [[]|] eqn:E.
  - rewrite run_request_sent by done. apply check_request_Ok in E. naive_solver.
  - split; [set_solver|]. intros (r & (_ & [= ->] & Hm & He & _) & _).
    assert (check_request missing_method_text r secretsMap = Ok tt) by by apply check_request_Ok. congruence.
Qed.

Lemma prepare_Ok request data o : prepare request data = Ok o ->
  exists body header,
    build_body Parse Render request data = Ok body /\ add_headers Parse Render (hq_MultiHeaders request) data ∅ = Ok header /\
    o = mkOutgoing (if bool_decide (hq_CustomRootCaCertPem request = []) then DefaultClient else RootsClient (hq_CustomRootCaCertPem request))
          (httpfetch.mkHttpRequest (hq_Method request) (hq_Url request) body header (request_timeout request)) true /\
    NewRequest_ok (hq_Method request) (hq_Url request) = true /\
    (hq_CustomRootCaCertPem request = [] \/ AppendCertsFromPEM (hq_CustomRootCaCertPem request) = true).
Proof.
  unfold HttpApp.prepare, choose_client, rbind. intros H.
  destruct (build_body _ _ _ _) as [body|]; [|done]. destruct (NewRequest_ok _ _); [|done]. cbn [negb] in H.
  destruct (add_headers _ _ _ _ _) as [header|]; [|done]. exists body, header.
  destruct (hq_CustomRootCaCertPem request) as [|c pem]; cbn in H.
  - injection H as <-. split_and!; auto.
  - destruct (AppendCertsFromPEM _); [|done]. injection H as <-. split_and!; auto.
Qed.

(** At most one request leaves the enclave for an execution, and only when the
    application id is right, the request asks for encryption exactly when the
    encryption key is among the secrets, no secret has the name of a public value and
    every other secret is valid UTF-8.  Its method, URL, trust roots and timeout are
    the caller's, free of secrets; the body and the header values are the caller's
    templates filled with the public values and the secrets other than the encryption
    key; and the connection is closed afterwards. *)
Theorem http_request_exact (order : list (string * bytes)) (nonce : option bytes) (d : Z) (appID : string) (inputData : bytes)
    (secretsMap : gmap string bytes) :
  visits order secretsMap ->
  let sent := (Execute order nonce d appID inputData secretsMap).1.2 in
  (length sent <= 1)%nat /\
  forall o, o ∈ sent -> exists request body header,
    accepted appID inputData secretsMap request /\
    build_body Parse Render request (hq_TemplatePublicValues request ∪ visible secretsMap) = Ok body /\
    add_headers Parse Render (hq_MultiHeaders request) (hq_TemplatePublicValues request ∪ visible secretsMap) ∅ = Ok header /\
    o = mkOutgoing (if bool_decide (hq_CustomRootCaCertPem request = []) then DefaultClient else RootsClient (hq_CustomRootCaCertPem request))
          (httpfetch.mkHttpRequest (hq_Method request) (hq_Url request) body header (request_timeout request)) true.
Proof.
  intros Hv sent. split.
  - unfold sent. rewrite Execute_sent. repeat case_match; cbn; try lia. apply run_request_once.
  - intros o Ho. apply (Execute_sent_iff _ _ _ _ _ _ _ Hv) in Ho as (request & Ha & Hp).
    apply prepare_Ok in Hp as (body & header & ? & ? & ? & _). exists request, body, header. auto.
Qed.

(** C13 The encryption key never leaves the enclave in a request: two executions
    whose secrets differ in its value only send the same requests, whatever order the
    secrets are visited in and whatever the nonces. *)
Theorem aes_key_confined (order1 order2 : list (string * bytes)) (nonce1 nonce2 : option bytes) (d1 d2 : Z) (appID : string) (inputData : bytes)
    (secrets1 secrets2 : gmap string bytes) :
  visits order1 secrets1 -> visits order2 secrets2 -> visible secrets1 = visible secrets2 ->
  (is_Some (secrets1 !! AESGCMEncryptionKey) <-> is_Some (secrets2 !! AESGCMEncryptionKey)) ->
  (Execute order1 nonce1 d1 appID inputData secrets1).1.2 = (Execute order2 nonce2 d2 appID inputData secrets2).1.2.
Proof.
  intros H1 H2 Hvis Hkey. apply singleton_eq; try (rewrite Execute_sent; repeat case_match; cbn; try lia; apply run_request_once).
  intros o. rewrite (Execute_sent_iff _ _ _ _ _ _ _ H1), (Execute_sent_iff _ _ _ _ _ _ _ H2).
  unfold accepted, admissible. rewrite Hvis. split; intros (r & ? & ?); exists r; intuition.
Qed.

Lemma receive_inl resp r : receive (inl resp) = Ok r ->
  httpfetch.rs_fails resp = false /\ hr_Body r = httpfetch.rs_data resp /\ glen (hr_Body r) <= maxResponseBytes /\
  hr_StatusCode r = u32 (httpfetch.rs_StatusCode resp) /\ hr_MultiHeaders r = convertHeaders range_headers (httpfetch.rs_Header resp).
Proof.
  cbn [HttpApp.receive]. destruct (httpfetch.read_limited (maxResponseBytes + 1) resp) as [body|] eqn:E; [|done].
  destruct (Z.ltb_spec maxResponseBytes (glen body)) as [Hb|Hb]; [done|]. intros [= <-]. cbn.
  apply (read_whole maxResponseBytes) in E as [-> ?]; [auto | by_compute | done].
Qed.

Lemma receive_inr err r : receive (inr err) = Ok r ->
  exists he, ClassifyOutboundHTTPError (Some err) = Some he /\ r = mkHttpAppResponse (u32 (oe_StatusCode he)) (oe_Body he) ∅.
Proof. cbn [HttpApp.receive]. destruct (ClassifyOutboundHTTPError (Some err)) as [he|]; [|done]. intros [= <-]. eauto. Qed.

(** A successful execution sent one request and sealed the answer to it. *)
Lemma Execute_Ok order nonce d appID inputData secretsMap out : visits order secretsMap ->
  (Execute order nonce d appID inputData secretsMap).1.1 = Ok out ->
  exists request o resp sealed, accepted appID inputData secretsMap request /\
    (Execute order nonce d appID inputData secretsMap).1.2 = [o] /\ receive (Do o) = Ok resp /\
    seal_response gcm_Seal aes_error_text hex_error_text nonce request secretsMap resp = Ok sealed /\ Marshal sealed = Ok out.
Proof.
  intros Hv. unfold HttpApp.Execute. case_bool_decide as Happ; [|done]. cbn [negb].
  destruct (Unmarshal inputData) as [request|] eqn:Eu; [|done].
  destruct (check_request missing_method_text request secretsMap) as [[]|] eqn:Ec; [|done].
  unfold HttpApp.run_request, executeHTTPRequest.
  destruct (inject order (hq_TemplatePublicValues request)) as [data|] eqn:Ei; [|done].
  destruct (prepare request data) as [o|]; [|done]. destruct (receive (Do o)) as [resp|] eqn:Er; [|done].
  destruct (seal_response _ _ _ nonce request secretsMap resp) as [sealed|] eqn:Es; [|done].
  destruct (Marshal sealed) as [b|] eqn:Em; [|done]. cbn. intros [= <-].
  exists request, o, resp, sealed. unfold accepted. apply check_request_Ok in Ec as [? ?].
  apply (inject_exact _ _ _ _ Hv) in Ei as [? _]. auto 12.
Qed.

Lemma encrypt_body_Ok gcm_Open nonce keyHex resp sealed
    (Hgcm : forall k n m, gcm_Open k n (gcm_Seal k n m) = Some m) (Hnonce : forall n, nonce = Some n -> length n = gcmNonceSize) :
  encrypt_body gcm_Seal aes_error_text hex_error_text nonce keyHex resp = Ok sealed ->
  exists key, hex_decode keyHex = Some key /\ AESGCMDecrypt gcm_Open (hr_Body sealed) key = Ok (hr_Body resp) /\
    hr_StatusCode sealed = hr_StatusCode resp /\ hr_MultiHeaders sealed = hr_MultiHeaders resp.
Proof.
  unfold encrypt_body. destruct (hex_decode keyHex) as [key|]; [|done].
  destruct (AESGCMEncrypt gcm_Seal nonce (hr_Body resp) key) as [c|] eqn:E; [|done]. intros [= <-]. exists key. cbn.
  destruct nonce as [n|]; [|by unfold AESGCMEncrypt in E; case_match].
  split_and!; try done. exact (aesgcm_roundtrip gcm_Seal gcm_Open key n _ _ Hgcm (Hnonce n eq_refl) E).
Qed.

(** C12 What a successful execution returns is the upstream's answer to the request
    that was sent: its status, its sanitised headers and its whole body, at most
    1024000 bytes and never cut short, or the status that stands for a failure of the
    caller's or of the upstream.  When encryption was asked for, the body in the
    output is a ciphertext that opens to that body under the user's key, and is never
    the plain body by omission; otherwise it is the body itself. *)
Theorem http_output_exact (gcm_Open : bytes -> bytes -> bytes -> option bytes)
    (order : list (string * bytes)) (nonce : option bytes) (d : Z) (appID : string) (inputData : bytes)
    (secretsMap : gmap string bytes) (out : bytes) :
  (forall k n m, gcm_Open k n (gcm_Seal k n m) = Some m) -> (forall n, nonce = Some n -> length n = gcmNonceSize) ->
  visits order secretsMap -> (Execute order nonce d appID inputData secretsMap).1.1 = Ok out ->
  exists request o resp sealed, (Execute order nonce d appID inputData secretsMap).1.2 = [o] /\
    Unmarshal inputData = Ok request /\ Marshal sealed = Ok out /\
    match Do o with
    | inl answer => httpfetch.rs_fails answer = false /\ hr_Body resp = httpfetch.rs_data answer /\ glen (hr_Body resp) <= maxResponseBytes /\
        hr_StatusCode resp = u32 (httpfetch.rs_StatusCode answer) /\
        hr_MultiHeaders resp = convertHeaders range_headers (httpfetch.rs_Header answer)
    | inr err => exists he, ClassifyOutboundHTTPError (Some err) = Some he /\
        resp = mkHttpAppResponse (u32 (oe_StatusCode he)) (oe_Body he) ∅
    end /\
    if hq_EncryptOutput request then
      exists keyHex key, secretsMap !! AESGCMEncryptionKey = Some keyHex /\ hex_decode keyHex = Some key /\
        AESGCMDecrypt gcm_Open (hr_Body sealed) key = Ok (hr_Body resp) /\
        hr_StatusCode sealed = hr_StatusCode resp /\ hr_MultiHeaders sealed = hr_MultiHeaders resp
    else sealed = resp.
Proof.
  intros Hgcm Hnonce Hv H. apply (Execute_Ok _ _ _ _ _ _ _ Hv) in H as (request & o & resp & sealed & Ha & Hs & Hr & Hseal & Hm).
  destruct Ha as (_ & Hu & _ & Henc & _). exists request, o, resp, sealed. split_and!; [done..| |].
  { revert Hr. destruct (Do o) as [answer|err]; [apply receive_inl | apply receive_inr]. }
  unfold seal_response in Hseal. destruct (hq_EncryptOutput request).
  - destruct (proj1 Henc eq_refl) as [keyHex Hk]. rewrite Hk in Hseal.
    destruct (encrypt_body_Ok gcm_Open _ _ _ _ Hgcm Hnonce Hseal) as (key & ? & ?). eauto 6.
  - destruct (secretsMap !! AESGCMEncryptionKey) eqn:Ek; [|by injection Hseal].
    by discriminate (proj2 Henc (ex_intro _ _ eq_refl)).
Qed.

End App.

(** ** Instances

    A template engine with one variable, a client that echoes the body it is sent,
    and a cipher that reverses the plaintext. *)

Definition toy_Parse (t : bytes) : option bytes := Some t.
Definition toy_Render (t : bytes) (data : gmap string bytes) : option bytes :=
  if bool_decide (t = bs "{{.token}}") then data !! "token"%string else Some t.
Definition toy_Do (o : outgoing) : httpfetch.http_response + error :=
  inl (httpfetch.mkHttpResponse 200 {[bs "Server" := [map byte_of_Z [255; 254; 65]]]} (rev (httpfetch.rq_Body (og_request o))) false).
Definition toy_Seal (_ _ m : bytes) : bytes := rev m.
Definition toy_Open (_ _ c : bytes) : option bytes := Some (rev c).
Definition toy_hex : bytes := bs "000102030405060708090a0b0c0d0e0f".
Definition toy_nonce : bytes := repeat (byte_of_Z 7) 12.
Definition toy_input : Request :=
  mkHttpAppRequest (bs "https://example.com") (bs "POST") (Some (BodyString (bs "{{.token}}"))) [(bs "X-Auth", Some [bs "{{.token}}"])]
    ∅ [] None true.
Definition toy_secrets (key : bytes) : gmap string bytes := {["token"%string := bs "s3cret"; AESGCMEncryptionKey := key]}.
Definition toy_order (key : bytes) : list (string * bytes) := [("token"%string, bs "s3cret"); (AESGCMEncryptionKey, key)].
Definition toy_Marshal (r : Response) : result string bytes := Ok (hr_Body r).
Definition toy_text {A} (_ : A) : string := "".

Definition toy_Execute (key : bytes) :=
  Execute toy_Parse toy_Render (fun _ _ => true) (fun _ => true) toy_Do toy_text toy_text map_to_list toy_Seal toy_text toy_text
    (fun _ => Ok toy_input) toy_Marshal toy_text (toy_order key) (Some toy_nonce) 0 AppIDConfidentialHTTP [] (toy_secrets key).

Lemma toy_visits key : visits (toy_order key) (toy_secrets key).
Proof.
  unfold visits, toy_order, toy_secrets. rewrite map_to_list_insert by done.
  by rewrite map_to_list_singleton.
Qed.

Lemma http_request_exact_witness : (length (toy_Execute toy_hex).1.2 <= 1)%nat.
Proof.
  exact (proj1 (http_request_exact toy_Parse toy_Render (fun _ _ => true) (fun _ => true) toy_Do toy_text toy_text map_to_list toy_Seal
    toy_text toy_text (fun _ => Ok toy_input) toy_Marshal toy_text (toy_order toy_hex) (Some toy_nonce) 0 AppIDConfidentialHTTP []
    (toy_secrets toy_hex) (toy_visits toy_hex))).
Defined.

(** Two keys, one request. *)
Lemma aes_key_confined_witness :
  (toy_Execute toy_hex).1.2 = (toy_Execute (bs "ff")).1.2 /\ length (toy_Execute toy_hex).1.2 = 1%nat.
Proof.
  split; [|by_compute].
  refine (aes_key_confined toy_Parse toy_Render (fun _ _ => true) (fun _ => true) toy_Do toy_text toy_text map_to_list toy_Seal
    toy_text toy_text (fun _ => Ok toy_input) toy_Marshal toy_text (toy_order toy_hex) (toy_order (bs "ff")) (Some toy_nonce) (Some toy_nonce) 0 0
    AppIDConfidentialHTTP [] (toy_secrets toy_hex) (toy_secrets (bs "ff")) (toy_visits _) (toy_visits _) _ _).
  - by_compute.
  - split; intros _; by_compute.
Defined.

Lemma response_headers_utf8_witness :
  convertHeaders map_to_list {[bs "Server" := [map byte_of_Z [255; 254; 65]]]} !! bs "Server" =
  Some [replacement_character ++ bs "A"].
Proof.
  rewrite (proj2 (response_headers_utf8 map_to_list {[bs "Server" := [map byte_of_Z [255; 254; 65]]]} (Permutation_refl _))).
  - by_compute.
  - apply map_Forall_singleton. by_compute.
Defined.

Definition toy_output : bytes := toy_nonce ++ rev (bs "terc3s").
Definition toy_outgoing : outgoing :=
  mkOutgoing DefaultClient (httpfetch.mkHttpRequest (bs "POST") (bs "https://example.com") (bs "s3cret") {[bs "X-Auth" := [bs "s3cret"]]} (30 * second)) true.

Lemma toy_result : (toy_Execute toy_hex).1 = (Ok toy_output, [toy_outgoing]).
Proof. vm_compute. reflexivity. Qed.

Lemma toy_nonce_length n : Some toy_nonce = Some n -> length n = gcmNonceSize.
Proof. by intros [= <-]. Qed.

(** The body in the output opens to the answer under the user's key. *)
Lemma http_output_exact_witness :
  exists request o resp sealed, (toy_Execute toy_hex).1.2 = [o] /\ Ok toy_input = Ok (E := string) request /\ toy_Marshal sealed = Ok toy_output /\ hr_Body resp = bs "terc3s".
Proof.
  destruct (http_output_exact toy_Parse toy_Render (fun _ _ => true) (fun _ => true) toy_Do toy_text toy_text map_to_list toy_Seal
    toy_text toy_text (fun _ => Ok toy_input) toy_Marshal toy_text toy_Open (toy_order toy_hex) (Some toy_nonce) 0 AppIDConfidentialHTTP []
    (toy_secrets toy_hex) toy_output (fun k n m => f_equal Some (rev_involutive m)) toy_nonce_length (toy_visits toy_hex)
    (f_equal fst toy_result)) as (request & o & resp & sealed & Hs & Hu & Hm & Hd & _).
  exists request, o, resp, sealed. assert (o = toy_outgoing) as -> by (pose proof (eq_trans (eq_sym (f_equal snd toy_result)) Hs) as E; by injection E).
  split; [exact Hs|]. split; [exact Hu|]. split; [exact Hm|]. destruct Hd as (_ & -> & _). by_compute.
Defined.
