(* ===== verification/BlockTracker.v ===== *)
(** * BlockTracker: a workflow that uses the confidential HTTP capability

    Models [src/capabilities/workflows/blocknumber-tracker/workflow.go], the sample
    workflow of the repository: it asks a node for the block number with encrypted
    output, decrypts the answer and writes the number to a contract.  The SDK, JSON
    decoding, AES-GCM and the generated contract binding are parameters ([ContractsSafety]
    gives the binding as [ReserveManager] models it); logs are left out. *)

From stdpp Require Import pretty.
From S2P Require Import Prelude Codec Text Sha256 Types Cache Services Outbound HttpApp.

Record EVMConfig := mkEVMConfig { ReserveManagerAddress : string; ChainName : string; GasLimit : Z }.
Record Config := mkConfig { Schedule : string; URL : bytes; EVMs : list EVMConfig }.

(** The value of a JSON field, as far as the workflow looks into it. *)
Inductive json_any := JString (s : bytes) | JOther.

Inductive por_error :=
| ConfidentialHTTP (e : string)
| KeyNotHex
| Decrypting (e : aes_error)
| NotJSON
| NotANumber (result : bytes)
| NoEVMClient (chain : string)
| NoReserveManager
| WritingReport (e : string).

(** How a run ends; [PorPanics] is a failed type assertion or an index out of range. *)
Inductive por_outcome := PorReturns (r : result por_error string) | PorPanics.

(** A report written to the contract at an address of a chain. *)
Record report := mkReport { rp_chain : Z; rp_contract : string; TotalMinted : Z; TotalReserve : Z }.

Definition por_body : bytes :=
  bs "{" ++ byte_of_Z 34 :: bs "method" ++ byte_of_Z 34 :: bs ":" ++ byte_of_Z 34 :: bs "{{.method}}" ++ byte_of_Z 34 ::
  bs "," ++ byte_of_Z 34 :: bs "params" ++ byte_of_Z 34 :: bs ":[]," ++ byte_of_Z 34 :: bs "id" ++ byte_of_Z 34 :: bs ":1," ++
  byte_of_Z 34 :: bs "jsonrpc" ++ byte_of_Z 34 :: bs ":" ++ byte_of_Z 34 :: bs "2.0" ++ byte_of_Z 34 :: bs "}".

Definition por_request (config : Config) : HttpApp.Request :=
  mkHttpAppRequest (URL config) (bs "POST") (Some (BodyString por_body))
    [(bs "Content-Type", Some [bs "application/json"]); (bs "Authorization", Some [bs "Basic {{.infurasecret}}"])] ∅ [] None true.

Definition por_secrets : list string := ["method"; AESGCMEncryptionKey; "infurasecret"]%string.

Definition testSymmetricKeyHex : bytes := bs "9f86d081884c7d659a2feaa0c55ad015a3bf4f1b2b0b822cd15d6c15b0f00a08".

(** [big.Int.SetString(s, 16)]: a sign is allowed, digits are needed. *)
Fixpoint hex_from (s : bytes) (acc : Z) : option Z :=
  match s with
  | [] => Some acc
  | c :: s => match hex_value c with Some d => hex_from s (acc * 16 + d) | None => None end
  end.
Definition hex_digits (s : bytes) : option Z := match s with [] => None | _ => hex_from s 0 end.
Definition SetString16 (s : bytes) : option Z :=
  match s with
  | c :: rest =>
      if Z_of_byte c =? 45 then Z.opp <$> hex_digits rest
      else if Z_of_byte c =? 43 then hex_digits rest
      else hex_digits s
  | [] => None
  end.

Section Workflow.
Variables (SendRequest : HttpApp.Request -> list string -> result string HttpApp.Response)
  (gcm_Open : bytes -> bytes -> bytes -> option bytes)
  (json_object : bytes -> option (gmap string json_any))
  (ChainSelectorFromName : string -> option Z)
  (NewReserveManager : Z -> string -> bool)
  (WriteReport : report -> result string unit).

(** The reports written are returned with the outcome. *)
Definition updateReserves (config : Config) (totalSupply totalReserveScaled : Z) : option (result por_error unit * list report) :=
  match EVMs config with
  | [] => None
  | evmCfg :: _ =>
      match ChainSelectorFromName (ChainName evmCfg) with
      | None => Some (Err (NoEVMClient (ChainName evmCfg)), [])
      | Some chain =>
          if negb (NewReserveManager chain (ReserveManagerAddress evmCfg)) then Some (Err NoReserveManager, [])
          else
            let r := mkReport chain (ReserveManagerAddress evmCfg) totalSupply totalReserveScaled in
            match WriteReport r with
            | Err e => Some (Err (WritingReport e), [])
            | Ok _ => Some (Ok tt, [r])
            end
      end
  end.

Definition doPOR (config : Config) : por_outcome * list report :=
  match SendRequest (por_request config) por_secrets with
  | Err e => (PorReturns (Err (ConfidentialHTTP e)), [])
  | Ok confOutput =>
      match hex_decode testSymmetricKeyHex with
      | None => (PorReturns (Err KeyNotHex), [])
      | Some keyBytes =>
          match AESGCMDecrypt gcm_Open (hr_Body confOutput) keyBytes with
          | Err e => (PorReturns (Err (Decrypting e)), [])
          | Ok decryptedBody =>
              match json_object decryptedBody with
              | None => (PorReturns (Err NotJSON), [])
              | Some httpOutput =>
                  match httpOutput !! "result"%string with
                  | Some (JString result) =>
                      if Nat.ltb (length result) 2 then (PorPanics, [])
                      else match SetString16 (drop 2 result) with
                      | None => (PorReturns (Err (NotANumber result)), [])
                      | Some resultNum =>
                          match updateReserves config 0 resultNum with
                          | None => (PorPanics, [])
                          | Some (Err e, rs) => (PorReturns (Err e), rs)
                          | Some (Ok _, rs) => (PorReturns (Ok (pretty resultNum)), rs)
                          end
                      end
                  | _ => (PorPanics, [])
                  end
              end
          end
      end
  end.

End Workflow.

(** ** From the node's answer to the contract *)

Definition hex_number (ds : list Z) : Z := foldl (fun n d => n * 16 + d) 0 ds.

Lemma hex_from_digits ds acc : Forall (fun d => 0 <= d < 16) ds ->
  hex_from (map hex_digit ds) acc = Some (foldl (fun n d => n * 16 + d) acc ds).
Proof. revert acc. induction ds as [|d ds IH]; intros acc; [done|]. intros [Hd Hs]%Forall_cons. cbn. rewrite hex_value_digit by done. by apply IH. Qed.

Lemma hex_digit_no_sign d : 0 <= d < 16 -> (Z_of_byte (hex_digit d) =? 45) = false /\ (Z_of_byte (hex_digit d) =? 43) = false.
Proof.
  intros Hd. assert (d ∈ seqZ 0 16) as Hin by (apply elem_of_seqZ; lia).
  clear Hd. revert d Hin. apply Forall_forall. by_compute.
Qed.

Lemma SetString16_digits ds : ds <> [] -> Forall (fun d => 0 <= d < 16) ds -> SetString16 (map hex_digit ds) = Some (hex_number ds).
Proof.
  intros Hne Hf. destruct ds as [|d ds]; [done|]. cbn [map SetString16]. pose proof Hf as [Hd _]%Forall_cons.
  destruct (hex_digit_no_sign d Hd) as [-> ->]. exact (hex_from_digits (d :: ds) 0 Hf).
Qed.

Section RoundTrip.
Variables (SendRequest : HttpApp.Request -> list string -> result string HttpApp.Response)
  (gcm_Seal : bytes -> bytes -> bytes -> bytes) (gcm_Open : bytes -> bytes -> bytes -> option bytes)
  (json_object : bytes -> option (gmap string json_any)) (ChainSelectorFromName : string -> option Z)
  (NewReserveManager : Z -> string -> bool) (WriteReport : report -> result string unit).
Hypothesis gcm_law : forall k n m, gcm_Open k n (gcm_Seal k n m) = Some m.

Abbreviation por := (doPOR SendRequest gcm_Open json_object ChainSelectorFromName NewReserveManager WriteReport).

(** The number the node answers, sealed by the enclave under the workflow's key,
    arrives in the contract: if the enclave's output is the sealing of a JSON object
    whose result is a hexadecimal number, the workflow returns that number in decimal
    and has written exactly one report, with that number as the reserve, to the
    configured contract. *)
Theorem block_number_arrives (config : Config) (e : EVMConfig) (rest : list EVMConfig) (chain : Z)
    (output : HttpApp.Response) (key nonce body : bytes) (fields : gmap string json_any) (ds : list Z) :
  SendRequest (por_request config) por_secrets = Ok output ->
  hex_decode testSymmetricKeyHex = Some key -> length nonce = gcmNonceSize -> AESGCMEncrypt gcm_Seal (Some nonce) body key = Ok (hr_Body output) ->
  json_object body = Some fields -> fields !! "result"%string = Some (JString (bs "0x" ++ map hex_digit ds)) ->
  ds <> [] -> Forall (fun d => 0 <= d < 16) ds ->
  EVMs config = e :: rest -> ChainSelectorFromName (ChainName e) = Some chain -> NewReserveManager chain (ReserveManagerAddress e) = true ->
  let r := mkReport chain (ReserveManagerAddress e) 0 (hex_number ds) in
  WriteReport r = Ok tt -> por config = (PorReturns (Ok (pretty (hex_number ds))), [r]).
Proof.
  intros Hs Hk Hn He Hj Hf Hne Hds Hevm Hc Hm r Hw. unfold doPOR, updateReserves.
  rewrite Hs, Hk, (aesgcm_roundtrip gcm_Seal gcm_Open _ _ _ _ gcm_law Hn He), Hj, Hf.
  change (drop 2 (bs "0x" ++ map hex_digit ds)) with (map hex_digit ds). rewrite SetString16_digits, Hevm, Hc, Hm by done.
  cbn [negb]. subst r. by rewrite Hw.
Qed.

(** The run panics exactly where the decrypted object has no text of two bytes under
    its result, or a number was read and no chain is configured. *)
Lemma por_panics config :
  (por config).1 = PorPanics <->
  exists output key body fields, SendRequest (por_request config) por_secrets = Ok output /\ hex_decode testSymmetricKeyHex = Some key /\
    AESGCMDecrypt gcm_Open (hr_Body output) key = Ok body /\ json_object body = Some fields /\
    match fields !! "result"%string with
    | Some (JString result) => (length result < 2)%nat \/ is_Some (SetString16 (drop 2 result)) /\ EVMs config = []
    | _ => True
    end.
Proof.
  unfold doPOR.
  destruct (SendRequest _ _) as [o|]; [|split; [done|by intros (? & ? & ? & ? & ? & _)]].
  destruct (hex_decode _) as [k|]; [|split; [done|by intros (? & ? & ? & ? & _ & ? & _)]].
  destruct (AESGCMDecrypt gcm_Open (hr_Body o) k) as [b|] eqn:Eb; [|split; [done|intros (? & ? & ? & ? & [= <-] & [= <-] & ? & _); congruence]].
  destruct (json_object b) as [m|] eqn:Ej; [|split; [done|intros (? & ? & ? & ? & [= <-] & [= <-] & Hb & Hj & _); congruence]].
  transitivity (match m !! "result"%string with
    | Some (JString result) => (length result < 2)%nat \/ is_Some (SetString16 (drop 2 result)) /\ EVMs config = []
    | _ => True end); [|split; [by intros; exists o, k, b, m|]].
  2: { intros (? & ? & ? & ? & [= <-] & [= <-] & Hb & Hj & H). rewrite Eb in Hb. injection Hb as <-. rewrite Ej in Hj. by injection Hj as <-. }
  destruct (m !! "result"%string) as [[result|]|]; [|done..]. destruct (Nat.ltb_spec (length result) 2); [split; auto|].
  destruct (SetString16 (drop 2 result)) as [n|]; [|split; [done|intros [?|[[? ?] _]]; [lia|done]]].
  unfold updateReserves. destruct (EVMs config); [split; eauto|]. split; [|intros [?|[_ ?]]; [lia|done]].
  repeat case_match; by simplify_eq/=.
Qed.

End RoundTrip.
