(* ===== verification/Contracts.v ===== *)
(** * Contracts: what the generated contract bindings share

    The bindings under [src/capabilities/workflows/contracts/evm/src/generated] are
    generated from one template; this file holds its parts: view calls at a block,
    report writing, log decoding, filters.  The ABI library, the EVM capability client and
    the runtime's report generation are parameters ([AbiLibrary], [ChainClient]).  A promise is
    the list of calls it makes and how it ends when it is awaited.  Pointers to big
    integers that the callers always set are plain integers. *)

From S2P Require Import Prelude Codec Text Utf8 Observability.

(** ** Values, arguments and promises *)

Inductive abi_value :=
| AbiUint (z : Z)
| AbiBytes (b : bytes)
| AbiFixedBytes (b : bytes)
| AbiAddress (a : bytes)
| AbiString (s : string).

Inductive abi_type := UintTy | AddressTy | StringTy | BytesTy | TupleTy.
Record abi_argument := mkArgument { arg_Name : string; arg_Type : abi_type; arg_Indexed : bool }.

(** How an awaited promise ends; [Panics] is an index out of range or a nil dereference. *)
Inductive ending (A : Type) := Resolves (r : result string A) | Panics.
Arguments Resolves {A} r.
Arguments Panics {A}.

Record ReportRequest := mkReportRequest { EncodedPayload : bytes; EncoderName : string; SigningAlgo : string; HashingAlgo : string }.

Record UpdateReserves := mkUpdateReserves { TotalMinted : Z; TotalReserve : Z }.
Record RequestReserveUpdateDecoded := mkRequestReserveUpdate { U : UpdateReserves }.
Record MessageEmittedTopics := mkMessageEmittedTopics { mt_Emitter : bytes; mt_Timestamp : option Z }.
Record MessageEmittedDecoded := mkMessageEmitted { Emitter : bytes; Timestamp : Z; Message : string }.
Record evm_Log := mkLog { log_Topics : list bytes; log_Data : bytes }.
Record TopicValues := mkTopicValues { Values : list bytes }.

(** The [ABI] strings of the two [MetaData] variables, as the inputs of their events. *)
Definition MessageEmittedInputs : list abi_argument :=
  [mkArgument "emitter" AddressTy true; mkArgument "timestamp" UintTy true; mkArgument "message" StringTy false].
Definition RequestReserveUpdateInputs : list abi_argument := [mkArgument "u" TupleTy false].

(** [common.Hash]: 32 bytes; [BytesToHash] crops from the left and pads with zeros. *)
Definition zero_hash : bytes := replicate 32 (byte_of_Z 0).
Definition BytesToHash (b : bytes) : bytes :=
  replicate (32 - length b) (byte_of_Z 0) ++ drop (length b - 32) b.

Record FilterOptions := mkFilterOptions { fo_BlockHash : bytes; fo_FromBlock : option Z; fo_ToBlock : option Z }.

Section Promises.
Context {BigInt Report GasConfig : Type}.

(** The calls a binding makes to the EVM capability and to the runtime. *)
Inductive call :=
| HeaderByNumberCall (block : BigInt)
| CallContractCall (to data : bytes) (block : BigInt)
| GenerateReportCall (req : ReportRequest)
| WriteReportCall (receiver : bytes) (report : Report) (gas : option GasConfig)
| FilterLogsCall (address : bytes) (topics : list (list bytes)) (blockHash : bytes) (from to : BigInt).

Definition promise (A : Type) : Type := list call * ending A.

Definition PromiseFromResult {A} (r : result string A) : promise A := ([], Resolves r).

(** [cre.ThenPromise] and [cre.Then]: the continuation runs on the value of a promise
    that resolved, an error is handed on. *)
Definition ThenPromise {A B} (p : promise A) (f : A -> promise B) : promise B :=
  match p.2 with
  | Panics => (p.1, Panics)
  | Resolves (Err e) => (p.1, Resolves (Err e))
  | Resolves (Ok a) => (p.1 ++ (f a).1, (f a).2)
  end.
Definition Then {A B} (p : promise A) (f : A -> ending B) : promise B := ThenPromise p (fun a => ([], f a)).

End Promises.
Arguments promise : clear implicits.
Arguments call : clear implicits.

(** ** The ABI library

    [abi.ABI] as the bindings use it.  The method outputs are typed by the ABI string
    of the contract; the calls that fill a struct take it and return it filled.  *)
Class AbiLibrary := {
  parsed_abi : Type;
  abi_JSON : string -> result string parsed_abi;
  Pack : parsed_abi -> string -> list abi_value -> result string bytes;
  Unpack_uint256 : parsed_abi -> string -> bytes -> result string (list Z);
  Unpack_bool : parsed_abi -> string -> bytes -> result string (list bool);
  Unpack_string : parsed_abi -> string -> bytes -> result string (list string);
  event_ID : parsed_abi -> string -> bytes;
  event_Inputs : parsed_abi -> string -> list abi_argument;
  tuple_type : Type;
  NewTupleType : list (string * string) -> result string tuple_type;
  Arguments_Pack : tuple_type -> UpdateReserves -> result string bytes;
  UnpackIntoReserve : parsed_abi -> RequestReserveUpdateDecoded -> string -> bytes -> result string RequestReserveUpdateDecoded;
  UnpackIntoMessage : parsed_abi -> MessageEmittedDecoded -> string -> bytes -> result string MessageEmittedDecoded;
  ParseTopicsReserve : RequestReserveUpdateDecoded -> list abi_argument -> list bytes -> result string RequestReserveUpdateDecoded;
  ParseTopicsMessage : MessageEmittedDecoded -> list abi_argument -> list bytes -> result string MessageEmittedDecoded;
  topic_arg : Type;
  hash_arg : bytes -> topic_arg;
  PrepareTopicArg : abi_argument -> abi_value -> result string topic_arg;
  MakeTopics : list (list topic_arg) -> result string (list (list bytes));
  PrepareTopics : list (list bytes) -> bytes -> list TopicValues
}.

(** The EVM capability's client and the runtime of the workflow. *)
Class ChainClient := {
  BigInt : Type;
  NewBigIntFromInt : option Z -> BigInt;
  FinalizedBlockNumber : BigInt;
  Report : Type;
  GasConfig : Type;
  WriteReportReply : Type;
  FilterLogsReply : Type;
  (** [None] is a nil reply, [Some None] a reply without a header. *)
  HeaderByNumber : BigInt -> result string (option (option BigInt));
  CallContract : bytes -> bytes -> BigInt -> result string (option bytes);
  GenerateReport : ReportRequest -> result string Report;
  client_WriteReport : bytes -> Report -> option GasConfig -> result string WriteReportReply;
  FilterLogs : bytes -> list (list bytes) -> bytes -> BigInt -> BigInt -> result string FilterLogsReply
}.

(** ** What the two bindings share *)

Section Shared.
Context `{AbiLibrary, ChainClient}.

Abbreviation Promise := (promise BigInt Report GasConfig).

Definition ask {A} (c : call BigInt Report GasConfig) (r : result string A) : Promise A := ([c], Resolves r).

(** A method's output: the first value, through JSON into the result type. *)
Definition first_output {A B} (vals : result string (list A)) (json : A -> B) : ending B :=
  match vals with
  | Err e => Resolves (Err e)
  | Ok [] => Panics
  | Ok (v :: _) => Resolves (Ok (json v))
  end.

(** A view call of either binding: at the given block, or at the finalized one. *)
Definition block_promise (blockNumber : option Z) : Promise BigInt :=
  match blockNumber with
  | None =>
      Then (ask (HeaderByNumberCall FinalizedBlockNumber) (HeaderByNumber FinalizedBlockNumber)) (fun finalizedBlock =>
        match finalizedBlock with
        | Some (Some bn) => Resolves (Ok bn)
        | _ => Resolves (Err "failed to get finalized block header"%string)
        end)
  | Some n => PromiseFromResult (Ok (NewBigIntFromInt (Some n)))
  end.

Definition view_call {A} (address : bytes) (calldata : result string bytes) (decode : bytes -> ending A) (blockNumber : option Z) : Promise A :=
  match calldata with
  | Err e => PromiseFromResult (Err e)
  | Ok calldata =>
      Then (ThenPromise (block_promise blockNumber) (fun bn => ask (CallContractCall address calldata bn) (CallContract address calldata bn)))
        (fun response => match response with None => Panics | Some data => decode data end)
  end.

Definition write_report (address : bytes) (report : Report) (gasConfig : option GasConfig) : Promise WriteReportReply :=
  ask (WriteReportCall address report gasConfig) (client_WriteReport address report gasConfig).

(** [UnpackError]: there are no error types, so every selector is unknown; [data[:4]]
    panics on fewer than four bytes. *)
Definition unpack_error (data : bytes) : ending unit :=
  if Nat.ltb (length data) 4 then Panics else Resolves (Err "unknown error selector"%string).

(** The indexed arguments of an event, with tuples as their hash. *)
Definition indexed_arguments (inputs : list abi_argument) : list abi_argument :=
  map (fun a => match arg_Type a with TupleTy => mkArgument (arg_Name a) BytesTy (arg_Indexed a) | _ => a end)
    (filter (fun a => arg_Indexed a = true) inputs).

(** Decoding a log: the data, then the topics after the first; [topics[1:]] panics on
    a log that has none. *)
Definition decode_log {E} (unpack : E -> bytes -> result string E) (parse : E -> list abi_argument -> list bytes -> result string E)
    (inputs : list abi_argument) (zero : E) (log : evm_Log) : ending E :=
  match unpack zero (log_Data log) with
  | Err e => Resolves (Err e)
  | Ok event =>
      match map BytesToHash (log_Topics log) with
      | [] => Panics
      | _ :: topics => Resolves (parse event (indexed_arguments inputs) topics)
      end
  end.

(** [Adapt] of a trigger: the decoded log with the original. *)
Definition adapt {E} (name : string) (decode : evm_Log -> ending E) (l : evm_Log) : ending (evm_Log * E) :=
  match decode l with
  | Panics => Panics
  | Resolves (Err e) => Resolves (Err ("failed to decode " ++ name ++ " log: " ++ e)%string)
  | Resolves (Ok d) => Resolves (Ok (l, d))
  end.

Definition filter_logs (address topic : bytes) (options : FilterOptions) : Promise FilterLogsReply :=
  let from := NewBigIntFromInt (fo_FromBlock options) in
  let to := NewBigIntFromInt (fo_ToBlock options) in
  ask (FilterLogsCall address [[topic]] (fo_BlockHash options) from to) (FilterLogs address [[topic]] (fo_BlockHash options) from to).

End Shared.

Record FilterLogTriggerRequest := mkLogTrigger { ft_ChainSelector : Z; ft_Addresses : list bytes; ft_Topics : list TopicValues; ft_Confidence : Z }.
