(* ===== verification/ReserveManager.v ===== *)
(** * ReserveManager: the binding of the reserve manager contract

    Models [generated/reserve_manager/ReserveManager.go] under
    [src/capabilities/workflows/contracts/evm/src]: the codec, the two view calls, the
    report writer, the decoder of its event, the log trigger and the log filter. *)

From S2P Require Import Prelude Contracts.

Section Binding.
Context `{AbiLibrary, ChainClient}.

(** [ReserveManagerMetaData.ABI] *)
Variable MetaData_ABI : string.

Record Codec := mkCodec { codec_abi : parsed_abi }.
Record Binding := mkBinding { Address : bytes; ABI : parsed_abi; binding_Codec : Codec }.

Definition NewCodec : result string Codec := let? parsed := abi_JSON MetaData_ABI in Ok (mkCodec parsed).

Definition NewReserveManager (address : bytes) : result string Binding :=
  let? parsed := abi_JSON MetaData_ABI in
  let? codec := NewCodec in
  Ok (mkBinding address parsed codec).

Definition EncodeLastTotalMintedMethodCall (c : Codec) := Pack (codec_abi c) "lastTotalMinted" [].
Definition DecodeLastTotalMintedMethodOutput (c : Codec) (data : bytes) : ending Z :=
  first_output (Unpack_uint256 (codec_abi c) "lastTotalMinted" data) (fun z => z).
Definition EncodeLastTotalReserveMethodCall (c : Codec) := Pack (codec_abi c) "lastTotalReserve" [].
Definition DecodeLastTotalReserveMethodOutput (c : Codec) (data : bytes) : ending Z :=
  first_output (Unpack_uint256 (codec_abi c) "lastTotalReserve" data) (fun z => z).
Definition EncodeOnReportMethodCall (c : Codec) (arg0 report : bytes) := Pack (codec_abi c) "onReport" [AbiBytes arg0; AbiBytes report].
Definition EncodeSupportsInterfaceMethodCall (c : Codec) (interfaceId : bytes) := Pack (codec_abi c) "supportsInterface" [AbiFixedBytes interfaceId].
Definition DecodeSupportsInterfaceMethodOutput (c : Codec) (data : bytes) : ending bool :=
  first_output (Unpack_bool (codec_abi c) "supportsInterface" data) (fun b => b).

Definition EncodeUpdateReservesStruct (input : UpdateReserves) : result string bytes :=
  match NewTupleType [("totalMinted", "uint256"); ("totalReserve", "uint256")]%string with
  | Err e => Err ("failed to create tuple type for UpdateReserves: " ++ e)%string
  | Ok tupleType => Arguments_Pack tupleType input
  end.

Definition RequestReserveUpdateLogHash (c : Codec) : bytes := event_ID (codec_abi c) "RequestReserveUpdate".

(** The event has no indexed field, so the filters are not looked at. *)
Definition EncodeRequestReserveUpdateTopics (evt_ID : bytes) : result string (list TopicValues) :=
  let? rawTopics := MakeTopics [] in
  Ok (mkTopicValues [evt_ID] ::
      map (fun hashList => mkTopicValues (map (fun h => if bool_decide (h = zero_hash) then [] else h) hashList)) rawTopics).

Definition DecodeRequestReserveUpdate (c : Codec) (log : evm_Log) : ending RequestReserveUpdateDecoded :=
  decode_log (fun ev => UnpackIntoReserve (codec_abi c) ev "RequestReserveUpdate") ParseTopicsReserve
    (event_Inputs (codec_abi c) "RequestReserveUpdate") (mkRequestReserveUpdate (mkUpdateReserves 0 0)) log.

Definition LastTotalMinted (c : Binding) : option Z -> promise BigInt Report GasConfig Z :=
  view_call (Address c) (EncodeLastTotalMintedMethodCall (binding_Codec c)) (DecodeLastTotalMintedMethodOutput (binding_Codec c)).
Definition LastTotalReserve (c : Binding) : option Z -> promise BigInt Report GasConfig Z :=
  view_call (Address c) (EncodeLastTotalReserveMethodCall (binding_Codec c)) (DecodeLastTotalReserveMethodOutput (binding_Codec c)).

Definition reserves_request (encoded : bytes) : ReportRequest := mkReportRequest encoded "evm" "ecdsa" "keccak256".

Definition WriteReport (c : Binding) (report : Report) (gasConfig : option GasConfig) := write_report (Address c) report gasConfig.

Definition WriteReportFromUpdateReserves (c : Binding) (input : UpdateReserves) (gasConfig : option GasConfig)
    : promise BigInt Report GasConfig WriteReportReply :=
  match EncodeUpdateReservesStruct input with
  | Err e => PromiseFromResult (Err e)
  | Ok encoded =>
      ThenPromise (ask (GenerateReportCall (reserves_request encoded)) (GenerateReport (reserves_request encoded)))
        (fun report => write_report (Address c) report gasConfig)
  end.

Definition UnpackError (data : bytes) : ending unit := unpack_error data.

Definition Adapt (c : Binding) (l : evm_Log) := adapt "RequestReserveUpdate" (DecodeRequestReserveUpdate (binding_Codec c)) l.

Definition LogTriggerRequestReserveUpdateLog (c : Binding) (chainSelector confidence : Z) : result string FilterLogTriggerRequest :=
  match EncodeRequestReserveUpdateTopics (event_ID (ABI c) "RequestReserveUpdate") with
  | Err e => Err ("failed to encode topics for RequestReserveUpdate: " ++ e)%string
  | Ok topics => Ok (mkLogTrigger chainSelector [Address c] topics confidence)
  end.

(** Without options the code reads [options.ToBlock] of the nil options. *)
Definition FilterLogsRequestReserveUpdate (c : Binding) (options : option FilterOptions) : promise BigInt Report GasConfig FilterLogsReply :=
  match options with
  | None => ([], Panics)
  | Some options => filter_logs (Address c) (RequestReserveUpdateLogHash (binding_Codec c)) options
  end.

End Binding.
