(* ===== verification/MessageEmitter.v ===== *)
(** * MessageEmitter: the binding of the message emitter contract

    Models [generated/message_emitter/MessageEmitter.go] under
    [src/capabilities/workflows/contracts/evm/src]: the codec, the three view calls, the
    topics of its event, the decoder, the log trigger and the log filter. *)

From S2P Require Import Prelude Observability Contracts.

Section Binding.
Context `{AbiLibrary, ChainClient}.

(** [MessageEmitterMetaData.ABI] *)
Variable MetaData_ABI : string.

Record Codec := mkCodec { codec_abi : parsed_abi }.
Record Binding := mkBinding { Address : bytes; ABI : parsed_abi; binding_Codec : Codec }.

Definition NewCodec : result string Codec := let? parsed := abi_JSON MetaData_ABI in Ok (mkCodec parsed).

Definition NewMessageEmitter (address : bytes) : result string Binding :=
  let? parsed := abi_JSON MetaData_ABI in
  let? codec := NewCodec in
  Ok (mkBinding address parsed codec).

Definition EncodeEmitMessageMethodCall (c : Codec) (message : string) := Pack (codec_abi c) "emitMessage" [AbiString message].
Definition EncodeGetLastMessageMethodCall (c : Codec) (emitter : bytes) := Pack (codec_abi c) "getLastMessage" [AbiAddress emitter].
Definition DecodeGetLastMessageMethodOutput (c : Codec) (data : bytes) : ending string :=
  first_output (Unpack_string (codec_abi c) "getLastMessage" data) json_string.
Definition EncodeGetMessageMethodCall (c : Codec) (emitter : bytes) (timestamp : Z) :=
  Pack (codec_abi c) "getMessage" [AbiAddress emitter; AbiUint timestamp].
Definition DecodeGetMessageMethodOutput (c : Codec) (data : bytes) : ending string :=
  first_output (Unpack_string (codec_abi c) "getMessage" data) json_string.
Definition EncodeTypeAndVersionMethodCall (c : Codec) := Pack (codec_abi c) "typeAndVersion" [].
Definition DecodeTypeAndVersionMethodOutput (c : Codec) (data : bytes) : ending string :=
  first_output (Unpack_string (codec_abi c) "typeAndVersion" data) json_string.

Definition MessageEmittedLogHash (c : Codec) : bytes := event_ID (codec_abi c) "MessageEmitted".

(** One rule of [EncodeMessageEmittedTopics]: the zero hash for a filter that leaves the
    field out.  [evt.Inputs[i]] is only read for a filter that has it. *)
Fixpoint topic_rule (input : option abi_argument) (fields : list (option abi_value)) : ending (list topic_arg) :=
  match fields with
  | [] => Resolves (Ok [])
  | None :: fields =>
      match topic_rule input fields with Resolves (Ok rule) => Resolves (Ok (hash_arg zero_hash :: rule)) | e => e end
  | Some v :: fields =>
      match input with
      | None => Panics
      | Some arg =>
          match PrepareTopicArg arg v with
          | Err e => Resolves (Err e)
          | Ok fieldVal => match topic_rule input fields with Resolves (Ok rule) => Resolves (Ok (fieldVal :: rule)) | e => e end
          end
      end
  end.

Definition zero_address : bytes := replicate 20 (byte_of_Z 0).
Definition emitter_field (v : MessageEmittedTopics) : option abi_value :=
  if bool_decide (mt_Emitter v = zero_address) then None else Some (AbiAddress (mt_Emitter v)).
Definition timestamp_field (v : MessageEmittedTopics) : option abi_value := AbiUint <$> mt_Timestamp v.

Definition EncodeMessageEmittedTopics (evt_Inputs : list abi_argument) (evt_ID : bytes) (values : list MessageEmittedTopics)
    : ending (list TopicValues) :=
  match topic_rule (evt_Inputs !! 0%nat) (map emitter_field values) with
  | Panics => Panics
  | Resolves (Err e) => Resolves (Err e)
  | Resolves (Ok emitterRule) =>
      match topic_rule (evt_Inputs !! 1%nat) (map timestamp_field values) with
      | Panics => Panics
      | Resolves (Err e) => Resolves (Err e)
      | Resolves (Ok timestampRule) =>
          Resolves (let? rawTopics := MakeTopics [emitterRule; timestampRule] in Ok (PrepareTopics rawTopics evt_ID))
      end
  end.

Definition DecodeMessageEmitted (c : Codec) (log : evm_Log) : ending MessageEmittedDecoded :=
  decode_log (fun ev => UnpackIntoMessage (codec_abi c) ev "MessageEmitted") ParseTopicsMessage
    (event_Inputs (codec_abi c) "MessageEmitted") (mkMessageEmitted zero_address 0 "") log.

Definition GetLastMessage (c : Binding) (emitter : bytes) : option Z -> promise BigInt Report GasConfig string :=
  view_call (Address c) (EncodeGetLastMessageMethodCall (binding_Codec c) emitter) (DecodeGetLastMessageMethodOutput (binding_Codec c)).
Definition GetMessage (c : Binding) (emitter : bytes) (timestamp : Z) : option Z -> promise BigInt Report GasConfig string :=
  view_call (Address c) (EncodeGetMessageMethodCall (binding_Codec c) emitter timestamp) (DecodeGetMessageMethodOutput (binding_Codec c)).
Definition TypeAndVersion (c : Binding) : option Z -> promise BigInt Report GasConfig string :=
  view_call (Address c) (EncodeTypeAndVersionMethodCall (binding_Codec c)) (DecodeTypeAndVersionMethodOutput (binding_Codec c)).

Definition WriteReport (c : Binding) (report : Report) (gasConfig : option GasConfig) := write_report (Address c) report gasConfig.
Definition UnpackError (data : bytes) : ending unit := unpack_error data.

Definition Adapt (c : Binding) (l : evm_Log) := adapt "MessageEmitted" (DecodeMessageEmitted (binding_Codec c)) l.

Definition LogTriggerMessageEmittedLog (c : Binding) (chainSelector confidence : Z) (filters : list MessageEmittedTopics)
    : ending FilterLogTriggerRequest :=
  match EncodeMessageEmittedTopics (event_Inputs (ABI c) "MessageEmitted") (event_ID (ABI c) "MessageEmitted") filters with
  | Panics => Panics
  | Resolves (Err e) => Resolves (Err ("failed to encode topics for MessageEmitted: " ++ e)%string)
  | Resolves (Ok topics) => Resolves (Ok (mkLogTrigger chainSelector [Address c] topics confidence))
  end.

Definition FilterLogsMessageEmitted (c : Binding) (options : option FilterOptions)
    : result string (promise BigInt Report GasConfig FilterLogsReply) :=
  match options with
  | None => Err "FilterLogs options are required."%string
  | Some options => Ok (filter_logs (Address c) (MessageEmittedLogHash (binding_Codec c)) options)
  end.

End Binding.
