(* ===== verification/ContractsSafety.v ===== *)
(** * ContractsSafety: what a workflow reads from and writes to a contract

    The theorems about the bindings of [Contracts]: a view call returns the contract's
    value at the block asked for, a log decodes to the event that was emitted, the
    report of the sample workflow carries the number the enclave fetched. *)

From stdpp Require Import pretty.
From S2P Require Import Prelude Codec Text Utf8 Observability Sha256 Types Cache Services Outbound HttpApp BlockTracker Contracts ReserveManager MessageEmitter.

(** ** Promises *)

Section Reads.
Context `{AbiLibrary, ChainClient}.

(** The block a view call is made at. *)
Definition block_at (blockNumber : option Z) (b : BigInt) : Prop :=
  match blockNumber with
  | Some n => b = NewBigIntFromInt (Some n)
  | None => HeaderByNumber FinalizedBlockNumber = Ok (Some (Some b))
  end.

Definition block_calls (blockNumber : option Z) : list (call BigInt Report GasConfig) :=
  match blockNumber with Some _ => [] | None => [HeaderByNumberCall FinalizedBlockNumber] end.

Lemma block_promise_ok blockNumber b : block_at blockNumber b -> block_promise blockNumber = (block_calls blockNumber, Resolves (Ok b)).
Proof. destruct blockNumber; cbn; [by intros ->|]. intros E. unfold block_promise, Then, ThenPromise, ask. cbn. by rewrite E. Qed.

Lemma block_promise_inv blockNumber b : (block_promise blockNumber).2 = Resolves (Ok b) -> block_at blockNumber b.
Proof.
  destruct blockNumber; cbn; [by intros [= <-]|]. unfold Then, ThenPromise, ask. cbn.
  destruct (HeaderByNumber _) as [[[c|]|]|]; cbn; by intros [= <-].
Qed.

Lemma view_call_ok {A} address cd (decode : bytes -> ending A) blockNumber b data :
  block_at blockNumber b -> CallContract address cd b = Ok (Some data) ->
  view_call address (Ok cd) decode blockNumber = (block_calls blockNumber ++ [CallContractCall address cd b], decode data).
Proof.
  intros Hb Hc. unfold view_call, Then, ThenPromise at 1 2. rewrite (block_promise_ok _ _ Hb). unfold ask. cbn. rewrite Hc. cbn. by rewrite app_nil_r.
Qed.

(** A view call gives a value exactly where the block is known, the contract answers
    there and the answer decodes to the value. *)
Lemma view_call_resolves {A} address calldata (decode : bytes -> ending A) blockNumber v :
  (view_call address calldata decode blockNumber).2 = Resolves (Ok v) <->
  exists cd b data, calldata = Ok cd /\ block_at blockNumber b /\ CallContract address cd b = Ok (Some data) /\ decode data = Resolves (Ok v).
Proof.
  split; [|intros (cd & b & data & -> & Hb & Hc & Hd); by rewrite (view_call_ok _ _ _ _ _ _ Hb Hc)].
  destruct calldata as [cd|]; [|done]. unfold view_call, Then, ThenPromise at 1 2, ask.
  destruct (block_promise blockNumber).2 as [[b|]|] eqn:E; [|done..]. cbn.
  destruct (CallContract address cd b) as [[data|]|] eqn:Ec; [|done..]. cbn. intros Hd. apply block_promise_inv in E. by exists cd, b, data.
Qed.

Lemma json_string_exact s : json_string s = s <-> utf8_Valid (bs s) = true.
Proof. split; [|apply json_string_valid]. intros <-. unfold json_string. rewrite bs_string_of. apply coerce_Valid. Qed.

(** The contract at an address answers a method with some returned bytes at a block. *)
Definition answers (abi : parsed_abi) (address : bytes) (method : string) (args : list abi_value) (b : BigInt) (data : bytes) : Prop :=
  exists cd, Pack abi method args = Ok cd /\ CallContract address cd b = Ok (Some data).

(** The calls of a view: those for the block, and the packed call at that block. *)
Definition view_calls (abi : parsed_abi) (address : bytes) (method : string) (args : list abi_value) (blockNumber : option Z) (b : BigInt)
    (calls : list (call BigInt Report GasConfig)) : Prop :=
  exists cd, Pack abi method args = Ok cd /\ calls = block_calls blockNumber ++ [CallContractCall address cd b].

Lemma view_answers {A} abi address method args (decode : bytes -> ending A) blockNumber b data v :
  block_at blockNumber b -> answers abi address method args b data -> decode data = Resolves (Ok v) ->
  exists calls, view_call address (Pack abi method args) decode blockNumber = (calls, Resolves (Ok v)) /\
    view_calls abi address method args blockNumber b calls.
Proof.
  intros Hb (cd & Hp & Hc) Hd. rewrite Hp, (view_call_ok _ _ _ _ _ _ Hb Hc), Hd. eexists. split; [done|]. by exists cd.
Qed.

(** The documented encoding of a method's single output: what [Unpack] gives back for
    the bytes a contract returns. *)
Variables (encode_uint256 : Z -> bytes) (encode_string : string -> bytes).
Hypothesis uint256_law : forall abi method z, 0 <= z < 2 ^ 256 -> Unpack_uint256 abi method (encode_uint256 z) = Ok [z].
Hypothesis string_law : forall abi method s, Unpack_string abi method (encode_string s) = Ok [s].

(** A read of a number and of a text, at the block asked for or at the finalized one:
    the number arrives as it is, the text with every byte that is not UTF-8 replaced,
    hence unchanged exactly if it is UTF-8; the calls made are those for the block
    and one call to the contract at that block. *)
Theorem reads_return_contract_value (r : ReserveManager.Binding) (m : MessageEmitter.Binding)
    (blockNumber : option Z) (b : BigInt) (reserve : Z) (emitter : bytes) (timestamp : Z) (message : string) :
  block_at blockNumber b -> 0 <= reserve < 2 ^ 256 ->
  let rabi := ReserveManager.codec_abi (ReserveManager.binding_Codec r) in
  let mabi := MessageEmitter.codec_abi (MessageEmitter.binding_Codec m) in
  let margs := [AbiAddress emitter; AbiUint timestamp] in
  answers rabi (ReserveManager.Address r) "lastTotalReserve" [] b (encode_uint256 reserve) ->
  answers mabi (MessageEmitter.Address m) "getMessage" margs b (encode_string message) ->
  (exists calls, ReserveManager.LastTotalReserve r blockNumber = (calls, Resolves (Ok reserve)) /\
     view_calls rabi (ReserveManager.Address r) "lastTotalReserve" [] blockNumber b calls) /\
  (exists calls text, MessageEmitter.GetMessage m emitter timestamp blockNumber = (calls, Resolves (Ok text)) /\
     view_calls mabi (MessageEmitter.Address m) "getMessage" margs blockNumber b calls /\
     utf8_Valid (bs text) = true /\ (text = message <-> utf8_Valid (bs message) = true)).
Proof.
  intros Hb Hr rabi mabi margs Ha Hm. split.
  - apply (view_answers _ _ _ _ _ _ _ _ _ Hb Ha). unfold ReserveManager.DecodeLastTotalReserveMethodOutput. by rewrite uint256_law.
  - destruct (view_answers _ _ _ _ (MessageEmitter.DecodeGetMessageMethodOutput (MessageEmitter.binding_Codec m)) _ _ _ (json_string message) Hb Hm)
      as (calls & E & Hc); [unfold MessageEmitter.DecodeGetMessageMethodOutput; by rewrite string_law|].
    exists calls, (json_string message). split_and!; [done|done| |apply json_string_exact].
    unfold json_string. rewrite bs_string_of. apply coerce_Valid.
Qed.

End Reads.

(** ** Logs *)

Lemma BytesToHash_32 h : length h = 32%nat -> BytesToHash h = h.
Proof. intros Hl. unfold BytesToHash. by rewrite Hl. Qed.

Lemma length_BytesToHash b : length (BytesToHash b) = 32%nat.
Proof. unfold BytesToHash. rewrite length_app, length_replicate, length_drop. lia. Qed.

Lemma indexed_MessageEmitted : indexed_arguments MessageEmittedInputs = take 2 MessageEmittedInputs.
Proof. done. Qed.

Section Logs.
Context `{AbiLibrary}.
Variables (address_topic : bytes -> bytes) (uint256_topic : Z -> bytes) (message_data : string -> bytes).
Variable c : MessageEmitter.Codec.
Hypothesis inputs_law : event_Inputs (MessageEmitter.codec_abi c) "MessageEmitted" = MessageEmittedInputs.
Hypothesis topic_lengths : forall a t, length (address_topic a) = 32%nat /\ length (uint256_topic t) = 32%nat.
Hypothesis data_law : forall ev m,
  UnpackIntoMessage (MessageEmitter.codec_abi c) ev "MessageEmitted" (message_data m) = Ok (mkMessageEmitted (Emitter ev) (Timestamp ev) m).
Hypothesis topics_law : forall ev a t, length a = 20%nat -> 0 <= t < 2 ^ 256 ->
  ParseTopicsMessage ev (take 2 MessageEmittedInputs) [address_topic a; uint256_topic t] = Ok (mkMessageEmitted a t (Message ev)).

(** A log of the contract decodes to the event that was emitted, and [Adapt] keeps the
    log beside it. *)
Theorem emitted_log_decodes (id emitter : bytes) (timestamp : Z) (message : string) :
  length emitter = 20%nat -> 0 <= timestamp < 2 ^ 256 ->
  let log := mkLog [id; address_topic emitter; uint256_topic timestamp] (message_data message) in
  MessageEmitter.DecodeMessageEmitted c log = Resolves (Ok (mkMessageEmitted emitter timestamp message)) /\
  adapt "MessageEmitted" (MessageEmitter.DecodeMessageEmitted c) log = Resolves (Ok (log, mkMessageEmitted emitter timestamp message)).
Proof.
  intros He Ht log. destruct (topic_lengths emitter timestamp) as [Ha Hu].
  assert (MessageEmitter.DecodeMessageEmitted c log = Resolves (Ok (mkMessageEmitted emitter timestamp message))) as E.
  { unfold MessageEmitter.DecodeMessageEmitted, decode_log. cbn [log log_Data log_Topics map].
    rewrite data_law, inputs_law, indexed_MessageEmitted, !(BytesToHash_32 (_ _)) by done. by rewrite topics_law. }
  split; [done|]. unfold adapt. by rewrite E.
Qed.

(** Decoding panics exactly for a log without topics whose data unpacks. *)
Lemma decode_log_panics {E} unpack parse inputs (zero : E) log :
  decode_log unpack parse inputs zero log = Panics <-> log_Topics log = [] /\ exists ev, unpack zero (log_Data log) = Ok ev.
Proof.
  unfold decode_log. destruct (unpack zero _) as [ev|]; [|split; [done|by intros [_ [? ?]]]].
  destruct (log_Topics log); cbn; split; naive_solver.
Qed.
End Logs.

(** ** The sample workflow's report *)

Section Report.
Context `{AbiLibrary}.
Variable client : Z -> ChainClient.
Variables (MetaData_ABI : string) (HexToAddress : string -> bytes).

Abbreviation report_promise chain r b :=
  (@ReserveManager.WriteReportFromUpdateReserves _ (client chain) b
    (mkUpdateReserves (BlockTracker.TotalMinted r) (BlockTracker.TotalReserve r)) None).

(** The binding as [updateReserves] uses it. *)
Definition workflow_NewReserveManager (chain : Z) (address : string) : bool :=
  is_ok (ReserveManager.NewReserveManager MetaData_ABI (HexToAddress address)).

Definition workflow_WriteReport (r : report) : result string unit :=
  let? b := ReserveManager.NewReserveManager MetaData_ABI (HexToAddress (rp_contract r)) in
  match (report_promise (rp_chain r) r b).2 with
  | Resolves (Ok _) => Ok tt
  | Resolves (Err e) => Err e
  | Panics => Err "panic"%string
  end.

Lemma write_reserves_never_panics chain r b : (report_promise chain r b).2 <> Panics.
Proof.
  unfold ReserveManager.WriteReportFromUpdateReserves. destruct (ReserveManager.EncodeUpdateReservesStruct _); [|done].
  unfold ThenPromise, ask. cbn. by destruct (GenerateReport _).
Qed.

Lemma write_reserves_calls chain b (u : UpdateReserves) payload rep reply :
  ReserveManager.EncodeUpdateReservesStruct u = Ok payload ->
  @GenerateReport (client chain) (ReserveManager.reserves_request payload) = Ok rep ->
  @client_WriteReport (client chain) (ReserveManager.Address b) rep None = Ok reply ->
  @ReserveManager.WriteReportFromUpdateReserves _ (client chain) b u None =
    ([GenerateReportCall (ReserveManager.reserves_request payload); WriteReportCall (ReserveManager.Address b) rep None], Resolves (Ok reply)).
Proof.
  intros Ep Eg Ew. unfold ReserveManager.WriteReportFromUpdateReserves. rewrite Ep. unfold ThenPromise, ask, write_report, ask. cbn. by rewrite Eg, Ew.
Qed.

Variables (SendRequest : HttpApp.Request -> list string -> result string HttpApp.Response)
  (gcm_Seal : bytes -> bytes -> bytes -> bytes) (gcm_Open : bytes -> bytes -> bytes -> option bytes)
  (json_object : bytes -> option (gmap string json_any)) (ChainSelectorFromName : string -> option Z)
  (contract_decode : bytes -> option UpdateReserves).
Hypothesis gcm_law : forall k n m, gcm_Open k n (gcm_Seal k n m) = Some m.
Hypothesis pack_law : forall tt u, NewTupleType [("totalMinted", "uint256"); ("totalReserve", "uint256")]%string = Ok tt ->
  0 <= TotalMinted u < 2 ^ 256 -> 0 <= TotalReserve u < 2 ^ 256 ->
  exists p, Arguments_Pack tt u = Ok p /\ contract_decode p = Some u.

(** C37 From the enclave's sealed answer to the chain: if the enclave's output seals a JSON
    object whose result is a hexadecimal number below [2^256], and the runtime signs and the
    chain takes a report, then the workflow returns the number and the chain was
    asked for exactly two things, a report over a payload that the contract decodes to
    zero and that number, and writing this report to the configured address. *)
Theorem por_report_reaches_contract (config : Config) (e : EVMConfig) (rest : list EVMConfig) (chain : Z) (parsed : parsed_abi)
    (output : HttpApp.Response) (key nonce body : bytes) (fields : gmap string json_any) (ds : list Z) (tt : tuple_type) :
  SendRequest (por_request config) por_secrets = Ok output ->
  hex_decode testSymmetricKeyHex = Some key -> length nonce = gcmNonceSize -> AESGCMEncrypt gcm_Seal (Some nonce) body key = Ok (hr_Body output) ->
  json_object body = Some fields -> fields !! "result"%string = Some (JString (bs "0x" ++ map hex_digit ds)) ->
  ds <> [] -> Forall (fun d => 0 <= d < 16) ds -> 0 <= hex_number ds < 2 ^ 256 ->
  EVMs config = e :: rest -> ChainSelectorFromName (ChainName e) = Some chain ->
  abi_JSON MetaData_ABI = Ok parsed -> NewTupleType [("totalMinted", "uint256"); ("totalReserve", "uint256")]%string = Ok tt ->
  (forall payload, exists rep reply, @GenerateReport (client chain) (ReserveManager.reserves_request payload) = Ok rep /\
     @client_WriteReport (client chain) (HexToAddress (ReserveManagerAddress e)) rep None = Ok reply) ->
  exists r b payload rep, doPOR SendRequest gcm_Open json_object ChainSelectorFromName workflow_NewReserveManager workflow_WriteReport config
      = (PorReturns (Ok (pretty (hex_number ds))), [r]) /\
    ReserveManager.NewReserveManager MetaData_ABI (HexToAddress (rp_contract r)) = Ok b /\ rp_chain r = chain /\ rp_contract r = ReserveManagerAddress e /\
    (report_promise chain r b).1 =
      [GenerateReportCall (ReserveManager.reserves_request payload); WriteReportCall (HexToAddress (ReserveManagerAddress e)) rep None] /\
    contract_decode payload = Some (mkUpdateReserves 0 (hex_number ds)).
Proof.
  intros Hs Hk Hn He Hj Hf Hne Hds Hrange Hevm Hc Hp Ht Hchain.
  destruct (pack_law tt (mkUpdateReserves 0 (hex_number ds)) Ht) as (payload & Epack & Edec); [cbn; lia|done|].
  destruct (Hchain payload) as (rep & reply & Eg & Ew).
  set (b := ReserveManager.mkBinding (HexToAddress (ReserveManagerAddress e)) parsed (ReserveManager.mkCodec parsed)).
  assert (ReserveManager.NewReserveManager MetaData_ABI (HexToAddress (ReserveManagerAddress e)) = Ok b) as Hb.
  { unfold ReserveManager.NewReserveManager, ReserveManager.NewCodec. by rewrite Hp. }
  assert (ReserveManager.EncodeUpdateReservesStruct (mkUpdateReserves 0 (hex_number ds)) = Ok payload) as Henc.
  { unfold ReserveManager.EncodeUpdateReservesStruct. by rewrite Ht. }
  set (r := mkReport chain (ReserveManagerAddress e) 0 (hex_number ds)).
  pose proof (write_reserves_calls chain b _ _ _ _ Henc Eg Ew) as Hcalls.
  exists r, b, payload, rep. split_and!; [|done|done|done|by subst r b; cbn [BlockTracker.TotalMinted BlockTracker.TotalReserve ReserveManager.Address]; rewrite Hcalls|done].
  eapply (block_number_arrives SendRequest gcm_Seal gcm_Open json_object ChainSelectorFromName); eauto.
  - unfold workflow_NewReserveManager. by rewrite Hb.
  - unfold workflow_WriteReport. subst r. cbn [rp_contract rp_chain BlockTracker.TotalMinted BlockTracker.TotalReserve]. rewrite Hb. cbn [rbind]. by rewrite Hcalls.
Qed.

End Report.
