(* ===== verification/ContractsExamples.v ===== *)
(** * ContractsExamples: the bindings run on a small chain

    Instances of the ABI library and of the chain client, with 32-byte big-endian
    words as the ABI has them for numbers, and the theorems of [ContractsSafety]
    applied to them. *)

From stdpp Require Import pretty.
From S2P Require Import Prelude Codec Text Utf8 Observability Sha256 Types Cache Services Outbound HttpApp BlockTracker Contracts ReserveManager MessageEmitter ContractsSafety.

Definition toy_address : bytes := replicate 20 (byte_of_Z 7).

Definition toy_parse (ev : MessageEmittedDecoded) (args : list abi_argument) (topics : list bytes) : result string MessageEmittedDecoded :=
  match topics with
  | [a; t] => Ok (mkMessageEmitted (drop 12 a) (be_decode t) (Message ev))
  | _ => Err "topic/field count mismatch"%string
  end.

#[local] Instance toy_abi : AbiLibrary := {|
  parsed_abi := unit;
  abi_JSON _ := Ok tt;
  Pack _ method _ := Ok (bs method);
  Unpack_uint256 _ _ data := Ok [be_decode data];
  Unpack_bool _ _ data := Ok [negb (be_decode data =? 0)];
  Unpack_string _ _ data := Ok [string_of data];
  event_ID _ name := BytesToHash (bs name);
  event_Inputs _ name := if String.eqb name "MessageEmitted" then MessageEmittedInputs else RequestReserveUpdateInputs;
  tuple_type := unit;
  NewTupleType _ := Ok tt;
  Arguments_Pack _ u := Ok (be 32 (TotalMinted u) ++ be 32 (TotalReserve u));
  UnpackIntoReserve _ _ _ data := Ok (mkRequestReserveUpdate (mkUpdateReserves (be_decode (take 32 data)) (be_decode (drop 32 data))));
  UnpackIntoMessage _ ev _ data := Ok (mkMessageEmitted (Emitter ev) (Timestamp ev) (string_of data));
  ParseTopicsReserve ev _ _ := Ok ev;
  ParseTopicsMessage := toy_parse;
  topic_arg := bytes;
  hash_arg h := h;
  PrepareTopicArg _ v := match v with AbiAddress a => Ok (BytesToHash a) | AbiUint z => Ok (be 32 z) | _ => Err "unsupported"%string end;
  MakeTopics rules := Ok rules;
  PrepareTopics topics id := mkTopicValues [id] :: map mkTopicValues topics
|}.

#[local] Instance toy_chain : ChainClient := {|
  BigInt := Z;
  NewBigIntFromInt n := default 0 n;
  FinalizedBlockNumber := -3;
  Report := bytes;
  GasConfig := unit;
  WriteReportReply := unit;
  FilterLogsReply := list evm_Log;
  HeaderByNumber _ := Ok (Some (Some 100));
  CallContract _ data block :=
    if decide (data = bs "getMessage") then Ok (Some (bs "gm"))
    else if decide (data = bs "lastTotalReserve") then Ok (Some (be 32 (block + 1)))
    else Err "execution reverted"%string;
  GenerateReport req := Ok (EncodedPayload req);
  client_WriteReport _ _ _ := Ok tt;
  FilterLogs _ _ _ _ _ := Ok []
|}.

Definition toy_reserve : ReserveManager.Binding := ReserveManager.mkBinding toy_address tt (ReserveManager.mkCodec tt).
Definition toy_emitter : MessageEmitter.Binding := MessageEmitter.mkBinding toy_address tt (MessageEmitter.mkCodec tt).

Lemma toy_uint256 z : 0 <= z < 2 ^ 256 -> be_decode (be 32 z) = z.
Proof. intros Hz. rewrite be_decode_be. apply Z.mod_small. exact Hz. Qed.

(** Reading the finalized block 100. *)
Lemma reads_return_contract_value_witness :
  (exists calls, ReserveManager.LastTotalReserve toy_reserve None = (calls, Resolves (Ok 101)) /\
     view_calls tt toy_address "lastTotalReserve" [] None 100 calls) /\
  (exists calls text, MessageEmitter.GetMessage toy_emitter toy_address 5 None = (calls, Resolves (Ok text)) /\
     view_calls tt toy_address "getMessage" [AbiAddress toy_address; AbiUint 5] None 100 calls /\
     utf8_Valid (bs text) = true /\ (text = "gm"%string <-> utf8_Valid (bs "gm") = true)).
Proof.
  refine (reads_return_contract_value (be 32) bs _ _ toy_reserve toy_emitter None 100 101 toy_address 5 "gm" _ _ _ _).
  - intros abi method z Hz. change (Ok [be_decode (be 32 z)] = Ok [z] :> result string (list Z)). by rewrite toy_uint256.
  - intros abi method s. cbn. by rewrite string_of_bs.
  - reflexivity.
  - lia.
  - exists (bs "lastTotalReserve"). split; vm_compute; reflexivity.
  - exists (bs "getMessage"). split; vm_compute; reflexivity.
Defined.

(** A log of the toy contract. *)
Lemma emitted_log_decodes_witness :
  MessageEmitter.DecodeMessageEmitted (MessageEmitter.mkCodec tt) (mkLog [bs "id"; replicate 12 (byte_of_Z 0) ++ toy_address; be 32 9] (bs "hello"))
    = Resolves (Ok (mkMessageEmitted toy_address 9 "hello")).
Proof.
  refine (proj1 (emitted_log_decodes (fun a => BytesToHash (take 20 a)) (be 32) bs (MessageEmitter.mkCodec tt) _ _ _ _ (bs "id") toy_address 9 "hello" _ _)).
  - reflexivity.
  - intros a t. split; [apply length_BytesToHash|apply length_be].
  - intros ev m. cbn. by rewrite string_of_bs.
  - intros ev a t Ha Ht.
    change (Ok (mkMessageEmitted (drop 12 (BytesToHash (take 20 a))) (be_decode (be 32 t)) (Message ev)) = Ok (mkMessageEmitted a t (Message ev)) :> result string MessageEmittedDecoded).
    rewrite toy_uint256 by done. rewrite take_ge by lia. unfold BytesToHash. rewrite Ha. cbn. by rewrite drop_0.
  - reflexivity.
  - lia.
Defined.

(** ** The sample workflow *)

Definition por_evm : EVMConfig := mkEVMConfig "0x07" "sepolia" 500000.
Definition por_config : Config := mkConfig "0 * * * *" (bs "https://node.example") [por_evm].
Definition por_key : bytes := default [] (hex_decode testSymmetricKeyHex).
Definition por_nonce : bytes := replicate 12 (byte_of_Z 1).
Definition por_seal (_ _ m : bytes) : bytes := rev m.
Definition por_open (_ _ c : bytes) : option bytes := Some (rev c).
Definition por_answer : bytes := bs "the answer".
Definition por_output : HttpApp.Response := mkHttpAppResponse 200 (por_nonce ++ rev por_answer) ∅.
Definition por_fields : gmap string json_any := {["result"%string := JString (bs "0x" ++ map hex_digit [1; 15])]}.
Definition toy_decode (p : bytes) : option UpdateReserves := Some (mkUpdateReserves (be_decode (take 32 p)) (be_decode (drop 32 p))).

Lemma toy_pack tt u : NewTupleType [("totalMinted", "uint256"); ("totalReserve", "uint256")]%string = Ok tt ->
  0 <= TotalMinted u < 2 ^ 256 -> 0 <= TotalReserve u < 2 ^ 256 ->
  exists p, Arguments_Pack tt u = Ok p /\ toy_decode p = Some u.
Proof.
  intros _ Hm Hr. exists (be 32 (TotalMinted u) ++ be 32 (TotalReserve u)). split; [done|]. unfold toy_decode.
  rewrite take_app_length', drop_app_length' by (symmetry; apply length_be). rewrite !toy_uint256 by done. by destruct u.
Qed.

(** The node answers 0x1f: the workflow returns 31 and the chain gets a report of it. *)
Lemma por_report_reaches_contract_witness :
  exists r b payload rep,
    doPOR (fun _ _ => Ok por_output) por_open (fun _ => Some por_fields) (fun _ => Some 11)
      (workflow_NewReserveManager "" (fun _ => toy_address)) (workflow_WriteReport (fun _ => toy_chain) "" (fun _ => toy_address)) por_config
      = (PorReturns (Ok "31"%string), [r]) /\
    (ReserveManager.WriteReportFromUpdateReserves b (mkUpdateReserves (BlockTracker.TotalMinted r) (BlockTracker.TotalReserve r)) None).1 =
      [GenerateReportCall (ReserveManager.reserves_request payload); WriteReportCall toy_address rep None] /\
    toy_decode payload = Some (mkUpdateReserves 0 31).
Proof.
  destruct (por_report_reaches_contract (fun _ => toy_chain) "" (fun _ => toy_address) (fun _ _ => Ok por_output) por_seal por_open
    (fun _ => Some por_fields) (fun _ => Some 11) toy_decode (fun k n m => f_equal Some (rev_involutive m)) toy_pack
    por_config por_evm [] 11 tt por_output por_key por_nonce por_answer por_fields [1; 15] tt) as (r & b & payload & rep & H1 & _ & _ & _ & H2 & H3).
  all: try reflexivity.
  - done.
  - by_compute.
  - by_compute.
  - intros payload. exists payload, tt. done.
  - exists r, b, payload, rep. exact (conj H1 (conj H2 H3)).
Defined.
