(* ===== verification/Storage.v ===== *)
(** * Storage: workflow binaries from the storage service

    Models [src/enclave/apps/confidential-workflows/app/storage_fetcher.go]: the key
    that authenticates the enclave, the artifact a locator names, and the bounded
    download.  The gRPC service, the token generator and the HTTP client are
    parameters. *)

From S2P Require Import Prelude Codec Text Outbound.

(** ** Paths *)

Definition slash : byte := byte_of_Z 47.

Fixpoint drop_slashes (s : bytes) : bytes :=
  match s with c :: s' => if bool_decide (c = slash) then drop_slashes s' else s | [] => [] end.

(** [strings.Trim(s, "/")]. *)
Definition Trim_slash (s : bytes) : bytes := rev (drop_slashes (rev (drop_slashes s))).

(** The elements [path.Clean] keeps, last first. *)
Fixpoint clean_segments (rooted : bool) (segments out : list bytes) : list bytes :=
  match segments with
  | [] => out
  | s :: rest =>
      if bool_decide (s = []) || bool_decide (s = bs ".") then clean_segments rooted rest out
      else if bool_decide (s = bs "..") then
        match out with
        | o :: out' => if bool_decide (o = bs "..") then clean_segments rooted rest (s :: out) else clean_segments rooted rest out'
        | [] => clean_segments rooted rest (if rooted then [] else [s])
        end
      else clean_segments rooted rest (s :: out)
  end.

Definition path_Clean (p : bytes) : bytes :=
  let rooted := match p with c :: _ => bool_decide (c = slash) | [] => false end in
  let body := strings_Join [slash] (rev (clean_segments rooted (split_on slash p) [])) in
  if rooted then slash :: body else match body with [] => bs "." | _ => body end.

(** What precedes the last slash, with it; the rest. *)
Definition path_Split (p : bytes) : bytes * bytes :=
  match cut_last slash p with Some (dir, file) => (dir ++ [slash], file) | None => ([], p) end.

Definition path_Dir (p : bytes) : bytes := path_Clean (path_Split p).1.

Definition path_Base (p : bytes) : bytes :=
  match p with
  | [] => bs "."
  | _ =>
      let trimmed := rev (drop_slashes (rev p)) in
      match trimmed with [] => [slash] | _ => (path_Split trimmed).2 end
  end.

(** ** The artifact a locator names *)

Fixpoint after_artifacts (segments : list bytes) : option bytes :=
  match segments with
  | s :: ((t :: _) as rest) => if bool_decide (s = bs "artifacts") then Some t else after_artifacts rest
  | _ => None
  end.

Section Storage.
(** [url.Parse], yielding the path of a URL. *)
Variable url_Path : bytes -> option bytes.

Definition artifactID (locator : bytes) : bytes :=
  if negb (contains (string_of locator) "://") then locator
  else match url_Path locator with
  | None => locator
  | Some p =>
      match after_artifacts (split_on slash (Trim_slash p)) with
      | Some id => id
      | None => path_Base (path_Dir p)
      end
  end.

(** ** The fetcher *)

Inductive storage_error :=
| StorageURLRequired
| HTTPClientRequired
| KeyNotHex
| KeyWrongSize (n : Z)
| SignerFailed
| DialFailed
| JWTFailed
| DownloadArtifactFailed
| EmptyURL
| DownloadRequest
| Downloading
| DownloadStatus (code : Z)
| ReadingBody
| BinaryTooLarge
| NotBase64.

Definition SeedSize : Z := 32.
Definition PrivateKeySize : Z := 64.
Definition DefaultMaxBinarySize : Z := 20 * 1024 * 1024.
Definition DefaultBinaryFetchTimeout : Z := 60 * second.

(** [ed25519.NewKeyFromSeed], and whether the library makes a signer of a key. *)
Variables (NewKeyFromSeed : bytes -> bytes) (NewEd25519Signer_ok : bytes -> bool).

(** The private key; its public half is its last 32 bytes. *)
Definition newJWTGenerator (privKeyHex : bytes) : result storage_error (bytes * bytes) :=
  match hex_decode (TrimPrefix (bs "0x") (TrimSpace privKeyHex)) with
  | None => Err KeyNotHex
  | Some raw =>
      let? priv :=
        (if glen raw =? SeedSize then Ok (NewKeyFromSeed raw)
         else if glen raw =? PrivateKeySize then Ok raw
         else Err (KeyWrongSize (glen raw))) in
      let pub := drop 32 priv in
      if NewEd25519Signer_ok pub then Ok (priv, pub) else Err SignerFailed
  end.

Record StorageFetcher := mkStorageFetcher {
  sf_url : bytes;
  sf_tls : bool;
  sf_key : bytes;
  maxBytes : Z;
  timeout : Z;
}.

Definition NewStorageFetcher (storageURL : bytes) (tls : bool) (privKeyHex : bytes) (maxBytes timeout : Z)
    (client_present dial_ok : bool) : result storage_error (StorageFetcher * bytes) :=
  if bool_decide (storageURL = []) then Err StorageURLRequired
  else if negb client_present then Err HTTPClientRequired
  else
    let? kp := newJWTGenerator privKeyHex in
    if negb dial_ok then Err DialFailed
    else
      let maxBytes := if maxBytes <=? 0 then DefaultMaxBinarySize else maxBytes in
      let timeout := if timeout <=? 0 then DefaultBinaryFetchTimeout else timeout in
      Ok (mkStorageFetcher storageURL tls kp.1 maxBytes timeout, kp.2).

(** The token generator, the service (a pre-signed URL for a token and an
    artifact), what [http.NewRequest] accepts, and the HTTP client. *)
Variables (CreateJWTForRequest : bytes -> bytes -> option bytes) (DownloadArtifact : bytes -> bytes -> option bytes)
  (NewRequest_ok : bytes -> bool) (Do : bytes -> httpfetch.http_response + error).

Definition resolveURL (f : StorageFetcher) (locator : bytes) : result storage_error bytes :=
  let id := artifactID locator in
  match CreateJWTForRequest (sf_key f) id with
  | None => Err JWTFailed
  | Some token =>
      match DownloadArtifact token id with
      | None => Err DownloadArtifactFailed
      | Some url => if bool_decide (url = []) then Err EmptyURL else Ok url
      end
  end.

(** Go's division truncates. *)
Definition maxEncoded (f : StorageFetcher) : Z := i64 (Z.quot (i64 (maxBytes f * 4)) 3 + 4).

Definition download (f : StorageFetcher) (url : bytes) : result storage_error bytes :=
  if negb (NewRequest_ok url) then Err DownloadRequest
  else match Do url with
  | inr _ => Err Downloading
  | inl resp =>
      if negb (httpfetch.rs_StatusCode resp =? 200) then Err (DownloadStatus (httpfetch.rs_StatusCode resp))
      else match httpfetch.read_limited (i64 (maxEncoded f + 1)) resp with
      | None => Err ReadingBody
      | Some encoded =>
          if maxEncoded f <? glen encoded then Err BinaryTooLarge
          else match b64_decode encoded with
          | None => Err NotBase64
          | Some decoded => Ok decoded
          end
      end
  end.

Definition FetchBinary (f : StorageFetcher) (locator : bytes) : result storage_error bytes :=
  let? url := resolveURL f locator in download f url.

End Storage.

(** ** Bounds of a download *)

Lemma b64_quanta_length l b : b64_quanta l = Some b -> (4 * length b <= 3 * length l)%nat.
Proof.
  assert (forall n l b, (length l <= n)%nat -> b64_quanta l = Some b -> (4 * length b <= 3 * length l)%nat) as H; [|by eapply H].
  clear. induction n as [|n IH]; intros [|p [|q [|r [|s l]]]] b Hn; cbn in Hn; try lia; cbn [b64_quanta]; try done;
    try (intros [= <-]; cbn; lia).
  destruct (b64_value p), (b64_value q); try done. destruct (decide (r = b64_pad)).
  { destruct l; [|done]. destruct (decide (s = b64_pad)); [|done]. intros [= <-]. cbn. lia. }
  destruct (b64_value r); [|done]. destruct (decide (s = b64_pad)).
  { destruct l; [|done]. intros [= <-]. cbn. lia. }
  destruct (b64_value s); [|done]. destruct (b64_quanta l) as [t|] eqn:E; [|done]. intros [= <-].
  apply IH in E; [|lia]. cbn. lia.
Qed.

Lemma b64_decode_glen l b : b64_decode l = Some b -> 4 * glen b <= 3 * glen l.
Proof.
  intros H%b64_quanta_length. unfold glen. pose proof (List.filter_length_le (fun x => negb (bool_decide (x = byte_of_Z 10) || bool_decide (x = byte_of_Z 13))) l). lia.
Qed.

Lemma maxEncoded_exact f : 0 < maxBytes f < 2 ^ 60 -> maxEncoded f = maxBytes f * 4 / 3 + 4.
Proof.
  intros H. unfold maxEncoded. rewrite (i64_id (maxBytes f * 4)) by (unfold is_i64; lia).
  rewrite Z.quot_div_nonneg by lia. apply i64_id. unfold is_i64. dlia.
Qed.

Section Bounds.
Variables (NewRequest_ok : bytes -> bool) (Do : bytes -> httpfetch.http_response + error).

(** Downloads are bounded and complete: what a download returns is the whole
    body, decoded, and at most three bytes longer than the configured maximum; and
    every binary within the maximum that the service sends in base64 is returned
    as it is. *)
Theorem download_bounded (f : StorageFetcher) (url binary : bytes) :
  0 < maxBytes f < 2 ^ 60 ->
  (download NewRequest_ok Do f url = Ok binary ->
   glen binary <= maxBytes f + 3 /\
   exists resp, Do url = inl resp /\ httpfetch.rs_StatusCode resp = 200 /\ b64_decode (httpfetch.rs_data resp) = Some binary) /\
  (forall header, NewRequest_ok url = true -> Do url = inl (httpfetch.mkHttpResponse 200 header (b64_encode binary) false) ->
   glen binary <= maxBytes f -> download NewRequest_ok Do f url = Ok binary).
Proof.
  intros Hm. pose proof (maxEncoded_exact f Hm) as He. unfold download. split.
  - destruct (NewRequest_ok url); cbn [negb]; [|done]. destruct (Do url) as [resp|]; [|done].
    destruct (Z.eqb_spec (httpfetch.rs_StatusCode resp) 200) as [Hs|]; cbn [negb]; [|done].
    destruct (httpfetch.read_limited _ resp) as [encoded|] eqn:Er; [|done]. destruct (Z.ltb_spec (maxEncoded f) (glen encoded)); [done|].
    destruct (b64_decode encoded) as [decoded|] eqn:Ed; [|done]. intros [= <-].
    destruct (read_whole (maxEncoded f) resp encoded ltac:(dlia) Er ltac:(lia)) as [-> _].
    pose proof (b64_decode_glen _ _ Ed). split; [dlia|]. eauto.
  - intros header -> -> Hl. cbn [negb httpfetch.rs_StatusCode]. rewrite Z.eqb_refl. cbn [negb].
    assert (glen (b64_encode binary) <= maxEncoded f) as Hb.
    { unfold glen in *. rewrite b64_encode_length, Nat2Z.inj_mul, Nat2Z.inj_div, He. rewrite Nat2Z.inj_add. change (Z.of_nat 4) with 4.
      change (Z.of_nat 2) with 2. change (Z.of_nat 3) with 3. dlia. }
    rewrite i64_id by (unfold is_i64; dlia). unfold httpfetch.read_limited. cbn [httpfetch.rs_data httpfetch.rs_fails].
    destruct (Z.leb_spec (maxEncoded f + 1) 0); [dlia|].
    destruct (Z.ltb_spec (glen (b64_encode binary)) (maxEncoded f + 1)); [|lia].
    destruct (Z.ltb_spec (maxEncoded f) (glen (b64_encode binary))); [lia|]. by rewrite b64_decode_encode.
Qed.

End Bounds.

(** ** Locators *)

Lemma split_on_cons sep a b : sep ∉ a -> split_on sep (a ++ sep :: b) = a :: split_on sep b.
Proof.
  induction a as [|c a IH]; intros Ha; cbn [app split_on].
  - by rewrite bool_decide_true.
  - apply not_elem_of_cons in Ha as [Hc Ha]. rewrite bool_decide_false by done. by rewrite IH.
Qed.

Lemma split_on_single sep a : sep ∉ a -> split_on sep a = [a].
Proof.
  induction a as [|c a IH]; intros Ha; [done|]. cbn [split_on]. apply not_elem_of_cons in Ha as [Hc Ha].
  rewrite bool_decide_false by done. by rewrite IH.
Qed.

Lemma drop_slashes_id c s : c <> slash -> drop_slashes (c :: s) = c :: s.
Proof. intros Hc. cbn [drop_slashes]. by rewrite bool_decide_false. Qed.

(** A locator of the form the workflow registry uses,
    scheme://host/artifacts/<id>/<file>, names exactly the artifact <id>, and a bare
    id names itself. *)
Theorem artifact_of_locator (url_Path : bytes -> option bytes) (locator id file : bytes) :
  slash ∉ id -> slash ∉ file -> file <> [] ->
  url_Path locator = Some (bs "/artifacts/" ++ id ++ [slash] ++ file) ->
  artifactID url_Path locator = if contains (string_of locator) "://" then id else locator.
Proof.
  intros Hid Hfile Hne Hp. unfold artifactID. destruct (contains _ _); cbn [negb]; [|done]. rewrite Hp.
  assert (Trim_slash (bs "/artifacts/" ++ id ++ [slash] ++ file) = bs "artifacts" ++ slash :: id ++ slash :: file) as ->.
  { unfold Trim_slash. change (bs "/artifacts/") with (slash :: bs "artifacts" ++ [slash]). cbn [app drop_slashes].
    rewrite bool_decide_true by done. rewrite <- (app_assoc (bs "artifacts")). cbn [app].
    destruct file as [|c file _] using rev_ind; [done|]. apply not_elem_of_app in Hfile as [_ Hc%not_elem_of_cons]. destruct Hc as [Hc _].
    change (drop_slashes (bs "artifacts" ++ slash :: id ++ slash :: file ++ [c])) with (bs "artifacts" ++ slash :: id ++ slash :: file ++ [c]).
    replace (bs "artifacts" ++ slash :: id ++ slash :: file ++ [c]) with ((bs "artifacts" ++ slash :: id ++ slash :: file) ++ [c])
      by (rewrite <- !app_assoc; cbn; by rewrite <- !app_assoc).
    rewrite rev_app_distr. cbn [rev app]. rewrite drop_slashes_id by (by intros ->). 
    change (c :: rev (bs "artifacts" ++ slash :: id ++ slash :: file)) with ([c] ++ rev (bs "artifacts" ++ slash :: id ++ slash :: file)).
    by rewrite rev_app_distr, rev_involutive. }
  rewrite split_on_cons by by_compute. rewrite split_on_cons by done. rewrite split_on_single by done. cbn [after_artifacts].
  by rewrite bool_decide_true.
Qed.
