(* ===== verification/Workflow.v ===== *)
(** * Workflow: the confidential-workflows application

    Models [src/enclave/apps/confidential-workflows/app/app.go], [settings.go],
    [limiter.go], [wasm.go], [execution_helper.go] and
    [src/enclave/apps/confidential-workflows/memlimit/memlimit.go].  The WASM host,
    the message encodings and the dispatcher's remote calls are parameters. *)

From S2P Require Import Prelude Float Codec Text Sha256 Types Emitter Server Fetcher Outbound.

(** ** Admission *)

(** Slots of a channel: its capacity, none when unbounded, and how many are taken. *)
Record executionLimiter := mkLimiter { lim_slots : option Z; lim_used : Z }.

Definition newExecutionLimiter (max : Z) : executionLimiter :=
  if max <=? 0 then mkLimiter None 0 else mkLimiter (Some max) 0.

Definition tryAcquire (l : executionLimiter) : bool * executionLimiter :=
  match lim_slots l with
  | None => (true, l)
  | Some n => if lim_used l <? n then (true, mkLimiter (lim_slots l) (lim_used l + 1)) else (false, l)
  end.

(** [None]: the receive would block, as no slot is taken. *)
Definition release (l : executionLimiter) : option executionLimiter :=
  match lim_slots l with
  | None => Some l
  | Some _ => if lim_used l <=? 0 then None else Some (mkLimiter (lim_slots l) (lim_used l - 1))
  end.

Definition capacity (l : executionLimiter) : Z := default 0 (lim_slots l).

(** Deriving the limit from memory. *)
Definition ReserveMB : Z := 1024.
Definition PerExecMB : Z := 128.
Definition FallbackConcurrency : Z := 8.

Definition concurrency (totalMB reserveMB perExecMB : Z) : Z :=
  if (perExecMB =? 0) || (totalMB <=? reserveMB) then 1
  else let n := i64 (u64 (totalMB - reserveMB) / perExecMB) in if n <? 1 then 1 else n.

Record limit_result := mkLimitResult { MaxConcurrent : Z; lr_TotalMB : Z; Introspected : bool }.

Definition Derive (total : option Z) : limit_result :=
  match total with
  | None => mkLimitResult FallbackConcurrency 0 false
  | Some totalMB =>
      if totalMB =? 0 then mkLimitResult FallbackConcurrency 0 false
      else mkLimitResult (concurrency totalMB ReserveMB PerExecMB) totalMB true
  end.

(** ** Settings *)

Record WorkflowSettings := mkSettings {
  StorageKey : bytes;
  StorageServiceURL : bytes;
  StorageServiceTLS : bool;
  GatewayURL : bytes;
  MaxBinarySize : Z;
  BinaryFetchTimeout : Z;
  MaxCacheBytes : Z;
  RequestTimeout : Z;
  GatewayRequestTimeout : Z;
  GatewayRetryBackoff : Z;
  GatewayRetryTimeout : Z;
  ExecutionTimeout : Z;
  WorkflowGracePeriod : Z;
  MaxConcurrentCompilations : Z;
}.

Definition defaultMaxConcurrentCompilations : Z := 4.
Definition DefaultWorkflowGracePeriod : Z := 2 * second.

Inductive settings_error :=
| ParsingSettings
| NegativeCompilations (n : Z)
| MissingSettings (names : list string)
| BuildingStorageFetcher
| BuildingDispatcher.

Definition validate (s : WorkflowSettings) : result settings_error unit :=
  let missing :=
    (if bool_decide (StorageKey s = []) then ["storageKey"%string] else []) ++
    (if bool_decide (StorageServiceURL s = []) then ["storageServiceUrl"%string] else []) ++
    (if bool_decide (GatewayURL s = []) then ["gatewayUrl"%string] else []) in
  if MaxConcurrentCompilations s <? 0 then Err (NegativeCompilations (MaxConcurrentCompilations s))
  else match missing with [] => Ok tt | _ => Err (MissingSettings missing) end.

Record GatewayConfig := mkGatewayConfig {
  gc_URL : bytes;
  gc_RequestTimeout : Z;
  gc_RetryBackoff : Z;
  gc_RetryTimeout : Z;
}.

(** The dispatcher, as far as configuration goes: what it was built from, and the
    enclave configuration it was last given. *)
Record dispatcher := mkDispatcher { d_gateway : GatewayConfig; d_config : EnclaveConfig }.

Definition SetConfig (c : EnclaveConfig) (d : dispatcher) : dispatcher := mkDispatcher (d_gateway d) c.

(** ** The application *)

Section App.
Context `{HS : Sha256}.
(** A storage fetcher; factories that may fail; the decoder of settings. *)
Context {RawFetcher : Type}.
Variables (storageFactory : bytes -> bool -> bytes -> Z -> Z -> option RawFetcher)
  (dispatcherFactory : option (GatewayConfig -> option dispatcher))
  (Unmarshal_settings : bytes -> option WorkflowSettings).

Record confidentialWorkflowsApp := mkApp {
  fetcher : BinaryFetcher;
  httpFetcher : httpfetch.Fetcher;
  limiter : executionLimiter;
  compileSlots : Z;
  executionTimeout : Z;
  gracePeriod : Z;
  storageServiceURL : bytes;
  storageServiceTLS : bool;
  storageFetcher : option RawFetcher;
  app_dispatcher : option dispatcher;
  lastConfig : EnclaveConfig;
  haveConfig : bool;
}.

Definition NewConfidentialWorkflowsApp (http : httpfetch.Fetcher) (maxConcurrent : Z) : confidentialWorkflowsApp :=
  mkApp NewBinaryFetcher http (newExecutionLimiter maxConcurrent) defaultMaxConcurrentCompilations 0 DefaultWorkflowGracePeriod
    [] false None None zeroConfig false.

(** The tunables, before anything that can fail. *)
Definition apply_tunables (req : WorkflowSettings) (a : confidentialWorkflowsApp) : confidentialWorkflowsApp :=
  mkApp (SetMaxCacheBytes (fetcher a) (MaxCacheBytes req)) (httpfetch.SetDefaultTimeout (RequestTimeout req) (httpFetcher a))
    (limiter a)
    (if 0 <? MaxConcurrentCompilations req then MaxConcurrentCompilations req else compileSlots a)
    (if 0 <? ExecutionTimeout req then ExecutionTimeout req else executionTimeout a)
    (if negb (WorkflowGracePeriod req =? 0) then WorkflowGracePeriod req else gracePeriod a)
    (StorageServiceURL req) (StorageServiceTLS req) (storageFetcher a) (app_dispatcher a) (lastConfig a) (haveConfig a).

Definition set_storage (sf : option RawFetcher) (a : confidentialWorkflowsApp) : confidentialWorkflowsApp :=
  mkApp (fetcher a) (httpFetcher a) (limiter a) (compileSlots a) (executionTimeout a) (gracePeriod a)
    (storageServiceURL a) (storageServiceTLS a) sf (app_dispatcher a) (lastConfig a) (haveConfig a).
Definition set_dispatcher (d : option dispatcher) (a : confidentialWorkflowsApp) : confidentialWorkflowsApp :=
  mkApp (fetcher a) (httpFetcher a) (limiter a) (compileSlots a) (executionTimeout a) (gracePeriod a)
    (storageServiceURL a) (storageServiceTLS a) (storageFetcher a) d (lastConfig a) (haveConfig a).
Definition set_lastConfig (c : EnclaveConfig) (a : confidentialWorkflowsApp) : confidentialWorkflowsApp :=
  mkApp (fetcher a) (httpFetcher a) (limiter a) (compileSlots a) (executionTimeout a) (gracePeriod a)
    (storageServiceURL a) (storageServiceTLS a) (storageFetcher a) (app_dispatcher a) c true.
Definition set_fetcher (f : BinaryFetcher) (a : confidentialWorkflowsApp) : confidentialWorkflowsApp :=
  mkApp f (httpFetcher a) (limiter a) (compileSlots a) (executionTimeout a) (gracePeriod a)
    (storageServiceURL a) (storageServiceTLS a) (storageFetcher a) (app_dispatcher a) (lastConfig a) (haveConfig a).
Definition set_limiter (l : executionLimiter) (a : confidentialWorkflowsApp) : confidentialWorkflowsApp :=
  mkApp (fetcher a) (httpFetcher a) l (compileSlots a) (executionTimeout a) (gracePeriod a)
    (storageServiceURL a) (storageServiceTLS a) (storageFetcher a) (app_dispatcher a) (lastConfig a) (haveConfig a).

(** Building the dispatcher on the first injection. *)
Definition ensure_dispatcher (req : WorkflowSettings) (a : confidentialWorkflowsApp)
    : result settings_error unit * confidentialWorkflowsApp :=
  match app_dispatcher a, dispatcherFactory with
  | None, Some factory =>
      match factory (mkGatewayConfig (GatewayURL req) (GatewayRequestTimeout req) (GatewayRetryBackoff req) (GatewayRetryTimeout req)) with
      | None => (Err BuildingDispatcher, a)
      | Some d => (Ok tt, set_dispatcher (Some (if haveConfig a then SetConfig (lastConfig a) d else d)) a)
      end
  | _, _ => (Ok tt, a)
  end.

Definition InjectSettings (raw : bytes) (a : confidentialWorkflowsApp) : result settings_error unit * confidentialWorkflowsApp :=
  match Unmarshal_settings raw with
  | None => (Err ParsingSettings, a)
  | Some req =>
      match validate req with
      | Err e => (Err e, a)
      | Ok _ =>
          let a := apply_tunables req a in
          match storageFactory (storageServiceURL a) (storageServiceTLS a) (StorageKey req) (MaxBinarySize req) (BinaryFetchTimeout req) with
          | None => (Err BuildingStorageFetcher, a)
          | Some sf => ensure_dispatcher req (set_storage (Some sf) a)
          end
      end
  end.

Definition OnConfigUpdate (config : EnclaveConfig) (a : confidentialWorkflowsApp) : confidentialWorkflowsApp :=
  let a := set_lastConfig config a in
  match app_dispatcher a with
  | Some d => set_dispatcher (Some (SetConfig config d)) a
  | None => a
  end.

End App.

(** ** Requirements *)

(** What a workflow asks of a TEE, and the type this enclave is. *)
Inductive Tee {TeeType : Type} :=
| TeeTypesAndRegions (l : list (TeeType * list bytes))
| AnyRegions
| TeeUnset.
Arguments Tee : clear implicits.

Definition validTee {TeeType} `{EqDecision TeeType} (tpe : TeeType) (tee : Tee TeeType) : bool :=
  match tee with
  | TeeTypesAndRegions l => existsb (fun t => bool_decide (t.1 = tpe)) l
  | AnyRegions => true
  | TeeUnset => false
  end.

(** ** Capability calls of a workflow *)

Record CapabilityRequest := mkCapRequest { cr_Id : string; cr_Method : string; cr_CallbackId : Z; cr_Payload : bytes }.

Inductive CapabilityResponse :=
| CapPayload (payload : bytes)
| CapError (msg : string).

(** [GetError]: empty for a payload. *)
Definition GetError (r : CapabilityResponse) : string := match r with CapError msg => msg | CapPayload _ => "" end.

(** The observation of a simple consensus. *)
Inductive observation := ObsValue (v : bytes) | ObsError (e : string).
Record SimpleConsensusInputs := mkConsensusInputs { sc_Observation : option observation; sc_Default : option bytes }.

Definition AppIDConfidentialWorkflows : string := "confidential-workflows@1.0.0-alpha".

Definition event : Type := string * gmap string any.

Section Helper.
(** The capability names of the libraries, the decoders and encoders of payloads,
    the texts of errors, and the fetch of an HTTP request. *)
Variables (http_ClientID ConsensusID : string).
Variables (decode_http : bytes -> result string httpfetch.Request) (encode_http : httpfetch.Response -> result string bytes)
  (decode_consensus : bytes -> result string SimpleConsensusInputs) (encode_value : bytes -> result string bytes)
  (fetch_error_text : httpfetch.fetch_error -> string) (Quote : string -> string).
(** The HTTP fetch, none when no fetcher is configured, and the dispatcher's remote
    call, none in local mode: a response or an error. *)
Variables (fetch : option (httpfetch.Request -> result httpfetch.fetch_error httpfetch.Response))
  (remote : option (CapabilityRequest -> result string CapabilityResponse)).

Definition handleHTTPAction (req : CapabilityRequest) : CapabilityResponse :=
  match fetch with
  | None => CapError "http-actions: no HTTP fetcher configured"
  | Some fetch =>
      match decode_http (cr_Payload req) with
      | Err e => CapError ("http-actions: unmarshalling request: " ++ e)
      | Ok input =>
          match fetch input with
          | Err e => CapError ("http-actions: " ++ fetch_error_text e)
          | Ok resp =>
              match encode_http resp with
              | Err e => CapError ("http-actions: marshalling response: " ++ e)
              | Ok payload => CapPayload payload
              end
          end
      end
  end.

Definition wrapValueResponse (v : bytes) : CapabilityResponse :=
  match encode_value v with
  | Err e => CapError ("marshalling value: " ++ e)
  | Ok payload => CapPayload payload
  end.

Definition handleConsensusSimple (req : CapabilityRequest) : CapabilityResponse :=
  match decode_consensus (cr_Payload req) with
  | Err e => CapError ("consensus.Simple: unmarshalling inputs: " ++ e)
  | Ok inputs =>
      match sc_Observation inputs with
      | Some (ObsValue v) => wrapValueResponse v
      | Some (ObsError e) =>
          match sc_Default inputs with
          | Some def => wrapValueResponse def
          | None => CapError ("consensus.Simple: observation error: " ++ e)
          end
      | None => CapError "consensus.Simple: missing observation"
      end
  end.

Definition call_remote (req : CapabilityRequest) : result string CapabilityResponse :=
  match remote with
  | Some call => call req
  | None => Ok (CapError ("failed to call capability " ++ Quote (cr_Id req) ++ ", remote capability calls are not supported"))
  end.

Definition callCapability (req : CapabilityRequest) : result string CapabilityResponse :=
  if bool_decide (cr_Id req = AppIDConfidentialWorkflows) then
    Ok (CapError "confidential-workflows cannot be called from within a workflow")
  else if bool_decide (cr_Id req = http_ClientID) then
    if bool_decide (cr_Method req = "SendRequest"%string) then Ok (handleHTTPAction req) else call_remote req
  else if bool_decide (cr_Id req = ConsensusID) then
    if bool_decide (cr_Method req = "Simple"%string) then Ok (handleConsensusSimple req) else call_remote req
  else call_remote req.

(** [CallCapability]: the call between its events; [d] is how long it took. *)
Definition CallCapability (d : Z) (req : CapabilityRequest) : result string CapabilityResponse * list event :=
  let r := callCapability req in
  let '(errType, errMsg) :=
    match r with
    | Err e => ("dispatch", e)
    | Ok resp => if bool_decide (GetError resp = ""%string) then ("", "") else ("capability", GetError resp)
    end%string in
  let success := match r with Ok resp => bool_decide (GetError resp = ""%string) | Err _ => false end in
  let typed l := if bool_decide (errType = ""%string) then l else l ++ [("error_type"%string, AString errType)] in
  let called := [("capability_id"%string, AString (cr_Id req)); ("method"%string, AString (cr_Method req)); ("step_ref"%string, AInt (cr_CallbackId req))] in
  (r,
   [("capability_started"%string, details called);
    ("capability_execution"%string,
       details (typed [("capability_id"%string, AString (cr_Id req)); ("success"%string, ABool success); (duration_key, AFloat (seconds_of d))]));
    ("capability_finished"%string,
       details (typed (called ++ [("success"%string, ABool success)]) ++
                (if bool_decide (errType = ""%string) then [] else [("error"%string, AString errMsg)])))]).

End Helper.

(** ** Running a workflow *)

Record wasm_error := mkWasmError { we_text : string; we_deadline : bool }.

Record WorkflowExecution {Requirements Restrictions : Type} := mkExecution {
  WorkflowId : string;
  BinaryUrl : bytes;
  BinaryHash : bytes;
  SdkExecuteRequest : option bytes;
  we_Owner : string;
  we_ExecutionId : string;
  we_OrgId : string;
  we_Requirements : option Requirements;
  we_Restrictions : option Restrictions;
}.
Arguments WorkflowExecution : clear implicits.

Record helper_identity := mkHelper {
  h_requestID : bytes;
  h_workflowID : string;
  h_owner : string;
  h_executionID : string;
  h_orgID : string;
  h_signedRequests : list SignedComputeRequest;
  h_dispatcher : option dispatcher;
}.

Definition ErrWasmExecutionTimeout : string := "wasm execution deadline exceeded".
Definition StatusTooManyRequests : Z := 429.
Definition StatusBadGateway : Z := 502.
Definition StatusGatewayTimeout : Z := 504.

Section Execute.
Context `{HS : Sha256} {RawFetcher Requirements Restrictions Module_ TeeType : Type} `{EqDecision TeeType}.
Implicit Types (a : confidentialWorkflowsApp (RawFetcher := RawFetcher)).

(** The decoder of a request; what the storage returns for a locator; the library's
    check of requirements with the enclave's own; the WASM host: compilation with
    the time it took, and a run of the guest under its restrictions with the events
    it emits; the encoder of the response; texts of errors. *)
Variables (Unmarshal_execution : bytes -> result string (WorkflowExecution Requirements Restrictions))
  (FetchBinary : RawFetcher -> bytes -> option bytes)
  (CheckRequirements : (Tee TeeType -> bool) -> option Requirements -> bool)
  (tpe : TeeType)
  (NewModule : bytes -> result string Module_ * Z)
  (run_guest : Module_ -> bytes -> option Restrictions -> helper_identity -> Z -> result wasm_error bytes * Z * list event)
  (Marshal_response : bytes -> result string bytes)
  (fetch_text : fetch_error -> string) (requirements_text : option Requirements -> string).

(** [executeWasm]; [wait] is the time spent waiting for a compile slot.  The timeout
    runs from the moment the slot is taken and covers compilation. *)
Definition executeWasm (wait : Z) (binary execReq : bytes) (restrictions : option Restrictions) (helper : helper_identity) (timeout : Z)
    : result wasm_error bytes * list event :=
  let queued := ("workflow_compilation_queue_wait"%string, details [(duration_key, AFloat (seconds_of wait))]) in
  let '(compiled, elapsed) := NewModule binary in
  let expired := (0 <? timeout) && (timeout <=? elapsed) in
  let compilation := ("workflow_compilation"%string,
    details [("success"%string, ABool (match compiled with Ok _ => negb expired | Err _ => false end)); (duration_key, AFloat (seconds_of elapsed))]) in
  if expired then (Err (mkWasmError "creating wasm module: context deadline exceeded" true), [queued; compilation])
  else match compiled with
  | Err e => (Err (mkWasmError ("creating wasm module: " ++ e) false), [queued; compilation])
  | Ok module =>
      let '(r, duration, evs) := run_guest module execReq restrictions helper (if 0 <? timeout then timeout - elapsed else 0) in
      let guest := ("workflow_guest_execution"%string,
        details [("success"%string, ABool (match r with Ok _ => true | Err _ => false end)); (duration_key, AFloat (seconds_of duration))]) in
      (match r with
       | Ok out => Ok out
       | Err e => Err (mkWasmError ("executing wasm: " ++ we_text e) (we_deadline e))
       end, [queued; compilation] ++ evs ++ [guest])
  end.

(** Everything between taking and returning the slot. *)
Definition execute_admitted (wait : Z) (requestID : bytes) (appID : string) (inputData : bytes) (reqs : list SignedComputeRequest) a
    : result ExecuteError bytes * list event * confidentialWorkflowsApp :=
  let bad msg := (Err (mkExecuteError msg StatusBadRequest), [], a) in
  if negb (bool_decide (appID = AppIDConfidentialWorkflows)) then
    bad ("invalid app ID: expected " ++ AppIDConfidentialWorkflows ++ ", got " ++ appID)%string
  else match Unmarshal_execution inputData with
  | Err e => bad ("unable to unmarshal request data: " ++ e)%string
  | Ok execution =>
      if bool_decide (WorkflowId execution = ""%string) then bad "workflow_id is required"%string
      else if bool_decide (BinaryUrl execution = []) then bad "binary_url is required"%string
      else if glen (BinaryHash execution) =? 0 then bad "binary_hash is required"%string
      else match SdkExecuteRequest execution with
      | None => bad "execute_request is required"%string
      | Some sdkRequest =>
          let started := ("workflow_execute_started"%string, details [("workflow_id"%string, AString (WorkflowId execution))]) in
          let raw := match storageFetcher a with Some sf => FetchBinary sf (BinaryUrl execution) | None => None end in
          let '(r, f) := Fetch (fetcher a) (BinaryHash execution)
                           (match storageFetcher a with Some _ => true | None => false end) raw in
          let a := set_fetcher f a in
          match r with
          | Err e => (Err (mkExecuteError ("fetching binary: " ++ fetch_text e) StatusBadGateway), [started], a)
          | Ok binary =>
              let helper := mkHelper requestID (WorkflowId execution) (we_Owner execution) (we_ExecutionId execution)
                              (we_OrgId execution) reqs (app_dispatcher a) in
              if negb (CheckRequirements (validTee tpe) (we_Requirements execution)) then
                (Err (mkExecuteError ("this TEE doesn't meet the requirements " ++ requirements_text (we_Requirements execution) ++ " of the workflow: " ++ WorkflowId execution) StatusBadRequest), [started], a)
              else
                let '(r, evs) := executeWasm wait binary sdkRequest (we_Restrictions execution) helper (executionTimeout a) in
                match r with
                | Err e =>
                    let msg := ("executing wasm: " ++ we_text e)%string in
                    (Err (if we_deadline e then mkExecuteError (ErrWasmExecutionTimeout ++ ": " ++ msg) StatusGatewayTimeout
                          else mkExecuteError msg StatusInternalServerError), started :: evs, a)
                | Ok result =>
                    match Marshal_response result with
                    | Err e => (Err (mkExecuteError ("marshalling workflow response: " ++ e) StatusInternalServerError), started :: evs, a)
                    | Ok out => (Ok out, started :: evs, a)
                    end
                end
          end
      end
  end.

(** [Execute], with the slot it takes returned at the end; [None] is a return that
    blocks for ever.  The fetch, the compilation and the run of the guest are parameters that
    end, and the sleep of the grace period, which changes no state, is left out. *)
Definition Execute (wait : Z) (requestID : bytes) (appID : string) (inputData : bytes) (reqs : list SignedComputeRequest) a
    : option (result ExecuteError bytes * list event * confidentialWorkflowsApp) :=
  let '(ok, l) := tryAcquire (limiter a) in
  if negb ok then
    Some (Err (mkExecuteError "enclave at capacity: too many concurrent executions" StatusTooManyRequests),
          [("execution_rejected_at_capacity"%string, details [("max_concurrent"%string, AInt (capacity (limiter a)))])], a)
  else
    let '(r, evs, a) := execute_admitted wait requestID appID inputData reqs (set_limiter l a) in
    (fun l => (r, evs, set_limiter l a)) <$> release (limiter a).

End Execute.
