(* ===== verification/Guest.v ===== *)
(** * Guest: what a workflow does through its execution helper

    The rest of [src/enclave/apps/confidential-workflows/app/execution_helper.go]:
    reading secrets with the event that reports it, log lines and metrics of the
    workflow's author.  A run of the guest is the sequence of its calls; the events it
    leaves are what the response carries. *)

From Stdlib Require Import SpecFloat.
From S2P Require Import Prelude Float Codec Sha256 Types Emitter Services Keychain Server EvmAddress Relay Dispatcher Outbound Workflow.

(** ** Failed secret reads *)

(** [errors.As] to a JSON-RPC error: the attempts that a failed failover joins failed
    below JSON-RPC. *)
Definition as_rpc (e : gateway_error) : option RPCError :=
  match e with GatewayRPC rpc => Some rpc | _ => None end.

(** The first JSON-RPC error in the tree of [err], which wraps the error that ended
    the retries and then the transient ones. *)
Definition rpc_of {A} (out : send_out A relay_error) : option RPCError :=
  match out with
  | Terminal e transient => find_some as_rpc (e :: transient)
  | WindowClosed transient => find_some as_rpc transient
  | Verified _ => None
  end.

Section Secrets.
(** [jsonrpc2.ErrInvalidParams]. *)
Variable ErrInvalidParams : Z.

Definition secretErrorOrigin {A} (out : send_out A relay_error) : string :=
  match rpc_of out with
  | Some e => if rpc_Code e =? ErrInvalidParams then "user" else "system"
  | None => "system"
  end.

(** The user is to blame exactly when a gateway refused the parameters: a transient
    failure before it, or a window that closed, never blames the user. *)
Lemma origin_user {A} (ErrInternal ErrServerOverloaded : Z) (attempt : nat -> result gateway_error (option bytes))
    (cut : nat -> gateway_error) (took : nat -> Z) (verify : option bytes -> result relay_error A) (backoff closing t0 : Z) (out : send_out A relay_error) :
  ErrInvalidParams <> ErrInternal -> ErrInvalidParams <> ErrServerOverloaded ->
  returns_exactly ErrInternal ErrServerOverloaded attempt cut took verify backoff closing t0 out ->
  secretErrorOrigin out = "user"%string <-> exists rpc tr, out = Terminal (GatewayRPC rpc) tr /\ rpc_Code rpc = ErrInvalidParams.
Proof.
  intros HI HO (errs & Herrs & Hout). unfold secretErrorOrigin. destruct out as [r|e tr|tr]; cbn [rpc_of].
  - split; [done|]. by intros (? & ? & ? & _).
  - destruct Hout as (_ & _ & Ht & _). destruct e; try done. cbn. match goal with |- context [rpc_Code ?r =? _] => destruct (Z.eqb_spec (rpc_Code r) ErrInvalidParams) end.
    + split; [by eauto|done].
    + split; [done|]. by intros (? & ? & [= <- _] & ?).
  - split; [|by intros (? & ? & ? & _)]. destruct (find_some as_rpc tr) as [rpc|] eqn:E; [|done].
    apply find_some_spec in E as (l1 & e & l2 & Hl & Hrpc & _). destruct Hout as [_ Hout].
    assert (errs !! length l1 = Some e) as Hi by (rewrite <- Hout, Hl; by apply list_lookup_middle). apply Herrs in Hi as (_ & _ & Ht). destruct e; try done. injection Hrpc as ->. cbn in Ht. unfold Retryable in Ht.
    destruct (Z.eqb_spec (rpc_Code rpc) ErrInvalidParams) as [Hc|]; [|done]. rewrite Hc in Ht.
    rewrite (proj2 (Z.eqb_neq _ _) HI), (proj2 (Z.eqb_neq _ _) HO) in Ht. done.
Qed.

(** What a secret read returned; [None] is the missing dispatcher. *)
Definition secrets_outcome : Type := option (send_out (list SecretResponse) relay_error).

Definition secrets_ok (r : secrets_outcome) : bool :=
  match r with Some (Verified (Ok _)) => true | _ => false end.

(** The event of [GetSecrets]; [n] requests, [d] the time it took. *)
Definition get_secrets_event (d n : Z) (r : secrets_outcome) : event :=
  ("get_secrets"%string,
   details ([("success"%string, ABool (secrets_ok r)); ("num_requests"%string, AInt n); (duration_key, AFloat (seconds_of d))] ++
            (if secrets_ok r then []
             else [("error_type"%string, AString (match r with Some out => secretErrorOrigin out | None => "system" end))]))).

End Secrets.

(** ** Logs and metrics of the author *)

Record WorkflowUserMetric := mkUserMetric {
  um_Name : string;
  um_Value : float64;
  um_Type : string;
  um_Labels : gmap string string;
}.

Definition label_key (k : string) : string := String.append "label." k.

Definition EmitUserLog (h : helper_identity) (msg : string) : event :=
  ("user_log"%string,
   details [("message"%string, AString msg); ("workflow_id"%string, AString (h_workflowID h)); ("execution_id"%string, AString (h_executionID h))]).

Definition EmitUserMetric (h : helper_identity) (m : WorkflowUserMetric) : event :=
  ("user_metric"%string,
   list_to_map (map (fun kv => (label_key kv.1, AString kv.2)) (map_to_list (um_Labels m))) ∪
   details [("name"%string, AString (um_Name m)); ("value"%string, AFloat (um_Value m)); ("metric_type"%string, AString (um_Type m));
            ("workflow_id"%string, AString (h_workflowID h)); ("execution_id"%string, AString (h_executionID h))]).

(** ** A run *)

(** A call of the guest: a capability call and what it was answered, a secret read, a
    log line, a metric. *)
Inductive guest_call :=
| GuestCapability (d : Z) (req : CapabilityRequest)
| GuestSecrets (d n : Z) (r : secrets_outcome)
| GuestLog (msg : string)
| GuestMetric (m : WorkflowUserMetric).

Section Run.
Variables (http_ClientID ConsensusID : string).
Variables (decode_http : bytes -> result string httpfetch.Request) (encode_http : httpfetch.Response -> result string bytes)
  (decode_consensus : bytes -> result string SimpleConsensusInputs) (encode_value : bytes -> result string bytes)
  (fetch_error_text : httpfetch.fetch_error -> string) (Quote : string -> string).
Variables (fetch : option (httpfetch.Request -> result httpfetch.fetch_error httpfetch.Response))
  (remote : option (CapabilityRequest -> result string CapabilityResponse)).
Variables (ErrInvalidParams : Z) (h : helper_identity).

Definition guest_events_of (c : guest_call) : list event :=
  match c with
  | GuestCapability d req =>
      (CallCapability http_ClientID ConsensusID decode_http encode_http decode_consensus encode_value fetch_error_text Quote fetch remote d req).2
  | GuestSecrets d n r => [get_secrets_event ErrInvalidParams d n r]
  | GuestLog msg => [EmitUserLog h msg]
  | GuestMetric m => [EmitUserMetric h m]
  end.

Definition guest_events (calls : list guest_call) : list event := concat (map guest_events_of calls).

End Run.
