(* ===== verification/PublicData.v ===== *)
(** * PublicData: what the host reads of a request and of its result

    Models [src/enclave/nitro/host/public_data.go]: the metadata an execution is
    counted under, and the log lines.  A log line is the list of its fields.  The
    decoders are those of the protobuf library; an SDK request is opaque elsewhere,
    [sdk_view] gives the fields the host looks at. *)

From S2P Require Import Prelude Codec Order Text Types Services Server Duration Outbound HttpApp Workflow HostMetrics.

(** ** Log lines *)

Inductive field :=
| FString (s : bytes)
| FInt (z : Z)
| FBool (b : bool)
| FNames (l : list bytes).

Inductive level := Debug_ | Info_ | Warn_.
Record line := mkLine { l_level : level; l_message : string; l_fields : list (string * field) }.

(** [slices.Sorted(maps.Keys(m))]. *)
Definition sorted_names (l : list bytes) : list bytes := sort_bytes l.

(** ** Messages *)

Inductive sdk_request := ExecuteRequest_Subscribe | ExecuteRequest_Trigger (id : Z) | ExecuteRequest_PreHook (id : Z).
Record sdk_execute := mkSdkExecute { se_Config : bytes; se_MaxResponseSize : Z; se_Request : option sdk_request }.

Inductive sdk_result :=
| ExecutionResult_Value
| ExecutionResult_Error (e : bytes)
| ExecutionResult_TriggerSubscriptions
| ExecutionResult_Restrictions.
Record ConfidentialWorkflowResponse := mkWorkflowResponse {
  cw_SdkExecutionResult : option (option sdk_result);
  cw_ExecutionResult : bytes;
}.

Section PublicData.
Context {Requirements Restrictions : Type}.
Variables (decode_request : bytes -> result bytes HttpApp.Request) (decode_response : bytes -> result bytes HttpApp.Response)
  (decode_execution : bytes -> result bytes (WorkflowExecution Requirements Restrictions))
  (decode_result : bytes -> result bytes ConfidentialWorkflowResponse)
  (sdk_view : bytes -> sdk_execute).

(** ** Metadata *)

Definition httpRequestKind : string := "action".
Definition httpExecutionMetadata : executionMetadata := mkMetadata AppIDConfidentialHTTP "" httpRequestKind.

Definition workflowRequestKind (execution : WorkflowExecution Requirements Restrictions) : string :=
  match sdk_view <$> SdkExecuteRequest execution with
  | Some execReq =>
      match se_Request execReq with
      | Some ExecuteRequest_Subscribe => "subscribe"
      | Some (ExecuteRequest_Trigger _) => "trigger"
      | Some (ExecuteRequest_PreHook _) => "pre_hook"
      | None => "unset"
      end
  | None => "unset"
  end.

Definition workflowExecutionMetadata (execution : WorkflowExecution Requirements Restrictions) : executionMetadata :=
  mkMetadata AppIDConfidentialWorkflows (WorkflowId execution) (workflowRequestKind execution).

Definition workflowResultKind (result : option sdk_result) : string :=
  match result with
  | Some ExecutionResult_Value => "value"
  | Some (ExecutionResult_Error _) => "error"
  | Some ExecutionResult_TriggerSubscriptions => "trigger_subscriptions"
  | Some ExecutionResult_Restrictions => "restrictions"
  | None => "unset"
  end.

(** ** What is logged *)

Definition app_field (appID : string) : string * field := ("appID"%string, FString (bs appID)).
Definition event_field (e : string) : string * field := ("event"%string, FString (bs e)).

Definition logHTTPPublicData (req : HttpApp.Request) (publicDataLen : Z) : line :=
  let '(bodyKind, bodyLen) :=
    match hq_Body req with
    | Some (BodyString b) => ("string", glen b)
    | Some (BodyBytes b) => ("bytes", glen b)
    | None => ("none", 0)
    end%string in
  let timeout := match hq_Timeout req with Some d => Duration_String d | None => [] end in
  mkLine Info_ "decoded publicData"
    [event_field "PUBLIC_DATA"; app_field AppIDConfidentialHTTP; ("publicDataLen"%string, FInt publicDataLen);
     ("publicDataType"%string, FString (bs "confidential_http_request")); ("url"%string, FString (hq_Url req));
     ("method"%string, FString (hq_Method req)); ("bodyKind"%string, FString (bs bodyKind)); ("bodyLen"%string, FInt bodyLen);
     ("headerNames"%string, FNames (sorted_names (map fst (hq_MultiHeaders req))));
     ("templatePublicValueKeys"%string, FNames (sorted_names (map (fun kv => bs kv.1) (map_to_list (hq_TemplatePublicValues req)))));
     ("customRootCACertPEMLen"%string, FInt (glen (hq_CustomRootCaCertPem req))); ("timeout"%string, FString timeout);
     ("encryptOutput"%string, FBool (hq_EncryptOutput req))].

Definition logWorkflowPublicData (execution : WorkflowExecution Requirements Restrictions) (publicDataLen : Z) : line :=
  let execReq := sdk_view <$> SdkExecuteRequest execution in
  let trigger := match execReq ≫= se_Request with
                 | Some (ExecuteRequest_Trigger id) | Some (ExecuteRequest_PreHook id) => [("triggerID"%string, FInt id)]
                 | _ => []
                 end in
  mkLine Info_ "decoded publicData"
    ([event_field "PUBLIC_DATA"; app_field AppIDConfidentialWorkflows; ("publicDataLen"%string, FInt publicDataLen);
      ("publicDataType"%string, FString (bs "workflow_execution")); ("workflowID"%string, FString (bs (WorkflowId execution)));
      ("executionID"%string, FString (bs (we_ExecutionId execution))); ("owner"%string, FString (bs (we_Owner execution)));
      ("orgID"%string, FString (bs (we_OrgId execution))); ("binaryURL"%string, FString (BinaryUrl execution));
      ("binaryHash"%string, FString (hex_encode (BinaryHash execution)));
      ("requirementsPresent"%string, FBool (bool_decide (is_Some (we_Requirements execution))));
      ("restrictionsPresent"%string, FBool (bool_decide (is_Some (we_Restrictions execution))))] ++ trigger ++
     [("executeRequestKind"%string, FString (bs (workflowRequestKind execution)));
      ("executeRequestConfigLen"%string, FInt (match execReq with Some r => glen (se_Config r) | None => 0 end));
      ("maxResponseSize"%string, FInt (match execReq with Some r => se_MaxResponseSize r | None => 0 end))]).

Definition logHTTPResponseOutput (resp : HttpApp.Response) (outputLen : Z) : line :=
  mkLine Info_ "decoded response output"
    [event_field "RESPONSE_DATA"; app_field AppIDConfidentialHTTP; ("outputLen"%string, FInt outputLen);
     ("responseType"%string, FString (bs "confidential_http_response")); ("statusCode"%string, FInt (hr_StatusCode resp));
     ("bodyLen"%string, FInt (glen (hr_Body resp))); ("headerNames"%string, FNames (sorted_names (map fst (map_to_list (hr_MultiHeaders resp)))))].

Definition logWorkflowResponseOutput (resp : ConfidentialWorkflowResponse) (outputLen : Z) : line :=
  let sdkResult := cw_SdkExecutionResult resp in
  let errorLen := match sdkResult with Some (Some (ExecutionResult_Error e)) => glen e | _ => 0 end in
  mkLine Info_ "decoded response output"
    [event_field "RESPONSE_DATA"; app_field AppIDConfidentialWorkflows; ("outputLen"%string, FInt outputLen);
     ("responseType"%string, FString (bs "workflow_execution_result")); ("resultKind"%string, FString (bs (workflowResultKind (mjoin sdkResult))));
     ("sdkResultPresent"%string, FBool (bool_decide (is_Some sdkResult))); ("executionResultLen"%string, FInt (glen (cw_ExecutionResult resp)));
     ("errorLen"%string, FInt errorLen)].

Definition logPublicDataDecodeError (appID : string) (publicDataLen : Z) (err : bytes) : line :=
  mkLine Warn_ "failed to decode publicData"
    [event_field "PUBLIC_DATA_DECODE_ERR"; app_field appID; ("publicDataLen"%string, FInt publicDataLen); ("error"%string, FString err)].

Definition logResponseOutputDecodeError (appID : string) (outputLen : Z) (err : bytes) : line :=
  mkLine Warn_ "failed to decode response output"
    [event_field "RESPONSE_DATA_DECODE_ERR"; app_field appID; ("outputLen"%string, FInt outputLen); ("error"%string, FString err)].

(** ** Inspection *)

Definition inspectPublicData (appID : string) (publicData : bytes) : executionMetadata * line :=
  let n := glen publicData in
  if bool_decide (appID = AppIDConfidentialHTTP) then
    match decode_request publicData with
    | Err err => (mkMetadata appID "" "", logPublicDataDecodeError appID n err)
    | Ok req => (httpExecutionMetadata, logHTTPPublicData req n)
    end
  else if bool_decide (appID = AppIDConfidentialWorkflows) then
    match decode_execution publicData with
    | Err err => (mkMetadata appID "" "", logPublicDataDecodeError appID n err)
    | Ok execution => (workflowExecutionMetadata execution, logWorkflowPublicData execution n)
    end
  else (mkMetadata appID "" "",
        mkLine Debug_ "publicData decoder unavailable"
          [event_field "PUBLIC_DATA_UNSUPPORTED"; app_field appID; ("publicDataLen"%string, FInt n)]).

Definition inspectResponseOutput (appID : string) (output : bytes) : line :=
  let n := glen output in
  if bool_decide (appID = AppIDConfidentialHTTP) then
    match decode_response output with
    | Err err => logResponseOutputDecodeError appID n err
    | Ok resp => logHTTPResponseOutput resp n
    end
  else if bool_decide (appID = AppIDConfidentialWorkflows) then
    match decode_result output with
    | Err err => logResponseOutputDecodeError appID n err
    | Ok resp => logWorkflowResponseOutput resp n
    end
  else mkLine Debug_ "response output decoder unavailable"
         [event_field "RESPONSE_DATA_UNSUPPORTED"; app_field appID; ("outputLen"%string, FInt n)].

(** ** What the log reveals *)

Lemma keys_dom {A} (m k : gmap bytes A) : dom m = dom k -> sorted_names (map fst (map_to_list m)) = sorted_names (map fst (map_to_list k)).
Proof.
  intros H. apply sort_bytes_unique. apply NoDup_Permutation; [apply NoDup_fst_map_to_list..|]. intros x.
  assert (forall m : gmap bytes A, x ∈ map fst (map_to_list m) <-> x ∈ dom m) as Hin.
  { intros m'. rewrite elem_of_dom. split.
    - intros ([y v] & -> & Hv)%list_elem_of_fmap. apply elem_of_map_to_list in Hv. by exists v.
    - intros [v Hv]. apply list_elem_of_fmap. exists (x, v). split; [done|]. by apply elem_of_map_to_list. }
  by rewrite !Hin, H.
Qed.

(** What may be known of a response from the log. *)
Definition same_shape (r1 r2 : HttpApp.Response) : Prop :=
  hr_StatusCode r1 = hr_StatusCode r2 /\ glen (hr_Body r1) = glen (hr_Body r2) /\ dom (hr_MultiHeaders r1) = dom (hr_MultiHeaders r2).
Definition same_result_shape (r1 r2 : ConfidentialWorkflowResponse) : Prop :=
  glen (cw_ExecutionResult r1) = glen (cw_ExecutionResult r2) /\
  match cw_SdkExecutionResult r1, cw_SdkExecutionResult r2 with
  | Some (Some (ExecutionResult_Error e1)), Some (Some (ExecutionResult_Error e2)) => glen e1 = glen e2
  | a, b => a = b
  end.

(** The host's log does not disclose what an enclave computed.  Two outputs of
    equal length whose decoded responses agree on status, body length and header
    names, or on the kind and the lengths of a workflow's result, are logged alike,
    whatever the bodies, the header values and the error texts. *)
Theorem output_not_logged (appID : string) (o1 o2 : bytes) :
  glen o1 = glen o2 ->
  match decode_response o1, decode_response o2 with Ok r1, Ok r2 => same_shape r1 r2 | Err e1, Err e2 => e1 = e2 | _, _ => False end ->
  match decode_result o1, decode_result o2 with Ok r1, Ok r2 => same_result_shape r1 r2 | Err e1, Err e2 => e1 = e2 | _, _ => False end ->
  inspectResponseOutput appID o1 = inspectResponseOutput appID o2.
Proof.
  intros Hn H1 H2. unfold inspectResponseOutput. rewrite Hn. case_bool_decide; [|case_bool_decide; [|done]].
  - destruct (decode_response o1) as [r1|], (decode_response o2) as [r2|]; try done; [|by subst].
    destruct H1 as (Hs & Hb & Hd). unfold logHTTPResponseOutput. by rewrite Hs, Hb, (keys_dom _ _ Hd).
  - destruct (decode_result o1) as [r1|], (decode_result o2) as [r2|]; try done; [|by subst].
    destruct H2 as [Hl Hr]. unfold logWorkflowResponseOutput. rewrite Hl.
    destruct (cw_SdkExecutionResult r1) as [[[]|]|], (cw_SdkExecutionResult r2) as [[[]|]|]; simplify_eq; try done. by rewrite Hr.
Qed.

End PublicData.
