(* ===== verification/HostHttp.v ===== *)
(** * HostHttp: the host's HTTP surface

    Models the rest of [src/enclave/nitro/host/host.go]: reading a request, the call
    to the enclave and its classification ([processBatch]), the answer written to a
    waiter, the settings proxy, the routes and the checks of [main]; the telemetry
    configuration of [telemetry.go] and the instruments of [metrics.go].

    A host process is the proxy of [Host] with its execution metrics: every dispatch
    starts an execution and every end of a call to the enclave finishes it.  Bodies
    are decoded by [encoding/json]; a body comes with what it decodes to. *)

From stdpp Require Import pretty.
From S2P Require Import Prelude Float Codec Text Sha256 Types Cache Services Emitter Duration Host Selector Observability Pool HostMetrics HttpApp Workflow PublicData.

(** ** Answers *)

Inductive host_http :=
| HttpText (code : Z) (msg : string)                       (* [http.Error] *)
| HttpJSONError (code : Z) (response : EnclaveErrorResponse)
| HttpJSON (code : Z) (response : ExecuteResponse)
| HttpAborted.                                              (* the handler panicked *)

(** [http.Error] ends the message with a newline. *)
Definition newline : string := String (Ascii.ascii_of_nat 10) "".

(** ** Reading a request *)

Definition MaxInboundRequestBodyBytes : Z := 64 * 2 ^ 20.

(** [io.ReadAll] of an [http.MaxBytesReader]; [None] is a body that fails. *)
Definition read_limited (body : option bytes) : option bytes :=
  body ≫= fun b => if MaxInboundRequestBodyBytes <? glen b then None else Some b.

Definition receive (Unmarshal : bytes -> option SignedComputeRequest) (method : string) (body : option bytes)
    : result host_http SignedComputeRequest :=
  if negb (bool_decide (method = "POST"%string)) then Err (HttpText 405 "method not allowed")
  else match read_limited body with
  | None => Err (HttpText 400 "failed to read request body")
  | Some b => match Unmarshal b with None => Err (HttpText 400 "invalid json") | Some execReq => Ok execReq end
  end.

(** ** Error texts *)

Definition verify_error_text (e : verify_error) : string :=
  match e with
  | InvalidSignatureLength n => "invalid signature length: expected 64 bytes, got " ++ pretty n
  | NotFromAllowedSigner => "signature not from any allowed signer"
  | VerifyPanic _ => ""
  end.

Definition host_error_text (e : host_error) : string :=
  match e with
  | HostNotConfigured => "service not accepting requests (T and F are zero)"
  | HostInvalidSignature e => "invalid signature: " ++ verify_error_text e
  end.

Definition quorum_timeout_code : string := "quorum_timeout".

Definition batch_error_text (quorumTimeout : Z) (e : batch_error) : string :=
  match e with
  | EnclaveFailed e _ => e
  | QuorumTimedOut received threshold =>
      quorum_timeout_code ++ ": received " ++ pretty received ++ " of " ++ pretty threshold ++ " required signatures within " ++
      string_of (Duration_String quorumTimeout)
  | ServerShutdown => "server_shutdown: request cancelled due to server shutdown"
  end.

(** ** The call to the enclave *)

(** What [processBatch] meets: the batch has no encoding, no request can be built, the
    enclave does not answer (in time), or it answers.  An answer that is not [200] is
    read to its end, one that is is decoded. *)
Inductive enclave_answer :=
| MarshalFailed (e : string)
| BuildFailed (e : string)
| CallFailed (e : string) (timeout : bool)
| Answered (status : Z) (Status : string) (read : option error_body) (decoded : result string ExecuteResponse).

Definition executionFailureProtocol : string := "protocol".
Definition executionFailureTransport : string := "transport".

(** The outcome, the reason of a failure, and the recorded capability failures. *)
Definition processBatch (reqs : list SignedComputeRequest) (a : enclave_answer) : batchResponse * string * list string :=
  let recorded evs := recordSubCapabilityFailures ((fun r : SignedComputeRequest => AppID r) <$> head reqs) evs in
  match a with
  | MarshalFailed e => (Err (EnclaveFailed ("failed to marshal batch of requests: " ++ e) None), executionFailureInternal, [])
  | BuildFailed e => (Err (EnclaveFailed ("failed to create request: " ++ e) None), executionFailureInternal, [])
  | CallFailed e timeout =>
      (Err (EnclaveFailed ("failed to communicate with enclave: " ++ e) None),
       if timeout then executionFailureTimeout else executionFailureTransport, [])
  | Answered status Status read decoded =>
      if negb (status =? 200) then
        let failureReason := executionFailureReasonForStatus status in
        match read with
        | None => (Err (EnclaveFailed ("enclave returned error: " ++ Status ++ " (no message provided)") None), failureReason, [])
        | Some body =>
            match eb_response body with
            | Some r =>
                if negb (bool_decide (eer_Error r = ""%string)) then
                  (Err (EnclaveFailed ("enclave returned error: " ++ Status ++ " - " ++ eer_Error r) (Some r)), failureReason,
                   recorded (eer_MetricEvents r))
                else
                  (Err (EnclaveFailed ("enclave returned error: " ++ Status ++ " - " ++ eb_text body) None), failureReason,
                   recorded (eer_MetricEvents r))
            | None => (Err (EnclaveFailed ("enclave returned error: " ++ Status ++ " - " ++ eb_text body) None), failureReason, [])
            end
        end
      else match decoded with
      | Err e => (Err (EnclaveFailed ("failed to decode response: " ++ e) None), executionFailureProtocol, [])
      | Ok resp => (Ok resp, ""%string, recorded (er_MetricEvents resp))
      end
  end.

(** ** The answer to a waiter *)

(** What arrived on the waiter's channel; [None]: the client went away first. *)
Definition answer_waiter (quorumTimeout : Z) (execReq : SignedComputeRequest) (r : option batchResponse) : host_http :=
  match r with
  | None => HttpText 408 "client disconnected"
  | Some (Ok resp) => HttpJSON 200 resp
  | Some (Err e) =>
      let msg := ("error for request ID " ++ string_of (hex_encode (RequestID execReq)) ++ ": " ++ batch_error_text quorumTimeout e)%string in
      match e with
      | EnclaveFailed _ (Some r) => HttpJSONError 500 (mkErrorResponse msg (eer_Metrics r) (eer_MetricEvents r))
      | _ => HttpText 500 msg
      end
  end.

(** ** The process *)

(** A goroutine that runs [processBatch]: the call is in flight, under the handle of
    its execution, or has returned and waits for the mutex of [completeBatch]. *)
Inductive call_state := Calling (id : nat) | Returned (r : batchResponse).

Record hostProcess := mkProcess {
  hp_host : hostServer;
  hp_load : Load.state;
  hp_calls : list call_state;           (* one for each of the host's jobs *)
  hp_failures : list string;            (* recorded capability failures *)
}.

Definition new_process : hostProcess := mkProcess NewHostServer Load.init [] [].

Section Process.
Context `{HS : Sha256} {verified : bytes -> bytes -> bytes -> bool} `{HV : !SignatureVerifier verified}.
Context {Requirements Restrictions : Type}.
Variables (requireBFTQuorum : bool) (quorumTimeout : Z).
Variables (Unmarshal : bytes -> option SignedComputeRequest).
Variables (decode_request : bytes -> result bytes HttpApp.Request)
  (decode_execution : bytes -> result bytes (WorkflowExecution Requirements Restrictions)) (sdk_view : bytes -> sdk_execute).
Abbreviation execute := (host_execute requireBFTQuorum quorumTimeout).
Abbreviation step := (host_step requireBFTQuorum quorumTimeout).

Definition request_metadata (execReq : SignedComputeRequest) : executionMetadata :=
  (inspectPublicData decode_request decode_execution sdk_view (AppID execReq) (PublicData execReq)).1.

(** How long the batch of a request has waited. *)
Definition quorum_wait (now : Z) (h : hostServer) (execReq : SignedComputeRequest) : Z :=
  match Get now (pendingRequestsCache h) (ComputeRequest_Hash execReq) with
  | Some br => time_sub now (createdAt br)
  | None => 0
  end.

(** [handleExecute] up to its wait: an answer, or [None] while the waiter has none. *)
Definition handleExecute (now : Z) (p : hostProcess) (cfg : EnclaveConfig) (ch : nat) (method : string) (body : option bytes)
    : option host_http * hostProcess :=
  match receive Unmarshal method body with
  | Err answer => (Some answer, p)
  | Ok execReq =>
      let '(out, h) := execute now (hp_host p) cfg ch execReq in
      let p := mkProcess h (hp_load p) (hp_calls p) (hp_failures p) in
      match out with
      | HRejected code e => (Some (HttpText code (host_error_text e)), p)
      | HPanicked => (Some HttpAborted, p)
      | HBlocked => (None, p)
      | HCached resp => (Some (HttpJSON 200 resp), p)
      | HWaiting dispatched =>
          if dispatched then
            let '(id, load) := Load.startExecution now (request_metadata execReq) (quorum_wait now h execReq) (hp_load p) in
            (None, mkProcess h load (hp_calls p ++ [Calling id]) (hp_failures p))
          else (None, p)
      end
  end.

(** The call of job [i] returns: the execution is finished. *)
Definition call_returned (now : Z) (p : hostProcess) (i : nat) (a : enclave_answer) : hostProcess :=
  match jobs (hp_host p) !! i, hp_calls p !! i with
  | Some j, Some (Calling id) =>
      let '(r, failureReason, recorded) := processBatch (job_requests j) a in
      let outcome := match r with Ok _ => executionOutcomeSuccess | Err _ => executionOutcomeError end in
      mkProcess (hp_host p) (Load.finish now id outcome failureReason (hp_load p)) (<[i := Returned r]> (hp_calls p))
        (hp_failures p ++ recorded)
  | _, _ => p
  end.

(** The goroutine of job [i] gets the mutex, if it is ever released. *)
Definition batch_completed (now : Z) (p : hostProcess) (i : nat) : hostProcess :=
  match hp_calls p !! i with
  | Some (Returned r) =>
      if mutex_held (hp_host p) then p
      else mkProcess (step (hp_host p) (now, HJobDone i r)) (hp_load p) (delete i (hp_calls p)) (hp_failures p)
  | _ => p
  end.

Inductive process_label :=
| PRequest (cfg : EnclaveConfig) (ch : nat) (method : string) (body : option bytes)
| PReturned (i : nat) (a : enclave_answer)
| PCompleted (i : nat)
| PTimer (bid : nat) (isShutdown : bool)
| PTimerExit (bid : nat)
| PConfig (c : EnclaveConfig)
| PCollect
| PObserve.

Definition process_step (p : hostProcess) (e : Z * process_label) : hostProcess :=
  let '(now, l) := e in
  let host l := mkProcess (step (hp_host p) (now, l)) (hp_load p) (hp_calls p) (hp_failures p) in
  match l with
  | PRequest cfg ch method body => (handleExecute now p cfg ch method body).2
  | PReturned i a => call_returned now p i a
  | PCompleted i => batch_completed now p i
  | PTimer bid isShutdown => host (HTimer bid isShutdown)
  | PTimerExit bid => host (HTimerExit bid)
  | PConfig c => host (HConfig c)
  | PCollect => host HCollect
  | PObserve => mkProcess (hp_host p) (Load.observeExecutionLoad (hp_load p)).2 (hp_calls p) (hp_failures p)
  end.

Definition process_run (p : hostProcess) (tr : list (Z * process_label)) : hostProcess := fold_left process_step tr p.

(** ** The process is the proxy *)

(** The steps of the proxy that a step of the process takes. *)
Definition host_trace (p : hostProcess) (e : Z * process_label) : list (Z * host_label) :=
  let '(now, l) := e in
  match l with
  | PRequest cfg ch method body =>
      match receive Unmarshal method body with Ok execReq => [(now, HRequest cfg ch execReq)] | Err _ => [] end
  | PReturned _ _ | PObserve => []
  | PCompleted i =>
      match hp_calls p !! i with
      | Some (Returned r) => if mutex_held (hp_host p) then [] else [(now, HJobDone i r)]
      | _ => []
      end
  | PTimer bid isShutdown => [(now, HTimer bid isShutdown)]
  | PTimerExit bid => [(now, HTimerExit bid)]
  | PConfig c => [(now, HConfig c)]
  | PCollect => [(now, HCollect)]
  end.

Fixpoint host_traces (p : hostProcess) (tr : list (Z * process_label)) : list (Z * host_label) :=
  match tr with [] => [] | e :: tr => host_trace p e ++ host_traces (process_step p e) tr end.

Lemma process_step_host p e : hp_host (process_step p e) = host_run requireBFTQuorum quorumTimeout (hp_host p) (host_trace p e).
Proof.
  destruct e as [now []]; cbn [process_step host_trace]; try reflexivity.
  - unfold handleExecute. destruct (receive _ _ _) as [execReq|]; [|done]. cbn [host_run fold_left host_step].
    unfold host_run. cbn. destruct (execute now (hp_host p) cfg ch execReq) as [out h]. destruct out as [| | | |[|]]; try done.
    by destruct (Load.startExecution _ _ _ _).
  - unfold call_returned. destruct (jobs _ !! i) as [j|], (hp_calls p !! i) as [[]|]; try done.
    by destruct (processBatch (job_requests j) a) as [[r reason] recorded].
  - unfold batch_completed. destruct (hp_calls p !! i) as [[]|]; try done. by destruct (mutex_held _).
Qed.

Lemma process_run_host tr : forall p, hp_host (process_run p tr) = host_run requireBFTQuorum quorumTimeout (hp_host p) (host_traces p tr).
Proof.
  induction tr as [|e tr IH]; intros p; [done|]. unfold process_run in *. cbn [fold_left host_traces]. rewrite IH, process_step_host.
  unfold host_run. by rewrite fold_left_app.
Qed.

End Process.
