(* ===== verification/HostHttpSafety.v ===== *)
(** * HostHttpSafety: the host process measures what it does

    The load gauges of the metrics against the calls to the enclave that are in
    flight, over whole runs of the process of [HostHttp]. *)

From S2P Require Import Prelude Codec Text Sha256 Types Cache Services Emitter Host HostSafety Pool HostMetrics HostMetricsSafety HttpApp Workflow PublicData HostHttp.

(** The handles of the calls that have not returned. *)
Definition in_flight (calls : list call_state) : list nat :=
  omap (fun c => match c with Calling id => Some id | Returned _ => None end) calls.

Lemma in_flight_return calls : forall i id r, calls !! i = Some (Calling id) -> Calling id :: <[i := Returned r]> calls ≡ₚ Returned r :: calls.
Proof.
  induction calls as [|c calls IH]; intros [|i] id r; cbn; [done..| |].
  - intros [= ->]. apply perm_swap.
  - intros H. rewrite perm_swap, (IH i id r H). apply perm_swap.
Qed.

Lemma in_flight_returned calls i id r : calls !! i = Some (Calling id) -> id :: in_flight (<[i := Returned r]> calls) ≡ₚ in_flight calls.
Proof.
  intros H%(in_flight_return _ _ _ r). change (in_flight (Calling id :: <[i := Returned r]> calls) ≡ₚ in_flight (Returned r :: calls)).
  unfold in_flight. by rewrite H.
Qed.

Lemma in_flight_completed calls i r : calls !! i = Some (Returned r) -> in_flight (delete i calls) = in_flight calls.
Proof.
  intros H. rewrite delete_take_drop. rewrite <- (take_drop_middle calls i _ H) at 3. unfold in_flight. by rewrite !omap_app.
Qed.

Section Tracked.
Context `{HS : Sha256} {verified : bytes -> bytes -> bytes -> bool} `{HV : !SignatureVerifier verified}.
Context {Requirements Restrictions : Type}.
Variables (bft : bool) (quorumTimeout : Z) (Unmarshal : bytes -> option SignedComputeRequest).
Variables (decode_request : bytes -> result bytes HttpApp.Request)
  (decode_execution : bytes -> result bytes (WorkflowExecution Requirements Restrictions)) (sdk_view : bytes -> sdk_execute).
Abbreviation step := (process_step bft quorumTimeout Unmarshal decode_request decode_execution sdk_view).
Abbreviation run := (process_run bft quorumTimeout Unmarshal decode_request decode_execution sdk_view).
Implicit Types (p : hostProcess) (tr : list (Z * process_label)).

(** ** Jobs *)

Lemma execute_jobs now h cfg ch (execReq : SignedComputeRequest) :
  length (jobs (host_execute bft quorumTimeout now h cfg ch execReq).2) =
  (length (jobs h) + (match (host_execute bft quorumTimeout now h cfg ch execReq).1 with HWaiting true => 1 | _ => 0 end))%nat.
Proof.
  unfold host_execute. destruct (_ && _); [cbn; lia|]. destruct (mutex_held h); [cbn; lia|].
  destruct (VerifySignature _ _ _) as [signer|[]]; [|cbn; lia..]. destruct (Get now (responseCache h) _); [cbn; lia|].
  assert (forall hash f, jobs (get_batch quorumTimeout now h hash f).2 = jobs h) as Hj by (intros hash f; unfold get_batch; by destruct (Get _ _ _)).
  specialize (Hj (ComputeRequest_Hash execReq) (F cfg)). destruct (get_batch _ _ _ _ _) as [br h1]. cbn [snd] in Hj.
  destruct (decide _); cbn; [rewrite Hj; lia|]. destruct (_ =? _); cbn; rewrite ?length_app, Hj; cbn; lia.
Qed.

Lemma complete_jobs now h hash r : jobs (completeBatch now h hash r) = jobs h.
Proof. unfold completeBatch. by destruct (Get _ _ _). Qed.

Lemma timer_jobs now h bid b : jobs (host_step bft quorumTimeout h (now, HTimer bid b)) = jobs h.
Proof.
  cbn. destruct (timers h !! bid) as [tm|]; [|done]. destruct (mutex_held h); [done|]. destruct (_ || _); [|done].
  unfold failBatchIfNotProcessed. destruct (Get _ _ _) as [br|]; [|done]. by destruct (processingRequest br).
Qed.

Lemma timer_exit_jobs now h bid : jobs (host_step bft quorumTimeout h (now, HTimerExit bid)) = jobs h.
Proof. cbn. destruct (timers h !! bid) as [tm|]; [|done]. by destruct (tm_done tm). Qed.

Lemma job_done_jobs now h i r : mutex_held h = false -> (i < length (jobs h))%nat ->
  length (jobs (host_step bft quorumTimeout h (now, HJobDone i r))) = (length (jobs h) - 1)%nat.
Proof.
  intros Hm Hi. cbn. destruct (lookup_lt_is_Some_2 _ _ Hi) as [j ->]. rewrite Hm, complete_jobs. cbn [drop_job jobs].
  rewrite length_delete by (apply lookup_lt_is_Some_2, Hi). lia.
Qed.

(** ** Executions *)

Record tracked p : Prop := {
  tk_jobs : length (hp_calls p) = length (jobs (hp_host p));
  tk_nodup : NoDup (in_flight (hp_calls p));
  tk_dom : forall id, is_Some (Load.executions (hp_load p) !! id) <-> id ∈ in_flight (hp_calls p);
  tk_fresh : forall id, id ∈ in_flight (hp_calls p) -> (id < Load.next (hp_load p))%nat;
}.

(** What a step does to the load. *)
Definition load_ops p (e : Z * process_label) : list Load.op :=
  let '(now, l) := e in
  match l with
  | PRequest cfg ch method body =>
      match receive Unmarshal method body with
      | Ok execReq =>
          let '(out, h) := host_execute bft quorumTimeout now (hp_host p) cfg ch execReq in
          match out with
          | HWaiting true => [Load.Start now (request_metadata decode_request decode_execution sdk_view execReq) (quorum_wait now h execReq)]
          | _ => []
          end
      | Err _ => []
      end
  | PReturned i a =>
      match jobs (hp_host p) !! i, hp_calls p !! i with
      | Some j, Some (Calling id) =>
          let '(r, reason, _) := processBatch (job_requests j) a in
          [Load.Finish now id (match r with Ok _ => executionOutcomeSuccess | Err _ => executionOutcomeError end) reason]
      | _, _ => []
      end
  | PObserve => [Load.Collect]
  | _ => []
  end.

Lemma step_load p e : hp_load (step p e) = Load.run (load_ops p e) (hp_load p).
Proof.
  destruct e as [now []]; cbn [process_step load_ops]; try reflexivity.
  - unfold handleExecute. destruct (receive _ _ _) as [execReq|]; [|done].
    destruct (host_execute _ _ _ _ _ _ _) as [out h]. destruct out as [| | | |[|]]; try done. cbn.
    by destruct (Load.startExecution _ _ _ _).
  - unfold call_returned. destruct (jobs _ !! i) as [j|], (hp_calls p !! i) as [[]|]; try done.
    by destruct (processBatch (job_requests j) a) as [[r reason] recorded].
  - unfold batch_completed. destruct (hp_calls p !! i) as [[]|]; try done. by destruct (mutex_held _).
Qed.

Lemma load_ops_few p e : (length (load_ops p e) <= 1)%nat.
Proof. destruct e as [now []]; cbn; repeat case_match; cbn; lia. Qed.

Lemma start_executions now md wait m :
  Load.executions (Load.startExecution now md wait m).2 = <[Load.next m := Load.mkRunning md now wait]> (Load.executions m) /\
  Load.next (Load.startExecution now md wait m).2 = S (Load.next m) /\ (Load.startExecution now md wait m).1 = Load.next m.
Proof. unfold Load.startExecution. by destruct (bool_decide _). Qed.

Lemma finish_executions now id o f m :
  Load.executions (Load.finish now id o f m) = delete id (Load.executions m) /\ Load.next (Load.finish now id o f m) = Load.next m.
Proof.
  unfold Load.finish. destruct (Load.executions m !! id) as [r|] eqn:E; [|by rewrite delete_id].
  by destruct (if bool_decide (o = executionOutcomeSuccess) then _ else _).
Qed.

Lemma tracked_request now p cfg ch method body : tracked p -> tracked (step p (now, PRequest cfg ch method body)).
Proof.
  intros [H1 H2 H3 H4]. cbn [process_step]. unfold handleExecute. destruct (receive _ _ _) as [execReq|]; [|by split].
  pose proof (execute_jobs now (hp_host p) cfg ch execReq) as Hj. destruct (host_execute _ _ _ _ _ _ _) as [out h]. cbn [fst snd] in Hj.
  destruct out as [| | | |[|]]; try (split; cbn; [lia|done..]).
  pose proof (start_executions now (request_metadata decode_request decode_execution sdk_view execReq) (quorum_wait now h execReq) (hp_load p)) as Hs.
  cbn [hp_load]. destruct (Load.startExecution _ _ _ _) as [id load]. cbn [fst snd] in Hs. destruct Hs as (He & Hn & ->).
  assert (in_flight (hp_calls p ++ [Calling (Load.next (hp_load p))]) = in_flight (hp_calls p) ++ [Load.next (hp_load p)]) as Hf
    by (unfold in_flight; by rewrite omap_app).
  split; cbn [hp_calls hp_host hp_load snd]; rewrite ?Hf.
  - rewrite length_app. cbn. lia.
  - apply NoDup_app. split_and!; [done| |apply NoDup_singleton]. intros x Hx. rewrite list_elem_of_singleton. intros ->. apply H4 in Hx. lia.
  - intros id. rewrite He, elem_of_app, list_elem_of_singleton. destruct (decide (id = Load.next (hp_load p))) as [->|Hne].
    + rewrite lookup_insert_eq. split; [by right|eauto].
    + rewrite lookup_insert_ne by done. rewrite H3. naive_solver.
  - intros id. rewrite Hn, elem_of_app, list_elem_of_singleton. intros [Hid%H4| ->]; lia.
Qed.

Lemma tracked_returned now p i a : tracked p -> tracked (step p (now, PReturned i a)).
Proof.
  intros [H1 H2 H3 H4]. cbn [process_step]. unfold call_returned.
  destruct (jobs _ !! i) as [j|]; [|by split]. destruct (hp_calls p !! i) as [[id|]|] eqn:Ec; [|by split..].
  destruct (processBatch (job_requests j) a) as [[r reason] recorded].
  pose proof (in_flight_returned _ _ _ r Ec) as Hp.
  set (o := match r with Ok _ => _ | Err _ => _ end). destruct (finish_executions now id o reason (hp_load p)) as [He Hn].
  rewrite <- Hp in H2. apply NoDup_cons in H2 as [Hni Hnd].
  split; cbn [hp_calls hp_host hp_load].
  - by rewrite length_insert.
  - done.
  - intros id'. rewrite He. destruct (decide (id' = id)) as [->|Hne].
    + rewrite lookup_delete_eq. split; [by intros []|done].
    + rewrite lookup_delete_ne by done. rewrite H3, <- Hp, elem_of_cons. naive_solver.
  - intros id' Hid. rewrite Hn. apply H4. rewrite <- Hp. by right.
Qed.

Lemma tracked_step p e : tracked p -> tracked (step p e).
Proof.
  destruct e as [now l]. intros H. destruct l; [by apply tracked_request|by apply tracked_returned| | | | | |];
    destruct H as [H1 H2 H3 H4]; try (by split).
  - cbn [process_step]. unfold batch_completed. destruct (hp_calls p !! i) as [[|r]|] eqn:Ec; [by split| |by split].
    destruct (mutex_held (hp_host p)) eqn:Em; [by split|]. pose proof (lookup_lt_Some _ _ _ Ec) as Hi.
    split; cbn [hp_calls hp_host hp_load]; rewrite ?(in_flight_completed _ _ _ Ec); try done.
    rewrite job_done_jobs, length_delete by (done || lia || (apply lookup_lt_is_Some_2; lia)). lia.
  - split; cbn [process_step hp_calls hp_host hp_load]; try done. by rewrite timer_jobs.
  - split; cbn [process_step hp_calls hp_host hp_load]; try done. by rewrite timer_exit_jobs.
Qed.

Lemma tracked_run tr : forall p, tracked p -> tracked (run p tr).
Proof. induction tr as [|e tr IH]; intros p H; [done|]. apply IH. by apply tracked_step. Qed.

Lemma tracked_new : tracked new_process.
Proof. split; [done|constructor| |set_solver]. intros id. cbn. rewrite lookup_empty. split; [by intros []|set_solver]. Qed.

Lemma run_load tr : exists ops, (length ops <= length tr)%nat /\ hp_load (run new_process tr) = Load.run ops Load.init.
Proof.
  induction tr as [|e tr IH] using rev_ind; [by exists []|]. destruct IH as (ops & Hl & Ho).
  unfold process_run. rewrite fold_left_app. fold (run new_process tr). cbn [fold_left].
  exists (ops ++ load_ops (run new_process tr) e). pose proof (load_ops_few (run new_process tr) e). rewrite !length_app. cbn. split; [lia|].
  rewrite step_load, Ho. unfold Load.run. by rewrite fold_left_app.
Qed.

(** C29 The in-flight gauge of the host is the number of calls to the enclave in
    flight.  Over any run of requests, answers and failures of the enclave, timeouts,
    configurations and collections, each batch that was dispatched has one execution
    in the metrics from its dispatch until its call returns, also if the mutex is
    stuck then, none has two, and the workflow gauges name exactly the workflows of
    those calls. *)
Theorem inflight_is_calls tr :
  glen tr < 2 ^ 63 - 1 ->
  let p := run new_process tr in
  let obs := (Load.observeExecutionLoad (hp_load p)).1 in
  length (hp_calls p) = length (jobs (hp_host p)) /\
  NoDup (in_flight (hp_calls p)) /\
  (forall id, is_Some (Load.executions (hp_load p) !! id) <-> id ∈ in_flight (hp_calls p)) /\
  Load.obs_inflight obs = glen (in_flight (hp_calls p)) /\
  Load.obs_workflowActive obs = LoadSafety.active (Load.executions (hp_load p)).
Proof.
  intros Hn p obs. destruct (tracked_run tr new_process tracked_new) as [H1 H2 H3 H4]. fold p in H1, H2, H3, H4.
  split; [done|]. split; [done|]. split; [done|]. destruct (run_load tr) as (ops & Hl & Ho). fold p in Ho.
  destruct (LoadSafety.exact_run ops) as [_ _ Hi Hr _ _ _]; [unfold glen in *; lia|]. rewrite LoadSafety.run_traced_run, <- Ho in Hi, Hr.
  subst obs. cbn. split; [|by apply LoadSafety.refs_active]. rewrite Hi. unfold glen. f_equal.
  assert (dom (Load.executions (hp_load p)) = list_to_set (in_flight (hp_calls p))) as Hd.
  { apply set_eq. intros id. by rewrite elem_of_dom, elem_of_list_to_set. }
  by rewrite <- size_dom, Hd, size_list_to_set.
Qed.

End Tracked.

From S2P Require Import Server ServerSafety ServerToy HostExamples.

(** ** Witnesses

    What is logged. *)

Definition toy_response (o : bytes) : result bytes HttpApp.Response := Ok (mkHttpAppResponse 200 o ∅).
Definition toy_result (o : bytes) : result bytes ConfidentialWorkflowResponse := Ok (mkWorkflowResponse None o).

Lemma output_not_logged_witness :
  inspectResponseOutput toy_response toy_result AppIDConfidentialHTTP (bs "secret 1") =
  inspectResponseOutput toy_response toy_result AppIDConfidentialHTTP (bs "secret 2").
Proof. apply (output_not_logged toy_response toy_result AppIDConfidentialHTTP (bs "secret 1") (bs "secret 2")); vm_compute; auto. Defined.

(** Calls in flight. *)

(** The body names the signer; nothing is decoded of the requests. *)
Definition toy_read (body : bytes) : option SignedComputeRequest := Some (signed_by (if bool_decide (body = bs "1") then signer1 else signer2)).
Definition no_request (_ : bytes) : result bytes HttpApp.Request := Err [].
Definition no_execution (_ : bytes) : result bytes (WorkflowExecution unit unit) := Err [].

(** Two signers reach the quorum, and the metrics are read while the enclave works. *)
Definition toy_calls_open : list (Z * process_label) :=
  [(0, PRequest toy_config 0 "POST" (Some (bs "1"))); (1, PRequest toy_config 1 "POST" (Some (bs "2"))); (2, PObserve)].

Abbreviation toy_process := (process_run (verified := toy_Verify) false QuorumTimeout toy_read no_request no_execution (fun _ => mkSdkExecute [] 0 None)).

Example one_call_open : in_flight (hp_calls (toy_process new_process toy_calls_open)) = [0%nat].
Proof. vm_compute. reflexivity. Qed.

Lemma inflight_is_calls_witness :
  Load.obs_inflight (Load.observeExecutionLoad (hp_load (toy_process new_process toy_calls_open))).1 =
  glen (in_flight (hp_calls (toy_process new_process toy_calls_open))).
Proof.
  assert (glen toy_calls_open < 2 ^ 63 - 1) as Hn by (vm_compute; reflexivity).
  exact (proj1 (proj2 (proj2 (proj2 (inflight_is_calls (verified := toy_Verify) false QuorumTimeout toy_read no_request no_execution (fun _ => mkSdkExecute [] 0 None) toy_calls_open Hn))))).
Defined.
