(* ===== verification/HostMain.v ===== *)
(** * HostMain: how the host process starts

    Models [main] of [src/enclave/nitro/host/host.go]: the checks of its flags, the
    routes of its two servers and the settings proxy; [telemetry.go]; and the creation
    of the instruments in [metrics.go].  A step that fails ends the process.  The
    OpenTelemetry library, [url.Parse] and the network are arguments. *)

From stdpp Require Import pretty.
From S2P Require Import Prelude Float Codec Text Sha256 Types Cache Services Emitter Duration Host Egress Observability Pool HostMetrics HttpApp Workflow PublicData HostHttp.

(** ** Flags *)

Record flags := mkFlags {
  httpPort : Z;
  configHttpPort : Z;
  enclaveCID : Z;
  flag_quorumTimeout : Z;
  shutdownTimeout : Z;
  writeTimeout : Z;
}.

Definition duration (d : Z) : string := string_of (Duration_String d).

(** The first check that fails ends the process with its message. *)
Definition check_flags (f : flags) : result string unit :=
  if cacheDefaultTTL <=? flag_quorumTimeout f then
    Err ("quorum-timeout (" ++ duration (flag_quorumTimeout f) ++ ") must be less than cache TTL (" ++ duration cacheDefaultTTL ++ ")")%string
  else if writeTimeout f <=? flag_quorumTimeout f then
    Err ("write-timeout (" ++ duration (writeTimeout f) ++ ") must be greater than quorum-timeout (" ++ duration (flag_quorumTimeout f) ++ ")")%string
  else if shutdownTimeout f <=? 0 then
    Err ("shutdown-timeout (" ++ duration (shutdownTimeout f) ++ ") must be greater than zero")%string
  else if (enclaveCID f <=? 0) || (2 ^ 32 - 1 <? u64 (enclaveCID f)) then
    Err ("enclave-cid (" ++ pretty (enclaveCID f) ++ ") must be between 1 and " ++ pretty (2 ^ 32 - 1))%string
  else Ok tt.

(** ** Routes *)

Definition PublicKeyPath : string := "/publicKeys".
Definition ExecutePath : string := "/requests".
Definition SetConfigPath : string := "/config".
Definition SettingsPath : string := "/settings".

Inductive endpoint := handleSetConfig | handleUpdateConfig | handleInjectSettings | handleGetPublicKeys | handleExecuteEndpoint.

(** A route of a mux: for one method, or for all. *)
Record route (E : Type) := mkRoute { rt_method : option string; rt_path : string; rt_endpoint : E }.
Arguments mkRoute {E} _ _ _.
Arguments rt_method {E} _.
Arguments rt_path {E} _.
Arguments rt_endpoint {E} _.

Definition config_routes : list (route endpoint) :=
  [mkRoute (Some "POST"%string) SetConfigPath handleSetConfig; mkRoute (Some "POST"%string) SettingsPath handleInjectSettings].

Definition configMux (f : flags) : option (list (route endpoint)) :=
  if configHttpPort f =? httpPort f then None else Some config_routes.
Definition mainMux (f : flags) : list (route endpoint) :=
  (if configHttpPort f =? httpPort f then config_routes else []) ++
  [mkRoute (Some "PATCH"%string) SetConfigPath handleUpdateConfig; mkRoute None PublicKeyPath handleGetPublicKeys;
   mkRoute None ExecutePath handleExecuteEndpoint].

Inductive served (E : Type) := Served (e : E) | ServeError (code : Z).
Arguments Served {E} _.
Arguments ServeError {E} _.

(** [http.ServeMux] on a clean path: the pattern with the method wins over the one
    without; a path known under other methods only gives [405]. *)
Definition serve {E} (mux : list (route E)) (method path : string) : served E :=
  let at_path := filter (fun r => rt_path r = path) mux in
  match head (filter (fun r => rt_method r = Some method) at_path), head (filter (fun r => rt_method r = None) at_path) with
  | Some r, _ | None, Some r => Served (rt_endpoint r)
  | None, None => ServeError (match at_path with [] => 404 | _ => 405 end)
  end.

(** The label under which a request's duration is recorded. *)
Definition hostEndpoint (path : string) : string :=
  if bool_decide (path ∈ [PublicKeyPath; ExecutePath; SetConfigPath; SettingsPath]) then path else "unmatched".

(** [instrumentEndpointLatency] around a handler that takes [d]. *)
Definition instrumentEndpointLatency (path : string) (d : Z) : list (string * string) * float64 :=
  ([("endpoint"%string, hostEndpoint path)], seconds_of d).

(** ** The settings proxy *)

(** The enclave's answer is relayed as it is; [body] and [answer] are [None] if they
    cannot be read, or got. *)
Definition inject_settings_proxy (method : string) (body : option bytes) (built : bool) (answer : option (Z * bytes)) : Z * bytes :=
  let error code msg := (code, bs (msg ++ newline)%string) in
  if negb (bool_decide (method = "POST"%string)) then error 405 "method not allowed"
  else match body with
  | None => error 400 "failed to read request body"
  | Some _ =>
      if negb built then error 500 "failed to build request"
      else match answer with None => error 502 "failed to reach enclave" | Some a => a end
  end.

(** ** Telemetry *)

Definition envOTLPEndpoint : string := "OTEL_EXPORTER_OTLP_ENDPOINT".
Definition envMemoryPollInterval : string := "ENCLAVE_MEMORY_POLL_INTERVAL".
Definition enclaveMemoryPollInterval : Z := 5 * second.
Definition minEnclaveMemoryPollInterval : Z := 250 * millisecond.

Record hostTelemetryConfig := mkTelemetryConfig { Endpoint : bytes; MemoryPollInterval : Z }.
Definition enabled (c : hostTelemetryConfig) : bool := negb (bool_decide (Endpoint c = [])).

Inductive telemetry_error :=
| BadInterval (e : duration_error)
| ShortInterval (interval : Z)
| BadResource
| BadEndpoint
| BadScheme
| BadQuery
| ExporterFailed.

Definition loadHostTelemetryConfig (getenv : string -> bytes) : result telemetry_error hostTelemetryConfig :=
  let endpoint := TrimSpace (getenv envOTLPEndpoint) in
  let raw := TrimSpace (getenv envMemoryPollInterval) in
  if bool_decide (raw = []) then Ok (mkTelemetryConfig endpoint enclaveMemoryPollInterval)
  else match ParseDuration raw with
  | Err e => Err (BadInterval e)
  | Ok interval =>
      if interval <? minEnclaveMemoryPollInterval then Err (ShortInterval interval)
      else Ok (mkTelemetryConfig endpoint interval)
  end.

(** What [url.Parse] makes of the endpoint: the scheme is in lower case. *)
Record endpoint_url := mkEndpointURL { eu_Scheme : bytes; eu_Host : bytes; eu_RawQuery : bytes; eu_Fragment : bytes }.

Section Telemetry.
Context {Exporter : Type}.
Variables (unicode : bytes -> bytes) (url_Parse : bytes -> option endpoint_url) (otlp_New : bytes -> option Exporter) (resource_ok : bool).

Definition newOTLPMetricExporter (endpoint : bytes) : result telemetry_error Exporter :=
  match url_Parse endpoint with
  | None => Err BadEndpoint
  | Some u =>
      let scheme := ToLower unicode (eu_Scheme u) in
      if (negb (bool_decide (scheme = bs "http")) && negb (bool_decide (scheme = bs "https"))) || bool_decide (eu_Host u = []) then Err BadScheme
      else if negb (bool_decide (eu_RawQuery u = [])) || negb (bool_decide (eu_Fragment u = [])) then Err BadQuery
      else match otlp_New endpoint with None => Err ExporterFailed | Some e => Ok e end
  end.

(** Without an endpoint the meter does nothing; else it exports to the endpoint. *)
Definition newHostTelemetry (cfg : hostTelemetryConfig) : result telemetry_error (option Exporter) :=
  if negb (enabled cfg) then Ok None
  else if negb resource_ok then Err BadResource
  else match newOTLPMetricExporter (Endpoint cfg) with Err e => Err e | Ok e => Ok (Some e) end.

(** [close], with the outcome of the first shutdown; [Shutdown] is not called again. *)
Definition telemetry_close {E : Type} (first : option (option E)) (Shutdown : option E) : option E * option (option E) :=
  match first with
  | Some err => (err, first)
  | None => (Shutdown, Some Shutdown)
  end.

End Telemetry.

(** ** Instruments *)

Inductive instrument_kind := Float64Histogram_ | Int64Counter_ | Int64Gauge_ | Int64ObservableGauge_ | Float64ObservableGauge_.

(** Bucket boundaries in units of 100 microseconds; the quotient is the float64
    nearest to the decimal constant. *)
Definition bucket (n : Z) : float64 := float_div (float_of_int n) (float_of_int 10000).
Definition executionDurationBuckets : list float64 :=
  map bucket [100; 250; 500; 1000; 2500; 5000; 10000; 25000; 50000; 100000; 300000; 600000; 1200000; 3000000; 6000000].
Definition pollDurationBuckets : list float64 :=
  map bucket [1; 5; 10; 50; 100; 250; 500; 1000; 2500; 5000; 10000; 25000; 50000; 100000; 300000].

Record instrument_spec := mkSpec {
  is_kind : instrument_kind;
  is_name : string;                (* after [confidential_compute.enclave.] *)
  is_unit : string;
  is_buckets : list float64;
  is_what : string;                (* in the error message *)
}.

(** In the order of their creation. *)
Definition execution_instruments : list instrument_spec :=
  let hist n b w := mkSpec Float64Histogram_ n "s" b w in
  let gauge n u w := mkSpec Int64ObservableGauge_ n u [] w in
  [hist "execution.duration" executionDurationBuckets "enclave execution duration histogram";
   hist "host.endpoint.duration" executionDurationBuckets "enclave host endpoint duration histogram";
   hist "resource.poll.duration" pollDurationBuckets "enclave resource poll duration histogram";
   hist "execution.quorum_wait.duration" executionDurationBuckets "enclave quorum wait duration histogram";
   hist "execution.total.duration" executionDurationBuckets "enclave total execution duration histogram";
   mkSpec Int64Counter_ "executions.started" "1" [] "enclave executions started counter";
   mkSpec Int64Counter_ "executions.rejected" "1" [] "enclave executions rejected counter";
   mkSpec Int64Gauge_ "sub_capability.failure.timestamp" "s" [] "sub-capability failure timestamp gauge";
   gauge "executions.inflight" "1" "enclave executions in-flight gauge";
   gauge "executions.inflight.max" "1" "maximum enclave executions in-flight gauge"]%string.
Definition resource_instruments : list instrument_spec :=
  let gauge n u w := mkSpec Int64ObservableGauge_ n u [] w in
  [gauge "workflow.active" "1" "active workflow gauge";
   gauge "workflows.active.max" "1" "maximum active workflows gauge";
   gauge "memory.go_runtime" "By" "enclave Go runtime memory gauge";
   gauge "memory.total" "By" "enclave total memory gauge";
   gauge "memory.rss" "By" "enclave process RSS memory gauge";
   mkSpec Int64Counter_ "process.cpu.time" "s" [] "enclave process CPU time counter";
   mkSpec Float64ObservableGauge_ "guest.cpu.utilization" "1" [] "enclave guest CPU utilization gauge";
   gauge "memory.available" "By" "enclave available memory gauge";
   gauge "memory.rss_peak" "By" "enclave peak RSS memory gauge"]%string.
Definition host_instruments : list instrument_spec := execution_instruments ++ resource_instruments.

Definition instrument_name (i : instrument_spec) : string := "confidential_compute.enclave." ++ is_name i.

(** The callbacks, with the instruments they observe. *)
Definition host_callbacks : list (string * list string) :=
  [("enclave execution load", ["executions.inflight"; "executions.inflight.max"; "workflow.active"; "workflows.active.max"]);
   ("enclave memory", ["memory.total"; "memory.go_runtime"; "memory.rss"; "memory.available"; "memory.rss_peak"])]%string.

Section Instruments.
(** The meter: the error of a creation or of a registration, if it fails. *)
Variables (create : instrument_spec -> option string) (RegisterCallback : list string -> option string).

Definition newHostMetrics : result string unit :=
  match find_some (fun i => (fun e => "create " ++ is_what i ++ ": " ++ e)%string <$> create i) host_instruments with
  | Some err => Err err
  | None =>
      match find_some (fun c : string * list string => (fun e => "register " ++ c.1 ++ " callback: " ++ e)%string <$> RegisterCallback c.2) host_callbacks with
      | Some err => Err err
      | None => Ok tt
      end
  end.

(** The metrics exist exactly when the meter accepts everything. *)
Lemma newHostMetrics_Ok : newHostMetrics = Ok tt <->
  Forall (fun i => create i = None) host_instruments /\ Forall (fun c : string * list string => RegisterCallback c.2 = None) host_callbacks.
Proof.
  unfold newHostMetrics. set (f := fun i : instrument_spec => _). set (g := fun c : string * list string => _ <$> _).
  assert (forall i, f i = None <-> create i = None) as Hf by (intros i; unfold f; by destruct (create i)).
  assert (forall c, g c = None <-> RegisterCallback c.2 = None) as Hg by (intros c; unfold g; by destruct (RegisterCallback c.2)).
  destruct (find_some f host_instruments) as [err|] eqn:Ef.
  - split; [done|]. intros [H _]. assert (find_some f host_instruments = None) as E; [|congruence].
    apply find_some_None. eapply Forall_impl; [exact H|]. intros i. apply Hf.
  - apply find_some_None in Ef. destruct (find_some g host_callbacks) as [err|] eqn:Eg.
    + split; [done|]. intros [_ H]. assert (find_some g host_callbacks = None) as E; [|congruence].
      apply find_some_None. eapply Forall_impl; [exact H|]. intros c. apply Hg.
    + apply find_some_None in Eg. split; [|done]. intros _. split; eapply Forall_impl; [exact Ef|intros i; apply Hf|exact Eg|intros c; apply Hg].
Qed.

End Instruments.

(** Every instrument has its own, legal name; every observed one was created. *)
Example instrument_names :
  NoDup (map instrument_name host_instruments) /\
  Forall (fun i => Forall (fun c => legal_char c = true) (bs (instrument_name i))) host_instruments /\
  Forall (fun c : string * list string => Forall (fun n => n ∈ map is_name host_instruments) c.2) host_callbacks.
Proof. by_compute. Qed.

(** ** What a started host promises *)

(** A host that has started keeps every waiter's batch longer than its timeout, and
    every connection too. *)
Lemma flags_window f t0 : check_flags f = Ok tt ->
  exists t, t0 + flag_quorumTimeout f <= t <= t0 + cacheDefaultTTL /\ t < t0 + writeTimeout f.
Proof.
  unfold check_flags. destruct (Z.leb_spec cacheDefaultTTL (flag_quorumTimeout f)); [done|].
  destruct (Z.leb_spec (writeTimeout f) (flag_quorumTimeout f)); [done|]. intros _. exists (t0 + flag_quorumTimeout f). lia.
Qed.

(** With a port of its own, the configuration and the settings of the enclave cannot
    be set through the public port, by no method and no path. *)
Lemma privileged_not_public f method path e :
  configHttpPort f <> httpPort f -> serve (mainMux f) method path = Served e -> e <> handleSetConfig /\ e <> handleInjectSettings.
Proof.
  intros Hp. unfold mainMux. rewrite (proj2 (Z.eqb_neq _ _) Hp). cbn [app]. intros Hs.
  assert (exists r, r ∈ [mkRoute (Some "PATCH"%string) SetConfigPath handleUpdateConfig; mkRoute None PublicKeyPath handleGetPublicKeys;
                         mkRoute None ExecutePath handleExecuteEndpoint] /\ e = rt_endpoint r) as (r & Hr & ->).
  { unfold serve in Hs. set (l := filter _ (_ :: _)) in Hs.
    destruct (head (filter (fun r => rt_method r = Some method) l)) as [r|] eqn:E1; [|destruct (head (filter (fun r => rt_method r = None) l)) as [r|] eqn:E2; [|done]];
      injection Hs as <-; exists r; (split; [|done]).
    - apply head_Some_elem_of, list_elem_of_filter in E1 as [_ E1]. by apply list_elem_of_filter in E1 as [_ E1].
    - apply head_Some_elem_of, list_elem_of_filter in E2 as [_ E2]. by apply list_elem_of_filter in E2 as [_ E2]. }
  rewrite !elem_of_cons in Hr. destruct Hr as [->|[->|[->|Hr]]]; [done..|set_solver].
Qed.

(** With one port for both, they can. *)
Example settings_public : serve (mainMux (mkFlags 8080 8080 16 1 1 2)) "POST" SettingsPath = Served handleInjectSettings.
Proof. vm_compute. reflexivity. Qed.
