(* ===== verification/HostProcess.v ===== *)
(** * HostProcess: how the host process starts, runs and stops

    Models [main] of [src/enclave/nitro/host/host.go] as a whole: the start-up steps
    with their fatal exits, the servers that result, the settings that are injected,
    and the graceful shutdown with its two time budgets.  Logs are left out. *)

From Stdlib Require Import Sorted.
From stdpp Require Import pretty.
From S2P Require Import Prelude Sha256 Types Cache Services Keychain Emitter Server ServerSafety ServerToy Host HostSafety HostExamples HostMain.

(** ** Start-up *)

(** The limits that both servers share. *)
Record server_limits := mkLimits { ReadHeaderTimeout : Z; ReadTimeout : Z; IdleTimeout : Z; MaxHeaderBytes : Z }.

(** An [http.Server] of the host. *)
Record http_server := mkHttpServer { Addr : string; Handler : list (route endpoint); limits : server_limits; WriteTimeout : Z }.

(** What runs beside [main] once it has started. *)
Record host_process := mkProcess {
  configServer : option http_server;
  mainServer : http_server;
  injected : option bytes;         (* the settings sent to the enclave *)
  memoryMonitor : option Z;        (* the poll interval *)
  telemetryEnabled : bool;         (* there is an endpoint to export to *)
}.

(** A fatal exit, with whether telemetry was closed before it. *)
Inductive started := Fatal (message : string) (telemetryClosed : bool) | Running (p : host_process).

(** What the steps of [main] meet outside the program. *)
Record surroundings := mkSurroundings {
  newLogger : result string unit;
  getenv : string -> bytes;
  telemetry : hostTelemetryConfig -> result string unit;
  hostMetrics : result string unit;
  newBroker : result string unit;
  listenOutbound : result string unit;
  settingsJSON : bytes;
  is_json_object : bytes -> bool;
  telemetry_text : telemetry_error -> string;
}.

Definition host_servers (f : flags) (l : server_limits) : option http_server * http_server :=
  ((fun mux => mkHttpServer ("127.0.0.1:" ++ pretty (configHttpPort f)) mux l (writeTimeout f)) <$> configMux f,
   mkHttpServer (":" ++ pretty (httpPort f)) (mainMux f) l (writeTimeout f)).

(** Only a JSON object is sent; anything else is logged and skipped. *)
Definition settings_to_inject (s : surroundings) : option bytes :=
  match settingsJSON s with
  | [] => None
  | payload => if is_json_object s payload then Some payload else None
  end.

Definition host_main (f : flags) (l : server_limits) (s : surroundings) : started :=
  match newLogger s with
  | Err e => Fatal ("failed to initialize logger: " ++ e) false
  | Ok _ =>
  match check_flags f with
  | Err e => Fatal e false
  | Ok _ =>
  match loadHostTelemetryConfig (getenv s) with
  | Err e => Fatal ("invalid telemetry config: " ++ telemetry_text s e) false
  | Ok telemetryCfg =>
  match telemetry s telemetryCfg with
  | Err e => Fatal ("failed to initialize telemetry: " ++ e) false
  | Ok _ =>
  match hostMetrics s with
  | Err e => Fatal ("failed to initialize host metrics: " ++ e) true
  | Ok _ =>
  match newBroker s with
  | Err e => Fatal ("failed to construct outbound proxy: " ++ e) false
  | Ok _ =>
  match listenOutbound s with
  | Err e => Fatal ("failed to listen for enclave outbound traffic: " ++ e) false
  | Ok _ =>
      let '(config, main) := host_servers f l in
      Running (mkProcess config main (settings_to_inject s)
                 (if enabled telemetryCfg then Some (MemoryPollInterval telemetryCfg) else None) (enabled telemetryCfg))
  end end end end end end end.

(** ** Shutdown *)

(** [http.Server.Shutdown] called at [now] with a context that ends at [deadline]:
    [idle] is the instant at which it finds no connection in use, if it ever does.  It
    returns at that instant, at once if that is past, else when the context ends. *)
Definition Shutdown (now deadline : Z) (idle : option Z) : Z * bool :=
  match idle with
  | Some d => if d <=? Z.max now deadline then (Z.max now d, true) else (Z.max now deadline, false)
  | None => (Z.max now deadline, false)
  end.

Inductive shutdown_step :=
| Cancelled
| ConfigServerShutdown (ok : bool)
| MainServerShutdown (ok : bool)
| OutboundClosed
| TelemetryClosed (ok : bool)
| Returned.

(** [telemetry.close] called at [now] with a context that ends at [deadline]: nothing to do without an
    endpoint, else [provider.Shutdown], whose end is [flush now deadline]; it has not been closed before. *)
Definition close_telemetry (enabled : bool) (flush : Z -> Z -> Z * bool) (now deadline : Z) : Z * bool :=
  if negb enabled then (now, true)
  else let '(t, ok) := flush now deadline in
       (t, match (telemetry_close None (if ok then None else Some tt)).1 with None => true | Some _ => false end).

(** The end of [main], from the signal or the failure of the outbound proxy at [t0]:
    the steps with the instants at which they are done. *)
Definition shut_down (shutdownTimeout t0 : Z) (config : option (option Z)) (main : option Z) (telemetryEnabled : bool)
    (flush : Z -> Z -> Z * bool) : list (Z * shutdown_step) :=
  let deadline := t0 + shutdownTimeout in
  let '(t1, config_steps) :=
    match config with
    | None => (t0, [])
    | Some idle => let '(t, ok) := Shutdown t0 deadline idle in (t, [(t, ConfigServerShutdown ok)])
    end in
  let '(t2, ok) := Shutdown t1 deadline main in
  let '(t3, flushed) := close_telemetry telemetryEnabled flush t2 (t2 + shutdownTimeout) in
  (t0, Cancelled) :: config_steps ++ [(t2, MainServerShutdown ok); (t2, OutboundClosed); (t3, TelemetryClosed flushed); (t3, Returned)].

(** ** What start-up guarantees *)

(** The host runs exactly if every step succeeds. *)
Lemma host_main_Running f l s p : host_main f l s = Running p <->
  is_ok (newLogger s) = true /\ check_flags f = Ok tt /\ is_ok (hostMetrics s) = true /\ is_ok (newBroker s) = true /\
  is_ok (listenOutbound s) = true /\
  exists cfg, loadHostTelemetryConfig (getenv s) = Ok cfg /\ is_ok (telemetry s cfg) = true /\
    p = mkProcess (host_servers f l).1 (host_servers f l).2 (settings_to_inject s)
          (if enabled cfg then Some (MemoryPollInterval cfg) else None) (enabled cfg).
Proof.
  unfold host_main. split.
  - destruct (newLogger s), (check_flags f) as [[]|], (loadHostTelemetryConfig _) as [cfg|] eqn:Ec; try done.
    destruct (telemetry s cfg) eqn:Et, (hostMetrics s), (newBroker s), (listenOutbound s); try done.
    intros [= <-]. split_and!; try done. exists cfg. by rewrite Et.
  - intros (Hl & -> & Hm & Hb & Ho & cfg & -> & Ht & ->).
    by destruct (newLogger s), (telemetry s cfg), (hostMetrics s), (newBroker s), (listenOutbound s).
Qed.

(** Telemetry that was opened is closed before a fatal exit only if the metrics fail:
    a host that cannot open the outbound proxy exits without flushing. *)
Lemma fatal_closes_telemetry f l s message :
  host_main f l s = Fatal message true <->
  is_ok (newLogger s) = true /\ check_flags f = Ok tt /\
  exists cfg e, loadHostTelemetryConfig (getenv s) = Ok cfg /\ is_ok (telemetry s cfg) = true /\ hostMetrics s = Err e /\
    message = ("failed to initialize host metrics: " ++ e)%string.
Proof.
  unfold host_main. split.
  - destruct (newLogger s), (check_flags f) as [[]|], (loadHostTelemetryConfig _) as [cfg|] eqn:Ec; try done.
    destruct (telemetry s cfg) eqn:Et, (hostMetrics s) as [|em], (newBroker s), (listenOutbound s); try done.
    all: intros [= <-]; split_and!; try done; exists cfg, em; by rewrite Et.
  - intros (Hl & -> & cfg & e & -> & Ht & -> & ->). by destruct (newLogger s), (telemetry s cfg).
Qed.

(** ** What shutdown guarantees *)

Lemma Shutdown_ends now deadline idle : now <= (Shutdown now deadline idle).1 <= Z.max now deadline.
Proof. unfold Shutdown. destruct idle as [d|]; [destruct (Z.leb_spec d (Z.max now deadline))|]; cbn; lia. Qed.

Lemma Shutdown_ok now deadline idle : (Shutdown now deadline idle).2 = true <-> exists d, idle = Some d /\ d <= Z.max now deadline.
Proof.
  unfold Shutdown. destruct idle as [d|]; [|naive_solver]. destruct (Z.leb_spec d (Z.max now deadline)); cbn; split; try naive_solver lia.
Qed.

Section Bounds.
Variables (shutdownTimeout : Z) (enabled : bool) (flush : Z -> Z -> Z * bool).
(** [provider.Shutdown] ends with its context. *)
Hypothesis flush_law : forall now deadline, now <= (flush now deadline).1 <= Z.max now deadline.

Lemma close_telemetry_ends now deadline : now <= (close_telemetry enabled flush now deadline).1 <= Z.max now deadline.
Proof.
  unfold close_telemetry. destruct enabled; cbn [negb]; [|cbn; lia]. pose proof (flush_law now deadline). by destruct (flush now deadline).
Qed.

Lemma shut_down_shape t0 config main : 0 <= shutdownTimeout ->
  exists t1 t2 t3 ok flushed config_steps,
    shut_down shutdownTimeout t0 config main enabled flush =
      (t0, Cancelled) :: config_steps ++ [(t2, MainServerShutdown ok); (t2, OutboundClosed); (t3, TelemetryClosed flushed); (t3, Returned)] /\
    t0 <= t1 /\ t1 <= t2 /\ t2 <= t3 /\ t2 <= t0 + shutdownTimeout /\ t3 <= t2 + shutdownTimeout /\
    (ok = true <-> exists d, main = Some d /\ d <= t0 + shutdownTimeout) /\
    match config with
    | None => config_steps = []
    | Some idle => exists okc, config_steps = [(t1, ConfigServerShutdown okc)] /\ (okc = true <-> exists d, idle = Some d /\ d <= t0 + shutdownTimeout)
    end.
Proof.
  intros HT. unfold shut_down. set (deadline := t0 + shutdownTimeout).
  assert (exists t1 cs, match config with
      | None => (t0, []) | Some idle => let '(t, ok) := Shutdown t0 deadline idle in (t, [(t, ConfigServerShutdown ok)]) end = (t1, cs) /\
      t0 <= t1 <= deadline /\
      match config with
      | None => cs = []
      | Some idle => exists okc, cs = [(t1, ConfigServerShutdown okc)] /\ (okc = true <-> exists d, idle = Some d /\ d <= deadline)
      end) as (t1 & cs & -> & H1 & Hcs).
  { destruct config as [idle|]; [|exists t0, []; split_and!; [done|lia|lia|done]].
    pose proof (Shutdown_ends t0 deadline idle). pose proof (Shutdown_ok t0 deadline idle) as Hok.
    destruct (Shutdown t0 deadline idle) as [t okc]. exists t, [(t, ConfigServerShutdown okc)]. cbn in *.
    split_and!; [done|lia|lia|]. exists okc. split; [done|]. by rewrite Hok, Z.max_r by lia. }
  pose proof (Shutdown_ends t1 deadline main). pose proof (Shutdown_ok t1 deadline main) as Hok.
  destruct (Shutdown t1 deadline main) as [t2 ok]. pose proof (close_telemetry_ends t2 (t2 + shutdownTimeout)) as Hf.
  destruct (close_telemetry enabled flush t2 (t2 + shutdownTimeout)) as [t3 fl]. cbn in *. rewrite Z.max_r in Hok by lia.
  exists t1, t2, t3, ok, fl, cs. split_and!; (done || lia).
Qed.

End Bounds.

(** C36 A host that was started stops in time: from the signal on, its context is
    cancelled first; each server is shut down without an error exactly if its
    connections are idle within the timeout; the enclave's outbound listener is closed
    after both, telemetry after that, and [main] returns, at most twice the timeout
    after the signal.  What the connections do is arbitrary; [flush] is the shutdown of the metrics
    provider, which ends with its context. *)
Theorem host_stops_in_time (f : flags) (l : server_limits) (s : surroundings) (p : host_process) (flush : Z -> Z -> Z * bool)
    (t0 : Z) (idle_config idle_main : option Z) :
  host_main f l s = Running p -> (forall now deadline, now <= (flush now deadline).1 <= Z.max now deadline) ->
  let T := shutdownTimeout f in
  let in_time idle := exists d, idle = Some d /\ d <= t0 + T in
  let steps := shut_down T t0 ((fun _ => idle_config) <$> configServer p) idle_main (telemetryEnabled p) flush in
  Sorted Z.le (map fst steps) /\ Forall (fun x => t0 <= x.1 <= t0 + 2 * T) steps /\
  exists okc okm okf,
    map snd steps = Cancelled :: (if bool_decide (configHttpPort f = httpPort f) then [] else [ConfigServerShutdown okc]) ++
      [MainServerShutdown okm; OutboundClosed; TelemetryClosed okf; Returned] /\
    (configHttpPort f <> httpPort f -> okc = true <-> in_time idle_config) /\ (okm = true <-> in_time idle_main).
Proof.
  intros Hrun Hflush T in_time steps. apply host_main_Running in Hrun as (_ & Hf & _ & _ & _ & cfg & _ & _ & ->).
  assert (0 < T) as HT. { unfold check_flags in Hf. subst T. destruct (Z.leb_spec (shutdownTimeout f) 0); [|done]. repeat (destruct (_ <=? _); try done). }
  destruct (shut_down_shape T (enabled cfg) flush Hflush t0 ((fun _ => idle_config) <$> (host_servers f l).1) idle_main) as (t1 & t2 & t3 & okm & okf & cs & E & H1 & H2 & H3 & H4 & H5 & Hm & Hc); [lia|].
  cbn [configServer telemetryEnabled] in steps. subst steps. rewrite E.
  unfold host_servers, configMux in Hc. cbn [fst] in Hc. destruct (Z.eqb_spec (configHttpPort f) (httpPort f)) as [Heq|Hne]; cbn in Hc.
  - subst cs. rewrite bool_decide_true by done. split_and!; [repeat constructor; cbn; lia|repeat constructor; cbn; lia|].
    exists true, okm, okf. split_and!; done.
  - destruct Hc as (okc & -> & Hokc). rewrite bool_decide_false by done. split_and!; [repeat constructor; cbn; lia|repeat constructor; cbn; lia|].
    exists okc, okm, okf. split_and!; done.
Qed.

Definition example_flags : flags := mkFlags 8080 8081 16 second (25 * second) (600 * second).
Definition example_limits : server_limits := mkLimits (30 * second) (120 * second) (120 * second) (2 ^ 20).
Definition example_surroundings : surroundings :=
  mkSurroundings (Ok tt) (fun name => if bool_decide (name = envOTLPEndpoint) then bs "http://collector:4318" else []) (fun _ => Ok tt) (Ok tt) (Ok tt) (Ok tt) (bs "{}") (fun _ => true) (fun _ => ""%string).
Definition example_process : host_process :=
  mkProcess (Some (mkHttpServer "127.0.0.1:8081" config_routes example_limits (600 * second)))
    (mkHttpServer ":8080" (mainMux example_flags) example_limits (600 * second)) (Some (bs "{}")) (Some enclaveMemoryPollInterval) true.
(** An exporter that takes all the time it is given. *)
Definition slow_flush (now deadline : Z) : Z * bool := (Z.max now deadline, false).

Lemma slow_flush_law now deadline : now <= (slow_flush now deadline).1 <= Z.max now deadline.
Proof. cbn. lia. Qed.

(** A request that is stuck in the enclave and an exporter that does not answer: the
    host stops after fifty seconds, twice its timeout. *)
Lemma host_stops_in_time_witness :
  let steps := shut_down (25 * second) 0 (Some (Some 0)) None true slow_flush in
  Sorted Z.le (map fst steps) /\ last steps = Some (50 * second, Returned).
Proof.
  split; [|vm_compute; reflexivity].
  refine (proj1 (host_stops_in_time example_flags example_limits example_surroundings example_process slow_flush 0 (Some 0) None _ slow_flush_law)).
  vm_compute. reflexivity.
Defined.

(** ** The requests that wait *)

Section Drain.
Context `{HS : Sha256} {verified : bytes -> bytes -> bytes -> bool} `{HV : !SignatureVerifier verified}.
Variables (bft : bool) (quorumTimeout : Z).

Abbreviation step := (host_step bft quorumTimeout).
Abbreviation run := (host_run bft quorumTimeout).

(** How a timer leaves its [select]: by the timeout, by the cancellation, or by its closed [doneCh]. *)
Inductive wake := ByTimeout | ByCancellation | ByDone.

Definition wake_label (b : nat) (w : wake) : host_label :=
  match w with ByTimeout => HTimer b false | ByCancellation => HTimer b true | ByDone => HTimerExit b end.

(** Once the context is cancelled every timer leaves its [select], in some order; by the timeout if that has run
    out, by its [doneCh] if that is closed, and by the cancellation in any case. *)
Definition cancel_steps (t : Z) (wakes : list (nat * wake)) : list (Z * host_label) :=
  map (fun w => (t, wake_label w.1 w.2)) wakes.

Definition may_wake (t : Z) (tm : timer) (w : wake) : Prop :=
  match w with ByTimeout => tm_deadline tm <= t | ByCancellation => True | ByDone => tm_done tm = true end.

Definition all_wake (t : Z) (h : hostServer) (wakes : list (nat * wake)) : Prop :=
  (forall b, is_Some (timers h !! b) -> b ∈ map fst wakes) /\
  forall b w tm, (b, w) ∈ wakes -> timers h !! b = Some tm -> may_wake t tm w.

(** What [c], waiting for the batch of [k], is told: the shutdown, or that the quorum timed out, if a timer of that hash
    was due ([ts] are the timers at the cancellation). *)
Definition told_error (t : Z) (ts : gmap nat timer) (k : bytes) (e : batch_error) : Prop :=
  e = ServerShutdown \/
  exists received threshold b tm, e = QuorumTimedOut received threshold /\ ts !! b = Some tm /\ tm_hash tm = k /\ tm_deadline tm <= t.

(** [c] waits in the batch of [k], which has no quorum yet, or was told. *)
Definition told (t : Z) (ts : gmap nat timer) (k : bytes) (c : nat) (h : hostServer) : Prop :=
  (exists e, (c, Err e) ∈ sent h /\ told_error t ts k e) \/
  exists br, pending_at t h k br /\ processingRequest br = false /\ c ∈ responseCh br.

Lemma wake_step t ts h b w :
  mutex_held h = false -> (forall b tm, timers h !! b = Some tm -> ts !! b = Some tm) ->
  (forall tm, ts !! b = Some tm -> may_wake t tm w) ->
  let h' := step h (t, wake_label b w) in
  mutex_held h' = false /\ timers h' = delete b (timers h) /\ forall k c, told t ts k c h -> told t ts k c h'.
Proof.
  intros Hm Hts Hw. destruct (timers h !! b) as [tm|] eqn:Et.
  2: { assert (step h (t, wake_label b w) = h) as -> by (destruct w; cbn; by rewrite Et).
       split_and!; [done| |done]. symmetry. by apply delete_id. }
  pose proof (Hts _ _ Et) as Hts'. specialize (Hw tm Hts').
  assert (forall sd, (sd = false -> tm_deadline tm <= t) ->
    let h' := (failBatchIfNotProcessed bft t (drop_timer h b) (tm_hash tm) (tm_f tm) sd).2 in
    mutex_held h' = false /\ timers h' = delete b (timers h) /\ forall k c, told t ts k c h -> told t ts k c h') as Hfail.
  { intros sd Hsd. unfold failBatchIfNotProcessed. cbn [drop_timer pendingRequestsCache].
    destruct (Get t (pendingRequestsCache h) (tm_hash tm)) as [br|] eqn:Eg; [|done]. destruct (processingRequest br) eqn:Ep; [done|].
    cbn. split_and!; [done..|]. intros k c [(e & Hs & He)|(br' & Hk & Hp & Hc)].
    - left. exists e. split; [|done]. apply elem_of_app. by left.
    - destruct (decide (k = tm_hash tm)) as [->|Hne].
      + assert (br' = br) as -> by (unfold pending_at in Hk; congruence). left. eexists. split.
        * apply elem_of_app. right. apply list_elem_of_fmap. exists c. by split; [reflexivity|].
        * destruct sd; [by left|right]. exists (glen (requests br)), (quorumThreshold bft (tm_f tm)), b, tm. split_and!; try done. by apply Hsd.
      + right. exists br'. split; [|done]. eapply pending_delete; [done|]. done. }
  destruct w; cbn [wake_label host_step may_wake] in *; rewrite Et, ?Hm, ?orb_true_r.
  - apply Z.leb_le in Hw as Hle. rewrite Hle. cbn [orb]. by apply Hfail.
  - by apply Hfail.
  - by rewrite Hw.
Qed.

Lemma wake_inv t h used b w : host_inv quorumTimeout used t h -> host_inv quorumTimeout used t (step h (t, wake_label b w)).
Proof.
  intros Hi. pose proof (host_inv_step bft quorumTimeout used t t h (wake_label b w) Hi (Z.le_refl t)) as H.
  destruct w; cbn [label_channel wake_label list_to_set] in H; rewrite union_empty_l_L in H; apply H; intros ch Hch; by apply elem_of_nil in Hch.
Qed.

Lemma cancel_run t ts wakes : forall h used,
  mutex_held h = false -> host_inv quorumTimeout used t h -> (forall b tm, timers h !! b = Some tm -> ts !! b = Some tm) ->
  (forall b w tm, (b, w) ∈ wakes -> ts !! b = Some tm -> may_wake t tm w) ->
  let h' := run h (cancel_steps t wakes) in
  (forall b, is_Some (timers h' !! b) -> is_Some (timers h !! b) /\ b ∉ map fst wakes) /\ host_inv quorumTimeout used t h' /\
  forall k c, told t ts k c h -> told t ts k c h'.
Proof.
  induction wakes as [|[b w] wakes IH]; intros h used Hm Hi Hts Hw.
  - split_and!; [|done|done]. intros b Hb. split; [done|]. apply not_elem_of_nil.
  - change (run h (cancel_steps t ((b, w) :: wakes))) with (run (step h (t, wake_label b w)) (cancel_steps t wakes)).
    destruct (wake_step t ts h b w Hm Hts) as (Hm' & Ht & Htold); [intros tm; apply Hw; rewrite elem_of_cons; by left|].
    destruct (IH (step h (t, wake_label b w)) used Hm' (wake_inv t h used b w Hi)) as (Ht' & Hi' & Htold').
    + intros b' tm. rewrite Ht. intros [_ ?]%lookup_delete_Some. by apply Hts.
    + intros b' w' tm Hin. apply Hw. apply elem_of_cons; by right.
    + split_and!; [|done|by eauto]. intros b' Hb'. destruct (Ht' b' Hb') as [[tm Htm] Hn]. rewrite Ht in Htm.
      apply lookup_delete_Some in Htm as [Hne Htm]. split; [by exists tm|]. cbn. rewrite elem_of_cons. by intros [->|?].
Qed.

(** C32 Stopping the host releases the requests that wait for a quorum: let no request have been checked
    against a malformed signer key.  Once every timer has been woken by the cancellation, by its own
    timeout if that had run out, or by the end of its batch, every waiter of a batch that was still short of its
    quorum has been told of the shutdown, or of the quorum timeout if a timer of that request was due; and
    whoever waits still waits for a call to the enclave that is in flight. *)
Theorem shutdown_releases_waiters (tr : list (Z * host_label)) (t : Z) (wakes : list (nat * wake)) :
  Sorted Z.le (map fst tr) -> Forall (fun x => x <= t) (map fst tr) -> NoDup (channels tr) -> sound_requests tr ->
  let h := run NewHostServer tr in
  all_wake t h wakes ->
  let h' := run h (cancel_steps t wakes) in
  (forall k br c, pending_at t h k br -> processingRequest br = false -> c ∈ responseCh br ->
     exists e, (c, Err e) ∈ sent h' /\ told_error t (timers h) k e) /\
  (forall k br, pending_at t h' k br -> processingRequest br = true /\ exists j, j ∈ jobs h' /\ job_hash j = k).
Proof.
  intros Hs Hall Hnd Hsound h [Hcover Hmay] h'.
  assert (mutex_held h = false) as Hm by (by apply (mutex_free bft quorumTimeout tr NewHostServer)).
  destruct (cancel_run t (timers h) wakes h _ Hm (host_inv_history bft quorumTimeout tr t Hs Hall Hnd) ltac:(done) Hmay) as (Ht & Hi & Htold).
  assert (forall k br, pending_at t h' k br -> processingRequest br = true /\ exists j, j ∈ jobs h' /\ job_hash j = k) as Hdone.
  { intros k br Hk. pose proof (hi_answered _ _ _ _ Hi k br Hk) as Ha. destruct (processingRequest br); [done|].
    destruct Ha as (tm & Htm & _). destruct (Ht (br_id br)) as [Hb Hn]; [by exists tm|]. destruct Hn. by apply Hcover. }
  split; [|exact Hdone]. intros k br c Hk Hp Hc. destruct (Htold k c) as [|(br' & Hk' & Hp' & _)]; [by right; exists br|done|].
  by destruct (Hdone k br' Hk') as [? _]; congruence.
Qed.

End Drain.

(** Two batches short of their quorum, the first of them overdue when the host is stopped, and
    one that the enclave is working on. *)
Definition third_request : ComputeRequest :=
  mkComputeRequest zero32 "exec-3" (bs "data") [] [] [] (sample_key 1) [] "confidential-echo@1.0.0-alpha" "1.0.0".

Definition drain_history : list (Z * host_label) :=
  [(0, HRequest toy_config 0 (mkSigned third_request (toy_sig signer1)));
   (20 * second, HRequest toy_config 1 (signed_by signer1));
   (21 * second, HRequest toy_config 2 (mkSigned other_request (toy_sig signer1)));
   (22 * second, HRequest toy_config 3 (signed_by signer2))].

Definition drain_wakes : list (nat * wake) := [(1%nat, ByCancellation); (0%nat, ByTimeout); (2%nat, ByCancellation)].

Lemma drain_all_wake : all_wake (31 * second) (toy_host_run NewHostServer drain_history) drain_wakes.
Proof.
  assert (timers (toy_host_run NewHostServer drain_history) =
    {[0%nat := mkTimer (ComputeRequest_Hash third_request) 1 (0 + QuorumTimeout) false;
      1%nat := mkTimer (ComputeRequest_Hash toy_request) 1 (20 * second + QuorumTimeout) false;
      2%nat := mkTimer (ComputeRequest_Hash other_request) 1 (21 * second + QuorumTimeout) false]}) as Ht
    by (vm_compute; reflexivity).
  unfold all_wake. rewrite Ht. split.
  - intros b. rewrite !lookup_insert_is_Some, lookup_singleton_is_Some. cbn [drain_wakes map fst]. rewrite !elem_of_cons. intuition.
  - intros b w tm Hin. unfold drain_wakes in Hin. rewrite !elem_of_cons in Hin.
    destruct Hin as [[= -> ->]|[[= -> ->]|[[= -> ->]|[]%not_elem_of_nil]]]; intros Hb; [exact I| |exact I].
    rewrite lookup_insert_eq in Hb. injection Hb as <-. vm_compute. discriminate.
Qed.

(** The overdue waiter may be told of the timeout, the other one of the shutdown; the batch in the enclave stays. *)
Lemma shutdown_releases_waiters_witness :
  let h := toy_host_run NewHostServer drain_history in
  let h' := toy_host_run h (cancel_steps (31 * second) drain_wakes) in
  sent h' = [(0%nat, Err (QuorumTimedOut 1 2)); (2%nat, Err ServerShutdown)] /\
  (forall k br, pending_at (31 * second) h' k br -> processingRequest br = true /\ exists j, j ∈ jobs h' /\ job_hash j = k).
Proof.
  split; [vm_compute; reflexivity|].
  refine (proj2 (shutdown_releases_waiters false QuorumTimeout drain_history (31 * second) drain_wakes _ _ _ _ drain_all_wake)).
  - sorted_times.
  - sorted_times.
  - by_compute.
  - repeat (apply Forall_cons; split; [exact toy_signers_sound || done|]). constructor.
Defined.
