(* ===== verification/Boot.v ===== *)
(** * Boot: how an enclave starts

    Models [src/enclave/nitro/starter.go] and [entropy.go] (the checks an enclave
    makes of its machine before it serves), [src/enclave/vsock/vsock.go] (the
    addresses it listens on and dials), the wiring of the outbound connections
    in [environments/nitro/main.go] of the workflow application, with
    [parseGatewayURLs] of its gateway client, and the start of the parent's proxy in
    [host/proxy-server/server.go].  What the machine
    answers to the [t]-th check is an argument, so it may change while the enclave
    boots. *)

From S2P Require Import Prelude Codec Text Sha256 Types Cache Keychain Services Server Egress EgressSafety Dispatcher.

(** ** Checks of the machine *)

Definition nsmHwRNG : bytes := bs "nsm-hwrng".

(** What the files and the command answer when the [t]-th check reads them. *)
Record machine := mkMachine {
  GOARCH : string;
  rng_current : nat -> result string bytes;
  current_clocksource : nat -> result string bytes;
  chronySources : nat -> result string bytes;
}.

Inductive check_error :=
| ReadingRNG (e : string)
| WrongRNG (name : bytes)
| ReadingClockSource (e : string)
| UnsupportedArchitecture (architecture : string)
| InvalidClockSource (architecture : string) (source : bytes) (expected : bytes)
| RunningChronyc (e : string)
| InvalidSynchronization (output : bytes).

Definition VerifyEntropySource (file : result string bytes) : option check_error :=
  match file with
  | Err e => Some (ReadingRNG e)
  | Ok current =>
      let name := TrimSpace current in
      if negb (bool_decide (name = nsmHwRNG)) then Some (WrongRNG name) else None
  end.

Definition expected_clock (architecture : string) : option bytes :=
  if bool_decide (architecture = "amd64") then Some (bs "kvm-clock")
  else if bool_decide (architecture = "arm64") then Some (bs "arch_sys_counter")
  else None.

Definition validateClockSource (architecture : string) (source : bytes) : option check_error :=
  match expected_clock architecture with
  | None => Some (UnsupportedArchitecture architecture)
  | Some expected =>
      if negb (bool_decide (source = expected)) then Some (InvalidClockSource architecture source expected) else None
  end.

Definition checkClockSource (architecture : string) (file : result string bytes) : option check_error :=
  match file with
  | Err e => Some (ReadingClockSource e)
  | Ok data => validateClockSource architecture (TrimSpace data)
  end.

Definition checkChronySources (sources : result string bytes) : option check_error :=
  match sources with
  | Err e => Some (RunningChronyc e)
  | Ok output => if negb (contains (string_of output) "* PHC") then Some (InvalidSynchronization output) else None
  end.

Definition environmentCheckAttempts : Z := 30.
Definition environmentCheckDelay : Z := 2 * second.

Record environmentCheck := mkCheck { check_name : string; check : nat -> option check_error }.

Definition environmentChecks (m : machine) : list environmentCheck :=
  [ mkCheck "entropy source" (fun t => VerifyEntropySource (rng_current m t));
    mkCheck "clock source" (fun t => checkClockSource (GOARCH m) (current_clocksource m t));
    mkCheck "PTP time synchronization" (fun t => checkChronySources (chronySources m t)) ].

(** The retry loop of one check with that many [attempts] left: its last
    error, the count of checks made and the time slept. *)
Fixpoint retry (check : nat -> option check_error) (delay : Z) (attempts : nat) (t : nat) (err : option check_error) (slept : Z)
    : option check_error * nat * Z :=
  match attempts with
  | O => (err, t, slept)
  | S more =>
      match check t with
      | None => (None, S t, slept)
      | Some e => retry check delay more (S t) (Some e) (match more with O => slept | S _ => slept + delay end)
      end
  end.

(** [t] checks have been made, [slept] is the time spent waiting. *)
Fixpoint verifyEnvironment (checks : list environmentCheck) (attempts delay : Z) (t : nat) (slept : Z)
    : result (string * Z * check_error) unit * nat * Z :=
  match checks with
  | [] => (Ok tt, t, slept)
  | c :: checks =>
      match retry (check c) delay (Z.to_nat attempts) t None slept with
      | (Some e, t, slept) => (Err (check_name c, attempts, e), t, slept)
      | (None, t, slept) => verifyEnvironment checks attempts delay t slept
      end
  end.

(** ** Addresses *)

Inductive address := VsockAt (cid port : Z) | LoopbackTCP (port : Z).

Definition nitroParentCID : Z := 3.
Definition CIDAny : Z := 2 ^ 32 - 1.
Definition vsock_Local : Z := 1.

(** [env] are the variables of the process; one that is not set reads as empty. *)
Section Vsock.
Variable env : string -> bytes.

Definition IsFake : bool := bool_decide (env "VSOCK_BACKEND" = bs "tcp").

Definition getTCPPort (cid port : Z) : Z := u32 (u32 (u32 (cid * 1000) + Z.rem port 10000) + 10000).

Definition localCID : Z :=
  if bool_decide (env "ENCLAVE_CID" = []) then 16
  else match ParseUint_bits 32 (env "ENCLAVE_CID") with None => 16 | Some parsed => u32 parsed end.

Definition fakeTCPPort (cid port : Z) : Z :=
  let cid := if (cid =? nitroParentCID) || (cid =? CIDAny) then localCID else cid in getTCPPort cid port.

Definition ListenAt (cid port : Z) : address :=
  if IsFake then LoopbackTCP (fakeTCPPort cid port) else VsockAt cid port.

(** [own] is the context identifier the kernel knows this machine by. *)
Definition Listen (own port : Z) : address := if IsFake then ListenAt CIDAny port else VsockAt own port.

Definition Dial (cid port : Z) : address :=
  if IsFake then LoopbackTCP (fakeTCPPort (if cid =? vsock_Local then localCID else cid) port) else VsockAt cid port.

End Vsock.

(** ** Starting *)

Section Start.
Context `{HS : Sha256} `{HE : EnclaveEnv} `{HT : TDH2}
  {verified : bytes -> bytes -> bytes -> bool} `{HV : !SignatureVerifier verified}.

Inductive started :=
| Fatal (message : string)                          (* the process exits *)
| NotVerified (name : string) (attempts : Z) (e : check_error)
| Serving (at_ : address) (s : enclaveServer).

(** [bind] is whether the machine lets the process listen on an address. *)
Definition StartNitroEnclave (m : machine) (env : string -> bytes) (own : Z) (bind : address -> bool)
    (app : World) (kc : boxKeychain) (vsockPort : Z) (allowReconfig : bool) : started :=
  if 2 ^ 32 - 1 <? vsockPort then Fatal "Invalid port"
  else match verifyEnvironment (environmentChecks m) environmentCheckAttempts environmentCheckDelay 0 0 with
  | (Err (name, attempts, e), _, _) => NotVerified name attempts e
  | (Ok _, _, _) =>
      let server := NewEnclaveServer app kc zeroConfig allowReconfig in
      let a := Listen env own (u32 vsockPort) in
      if bind a then Serving a server else Fatal "cannot listen on vsock"
  end.

End Start.

(** ** Outbound connections of the workflow application *)

Definition parseGatewayURLs (raw : bytes) : list bytes :=
  filter (fun p => p <> []) (map TrimSpace (split_on (byte_of_Z 44) raw)).

Section Wiring.
Variables (unicode : bytes -> bytes) (url_Parse : bytes -> option (bytes * bytes * bytes)).

(** What the dispatcher factory builds from the injected gateway settings: the
    client's endpoints, its timeout and the policy of its dialer. *)
Definition dispatcherFactory (gatewayTimeout : Z) (URL : bytes) (RequestTimeout : Z) : result policy_error (list bytes * Z * policy) :=
  let RequestTimeout := if RequestTimeout <=? 0 then gatewayTimeout else RequestTimeout in
  let? p := configuredEndpointPolicy unicode url_Parse [URL] in
  Ok (parseGatewayURLs URL, RequestTimeout, p).

(** The policies of the storage client and of the artifact downloads. *)
Definition storageFactory (allowReconfig : bool) (storageURL : bytes) : result policy_error (policy * policy) :=
  let? operator := configuredEndpointPolicy unicode url_Parse [storageURL] in
  Ok (operator, if allowReconfig then insecureFixturePolicy else preSignedURLPolicy).

End Wiring.

(** ** Starting the parent's proxy *)

(** The addresses of the parent's interfaces; [ParsePrefix] is [netip.ParsePrefix]
    and the address it holds. *)
Fixpoint interface_addresses (ParsePrefix : bytes -> option Addr) (raws : list bytes) (addresses : gset Addr) : result bytes (gset Addr) :=
  match raws with
  | [] => Ok addresses
  | raw :: raws =>
      match ParsePrefix raw with
      | None => Err raw
      | Some x => interface_addresses ParsePrefix raws ({[Unmap x]} ∪ addresses)
      end
  end.

(** [None] is a failure to list the interfaces. *)
Definition localInterfaceAddresses (ParsePrefix : bytes -> option Addr) (interfaceAddrs : option (list bytes)) : result (option bytes) (gset Addr) :=
  match interfaceAddrs with
  | None => Err None
  | Some raws => match interface_addresses ParsePrefix raws ∅ with Ok s => Ok s | Err raw => Err (Some raw) end
  end.

(** The server's rules and its credentials: name and password are the profile. *)
Definition New (ParsePrefix : bytes -> option Addr) (interfaceAddrs : option (list bytes)) (allowLocalDestinationsForTests : bool)
    : result (option bytes) (ruleSet * gmap string string) :=
  let? localAddresses := localInterfaceAddresses ParsePrefix interfaceAddrs in
  Ok (mkRuleSet localAddresses allowLocalDestinationsForTests,
      {[ProxyProfilePublic := ProxyProfilePublic; ProxyProfileConfigured := ProxyProfileConfigured; ProxyProfileTest := ProxyProfileTest]}).

(** How the server's log takes an error: quietly if the enclave closed a tunnel. *)
Definition isEnclaveTunnelClose (message : bytes) : bool :=
  HasPrefix message (bs "server: writeto tcp ") && contains (string_of message) ": write vsock " && HasSuffix message (bs ": broken pipe").

Inductive socks_log := ProxyDebug (event : string) | ProxyWarn (event : string).

Definition Errorf (has_debug : bool) (message : bytes) : option socks_log :=
  if isEnclaveTunnelClose message then if has_debug then Some (ProxyDebug "OUTBOUND_PROXY_TUNNEL_CLOSED") else None
  else Some (ProxyWarn "OUTBOUND_PROXY_REQUEST_ERR").

(** ** What booting guarantees *)

(** A check that passes at its [k]-th attempt, the attempts before it failing. *)
Definition passes_after (check : nat -> option check_error) (t k : nat) : Prop :=
  check (t + k)%nat = None /\ forall i, (i < k)%nat -> check (t + i)%nat <> None.

(** Equal triples of an outcome, a count and a time. *)
Ltac triple := apply f_equal2; [apply f_equal2; [try done; f_equal; lia|lia]|cbn [Nat.pred]; rewrite ?Nat2Z.inj_succ, ?Nat2Z.inj_add; nia].

Lemma retry_passes check delay attempts t err slept k :
  (k < attempts)%nat -> passes_after check t k ->
  retry check delay attempts t err slept = (None, (t + S k)%nat, slept + Z.of_nat k * delay).
Proof.
  revert t err slept k. induction attempts as [|n IH]; intros t err slept k Hk [Hp Hf]; [lia|]. cbn [retry]. destruct k as [|k].
  - rewrite Nat.add_0_r in Hp. rewrite Hp. triple.
  - destruct (check t) as [e|] eqn:E; [|destruct (Hf 0%nat); [lia|by rewrite Nat.add_0_r]].
    destruct n as [|n]; [lia|]. rewrite (IH (S t) (Some e) (slept + delay) k); [triple|lia|].
    split; [by rewrite Nat.add_succ_comm|]. intros i Hi. rewrite Nat.add_succ_comm. apply Hf. lia.
Qed.

Lemma retry_fails check delay attempts t err slept :
  (forall i, (i < attempts)%nat -> check (t + i)%nat <> None) ->
  retry check delay attempts t err slept =
    ((match attempts with O => err | S n => check (t + n)%nat end), (t + attempts)%nat, slept + Z.of_nat (pred attempts) * delay).
Proof.
  revert t err slept. induction attempts as [|n IH]; intros t err slept Hf; cbn [retry].
  - triple.
  - destruct (check t) as [e|] eqn:E; [|destruct (Hf 0%nat); [lia|by rewrite Nat.add_0_r]].
    rewrite IH by (intros i Hi; rewrite Nat.add_succ_comm; apply Hf; lia).
    destruct n as [|n]; [rewrite (Nat.add_0_r t), E; triple|]. rewrite (Nat.add_succ_comm t n). triple.
Qed.

Lemma first_pass check t attempts :
  (exists k, (k < attempts)%nat /\ passes_after check t k) \/ forall i, (i < attempts)%nat -> check (t + i)%nat <> None.
Proof.
  induction attempts as [|n [(k & ? & ?)|IH]]; [right; lia|left; exists k; auto with lia|].
  destruct (check (t + n)%nat) eqn:E; [|left; exists n; repeat split; [lia|done..]].
  right. intros i Hi. destruct (decide (i = n)) as [->|]; [congruence|]. apply IH. lia.
Qed.

(** The checks pass one after the other, each within its attempts, from the
    [t]-th check on: [ks] counts the attempts that failed. *)
Inductive settles (attempts : nat) : list environmentCheck -> nat -> list nat -> Prop :=
| settles_nil t : settles attempts [] t []
| settles_cons c checks t k ks :
    (k < attempts)%nat -> passes_after (check c) t k -> settles attempts checks (t + S k) ks ->
    settles attempts (c :: checks) t (k :: ks).

(** The first check that never passes: those before it settle. *)
Definition stuck (attempts : nat) (checks : list environmentCheck) (t : nat) (name : string) (e : check_error) : Prop :=
  exists before c after ks, checks = before ++ c :: after /\ settles attempts before t ks /\ name = check_name c /\
    let t' := (t + sum_list ks + length ks)%nat in
    (forall i, (i < attempts)%nat -> check c (t' + i)%nat <> None) /\ check c (t' + pred attempts)%nat = Some e.

Definition Zsum (ks : list nat) : Z := Z.of_nat (sum_list ks).

(** The checks are made in order, each retried until it passes or has used its
    attempts: the environment is accepted exactly if every check passes within its
    attempts, and otherwise the error is the last one of the first check that never
    did.  Either way the time slept is the delay times the failures waited out. *)
Lemma verifyEnvironment_exact checks attempts delay t slept :
  0 < attempts ->
  (exists ks, settles (Z.to_nat attempts) checks t ks /\
     verifyEnvironment checks attempts delay t slept =
       (Ok tt, (t + sum_list ks + length ks)%nat, slept + Zsum ks * delay)) \/
  (exists name e, stuck (Z.to_nat attempts) checks t name e /\
     (verifyEnvironment checks attempts delay t slept).1.1 = Err (name, attempts, e)).
Proof.
  intros Ha. revert t slept. induction checks as [|c checks IH]; intros t slept; cbn [verifyEnvironment].
  - left. exists []. split; [constructor|]. unfold Zsum. cbn. triple.
  - destruct (first_pass (check c) t (Z.to_nat attempts)) as [(k & Hk & Hp)|Hf].
    + rewrite (retry_passes _ _ _ _ _ _ _ Hk Hp).
      destruct (IH (t + S k)%nat (slept + Z.of_nat k * delay)) as [(ks & Hs & ->)|(name & e & Hs & ->)].
      * left. exists (k :: ks). split; [by constructor|]. unfold Zsum. cbn. triple.
      * right. exists name, e. split; [|done]. destruct Hs as (before & c' & after & ks & -> & Hs & Hn & He).
        exists (c :: before), c', after, (k :: ks). split; [done|]. split; [by constructor|]. split; [done|]. cbn in *.
        by replace (t + (k + sum_list ks) + S (length ks))%nat with (t + S k + sum_list ks + length ks)%nat by lia.
    + rewrite (retry_fails _ _ _ _ _ _ Hf). destruct (Z.to_nat attempts) as [|n] eqn:En; [lia|].
      destruct (check c (t + n)%nat) as [e|] eqn:E; [|destruct (Hf n); [lia|done]]. right. exists (check_name c), e. split; [|done].
      exists [], c, checks, []. split; [done|]. split; [constructor|]. split; [done|]. cbn. by rewrite !Nat.add_0_r.
Qed.

(** The readings the checks accept. *)
Definition entropy_good (m : machine) (t : nat) : Prop := exists file, rng_current m t = Ok file /\ TrimSpace file = nsmHwRNG.
Definition clock_good (m : machine) (t : nat) : Prop :=
  exists file, current_clocksource m t = Ok file /\ expected_clock (GOARCH m) = Some (TrimSpace file).
Definition time_good (m : machine) (t : nat) : Prop :=
  exists output, chronySources m t = Ok output /\ contains (string_of output) "* PHC" = true.

Lemma VerifyEntropySource_None m t : VerifyEntropySource (rng_current m t) = None <-> entropy_good m t.
Proof.
  unfold VerifyEntropySource, entropy_good. destruct (rng_current m t) as [file|]; [|naive_solver].
  case_bool_decide; cbn; naive_solver.
Qed.

Lemma checkClockSource_None m t : checkClockSource (GOARCH m) (current_clocksource m t) = None <-> clock_good m t.
Proof.
  unfold checkClockSource, clock_good, validateClockSource. destruct (current_clocksource m t) as [file|]; [|naive_solver].
  destruct (expected_clock (GOARCH m)) as [x|]; [|naive_solver]. case_bool_decide; cbn; naive_solver.
Qed.

Lemma checkChronySources_None m t : checkChronySources (chronySources m t) = None <-> time_good m t.
Proof.
  unfold checkChronySources, time_good. destruct (chronySources m t) as [out|]; [|naive_solver].
  destruct (contains (string_of out) "* PHC") eqn:E; cbn; split; try done.
  - by exists out.
  - intros (o & [= <-] & Ho). congruence.
Qed.

(** The first time from [t] on, [k] checks later, that a reading is accepted. *)
Definition first_good (good : nat -> Prop) (t k : nat) : Prop := good (t + k)%nat /\ forall i, (i < k)%nat -> ~ good (t + i)%nat.

Lemma passes_good check (good : nat -> Prop) t k :
  (forall t, check t = None <-> good t) -> passes_after check t k <-> first_good good t k.
Proof. intros Hg. unfold passes_after, first_good. by setoid_rewrite Hg. Qed.

Lemma settles_inv attempts c checks t ks :
  settles attempts (c :: checks) t ks <->
  exists k ks', ks = k :: ks' /\ (k < attempts)%nat /\ passes_after (check c) t k /\ settles attempts checks (t + S k) ks'.
Proof. split; [inversion 1; subst; eauto 8|intros (k & ks' & -> & ? & ? & ?); by constructor]. Qed.

Lemma environment_settles m attempts t :
  (exists ks, settles attempts (environmentChecks m) t ks) <->
  exists i j k, (i < attempts)%nat /\ (j < attempts)%nat /\ (k < attempts)%nat /\
    first_good (entropy_good m) t i /\ first_good (clock_good m) (t + S i) j /\ first_good (time_good m) (t + S i + S j) k.
Proof.
  unfold environmentChecks. setoid_rewrite settles_inv. setoid_rewrite settles_inv. setoid_rewrite settles_inv. cbn [check].
  setoid_rewrite (passes_good _ _ _ _ (VerifyEntropySource_None m)).
  setoid_rewrite (passes_good _ _ _ _ (checkClockSource_None m)).
  setoid_rewrite (passes_good _ _ _ _ (checkChronySources_None m)).
  split.
  - intros (? & i & ? & -> & ? & ? & j & ? & -> & ? & ? & k & ? & -> & ? & ? & _). by exists i, j, k.
  - intros (i & j & k & ? & ? & ? & ? & ? & ?). exists [i; j; k]. do 2 eexists. split; [done|]. do 2 (split; [done|]).
    do 2 eexists. split; [done|]. do 2 (split; [done|]). do 2 eexists. split; [done|]. do 2 (split; [done|]). constructor.
Qed.

Lemma settles_not_stuck attempts checks t ks name e :
  settles attempts checks t ks -> stuck attempts checks t name e -> False.
Proof.
  intros Hs (before & c & after & ks' & -> & Hb & _ & Hf & _). revert t ks Hs ks' Hb Hf.
  induction before as [|b before IH]; intros t ks Hs ks' Hb Hf; cbn [app] in Hs; apply settles_inv in Hs as (k & ks1 & -> & Hk & Hp & Hs).
  - inversion Hb; subst. cbn in Hf. rewrite !Nat.add_0_r in Hf. destruct (Hf k); [done|apply Hp].
  - apply settles_inv in Hb as (k' & ks2 & -> & Hk' & Hp' & Hb). assert (k' = k) as ->.
    { destruct Hp as [Hp Hq], Hp' as [Hp' Hq']. destruct (lt_eq_lt_dec k k') as [[?|?]|?]; [by destruct (Hq' k)|done|by destruct (Hq k')]. }
    eapply (IH _ _ Hs _ Hb). cbn in Hf. by replace (t + S k + sum_list ks2 + length ks2)%nat with (t + (k + sum_list ks2) + S (length ks2))%nat by lia.
Qed.

Section Booting.
Context `{HS : Sha256} `{HE : EnclaveEnv} `{HT : TDH2}
  {verified : bytes -> bytes -> bytes -> bool} `{HV : !SignatureVerifier verified}.

(** C31 The enclave serves exactly if its machine proved itself first: the Nitro module
    was seen feeding the kernel's entropy, then the architecture's trusted clock was
    seen in use, then chrony was seen synchronised to the hardware clock, in this
    order and each within thirty looks of the one before; the port fits 32 bits and
    can be listened on.  It then serves from the fresh state, with no configuration. *)
Theorem enclave_serves_verified (m : machine) (env : string -> bytes) (own : Z) (bind : address -> bool)
    (app : World) (kc : boxKeychain) (vsockPort : Z) (allowReconfig : bool) (a : address) (s : enclaveServer) :
  StartNitroEnclave m env own bind app kc vsockPort allowReconfig = Serving a s <->
  vsockPort < 2 ^ 32 /\ a = Listen env own (u32 vsockPort) /\ bind a = true /\ s = NewEnclaveServer app kc zeroConfig allowReconfig /\
  exists i j k, (i < 30)%nat /\ (j < 30)%nat /\ (k < 30)%nat /\
    first_good (entropy_good m) 0 i /\ first_good (clock_good m) (S i) j /\ first_good (time_good m) (S i + S j) k.
Proof.
  unfold StartNitroEnclave. rewrite <- (environment_settles m 30 0).
  destruct (Z.ltb_spec (2 ^ 32 - 1) vsockPort) as [?|?]; [split; [done|lia]|].
  destruct (verifyEnvironment_exact (environmentChecks m) environmentCheckAttempts environmentCheckDelay 0 0) as [(ks & Hs & ->)|(name & e & Hs & He)]; [done|..].
  - cbn zeta. destruct (bind (Listen env own (u32 vsockPort))) eqn:Eb; [|split; [done|by intros (_ & -> & ? & _); congruence]].
    split; [intros [= <- <-]; split_and!; [lia|done|done|done|by exists ks]|by intros (_ & -> & _ & -> & _)].
  - destruct (verifyEnvironment _ _ _ _ _) as [[[]] ?]; cbn in He; [done|]. injection He as ->. split; [done|].
    intros (_ & _ & _ & _ & ks & Hk). by destruct (settles_not_stuck _ _ _ _ _ _ Hk Hs).
Qed.

End Booting.

(** The waits of a boot that succeeds add up to less than three minutes. *)
Lemma boot_waits_bounded m ks :
  settles (Z.to_nat environmentCheckAttempts) (environmentChecks m) 0 ks -> Zsum ks * environmentCheckDelay <= 174 * second.
Proof.
  unfold environmentChecks. intros (i & ? & -> & Hi & _ & Hs)%settles_inv. apply settles_inv in Hs as (j & ? & -> & Hj & _ & Hs).
  apply settles_inv in Hs as (k & ? & -> & Hk & _ & Hs). inversion Hs; subst. unfold Zsum, environmentCheckDelay, second. cbn [sum_list].
  change (Z.to_nat environmentCheckAttempts) with 30%nat in *. unfold id. lia.
Qed.

(** ** Where the fake enclaves meet *)

Section FakeVsock.
Variable env : string -> bytes.

(** With the loopback transport the host reaches the enclave it was started for,
    and the enclave its parent: the two processes share the identifier. *)
Lemma fake_meets own cid port :
  IsFake env = true -> localCID env = cid -> cid <> nitroParentCID -> cid <> CIDAny -> cid <> vsock_Local ->
  Dial env cid port = Listen env own port /\ Dial env nitroParentCID port = ListenAt env CIDAny port.
Proof.
  intros Hf Hc H3 Ha H1. unfold Dial, Listen, ListenAt. rewrite Hf. unfold fakeTCPPort.
  rewrite (proj2 (Z.eqb_neq cid _) H1), (proj2 (Z.eqb_neq cid _) H3), (proj2 (Z.eqb_neq cid _) Ha). cbn. by rewrite Hc.
Qed.

Lemma getTCPPort_small cid port :
  0 <= cid < 4000000 -> 0 <= port -> getTCPPort cid port = cid * 1000 + Z.rem port 10000 + 10000.
Proof.
  intros Hc Hp. pose proof (Z.rem_bound_pos port 10000 Hp ltac:(lia)). unfold getTCPPort.
  rewrite (u32_id (cid * 1000)) by (unfold is_u32; lia). rewrite (u32_id (_ + Z.rem _ _)) by (unfold is_u32; lia).
  apply u32_id. unfold is_u32. lia.
Qed.

(** Enclaves of one machine whose ports lie within a thousand of each other never
    share a loopback port, and the identifiers up to 45 give usable ports. *)
Lemma fake_ports_distinct cid cid' port port' :
  0 <= cid < 4000000 -> 0 <= cid' < 4000000 -> 0 <= port < 10000 -> 0 <= port' < 10000 -> Z.abs (port - port') < 1000 ->
  getTCPPort cid port = getTCPPort cid' port' -> cid = cid' /\ port = port'.
Proof. intros. rewrite !getTCPPort_small, !Z.rem_small in * by lia. lia. Qed.

Lemma fake_port_usable cid port : 0 <= cid <= 45 -> 0 <= port -> 10000 <= getTCPPort cid port < 65536.
Proof. intros Hc Hp. pose proof (Z.rem_bound_pos port 10000 Hp ltac:(lia)). rewrite getTCPPort_small by lia. lia. Qed.

End FakeVsock.

(** ** Which endpoints the gateway client can reach *)

Section Gateways.
Variables (unicode : bytes -> bytes) (url_Parse : bytes -> option (bytes * bytes * bytes)).

Lemma parseGatewayURLs_spec raw url :
  url ∈ parseGatewayURLs raw <-> url <> [] /\ exists e, e ∈ split_on (byte_of_Z 44) raw /\ url = TrimSpace e.
Proof. unfold parseGatewayURLs. rewrite list_elem_of_filter, list_elem_of_fmap. naive_solver. Qed.

(** The gateway client's endpoints and its dialer are read from the same injected
    setting by two parsers, and they agree: the client has an endpoint, the dialer
    lets it connect to the host and port of each of them (so failing over to the
    next gateway is never refused), and to nothing else. *)
Theorem gateway_dials_exactly (fallback RequestTimeout timeout : Z) (URL : bytes) (urls : list bytes) (p : policy) :
  dispatcherFactory unicode url_Parse fallback URL RequestTimeout = Ok (urls, timeout, p) ->
  (0 < fallback -> 0 < timeout) /\ urls <> [] /\ profile p = ProxyProfileConfigured /\
  forall host port, validateAuthority unicode p host port = Ok tt <->
    exists url h q n, url ∈ urls /\ endpoint_parts unicode url_Parse url = Some (h, q) /\
      port_key q = Some n /\ port_key port = Some n /\ host_key unicode h = host_key unicode host /\ host_key unicode host <> [].
Proof.
  unfold dispatcherFactory. destruct (configuredEndpointPolicy unicode url_Parse [URL]) as [p'|] eqn:Ep; cbn; [|done]. intros [= <- <- <-].
  split; [destruct (Z.leb_spec RequestTimeout 0); lia|].
  split; [|split; [by eapply configured_policy_exact|]].
  - unfold configuredEndpointPolicy in Ep. destruct (add_endpoints _ _ _ _) as [s|] eqn:Es; cbn [rbind] in Ep; [|done].
    case_bool_decide as Hs; [done|]. apply set_choose_L in Hs as [a Ha]. apply (add_endpoints_Ok _ _ _ _ _ Es) in Ha as [?|(e & He & Ha)]; [set_solver|].
    cbn in He. rewrite app_nil_r in He. intros Hn. assert (TrimSpace e ∈ parseGatewayURLs URL) as Hin; [|rewrite Hn in Hin; by apply elem_of_nil in Hin].
    apply parseGatewayURLs_spec. split; [|by exists e]. by intros Ht; rewrite Ht in Ha.
  - intros host port. rewrite (proj2 (configured_policy_exact _ _ _ _ host port Ep)). setoid_rewrite parseGatewayURLs_spec.
    setoid_rewrite list_elem_of_singleton. split.
    + intros (l & e & h & q & n & -> & He & Hp & ?). exists (TrimSpace e), h, q, n. split; [|done]. split; [|by exists e]. by intros Ht; rewrite Ht in Hp.
    + intros (url & h & q & n & (_ & e & He & ->) & Hp & ?). by exists URL, e, h, q, n.
Qed.

(** An empty entry, which the client skips, stops the dialer from being built. *)
Lemma empty_entry_refused fallback RequestTimeout URL e :
  e ∈ split_on (byte_of_Z 44) URL -> TrimSpace e = [] ->
  exists err, dispatcherFactory unicode url_Parse fallback URL RequestTimeout = Err err.
Proof.
  intros He Ht.
  assert (forall s, exists err, add_endpoints unicode url_Parse (split_on (byte_of_Z 44) URL) s = Err err) as Ha.
  { induction (split_on (byte_of_Z 44) URL) as [|x l IH]; intros s; [by apply elem_of_nil in He|]. cbn [add_endpoints].
    apply elem_of_cons in He as [<-|He]; [rewrite Ht; cbn; eauto|].
    destruct (endpointAuthority _ _ _) as [a|err]; cbn; [by apply IH|eauto]. }
  unfold dispatcherFactory, configuredEndpointPolicy. cbn [map concat]. rewrite app_nil_r.
  destruct (Ha ∅) as [err ->]. by exists err.
Qed.

(** Without the flag that only test images carry, no connection of the application
    announces the profile that local destinations need. *)
Lemma measured_profiles storageURL operator artifact :
  storageFactory unicode url_Parse false storageURL = Ok (operator, artifact) ->
  profile operator = ProxyProfileConfigured /\ profile artifact = ProxyProfilePublic /\ kind artifact = policyPreSignedURL.
Proof.
  unfold storageFactory. destruct (configuredEndpointPolicy _ _ _) as [o|] eqn:E; cbn; [|done]. intros [= <- <-].
  split; [by eapply configured_policy_exact|done].
Qed.

End Gateways.

(** ** What the parent's proxy keeps for itself *)

Lemma interface_addresses_Ok ParsePrefix raws s t :
  interface_addresses ParsePrefix raws s = Ok t -> s ⊆ t /\ forall raw x, raw ∈ raws -> ParsePrefix raw = Some x -> Unmap x ∈ t.
Proof.
  revert s. induction raws as [|raw raws IH]; intros s; cbn; [intros [= ->]; split; [done|by intros ? ? ?%elem_of_nil]|].
  destruct (ParsePrefix raw) as [x|] eqn:Ex; [|done]. intros [Hs Hr]%IH. split; [set_solver|].
  intros raw' y [->|?]%elem_of_cons Hy; [|by eapply Hr]. rewrite Ex in Hy. injection Hy as ->. set_solver.
Qed.

(** Outside tests the proxy refuses every address of the parent's own interfaces, for
    every profile and however the address is written. *)
Lemma interfaces_refused ParsePrefix raws r creds raw x username ip y :
  New ParsePrefix (Some raws) false = Ok (r, creds) -> raw ∈ raws -> ParsePrefix raw = Some x ->
  AddrFromSlice ip = Some y -> Unmap y = Unmap x ->
  Allow r (mkSocksRequest CommandConnect username (Some ip)) = false.
Proof.
  unfold New, localInterfaceAddresses. destruct (interface_addresses _ _ _) as [s|] eqn:Es; cbn; [|done]. intros [= <- <-] Hr Hx Hy Hu.
  apply interface_addresses_Ok in Es as [_ Hs]. unfold Allow. cbn [rq_Command rq_username rq_DestIP]. destruct username as [username|]; [|done].
  rewrite Hy, Hu. assert (destinationDenied (mkRuleSet s false) (Unmap x) = true) as ->; [|done].
  unfold destinationDenied. cbn [localAddresses allowLocalDestinationsForTests negb andb].
  rewrite (bool_decide_true (Unmap x ∈ s)) by (by eapply Hs). by rewrite !orb_true_r.
Qed.

(** *** Two gateways *)

Definition toy_gateways : bytes := bs "gw1.example:8443, GW2.example:443".

Lemma gateway_dials_exactly_witness :
  exists p, validateAuthority (fun s => s) p (bs "gw2.example.") (bs "0443") = Ok tt <->
    exists url h q n, url ∈ [bs "gw1.example:8443"; bs "GW2.example:443"] /\
      endpoint_parts (fun s => s) (fun _ => None) url = Some (h, q) /\
      port_key q = Some n /\ port_key (bs "0443") = Some n /\
      host_key (fun s => s) h = host_key (fun s => s) (bs "gw2.example.") /\ host_key (fun s => s) (bs "gw2.example.") <> [].
Proof.
  eexists. refine (proj2 (proj2 (proj2 (gateway_dials_exactly (fun s => s) (fun _ => None) 1 0 1 toy_gateways _ _ _))) (bs "gw2.example.") (bs "0443")).
  vm_compute. reflexivity.
Defined.

(** The second gateway is reached; one more comma and no dispatcher is built, though
    the client would have skipped the empty entry. *)
Example second_gateway_allowed :
  match dispatcherFactory (fun s => s) (fun _ => None) 1 toy_gateways 0 with
  | Ok (_, _, p) => validateAuthority (fun s => s) p (bs "gw2.example.") (bs "0443")
  | Err e => Err e
  end = Ok tt.
Proof. vm_compute. reflexivity. Qed.

Example trailing_comma_refused :
  parseGatewayURLs (toy_gateways ++ bs ",") = parseGatewayURLs toy_gateways /\
  dispatcherFactory (fun s => s) (fun _ => None) 1 (toy_gateways ++ bs ",") 0 = Err EndpointEmpty.
Proof. split; vm_compute; reflexivity. Qed.
