(* ===== verification/Wiring.v ===== *)
(** * Wiring: what each enclave binary is built of

    Models the entry points [environments/{nitro,fake}/main.go] of the three enclave
    applications, [src/enclave/fake/runner/runner.go], the constructors of the HTTP
    clients ([src/util/http_restricted.go]), of the tunnel dialers
    ([src/enclave/nitro/proxy-client/client.go]) and of the applications, with their options.  A
    client is described by what its transport enforces; what safeurl enforces in
    its own dialer is not looked into. *)

From S2P Require Import Prelude Codec Text Sha256 Types Cache Keychain Services Server Egress EgressSafety Outbound Dispatcher Workflow Boot.

(** ** HTTP clients *)

Definition ProxyParentCID : Z := 3.
Definition ProxyPort : Z := 5001.

(** [proxyclient.Dialer]: the SOCKS server it talks to, with what user name. *)
Record Dialer := mkDialer { dl_policy : Egress.policy; dl_parent : Z * Z; dl_user : string; dl_password : string }.

Definition newDialer (parentCID port : Z) (p : Egress.policy) : Dialer := mkDialer p (parentCID, port) (profile p) (profile p).
Definition NewWorkflowControlledDialer (parentCID port : Z) : Dialer := newDialer parentCID port workflowControlledPolicy.
Definition NewPreSignedURLDialer (parentCID port : Z) : Dialer := newDialer parentCID port preSignedURLPolicy.
Definition NewInsecureFixtureDialerForTests (parentCID port : Z) : Dialer := newDialer parentCID port insecureFixturePolicy.
Definition NewConfiguredEndpointDialer (unicode : bytes -> bytes) (url_Parse : bytes -> option (bytes * bytes * bytes)) (parentCID port : Z)
    (endpoints : list bytes) : result policy_error Dialer :=
  let? p := configuredEndpointPolicy unicode url_Parse endpoints in Ok (newDialer parentCID port p).

Inductive dialing := LibraryDialer | Tunnelled (d : Dialer).

Section Clients.
Context {TLSConfig : Type}.

Record http_client := mkClient {
  AllowedSchemes : option (list string);       (* [None]: any *)
  FollowsRedirects : bool;
  TlsConfig : option TLSConfig;
  KeepAlives : bool;
  dial : dialing;
}.

Definition newSafeurlClient (tlsConfig : option TLSConfig) (dialContext : option Dialer) : http_client :=
  mkClient (Some ["https"%string]) false tlsConfig false (match dialContext with None => LibraryDialer | Some d => Tunnelled d end).
Definition NewRestrictedHTTPClient : http_client := newSafeurlClient None None.
Definition NewRestrictedHTTPClientWithTLS (c : TLSConfig) : http_client := newSafeurlClient (Some c) None.
Definition NewRestrictedHTTPClientWithDialer (d : Dialer) : http_client := newSafeurlClient None (Some d).
Definition NewRestrictedHTTPClientWithTLSAndDialer (c : TLSConfig) (d : Dialer) : http_client := newSafeurlClient (Some c) (Some d).
Definition NewUnrestrictedClient : http_client := mkClient None true None true LibraryDialer.

(** [&http.Client{Transport: tunnelTransport(...)}] *)
Definition tunnelTransport (d : Dialer) (disableKeepAlives : bool) : http_client :=
  mkClient None true None (negb disableKeepAlives) (Tunnelled d).

(** ** The HTTP application *)

Record httpEnclaveApp := mkHttpApp { httpClient : http_client; newTLSClient : TLSConfig -> http_client }.

Definition WithTLSClientFactory (factory : TLSConfig -> http_client) (app : httpEnclaveApp) : httpEnclaveApp :=
  mkHttpApp (httpClient app) factory.

Definition NewHTTPEnclaveApp (client : option http_client) (opts : list (httpEnclaveApp -> httpEnclaveApp)) : httpEnclaveApp :=
  let httpClient := match client with None => NewRestrictedHTTPClient | Some c => c end in
  foldl (fun app opt => opt app) (mkHttpApp httpClient NewRestrictedHTTPClientWithTLS) opts.

(** ** The workflow application *)

Section Factories.
Variables (unicode : bytes -> bytes) (url_Parse : bytes -> option (bytes * bytes * bytes)).

(** The gateway client: its endpoints, its timeout and its transport. *)
Record gateway_client := mkGatewayClient { gw_URLs : list bytes; gw_Timeout : Z; gw_Client : http_client }.

Definition main_dispatcherFactory (gatewayTimeout : Z) (URL : bytes) (RequestTimeout : Z) : result policy_error gateway_client :=
  let? f := dispatcherFactory unicode url_Parse gatewayTimeout URL RequestTimeout in
  Ok (mkGatewayClient f.1.1 f.1.2 (tunnelTransport (newDialer ProxyParentCID ProxyPort f.2) true)).

(** The storage client's dialer, if it has one of its own, and the client of the
    artifact downloads. *)
Definition main_storageFactory (allowReconfig : bool) (storageURL : bytes) : result policy_error (option Dialer * http_client) :=
  let? operatorDialer := NewConfiguredEndpointDialer unicode url_Parse ProxyParentCID ProxyPort [storageURL] in
  Ok (Some operatorDialer,
      if allowReconfig then tunnelTransport (NewInsecureFixtureDialerForTests ProxyParentCID ProxyPort) false
      else NewRestrictedHTTPClientWithDialer (NewPreSignedURLDialer ProxyParentCID ProxyPort)).

End Factories.

Abbreviation dispatcher_factory := (bytes -> Z -> result policy_error gateway_client).
Abbreviation storage_factory := (bytes -> result policy_error (option Dialer * http_client)).

(** [storageFetcherFactory]: no dialer of its own. *)
Definition storageFetcherFactory (newHTTPClient : http_client) : storage_factory := fun _ => Ok (None, newHTTPClient).

Record Config := mkConfig {
  HTTPFetcher : option http_client;
  StorageFetcherFactory : option storage_factory;
  RemoteDispatcherFactory : option dispatcher_factory;
  MaxConcurrentExecutions : Z;
}.

(** The transports and the startup values of a workflow application. *)
Record workflows_app := mkWorkflowsApp {
  wa_http : http_client;
  wa_limiter : executionLimiter;
  wa_storage : storage_factory;
  wa_dispatcherFactory : option dispatcher_factory;
  wa_dispatcher : option gateway_client;
  wa_storageService : bytes * bool;
}.

Definition new_workflows_app (config : Config) : result string workflows_app :=
  match HTTPFetcher config, StorageFetcherFactory config, RemoteDispatcherFactory config with
  | None, _, _ => Err "HTTP fetcher is required"%string
  | _, None, _ => Err "storage fetcher factory is required"%string
  | _, _, None => Err "remote dispatcher factory is required"%string
  | Some h, Some s, Some d =>
      Ok (mkWorkflowsApp h (newExecutionLimiter (MaxConcurrentExecutions config)) s (Some d) None ([], false))
  end.

Definition Option_ : Type := workflows_app -> workflows_app.
Definition WithRemoteDispatcher (d : gateway_client) : Option_ := fun a =>
  mkWorkflowsApp (wa_http a) (wa_limiter a) (wa_storage a) (wa_dispatcherFactory a) (Some d) (wa_storageService a).
Definition WithRemoteDispatcherFactory (f : dispatcher_factory) : Option_ := fun a =>
  mkWorkflowsApp (wa_http a) (wa_limiter a) (wa_storage a) (Some f) (wa_dispatcher a) (wa_storageService a).
Definition WithHTTPFetcher (f : http_client) : Option_ := fun a =>
  mkWorkflowsApp f (wa_limiter a) (wa_storage a) (wa_dispatcherFactory a) (wa_dispatcher a) (wa_storageService a).
Definition WithStorageService (url : bytes) (tls : bool) : Option_ := fun a =>
  mkWorkflowsApp (wa_http a) (wa_limiter a) (wa_storage a) (wa_dispatcherFactory a) (wa_dispatcher a) (url, tls).
Definition WithStorageFetcherFactory (f : storage_factory) : Option_ := fun a =>
  mkWorkflowsApp (wa_http a) (wa_limiter a) f (wa_dispatcherFactory a) (wa_dispatcher a) (wa_storageService a).
Definition WithMaxConcurrentExecutions (n : Z) : Option_ := fun a =>
  mkWorkflowsApp (wa_http a) (newExecutionLimiter n) (wa_storage a) (wa_dispatcherFactory a) (wa_dispatcher a) (wa_storageService a).

Definition NewTestConfidentialWorkflowsApp (opts : list Option_) : workflows_app :=
  foldl (fun a opt => opt a)
    (mkWorkflowsApp NewRestrictedHTTPClient (newExecutionLimiter 0) (storageFetcherFactory NewRestrictedHTTPClient) None None ([], false)) opts.

(** ** The binaries *)

Inductive environment := Nitro | Fake.
Inductive attestor := NitroAttestor | FakeAttestor.

Record enclave_flags := mkEnclaveFlags {
  vsockPort : Z;
  allowReconfig : bool;
  gatewayTimeout : Z;
  keypairRotation : Z;
  keypairExpiration : Z;
}.

Inductive enclave_app := EchoApp | HTTPApp (a : httpEnclaveApp) | WorkflowsApp (a : workflows_app).

(** What [StartNitroEnclave] or [StartFakeEnclave] is called with. *)
Record binary := mkBinary {
  bin_env : environment;
  bin_app : enclave_app;
  bin_attestor : attestor;
  bin_keychain : boxKeychain;
  bin_port : Z;
  bin_allowReconfig : bool;
}.

Definition attestor_of (e : environment) : attestor := match e with Nitro => NitroAttestor | Fake => FakeAttestor end.

(** Opening the attestation device can fail on Nitro only. *)
Definition open_attestor (e : environment) (nsm : result string unit) : result string attestor :=
  match e, nsm with
  | Nitro, Err err => Err ("Failed to open Nitro attestor: " ++ err)%string
  | _, _ => Ok (attestor_of e)
  end.

(** A flag left at its default is not passed on. *)
Definition override (value default : Z) : option Z := if value =? default then None else Some value.

Definition flag_keychain (f : enclave_flags) : boxKeychain :=
  NewBoxKeychain (override (keypairRotation f) DefaultKeypairRotationFrequency) (override (keypairExpiration f) DefaultKeypairExpiration) None.

Definition echo_main (e : environment) (nsm : result string unit) (f : enclave_flags) : result string binary :=
  let? att := open_attestor e nsm in
  Ok (mkBinary e EchoApp att (flag_keychain f) (vsockPort f) (allowReconfig f)).

Definition http_main (e : environment) (nsm : result string unit) (f : enclave_flags) : result string binary :=
  let? att := open_attestor e nsm in
  let outboundDialer := NewWorkflowControlledDialer ProxyParentCID ProxyPort in
  let app := NewHTTPEnclaveApp (Some (NewRestrictedHTTPClientWithDialer outboundDialer))
    [WithTLSClientFactory (fun config => NewRestrictedHTTPClientWithTLSAndDialer config outboundDialer)] in
  Ok (mkBinary e (HTTPApp app) att (flag_keychain f) (vsockPort f) (allowReconfig f)).

Section Workflows.
Variables (unicode : bytes -> bytes) (url_Parse : bytes -> option (bytes * bytes * bytes)).

(** The Nitro binary has no keypair flags and derives its concurrency from the memory
    of the enclave; the fake one is unbounded. *)
Definition workflows_main (e : environment) (newLogger : result string unit) (nsm : result string unit) (totalMB : option Z) (f : enclave_flags)
    : result string binary :=
  match newLogger with
  | Err err => Err ("Failed to construct chainlink-common logger: " ++ err)%string
  | Ok _ =>
      let? att := open_attestor e nsm in
      let kc := match e with Nitro => NewBoxKeychain None None None | Fake => flag_keychain f end in
      let config := mkConfig
        (Some (NewRestrictedHTTPClientWithDialer (NewWorkflowControlledDialer ProxyParentCID ProxyPort)))
        (Some (main_storageFactory unicode url_Parse (allowReconfig f)))
        (Some (main_dispatcherFactory unicode url_Parse (gatewayTimeout f)))
        (match e with Nitro => MaxConcurrent (Derive totalMB) | Fake => 0 end) in
      match new_workflows_app config with
      | Err err => Err ("Failed to construct confidential workflows app: " ++ err)%string
      | Ok app => Ok (mkBinary e (WorkflowsApp app) att kc (vsockPort f) (allowReconfig f))
      end
  end.

Definition workflows_nitro_main := workflows_main Nitro.
Definition workflows_fake_main := workflows_main Fake.

End Workflows.

(** Each entry point with its environment. *)
Definition echo_nitro_main := echo_main Nitro.
Definition echo_fake_main := echo_main Fake.
Definition http_nitro_main := http_main Nitro.
Definition http_fake_main := http_main Fake.

(** Beside the attestor, the fake HTTP and echo binaries are built of the same parts. *)
Lemma fake_binaries_alike f b b' :
  (echo_nitro_main (Ok tt) f = Ok b /\ echo_fake_main (Ok tt) f = Ok b' \/ http_nitro_main (Ok tt) f = Ok b /\ http_fake_main (Ok tt) f = Ok b') ->
  bin_app b = bin_app b' /\ bin_keychain b = bin_keychain b' /\ bin_port b = bin_port b' /\ bin_allowReconfig b = bin_allowReconfig b' /\
  bin_attestor b = NitroAttestor /\ bin_attestor b' = FakeAttestor.
Proof. by intros [[[= <-] [= <-]]|[[= <-] [= <-]]]. Qed.

End Clients.

(** ** The fake runner *)

Section Runner.
Context `{HS : Sha256} `{HE : EnclaveEnv} `{HT : TDH2}
  {verified : bytes -> bytes -> bytes -> bool} `{HV : !SignatureVerifier verified}.

(** Unlike [StartNitroEnclave] it does not check the machine. *)
Definition StartFakeEnclave (env : string -> bytes) (own : Z) (bind : address -> bool)
    (app : World) (kc : boxKeychain) (vsockPort : Z) (allowReconfig : bool) : started :=
  if 2 ^ 32 - 1 <? vsockPort then Fatal "Invalid port"
  else
    let server := NewEnclaveServer app kc zeroConfig allowReconfig in
    let a := Listen env own (u32 vsockPort) in
    if bind a then Serving a server else Fatal "cannot listen on vsock".

(** On a machine that passes its checks, both runners start the same server at the
    same address. *)
Lemma fake_serves_same m env own bind app kc port allowReconfig t slept :
  verifyEnvironment (environmentChecks m) environmentCheckAttempts environmentCheckDelay 0 0 = (Ok tt, t, slept) ->
  StartNitroEnclave m env own bind app kc port allowReconfig = StartFakeEnclave env own bind app kc port allowReconfig.
Proof. intros E. unfold StartNitroEnclave, StartFakeEnclave. by rewrite E. Qed.

End Runner.

(** ** What the binaries' clients can reach *)

Section Egress.
Context {TLSConfig : Type}.
Implicit Types (c : @http_client TLSConfig).

(** Only HTTPS, no redirects, no connection shared between two requests, and only
    through the parent's proxy under the given policy. *)
Definition confined (p : Egress.policy) c : Prop :=
  AllowedSchemes c = Some ["https"%string] /\ FollowsRedirects c = false /\ KeepAlives c = false /\
  dial c = Tunnelled (newDialer ProxyParentCID ProxyPort p).

(** The clients with which an application fetches what a request or a workflow asks for. *)
Definition guest_client (a : @enclave_app TLSConfig) c : Prop :=
  match a with
  | EchoApp => False
  | HTTPApp h => c = httpClient h \/ exists tls, c = newTLSClient h tls
  | WorkflowsApp w => c = wa_http w
  end.

Definition started_binary (unicode : bytes -> bytes) url_Parse (e : environment) (f : enclave_flags) (b : @binary TLSConfig) : Prop :=
  exists nsm, echo_main e nsm f = Ok b \/ http_main e nsm f = Ok b \/
    exists lg mb, workflows_main unicode url_Parse e lg nsm mb f = Ok b.

Lemma started_guest unicode url_Parse e f b c :
  started_binary unicode url_Parse e f b -> guest_client (bin_app b) c -> confined workflowControlledPolicy c.
Proof.
  intros (nsm & [H|[H|(lg & mb & H)]]).
  - unfold echo_main in H. destruct (open_attestor e nsm); cbn in H; [|done]. by injection H as <-.
  - unfold http_main in H. destruct (open_attestor e nsm); cbn in H; [|done]. injection H as <-. cbn. by intros [-> |[tls ->]].
  - unfold workflows_main in H. destruct lg; [|done]. destruct (open_attestor e nsm); cbn in H; [|done]. injection H as <-. cbn. by intros ->.
Qed.

Lemma started_storage unicode url_Parse e f b w :
  started_binary unicode url_Parse e f b -> bin_app b = WorkflowsApp w -> wa_storage w = main_storageFactory unicode url_Parse (allowReconfig f).
Proof.
  intros (nsm & [H|[H|(lg & mb & H)]]).
  - unfold echo_main in H. destruct (open_attestor e nsm); cbn in H; [|done]. by injection H as <-.
  - unfold http_main in H. destruct (open_attestor e nsm); cbn in H; [|done]. by injection H as <-.
  - unfold workflows_main in H. destruct lg; [|done]. destruct (open_attestor e nsm); cbn in H; [|done]. injection H as <-. cbn. by intros [= <-].
Qed.

Variable unicode : bytes -> bytes.
Variable url_Parse : bytes -> option (bytes * bytes * bytes).
Context {conn : Type} (peer : conn -> bytes) (rules : ruleSet) (socks : string -> bytes -> result bytes conn).
Hypothesis socks_enforced : forall username address k,
  socks username address = Ok k -> Allow rules (mkSocksRequest CommandConnect (Some username) (Some (peer k))) = true.

(** C11 No binary lets a request or a workflow out of the public web: in every binary that
    starts, on Nitro or fake, with whatever flags, each client that fetches on behalf of
    a request, also one with the request's own certificate roots, speaks HTTPS only,
    follows no redirect, shares no connection, and a connection it gets is to port 80 or
    443 of a public host; workflow artifacts come over port 443 of a public host, unless
    the binary was built to be reconfigurable. *)
Theorem binaries_confine_egress (e : environment) (f : enclave_flags) (b : @binary TLSConfig) :
  started_binary unicode url_Parse e f b ->
  (forall c, guest_client (bin_app b) c -> exists p, confined p c /\
     forall network address k, DialContext unicode p socks network address = Ok k ->
       exists host port n a, SplitHostPort address = Some (host, port) /\ port_key port = Some n /\ (n = 80 \/ n = 443) /\
         denotes (peer k) a /\ ~ special a /\ ~ refused rules a) /\
  (forall w url d c, bin_app b = WorkflowsApp w -> wa_storage w url = Ok (d, c) -> allowReconfig f = false -> exists p, confined p c /\
     forall network address k, DialContext unicode p socks network address = Ok k ->
       exists host port a, SplitHostPort address = Some (host, port) /\ port_key port = Some 443 /\
         denotes (peer k) a /\ ~ special a /\ ~ refused rules a).
Proof.
  intros Hb. split.
  - intros c Hc. exists workflowControlledPolicy. split; [by eapply started_guest|]. intros network address k Hd.
    destruct (public_dial unicode peer rules socks socks_enforced _ _ _ _ (or_introl eq_refl) Hd) as (h & q & n & a & ? & ? & Hn & ?).
    exists h, q, n, a. split_and!; try done; naive_solver.
  - intros w url d c Hw Hs Hr. rewrite (started_storage _ _ _ _ _ _ Hb Hw), Hr in Hs. unfold main_storageFactory in Hs.
    destruct (NewConfiguredEndpointDialer _ _ _ _ _) as [dl|]; cbn in Hs; [|done]. injection Hs as _ <-.
    exists preSignedURLPolicy. split; [done|]. intros network address k Hd.
    destruct (public_dial unicode peer rules socks socks_enforced _ _ _ _ (or_intror eq_refl) Hd) as (h & q & n & a & ? & ? & [[_ ?]| ->] & ?); [done|].
    exists h, q, a. done.
Qed.

End Egress.

Definition example_enclave_flags : enclave_flags := mkEnclaveFlags 5000 false (30 * second) DefaultKeypairRotationFrequency DefaultKeypairExpiration.

(** The workflow binary on Nitro: a name that resolves to 93.184.216.34. *)
Lemma binaries_confine_egress_witness :
  exists b : @binary unit, workflows_main (fun s => s) (fun _ => None) Nitro (Ok tt) (Ok tt) (Some 4096) example_enclave_flags = Ok b /\
  forall c, guest_client (bin_app b) c -> exists p, confined p c /\
    exists host port n a, SplitHostPort (bs "example.com:443") = Some (host, port) /\ port_key port = Some n /\ (n = 80 \/ n = 443) /\
      denotes (be 4 (ipv4 93 184 216 34)) a /\ ~ special a /\ ~ refused toy_rules a.
Proof.
  eexists. split; [reflexivity|]. intros c Hc.
  match type of Hc with guest_client (bin_app ?bin) _ =>
    destruct (binaries_confine_egress (fun s => s) (fun _ => None) (fun k => k) toy_rules (toy_socks (be 4 (ipv4 93 184 216 34)))
      (toy_socks_enforced (be 4 (ipv4 93 184 216 34))) Nitro example_enclave_flags bin) as [H _] end.
  - exists (Ok tt). right; right. exists (Ok tt), (Some 4096). reflexivity.
  - destruct (H c Hc) as (p & Hp & Hd). exists p. split; [exact Hp|]. cbn in Hc. subst c. destruct Hp as (_ & _ & _ & [= <-]).
    apply (Hd "tcp"%string (bs "example.com:443") (be 4 (ipv4 93 184 216 34))). vm_compute. reflexivity.
Defined.

(** ** Dialling the parent under a context

    [vsockDialer.DialContext] runs the dial in a goroutine and waits for it or for the
    context; a dial that ends after the caller gave up is closed by a second goroutine. *)

Section VsockDial.
Context {conn : Type}.
(** The transport is emulated over TCP ([IsFake]); whether [Close] of the vsock library
    panics on a nil connection, which its documentation does not exclude. *)
Variables (fake nil_close_panics : bool).
Implicit Types (dialed : result string conn).

(** A [net.Conn]: the nil interface, an interface that holds a nil pointer, or an open
    connection. *)
Inductive net_conn := NilConn | NilPointer | Open (c : conn).

(** [ccvsock.Dial] on what the transport makes of the dial.  [net.Dial] returns a nil
    interface with its error; the [*vsock.Conn] of the other branch is converted to the
    interface as it is, so with an error it is an interface that holds a nil pointer. *)
Definition dial_result dialed : net_conn * option string :=
  match dialed with
  | Ok c => (Open c, None)
  | Err e => (if fake then NilConn else NilPointer, Some e)
  end.

Inductive dialer_goroutine := DialInProgress | DialSent (r : net_conn * option string) | DialTaken.
Inductive caller := Selecting | CallerGot (r : net_conn * option string) | CallerGaveUp.
(** The panic of a goroutine ends the process. *)
Inductive reaper := NoReaper | Reaping | Reaped | ReaperPanics.

Record dial_state := mkDialState {
  ds_dialer : dialer_goroutine;
  ds_ctxDone : bool;
  ds_caller : caller;
  ds_reaper : reaper;
  ds_opened : list conn;
  ds_closed : list conn;
}.

Definition dial_start : dial_state := mkDialState DialInProgress false Selecting NoReaper [] [].

Definition conns (k : net_conn) : list conn := match k with Open c => [c] | _ => [] end.

(** [if result.conn != nil { result.conn.Close() }]: only the nil interface is spared. *)
Definition reap (k : net_conn) : reaper :=
  match k with NilConn | Open _ => Reaped | NilPointer => if nil_close_panics then ReaperPanics else Reaped end.

(** The steps; with both cases ready, [select] may take either. *)
Inductive dial_step : dial_state -> dial_state -> Prop :=
| StepDialed dialed ctx w g o c :
    dial_step (mkDialState DialInProgress ctx w g o c)
      (mkDialState (DialSent (dial_result dialed)) ctx w g (o ++ conns (dial_result dialed).1) c)
| StepContext d w g o c :
    dial_step (mkDialState d false w g o c) (mkDialState d true w g o c)
| StepReceive r ctx g o c :
    dial_step (mkDialState (DialSent r) ctx Selecting g o c) (mkDialState DialTaken ctx (CallerGot r) g o c)
| StepGiveUp d o c :
    dial_step (mkDialState d true Selecting NoReaper o c) (mkDialState d true CallerGaveUp Reaping o c)
| StepReap r ctx w o c :
    dial_step (mkDialState (DialSent r) ctx w Reaping o c) (mkDialState DialTaken ctx w (reap r.1) o (c ++ conns r.1)).

Inductive dial_reachable : dial_state -> Prop :=
| DialStarts : dial_reachable dial_start
| DialSteps s t : dial_reachable s -> dial_step s t -> dial_reachable t.

(** The connections that are still somebody's: in the channel or with the caller. *)
Definition in_channel (s : dial_state) : list conn := match ds_dialer s with DialSent r => conns r.1 | _ => [] end.
Definition with_caller (s : dial_state) : list conn := match ds_caller s with CallerGot r => conns r.1 | _ => [] end.

(** An interface around a nil pointer comes from a failed dial over vsock only. *)
Definition dial_sent (d : dialer_goroutine) (o : list conn) : Prop :=
  match d with
  | DialInProgress => o = []
  | DialSent r => exists dialed, r = dial_result dialed /\ o = conns r.1
  | DialTaken => True
  end.

Record dial_inv (s : dial_state) : Prop := {
  di_owned : ds_opened s ≡ₚ in_channel s ++ with_caller s ++ ds_closed s;
  di_sent : dial_sent (ds_dialer s) (ds_opened s);
  di_waiting : ds_caller s = Selecting -> ds_reaper s = NoReaper /\ ds_dialer s <> DialTaken;
  di_got : forall r, ds_caller s = CallerGot r -> ds_reaper s = NoReaper /\ ds_dialer s = DialTaken;
  di_gaveup : ds_caller s = CallerGaveUp -> ds_ctxDone s = true /\
    (ds_reaper s = Reaping /\ ds_dialer s <> DialTaken \/ (ds_reaper s = Reaped \/ ds_reaper s = ReaperPanics) /\ ds_dialer s = DialTaken);
  di_panics : ds_reaper s = ReaperPanics -> fake = false /\ nil_close_panics = true /\ ds_opened s = [];
}.

Lemma reap_over k : reap k = Reaped \/ reap k = ReaperPanics.
Proof. destruct k; cbn; [by left|destruct nil_close_panics; auto|by left]. Qed.

Lemma dial_inv_reachable s : dial_reachable s -> dial_inv s.
Proof.
  induction 1 as [|s t _ [Ho Hs Hw Hg Hu Hp] Hstep]; [by split; cbn; (done || naive_solver)|].
  destruct Hstep as [dialed ctx w g o c|d w g o c|r ctx g o c|d o c|r ctx w o c]; unfold in_channel, with_caller in *; cbn in *.
  - subst o. split; cbn; [|by exists dialed|naive_solver..|].
    + unfold in_channel, with_caller. cbn. destruct w; cbn in *; [|by destruct (Hg _ eq_refl)|]; by rewrite <- Ho, app_nil_r.
    + intros ->. destruct w; [by destruct (Hw eq_refl)|by destruct (Hg _ eq_refl)|]. by destruct (Hu eq_refl) as [_ [[? _]|[_ ?]]].
  - split; cbn; try done. intros E. by destruct (Hu E).
  - split; cbn; [done|done|done|naive_solver|done|done].
  - split; cbn; [done|done|done|done| |done]. intros _. split; [done|left]. split; [done|]. by destruct (Hw eq_refl).
  - destruct w; [by destruct (Hw eq_refl)|by destruct (Hg _ eq_refl)|]. destruct (Hu eq_refl) as [-> _].
    destruct Hs as (dialed & -> & Hopened). split; cbn; [|done|done|done| |].
    + unfold in_channel, with_caller. cbn. rewrite Ho. cbn. by rewrite Permutation_app_comm.
    + intros _. split; [done|right]. split; [apply reap_over|done].
    + destruct dialed; cbn in *; [done|]. destruct fake; cbn; [done|]. destruct nil_close_panics; by intros.
Qed.

(** What is left to do; every step lowers it. *)
Definition dial_measure (s : dial_state) : nat :=
  (match ds_dialer s with DialInProgress => 2 | DialSent _ => 1 | DialTaken => 0 end +
   match ds_caller s with Selecting => 2 | _ => 0 end + match ds_reaper s with Reaping => 1 | _ => 0 end +
   if ds_ctxDone s then 0 else 1)%nat.

Lemma dial_step_measure s t : dial_step s t -> (dial_measure t < dial_measure s)%nat.
Proof.
  destruct 1 as [| | | |r ctx w o c]; unfold dial_measure; cbn; [..|destruct (reap_over r.1) as [-> | ->]]; repeat case_match; lia.
Qed.

(** C40 No connection to the parent is leaked and no caller is left waiting: in every
    reachable state the connections opened are exactly the one in the channel, the one the caller
    got and those closed; at most six steps are ever taken; and a state without a
    further step, the dial and the context having ended, has the caller answered and the
    channel empty, so the connection is the caller's or closed.  The goroutine that
    closes a late connection panics, ending the process, only if the dial failed, over vsock and not
    TCP, and the library's [Close] panics on a nil connection ([failed_dial_panics]
    shows that it then can). *)
Theorem vsock_dial_leaks_nothing s : dial_reachable s ->
  ds_opened s ≡ₚ in_channel s ++ with_caller s ++ ds_closed s /\
  (forall t, dial_step s t -> (dial_measure t < dial_measure s <= 6)%nat) /\
  ((forall t, ~ dial_step s t) ->
     ds_caller s <> Selecting /\ in_channel s = [] /\ (ds_caller s = CallerGaveUp -> ds_closed s ≡ₚ ds_opened s)) /\
  (ds_reaper s = ReaperPanics -> fake = false /\ nil_close_panics = true /\ ds_opened s = [] /\ ds_caller s = CallerGaveUp).
Proof.
  intros Hr. pose proof (dial_inv_reachable s Hr) as [Ho Hs Hw Hg Hu Hp]. split; [done|]. split; [|split].
  - intros t Ht. split; [by apply dial_step_measure|]. unfold dial_measure. destruct (ds_caller s) eqn:Ec.
    + destruct (Hw eq_refl) as [-> _]. repeat case_match; lia.
    + destruct (Hg _ eq_refl) as [-> ->]. case_match; lia.
    + destruct (Hu eq_refl) as [-> [[-> _]|[[-> | ->] ->]]]; repeat case_match; lia.
  - intros Hstuck. destruct s as [d ctx w g o c]. unfold in_channel, with_caller in *. cbn in *.
    assert (d <> DialInProgress) as Hd by (intros ->; by eapply (Hstuck _), (StepDialed (Err ""%string))).
    destruct w as [|r|].
    + destruct (Hw eq_refl) as [-> Hnt]. destruct d as [|r|]; [done| |done]. destruct (Hstuck _ (StepReceive r ctx NoReaper o c)).
    + destruct (Hg r eq_refl) as [-> ->]. done.
    + destruct (Hu eq_refl) as [-> [[-> Hnt]|[Hg' ->]]]; [|by split_and!].
      destruct d as [|r|]; [done| |done]. destruct (Hstuck _ (StepReap r true CallerGaveUp o c)).
  - intros E. destruct (Hp E) as (? & ? & ?). split_and!; try done. destruct (ds_caller s) as [|r|]; [|by destruct (Hg r eq_refl); congruence|done].
    destruct (Hw eq_refl). congruence.
Qed.

End VsockDial.

(** The context ends first, the dial succeeds afterwards: its connection is closed. *)
Lemma vsock_dial_leaks_nothing_witness :
  let s := mkDialState DialTaken true CallerGaveUp Reaped [7] [7] in
  ds_opened s ≡ₚ in_channel s ++ with_caller s ++ ds_closed s.
Proof.
  refine (proj1 (vsock_dial_leaks_nothing false true (mkDialState DialTaken true CallerGaveUp Reaped [7] [7]) _)).
  eapply DialSteps; [|exact (StepReap false true (Open 7, None) true CallerGaveUp [7] [])].
  eapply DialSteps; [|exact (StepDialed false true (Ok 7) true CallerGaveUp Reaping [] [])].
  eapply DialSteps; [|exact (StepGiveUp false true DialInProgress [] [])].
  eapply DialSteps; [|exact (StepContext false true DialInProgress Selecting NoReaper [] [])].
  exact (DialStarts false true).
Defined.

(** A dial over vsock that fails after its caller gave up ends the process, if [Close] panics on a
    nil connection: the check for nil does not see the pointer in the interface. *)
Example failed_dial_panics :
  dial_reachable (conn := Z) false true (mkDialState DialTaken true CallerGaveUp ReaperPanics [] []).
Proof.
  eapply DialSteps; [|exact (StepReap false true (NilPointer, Some "refused"%string) true CallerGaveUp [] [])].
  eapply DialSteps; [|exact (StepDialed false true (Err "refused"%string) true CallerGaveUp Reaping [] [])].
  eapply DialSteps; [|exact (StepGiveUp false true DialInProgress [] [])].
  eapply DialSteps; [|exact (StepContext false true DialInProgress Selecting NoReaper [] [])].
  exact (DialStarts false true).
Qed.
