(* ===== verification/Attestation.v ===== *)
(** * Attestation: making and describing attestation documents

    Models [src/enclave/services/attestor/nitro_attestor.go], [attest] of
    [remote_dispatcher.go], the construction of a request in
    [src/enclave/apps/confidential-workflows/gateway/client.go] with its constructor and options,
    [src/enclave-client/attestation-validator/{validator,describe}.go] and
    [src/enclave/nitro/types.go].  The security module, CBOR and JSON are parameters. *)

From stdpp Require Import pretty.
From S2P Require Import Prelude Codec Text Utf8 Sha256 Types Duration Cache Services Keychain Dispatcher Pool Emitter Server ServerToy Boot.

(** ** The security module *)

(** The answer of the Nitro security module. *)
Record nsm_response := mkNsmResponse { nsm_Error : string; nsm_Document : option bytes }.

Inductive attest_error := NsmFailed (e : string) | NsmError (e : string) | NoDocument.

Section Attestor.
Variable session_Send : bytes -> result string nsm_response.

(** [nitroAttestor.CreateAttestation]: only the user data is set. *)
Definition CreateAttestation (data : bytes) : result attest_error bytes :=
  match session_Send data with
  | Err e => Err (NsmFailed e)
  | Ok resp =>
      if negb (bool_decide (nsm_Error resp = ""%string)) then Err (NsmError (nsm_Error resp))
      else match nsm_Document resp with None => Err NoDocument | Some document => Ok document end
  end.

End Attestor.

(** ** Request identifiers *)

(** A byte with the bits of [mask] kept and those of [set] set. *)
Definition mask_byte (mask set_ : Z) (b : byte) : byte := byte_of_Z (Z.lor (Z.land (Z_of_byte b) mask) set_).

Definition uuid_bytes (u : bytes) : bytes :=
  alter (mask_byte 63 128) 8%nat (alter (mask_byte 15 64) 6%nat u).

Definition dash : byte := byte_of_Z 45.

(** [None] is a failure to read random bytes. *)
Definition newUUID (random : option bytes) : option bytes :=
  match random with
  | None => None
  | Some u =>
      let u := uuid_bytes u in
      let part i j := hex_encode (take (j - i) (drop i u)) in
      Some (part 0 4 ++ dash :: part 4 6 ++ dash :: part 6 8 ++ dash :: part 8 10 ++ dash :: part 10 16)%nat
  end.

Lemma mask_version b : Z_of_byte (mask_byte 15 64 b) / 16 = 4.
Proof. by destruct b. Qed.

Lemma mask_variant b : (8 <= Z_of_byte (mask_byte 63 128 b) / 16 < 12).
Proof. by destruct b. Qed.

Lemma hex_encode_no_dash b : filter (fun c => c <> dash) (hex_encode b) = hex_encode b.
Proof.
  assert (Forall (fun c => c <> dash) (hex_encode b)) as H.
  { induction b as [|x b IH]; [constructor|]. cbn [hex_encode]. repeat constructor; [by destruct x..|done]. }
  induction H as [|c l Hc _ IH]; [done|]. rewrite filter_cons_True by done. by rewrite IH.
Qed.

Lemma hex_encode_digits b : Forall (fun c => c = dash \/ is_Some (hex_value c)) (hex_encode b).
Proof.
  induction b as [|x b IH]; [constructor|]. cbn [hex_encode]. pose proof (Z_of_byte_range x).
  repeat (apply Forall_cons; split; [right; rewrite hex_value_digit by dlia; done|]). done.
Qed.

Lemma hex_encode_app a b : hex_encode (a ++ b) = hex_encode a ++ hex_encode b.
Proof. induction a as [|x a IH]; [done|]. cbn. by rewrite IH. Qed.

Lemma newUUID_digits u : length u = 16%nat ->
  exists id, newUUID (Some u) = Some id /\ filter (fun c => c <> dash) id = hex_encode (uuid_bytes u).
Proof.
  intros Hl. eexists. split; [reflexivity|]. set (v := uuid_bytes u).
  assert (length v = 16%nat) as Hv by (unfold v, uuid_bytes; by rewrite !length_alter).
  repeat (rewrite filter_app || rewrite filter_cons_False by (intros H; exact (H eq_refl))). rewrite !hex_encode_no_dash, <- !hex_encode_app.
  f_equal. do 16 (destruct v as [|? v]; [done|]). by destruct v.
Qed.

(** The bits of the [i]-th byte that a version 4 UUID leaves to chance (RFC 4122): all
    but the upper half of byte 6 and the two upper bits of byte 8. *)
Definition random_bits (i : nat) : Z := match i with 6%nat => 15 | 8%nat => 63 | _ => 255 end.

Definition same_random_bits (u u' : bytes) : Prop :=
  forall i b b', u !! i = Some b -> u' !! i = Some b' -> Z.land (Z_of_byte b) (random_bits i) = Z.land (Z_of_byte b') (random_bits i).

Lemma mask_version_bits b b' : mask_byte 15 64 b = mask_byte 15 64 b' <-> Z.land (Z_of_byte b) 15 = Z.land (Z_of_byte b') 15.
Proof.
  assert (forall c, Z.land (Z_of_byte (mask_byte 15 64 c)) 15 = Z.land (Z_of_byte c) 15) as H by (by intros []).
  split; [intros E; by rewrite <- H, E, H|]. unfold mask_byte. by intros ->.
Qed.

Lemma mask_variant_bits b b' : mask_byte 63 128 b = mask_byte 63 128 b' <-> Z.land (Z_of_byte b) 63 = Z.land (Z_of_byte b') 63.
Proof.
  assert (forall c, Z.land (Z_of_byte (mask_byte 63 128 c)) 63 = Z.land (Z_of_byte c) 63) as H by (by intros []).
  split; [intros E; by rewrite <- H, E, H|]. unfold mask_byte. by intros ->.
Qed.

Lemma all_bits b b' : Z.land (Z_of_byte b) 255 = Z.land (Z_of_byte b') 255 <-> b = b'.
Proof.
  assert (forall c, byte_of_Z (Z.land (Z_of_byte c) 255) = c) as H by (by intros []).
  split; [intros E; by rewrite <- (H b), E, H|by intros ->].
Qed.

(** What becomes of a byte determines its random bits, and nothing else. *)
Definition masked (i : nat) (b : byte) : byte :=
  match i with 6%nat => mask_byte 15 64 b | 8%nat => mask_byte 63 128 b | _ => b end.

Lemma masked_eq i b b' : masked i b = masked i b' <-> Z.land (Z_of_byte b) (random_bits i) = Z.land (Z_of_byte b') (random_bits i).
Proof.
  destruct (decide (i = 6%nat)) as [->|H6]; [apply mask_version_bits|]. destruct (decide (i = 8%nat)) as [->|H8]; [apply mask_variant_bits|].
  assert (masked i b = b /\ masked i b' = b' /\ random_bits i = 255) as (-> & -> & ->); [|by rewrite all_bits].
  do 9 (destruct i as [|i]; [done|]). done.
Qed.

Lemma uuid_bytes_lookup u i : uuid_bytes u !! i = masked i <$> u !! i.
Proof.
  unfold uuid_bytes. destruct (decide (i = 8%nat)) as [->|H8]; [by rewrite list_lookup_alter_eq, list_lookup_alter_ne|].
  rewrite list_lookup_alter_ne by done. destruct (decide (i = 6%nat)) as [->|H6]; [by rewrite list_lookup_alter_eq|].
  rewrite list_lookup_alter_ne by done. do 9 (destruct i as [|i]; [by destruct (u !! _)|]). by destruct (u !! _).
Qed.

Lemma uuid_bytes_eq u u' : length u = length u' -> uuid_bytes u' = uuid_bytes u <-> same_random_bits u u'.
Proof.
  intros Hl. split.
  - intros E i b b' Hb Hb'. apply masked_eq. assert (uuid_bytes u' !! i = uuid_bytes u !! i) as H by by rewrite E.
    rewrite !uuid_bytes_lookup, Hb, Hb' in H. by injection H.
  - intros H. apply list_eq. intros i. rewrite !uuid_bytes_lookup. destruct (u !! i) as [b|] eqn:Hb.
    + destruct (lookup_lt_is_Some_2 u' i) as [b' Hb']; [rewrite <- Hl; by eapply lookup_lt_Some|]. rewrite Hb'. cbn. f_equal. symmetry. by apply masked_eq, (H i).
    + apply lookup_ge_None in Hb. by rewrite (proj2 (lookup_ge_None u' i)) by lia.
Qed.

(** C39 A request identifier is a version 4 UUID: 36 characters, dashes at the four places,
    version 4, variant 10, the other characters being hexadecimal digits; and it
    determines exactly the 122 random bits it was made of: two requests have the same
    identifier exactly if the random bytes read for them agree in all bits but the upper half
    of byte 6 and the two upper bits of byte 8. *)
Theorem request_ids_well_formed (u : bytes) : length u = 16%nat ->
  exists id, newUUID (Some u) = Some id /\ length id = 36%nat /\
    Forall (fun i => id !! i = Some dash) [8; 13; 18; 23]%nat /\
    Forall (fun c => c = dash \/ is_Some (hex_value c)) id /\
    id !! 14%nat = Some (hex_digit 4) /\ (exists d, 8 <= d < 12 /\ id !! 19%nat = Some (hex_digit d)) /\
    forall u', length u' = 16%nat -> newUUID (Some u') = Some id <-> same_random_bits u u'.
Proof.
  intros Hl. destruct (newUUID_digits u Hl) as (id & Hid & Hd). exists id. split; [done|].
  assert (forall u', length u' = 16%nat -> newUUID (Some u') = Some id <-> same_random_bits u u') as Hinj.
  { intros u' Hl'. rewrite <- uuid_bytes_eq by lia. split.
    - intros E. destruct (newUUID_digits u' Hl') as (id' & Hid' & Hd'). assert (id' = id) as -> by congruence.
      assert (Some (uuid_bytes u') = Some (uuid_bytes u)) as H by (by rewrite <- !hex_decode_encode, <- Hd', Hd). by injection H.
    - intros E. rewrite <- Hid. unfold newUUID. by rewrite E. }
  unfold newUUID in Hid. set (v := uuid_bytes u) in Hid.
  assert (Forall (fun c => c = dash \/ is_Some (hex_value c)) id) as Hall.
  { injection Hid as <-. repeat (apply Forall_app; split; [apply hex_encode_digits|apply Forall_cons; split; [by left|]]). apply hex_encode_digits. }
  assert (exists b6 b8, v !! 6%nat = Some (mask_byte 15 64 b6) /\ v !! 8%nat = Some (mask_byte 63 128 b8) /\ length v = 16%nat) as (b6 & b8 & H6 & H8 & Hv).
  { unfold v, uuid_bytes. destruct (lookup_lt_is_Some_2 u 6) as [b6 E6]; [lia|]. destruct (lookup_lt_is_Some_2 u 8) as [b8 E8]; [lia|].
    exists b6, b8. rewrite list_lookup_alter_ne, list_lookup_alter_eq, E6 by done. rewrite list_lookup_alter_eq, list_lookup_alter_ne, E8 by done.
    by rewrite !length_alter. }
  clearbody v. injection Hid as <-. do 16 (destruct v as [|? v]; [done|]). destruct v; [|done].
  cbn in H6, H8. injection H6 as ->. injection H8 as ->.
  split_and!; [done|by repeat constructor|exact Hall| | |exact Hinj].
  - cbn [take drop Nat.sub hex_encode app lookup list_lookup]. by rewrite mask_version.
  - exists (Z_of_byte (mask_byte 63 128 b8) / 16). split; [apply mask_variant|]. done.
Qed.

(** ** The gateway client *)

(** The HTTP client of a gateway client: its timeout, and whether its transport is the
    default one without connection reuse. *)
Record gateway_http := mkGatewayHTTP { gh_Timeout : Z; gh_default_transport : bool; gh_DisableKeepAlives : bool }.

Definition DefaultGatewayRequestTimeout : Z := 30 * second.

Section GatewayClient.
Context `{HS : Sha256}.
Context {E : Type}.

(** [attestor] is absent in local tests. *)
Record GatewayClient := mkGateway {
  gatewayURLs : list bytes;
  gc_attestor : option (bytes -> result E bytes);
  gc_httpClient : gateway_http;
  gc_cursor : Z;
}.

Definition gateway_option : Type := GatewayClient -> GatewayClient.

Definition WithTimeout (d : Z) : gateway_option := fun c =>
  mkGateway (gatewayURLs c) (gc_attestor c)
    (mkGatewayHTTP d (gh_default_transport (gc_httpClient c)) (gh_DisableKeepAlives (gc_httpClient c))) (gc_cursor c).
Definition WithHTTPClient (client : gateway_http) : gateway_option := fun c => mkGateway (gatewayURLs c) (gc_attestor c) client (gc_cursor c).

Definition NewGatewayClient (urls : bytes) (att : option (bytes -> result E bytes)) (opts : list gateway_option) : GatewayClient :=
  foldl (fun c opt => opt c) (mkGateway (parseGatewayURLs urls) att (mkGatewayHTTP DefaultGatewayRequestTimeout true true) 0) opts.

Definition hashRequestBody (body : bytes) : bytes := sha256 (bs DomainSeparator ++ bs (nl_tag "GatewayRequest") ++ body).

(** [jsonrpc2.EncodeRequest] *)
Variable EncodeRequest : bytes -> string -> bytes -> option bytes.

(** The part of [SendRequest] before the first gateway is asked: the body and the value
    of the attestation header. *)
Definition prepare_request (c : GatewayClient) (random : option bytes) (method : string) (params : bytes) : result gateway_error (bytes * bytes) :=
  match newUUID random with
  | None => Err RequestIDFailed
  | Some id =>
      match EncodeRequest id method params with
      | None => Err GatewayEncodingFailed
      | Some body =>
          match gc_attestor c with
          | None => Ok (body, [])
          | Some create =>
              match create (hashRequestBody body) with
              | Err _ => Err GatewayAttestationFailed
              | Ok doc => Ok (body, b64_encode doc)
              end
          end
      end
  end.

Definition attestationHeader : string := "X-Attestation-Document".

Record posted := mkPosted { po_url : string; po_body : bytes; po_headers : list (string * bytes) }.

(** The request [sendOne] builds. *)
Definition post_request (url : string) (prepared : bytes * bytes) : posted :=
  mkPosted url prepared.1
    (("Content-Type"%string, bs "application/json") ::
     if bool_decide (prepared.2 = []) then [] else [(attestationHeader, prepared.2)]).

(** [SendRequest]: [exchange] is what a gateway answers to a request. *)
Definition gateway_SendRequest (c : GatewayClient) (random : option bytes) (method : string) (params : bytes)
    (exchange : posted -> bool * gw_answer) (dead dead_wait : Z -> bool) : option (result gateway_error (option bytes)) * Z :=
  let prepared := prepare_request c random method params in
  SendRequest (map string_of (gatewayURLs c)) (gc_cursor c) (rmap (fun _ => tt) prepared)
    (fun url => match prepared with Ok p => exchange (post_request url p) | Err _ => (false, GwUnreachable) end) dead dead_wait.

(** ** [attest] of the dispatcher *)

Variable DomainHash : string -> bytes -> bytes.

(** The parameters' JSON is [None] where they cannot be encoded. *)
Definition attest_params (create : option (bytes -> result E bytes)) (domainTag : string) (content : option bytes) : result (option E) bytes :=
  match create with
  | None => Ok []
  | Some create =>
      match content with
      | None => Err None
      | Some data => match create (DomainHash domainTag data) with Err e => Err (Some e) | Ok doc => Ok (b64_encode doc) end
      end
  end.

(** ** What an attested request binds *)

(** The documented hash of a tagged payload. *)
Hypothesis DomainHash_law : forall tag data, DomainHash tag data = sha256 (bs DomainSeparator ++ bs (nl_tag tag) ++ data).

Definition one_line (tag : string) : Prop := Forall (fun c => Z_of_byte c <> 10) (bs tag).

Lemma bs_nl_tag tag : bs (nl_tag tag) = byte_of_Z 10 :: bs tag ++ [byte_of_Z 10].
Proof.
  change (nl_tag tag) with (String.String (Ascii.ascii_of_nat 10) "" ++ tag ++ String.String (Ascii.ascii_of_nat 10) "")%string.
  by rewrite !bs_append.
Qed.

(** Up to the first line feed. *)
Lemma line_inj (l1 l2 r1 r2 : bytes) :
  Forall (fun c => Z_of_byte c <> 10) l1 -> Forall (fun c => Z_of_byte c <> 10) l2 ->
  l1 ++ byte_of_Z 10 :: r1 = l2 ++ byte_of_Z 10 :: r2 -> l1 = l2 /\ r1 = r2.
Proof.
  intros H1. revert l2. induction H1 as [|c l1 Hc _ IH]; intros [|d l2] H2 Q; cbn in Q.
  - by injection Q.
  - injection Q as <- _. apply Forall_cons in H2 as [H _]. by destruct H.
  - injection Q as -> _. by destruct Hc.
  - injection Q as <- Q. apply Forall_cons in H2 as [_ H2]. by destruct (IH l2 H2 Q) as [-> ->].
Qed.

Lemma tagged_eq tag tag' x y : one_line tag -> one_line tag' ->
  bs DomainSeparator ++ bs (nl_tag tag) ++ x = bs DomainSeparator ++ bs (nl_tag tag') ++ y -> tag = tag' /\ x = y.
Proof.
  intros H H' Q%app_inv_head. rewrite !bs_nl_tag in Q. cbn in Q. injection Q as Q. rewrite <- !app_assoc in Q. cbn in Q.
  destruct (line_inj _ _ _ _ H H' Q) as [Ht%bs_inj Hx]. done.
Qed.

(** C34 What a gateway client with an attestor sends: one body to every gateway it tries,
    with an attestation, in a header that decodes to the document, over exactly this body.
    A document whose user data are those of a body is accepted for no other body, and
    never as the attestation of relay parameters, unless SHA-256 collides. *)
Theorem gateway_request_attested (user_data : bytes -> option bytes) (c : GatewayClient) (create : bytes -> result E bytes)
    (random : option bytes) (method : string) (params body header : bytes) :
  (forall data doc, create data = Ok doc -> user_data doc = Some data /\ doc <> []) ->
  gc_attestor c = Some create -> prepare_request c random method params = Ok (body, header) ->
  exists id doc, newUUID random = Some id /\ EncodeRequest id method params = Some body /\
    b64_decode header = Some doc /\ user_data doc = Some (hashRequestBody body) /\
    (forall url, post_request url (body, header) =
       mkPosted url body [("Content-Type"%string, bs "application/json"); (attestationHeader, header)]) /\
    (forall body', user_data doc = Some (hashRequestBody body') -> body' = body \/
       collision (bs DomainSeparator ++ bs (nl_tag "GatewayRequest") ++ body') (bs DomainSeparator ++ bs (nl_tag "GatewayRequest") ++ body)) /\
    (forall tag data, one_line tag -> tag <> "GatewayRequest"%string -> user_data doc = Some (DomainHash tag data) ->
       collision (bs DomainSeparator ++ bs (nl_tag tag) ++ data) (bs DomainSeparator ++ bs (nl_tag "GatewayRequest") ++ body)).
Proof.
  intros Hdoc Hatt. unfold prepare_request. destruct (newUUID random) as [id|]; [|done].
  destruct (EncodeRequest id method params) as [b|] eqn:Eb; [|done]. rewrite Hatt. destruct (create (hashRequestBody b)) as [doc|] eqn:Ec; [|done].
  intros [= -> <-]. destruct (Hdoc _ _ Ec) as [Hu Hne]. exists id, doc. split_and!; [done|done|apply b64_decode_encode|done| | |].
  - intros url. unfold post_request. cbn [fst snd]. rewrite bool_decide_false; [done|]. intros E0. apply Hne.
    pose proof (b64_decode_encode doc) as Hd. rewrite E0 in Hd. by injection Hd.
  - intros body' H. rewrite Hu in H. injection H as H. destruct (sha256_eq_or_collision _ _ (eq_sym H)) as [Heq|Hc]; [left|by right].
    by apply app_inv_head, app_inv_head in Heq.
  - intros tag data Hl Hn H. rewrite Hu, DomainHash_law in H. injection H as H. destruct (sha256_eq_or_collision _ _ (eq_sym H)) as [Heq|Hc]; [|done].
    destruct (tagged_eq tag "GatewayRequest" data body Hl) as [? _]; [|done|done]. by repeat constructor.
Qed.

End GatewayClient.

(** ** Validators *)

(** The counter of the fake validator's uses: registered at the first use. *)
Inductive lazy_counter := NotRegistered | RegistrationFailed | Counting (n : Z).

Definition recordFakeValidation (register : bool) (c : lazy_counter) : lazy_counter :=
  match c with
  | NotRegistered => if register then Counting 1 else RegistrationFailed
  | RegistrationFailed => RegistrationFailed
  | Counting n => Counting (n + 1)
  end.

Section Validators.
Variables (nitro_Validate : bytes -> bytes -> bytes -> bool) (nitro_ValidateWithRoots : bytes -> bytes -> bytes -> string -> bool).

(** The two implementations of [AttestationValidator]. *)
Inductive AttestationValidator := nitroValidator | fakeValidator.

Definition NewAttestationValidator : AttestationValidator := nitroValidator.
Definition validator_for (enclaveType : string) : AttestationValidator :=
  if bool_decide (enclaveType = EnclaveTypeFake) then fakeValidator else nitroValidator.

Definition ValidateAttestation (v : AttestationValidator) (register : bool) (attestation userData measurements : bytes) (c : lazy_counter)
    : bool * lazy_counter :=
  match v with
  | nitroValidator => (nitro_Validate attestation userData measurements, c)
  | fakeValidator => (fake_ValidateAttestation attestation userData measurements, recordFakeValidation register c)
  end.
Definition ValidateAttestationWithRoots (v : AttestationValidator) (register : bool) (attestation userData measurements : bytes) (roots : string)
    (c : lazy_counter) : bool * lazy_counter :=
  match v with
  | nitroValidator => (nitro_ValidateWithRoots attestation userData measurements roots, c)
  | fakeValidator => ValidateAttestation v register attestation userData measurements c
  end.

(** A call: the type of the enclave and the three arguments. *)
Definition validation : Type := string * bytes * bytes * bytes.

Definition validate_call (register : bool) (x : validation) (c : lazy_counter) : bool * lazy_counter :=
  let '(t, att, data, ms) := x in ValidateAttestation (validator_for t) register att data ms c.

Fixpoint validate_all (register : bool) (xs : list validation) (c : lazy_counter) : list bool * lazy_counter :=
  match xs with
  | [] => ([], c)
  | x :: xs => let '(b, c) := validate_call register x c in let '(bs_, c) := validate_all register xs c in (b :: bs_, c)
  end.

Definition fake_calls (xs : list validation) : Z := glen (filter (fun x : validation => x.1.1.1 = EnclaveTypeFake) xs).

Lemma fake_calls_cons t att data ms xs :
  fake_calls ((t, att, data, ms) :: xs) = (if bool_decide (t = EnclaveTypeFake) then 1 else 0) + fake_calls xs.
Proof.
  unfold fake_calls. case_bool_decide; [rewrite filter_cons_True by done; apply glen_cons|by rewrite filter_cons_False by done].
Qed.

Lemma validate_counted xs n :
  (validate_all true xs (Counting n)).2 = Counting (n + fake_calls xs).
Proof.
  revert n. induction xs as [|[[[t att] data] ms] xs IH]; intros n; [by rewrite Z.add_0_r|].
  rewrite fake_calls_cons. cbn [validate_all validate_call]. unfold validator_for. case_bool_decide as Ht; cbn [ValidateAttestation recordFakeValidation].
  - specialize (IH (n + 1)). destruct (validate_all true xs (Counting (n + 1))). cbn [snd] in *. rewrite IH. f_equal. lia.
  - specialize (IH n). destruct (validate_all true xs (Counting n)). cbn [snd] in *. by rewrite IH.
Qed.

(** The insecure path is observable: if the counter can be registered, it ends at the
    number of validations that went to the fake validator, and the validator of the pool is
    the one of the enclave's type at every call. *)
Lemma fake_validations_counted xs :
  (validate_all true xs NotRegistered).2 = (if fake_calls xs =? 0 then NotRegistered else Counting (fake_calls xs)) /\
  (validate_all true xs NotRegistered).1 = map (fun x : validation => ForEnclaveType nitro_Validate x.1.1.1 x.1.1.2 x.1.2 x.2) xs.
Proof.
  split.
  - induction xs as [|[[[t att] data] ms] xs IH]; [done|]. rewrite fake_calls_cons. cbn [validate_all validate_call]. unfold validator_for.
    case_bool_decide as Ht; cbn [ValidateAttestation recordFakeValidation].
    + pose proof (validate_counted xs 1) as H. destruct (validate_all true xs (Counting 1)). cbn [snd] in *. rewrite H.
      assert (0 <= fake_calls xs) by apply glen_nonneg. destruct (Z.eqb_spec (1 + fake_calls xs) 0); [lia|done].
    + destruct (validate_all true xs NotRegistered). cbn [snd] in *. by rewrite IH.
  - generalize NotRegistered. induction xs as [|[[[t att] data] ms] xs IH]; intros c; [done|]. cbn [validate_all validate_call].
    destruct (ValidateAttestation _ _ _ _ _ _) as [b c'] eqn:E0. specialize (IH c'). destruct (validate_all true xs c') as [l c'']. cbn in *. rewrite IH. f_equal.
    unfold validator_for, ForEnclaveType in *. case_bool_decide; cbn in E0; by injection E0 as <- _.
Qed.

End Validators.

(** ** Describing measurements *)

Section Describe.
(** [cbor.Unmarshal] into the two structs. *)
Variables (cbor_sign1 : bytes -> option bytes) (cbor_payload : bytes -> option (string * gmap Z bytes)).

Definition DescribeMeasurements (attestation : bytes) : string :=
  if bool_decide (attestation = []) then "no attestation received"
  else match cbor_sign1 attestation with
  | None | Some [] => "unparseable attestation (not a Nitro COSE document)"
  | Some payload =>
      match cbor_payload payload with
      | None => "unparseable attestation payload"
      | Some (moduleID, pcrs) =>
          let pcr i := string_of (hex_encode (default [] (pcrs !! i))) in
          "moduleID=" ++ moduleID ++ " PCR0=" ++ pcr 0 ++ " PCR1=" ++ pcr 1 ++ " PCR2=" ++ pcr 2
      end
  end%string.

End Describe.

(** ** Measurements in JSON *)

Inductive hex_error := NotAString | NotHex (s : bytes).

Section HexBytes.
Variables (unmarshal_string : bytes -> option bytes) (marshal_string : bytes -> option bytes).

Definition HexBytes_UnmarshalJSON (b : bytes) : result hex_error bytes :=
  match unmarshal_string b with
  | None => Err NotAString
  | Some s => match hex_decode s with None => Err (NotHex s) | Some decoded => Ok decoded end
  end.
Definition HexBytes_MarshalJSON (h : bytes) : option bytes := marshal_string (hex_encode h).

Record PCRs := mkPCRs { PCR0 : bytes; PCR1 : bytes; PCR2 : bytes }.

Hypothesis json_strings : forall s, utf8_Valid s = true -> exists b, marshal_string s = Some b /\ unmarshal_string b = Some s.

Lemma hex_encode_utf8 h : utf8_Valid (hex_encode h) = true.
Proof.
  apply Valid_ascii. induction h as [|x h IH]; [constructor|]. cbn [hex_encode]. repeat constructor; [by destruct x..|done].
Qed.

(** A measurement is written and read back exactly. *)
Lemma hexbytes_round_trip h : exists b, HexBytes_MarshalJSON h = Some b /\ HexBytes_UnmarshalJSON b = Ok h.
Proof.
  destruct (json_strings (hex_encode h) (hex_encode_utf8 h)) as (b & Hm & Hu). exists b. split; [done|].
  unfold HexBytes_UnmarshalJSON. by rewrite Hu, hex_decode_encode.
Qed.

End HexBytes.

(** ** Concrete requests *)

Lemma request_ids_well_formed_witness :
  exists id, newUUID (Some (replicate 16 (byte_of_Z 255))) = Some id /\ length id = 36%nat /\ string_of id = "ffffffff-ffff-4fff-bfff-ffffffffffff"%string.
Proof.
  destruct (request_ids_well_formed (replicate 16 (byte_of_Z 255)) eq_refl) as (id & Hid & Hl & _).
  exists id. split; [exact Hid|]. split; [exact Hl|]. vm_compute in Hid. injection Hid as <-. vm_compute. reflexivity.
Defined.

(** A module whose documents are the user data between two marks. *)
Definition toy_create (data : bytes) : result unit bytes := Ok (bs "<" ++ data ++ bs ">").
Definition toy_user_data (doc : bytes) : option bytes := match doc with [] => None | _ :: t => Some (take (length t - 1) t) end.

Lemma toy_create_law data doc : toy_create data = Ok doc -> toy_user_data doc = Some data /\ doc <> [].
Proof.
  intros [= <-]. split; [|done]. cbn [bs app toy_user_data]. change (bs "<" ++ data ++ bs ">") with (byte_of_Z 60 :: data ++ [byte_of_Z 62]). cbn.
  rewrite length_app. cbn. rewrite Nat.add_sub. by rewrite take_app_length.
Qed.

Lemma gateway_request_attested_witness :
  exists header doc, prepare_request (fun id m p => Some (id ++ bs m ++ p)) (mkGateway [bs "gw"] (Some toy_create) (mkGatewayHTTP 1 true true) 0)
      (Some (replicate 16 (byte_of_Z 0))) "secrets" (bs "{}") = Ok (bs "00000000-0000-4000-8000-000000000000secrets{}", header) /\
    b64_decode header = Some doc.
Proof.
  eexists. destruct (gateway_request_attested (fun id m p => Some (id ++ bs m ++ p)) (fun tag data => sha256 (bs DomainSeparator ++ bs (nl_tag tag) ++ data))
    (fun _ _ => eq_refl) toy_user_data (mkGateway [bs "gw"] (Some toy_create) (mkGatewayHTTP 1 true true) 0) toy_create
    (Some (replicate 16 (byte_of_Z 0))) "secrets" (bs "{}") _ _ toy_create_law eq_refl eq_refl) as (id & doc & _ & _ & Hd & _).
  exists doc. split; [reflexivity|exact Hd].
Defined.
