(* ===== verification/WorkflowSafety.v ===== *)
(** * WorkflowSafety: executions of workflows

    Admission against the enclave's memory, the binary that runs, the configuration
    the dispatcher decrypts with, capability calls, and what the host learns of
    failures. *)

From S2P Require Import Prelude Codec Text Sha256 Types Cache Keychain Services Emitter Server ServerSafety ServerConfig.
From S2P Require Import ServerApp Fetcher Resources HostMetrics Outbound Workflow.

(** ** Admission *)

Module Admission.

(** Executions come and go; one that was not admitted never releases. *)
Inductive op := Enter (id : nat) | Leave (id : nat).

Record state := mkState { lim : executionLimiter; inside : gset nat; stuck : bool }.

Definition step (s : state) (o : op) : state :=
  match o with
  | Enter id =>
      if bool_decide (id ∈ inside s) then s
      else let '(ok, l) := tryAcquire (lim s) in
      if ok then mkState l ({[id]} ∪ inside s) (stuck s) else s
  | Leave id =>
      if negb (bool_decide (id ∈ inside s)) then s
      else match release (lim s) with
      | Some l => mkState l (inside s ∖ {[id]}) (stuck s)
      | None => mkState (lim s) (inside s) true
      end
  end.

Definition run (max : Z) (ops : list op) : state := fold_left step ops (mkState (newExecutionLimiter max) ∅ false).

Definition slots_of (max : Z) : option Z := if max <=? 0 then None else Some max.

Record inv (max : Z) (s : state) : Prop := {
  inv_slots : lim_slots (lim s) = slots_of max;
  inv_used : 0 < max -> lim_used (lim s) = Z.of_nat (size (inside s)) /\ Z.of_nat (size (inside s)) <= max;
  inv_free : stuck s = false;
}.

Lemma step_inv max s o : inv max s -> inv max (step s o).
Proof.
  intros [H1 H2 H3]. destruct o as [id|id]; cbn [step].
  - case_bool_decide as Hin; [done|]. unfold tryAcquire. rewrite H1. unfold slots_of at 1. destruct (Z.leb_spec max 0).
    + split; cbn; [exact H1|lia|exact H3].
    + destruct (H2 ltac:(lia)) as [Hu Hm]. rewrite Hu. destruct (Z.ltb_spec (Z.of_nat (size (inside s))) max); [|done].
      split; cbn; [|intros _|done].
      * done.
      * rewrite size_union, size_singleton by set_solver. lia.
  - case_bool_decide as Hin; cbn [negb]; [|done]. unfold release. rewrite H1. unfold slots_of at 1. destruct (Z.leb_spec max 0).
    + split; cbn; [exact H1|lia|exact H3].
    + destruct (H2 ltac:(lia)) as [Hu Hm]. assert (1 <= size (inside s))%nat.
      { rewrite <- (size_singleton (C := gset nat) id). apply subseteq_size. set_solver. }
      rewrite Hu. destruct (Z.leb_spec (Z.of_nat (size (inside s))) 0); [lia|]. split; cbn; [|intros _|done].
      * done.
      * rewrite size_difference, size_singleton by set_solver. lia.
Qed.

Lemma run_inv max ops : inv max (run max ops).
Proof.
  unfold run. assert (inv max (mkState (newExecutionLimiter max) ∅ false)) as H0.
  { split; unfold newExecutionLimiter, slots_of; destruct (Z.leb_spec max 0); cbn [lim lim_slots lim_used inside]; try done; rewrite size_empty; lia. }
  revert H0. generalize (mkState (newExecutionLimiter max) ∅ false). induction ops as [|o ops IH]; intros s Hs; [done|].
  cbn [fold_left]. by apply IH, step_inv.
Qed.

Lemma concurrency_range total : 0 <= total < 2 ^ 64 ->
  let n := concurrency total ReserveMB PerExecMB in
  1 <= n < 2 ^ 63 /\ (ReserveMB + PerExecMB <= total -> ReserveMB + n * PerExecMB <= total < ReserveMB + (n + 1) * PerExecMB).
Proof.
  intros Ht. unfold concurrency, ReserveMB, PerExecMB. cbn [Z.eqb orb]. destruct (Z.leb_spec total 1024); [lia|].
  rewrite u64_id by (unfold is_u64; lia). rewrite i64_id by (unfold is_i64; dlia).
  destruct (Z.ltb_spec ((total - 1024) / 128) 1); dlia.
Qed.

(** Admitted executions fit in memory.  With the limit derived from the enclave's
    memory, for every arrival and departure of executions: those inside, at 128 MiB
    each, and the reserve never exceed the memory; returning a slot never blocks;
    and an execution is turned away only when one more would not fit. *)
Theorem admitted_fit_memory (total : Z) (ops : list op) (id : nat) :
  ReserveMB + PerExecMB <= total < 2 ^ 64 ->
  let s := run (MaxConcurrent (Derive (Some total))) ops in
  stuck s = false /\
  ReserveMB + Z.of_nat (size (inside s)) * PerExecMB <= total /\
  (id ∉ inside s -> (id ∈ inside (step s (Enter id)) <-> ReserveMB + (Z.of_nat (size (inside s)) + 1) * PerExecMB <= total)).
Proof.
  intros Ht s. assert (0 <= total < 2 ^ 64) as Ht' by (unfold ReserveMB, PerExecMB in *; lia).
  destruct (concurrency_range total Ht') as [Hn Hfit]. specialize (Hfit ltac:(lia)).
  pose proof (run_inv (MaxConcurrent (Derive (Some total))) ops) as [H1 H2 H3]. fold s in H1, H2, H3.
  assert (MaxConcurrent (Derive (Some total)) = concurrency total ReserveMB PerExecMB) as Hm.
  { cbn [Derive]. destruct (Z.eqb_spec total 0); [unfold ReserveMB, PerExecMB in *; lia|done]. }
  rewrite Hm in *. set (n := concurrency total ReserveMB PerExecMB) in *. destruct (H2 ltac:(lia)) as [Hu Hle].
  split; [done|]. split; [unfold ReserveMB, PerExecMB in *; lia|]. intros Hid. cbn [step]. rewrite bool_decide_false by done.
  unfold tryAcquire. rewrite H1, Hu. unfold slots_of at 1. destruct (Z.leb_spec n 0); [lia|].
  destruct (Z.ltb_spec (Z.of_nat (size (inside s))) n); cbn [inside].
  - split; [unfold ReserveMB, PerExecMB in *; lia|set_solver].
  - split; [done|]. unfold ReserveMB, PerExecMB in *. lia.
Qed.

(** [admitted_fit_memory] at 1280 MiB, which hold two executions. *)
Lemma admitted_fit_memory_witness :
  inside (run 2 [Enter 1; Enter 2; Enter 3; Leave 1; Enter 4]) = {[2; 4]}%nat /\
  stuck (run 2 [Enter 1; Enter 2; Enter 3; Leave 1; Enter 4]) = false.
Proof.
  split; [by vm_compute|].
  exact (proj1 (admitted_fit_memory 1280 [Enter 1; Enter 2; Enter 3; Leave 1; Enter 4] 5 ltac:(by vm_compute))).
Defined.

End Admission.

(** ** Executions *)

Module Executions.
Section Executions.
Context `{HS : Sha256} {RawFetcher Requirements Restrictions Module_ TeeType : Type} `{EqDecision TeeType}.
Implicit Types (a : confidentialWorkflowsApp (RawFetcher := RawFetcher)).
Variables (Unmarshal_execution : bytes -> result string (WorkflowExecution Requirements Restrictions))
  (FetchBinary : RawFetcher -> bytes -> option bytes)
  (CheckRequirements : (Tee TeeType -> bool) -> option Requirements -> bool)
  (tpe : TeeType)
  (NewModule : bytes -> result string Module_ * Z)
  (run_guest : Module_ -> bytes -> option Restrictions -> helper_identity -> Z -> result wasm_error bytes * Z * list event)
  (Marshal_response : bytes -> result string bytes)
  (fetch_text : fetch_error -> string) (requirements_text : option Requirements -> string).

Abbreviation execute_admitted := (execute_admitted Unmarshal_execution FetchBinary CheckRequirements tpe NewModule run_guest Marshal_response fetch_text requirements_text).
Abbreviation Execute := (Execute Unmarshal_execution FetchBinary CheckRequirements tpe NewModule run_guest Marshal_response fetch_text requirements_text).

(** What an execution leaves alone: all but the cache of binaries. *)
Definition same_but_cache (a a' : confidentialWorkflowsApp (RawFetcher := RawFetcher)) : Prop :=
  a' = set_fetcher (fetcher a') a.

Lemma set_fetcher_same f a : same_but_cache a (set_fetcher f a).
Proof. done. Qed.

(** The ways an admitted execution can end. *)
Lemma admitted_outcome wait requestID appID inputData reqs a :
  let '(r, evs, a') := execute_admitted wait requestID appID inputData reqs a in
  same_but_cache a a' /\ (fetcher_inv (fetcher a) -> fetcher_inv (fetcher a')) /\
  match r with
  | Err e => ee_Code e ∈ [400; 500; 502; 504]
  | Ok out =>
      exists x sdk binary module elapsed result d gevs,
        appID = AppIDConfidentialWorkflows /\ Unmarshal_execution inputData = Ok x /\ SdkExecuteRequest x = Some sdk /\
        (fetcher_inv (fetcher a) -> sha256 binary = BinaryHash x) /\
        CheckRequirements (validTee tpe) (we_Requirements x) = true /\
        NewModule binary = (Ok module, elapsed) /\ (0 < executionTimeout a -> elapsed < executionTimeout a) /\
        run_guest module sdk (we_Restrictions x)
          (mkHelper requestID (WorkflowId x) (we_Owner x) (we_ExecutionId x) (we_OrgId x) reqs (app_dispatcher a))
          (if 0 <? executionTimeout a then executionTimeout a - elapsed else 0) = (Ok result, d, gevs) /\
        Marshal_response result = Ok out
  end.
Proof.
  unfold Workflow.execute_admitted. destruct a as [f hf lim cs et gp su st sf disp lc hc]. cbn [fetcher storageFetcher executionTimeout app_dispatcher set_fetcher].
  case_bool_decide as Happ; cbn [negb]; [|split_and!; [done..|by_compute]].
  destruct (Unmarshal_execution inputData) as [x|] eqn:Ex; [|split_and!; [done..|cbn; by_compute]].
  repeat (case_bool_decide; [split_and!; [done..|cbn; by_compute]|]).
  destruct (glen (BinaryHash x) =? 0); [split_and!; [done..|cbn; by_compute]|].
  destruct (SdkExecuteRequest x) as [sdk|] eqn:Esdk; [|split_and!; [done..|cbn; by_compute]].
  set (raw := match sf with Some sf => FetchBinary sf (BinaryUrl x) | None => None end). set (prov := match sf with Some _ => true | None => false end).
  destruct (Fetch f (BinaryHash x) prov raw) as [r f'] eqn:Ef.
  assert (fetcher_inv f -> fetcher_inv f') as Hinv by (intros Hi; pose proof (Fetch_inv f (BinaryHash x) prov raw Hi) as H1; by rewrite Ef in H1).
  destruct r as [binary|e]; [|split_and!; [done..|cbn; by_compute]].
  destruct (CheckRequirements (validTee tpe) (we_Requirements x)) eqn:Er; cbn [negb]; [|split_and!; [done..|cbn; by_compute]].
  unfold executeWasm. destruct (NewModule binary) as [[module|e] elapsed] eqn:En.
  2: { destruct ((0 <? et) && (et <=? elapsed)); split_and!; try done; cbn; by_compute. }
  destruct ((0 <? et) && (et <=? elapsed)) eqn:Et; [split_and!; [done..|cbn; by_compute]|].
  destruct (run_guest _ _ _ _ _) as [[[result|e] d] gevs] eqn:Eg.
  - destruct (Marshal_response result) as [out|e] eqn:Em; [|split_and!; [done..|cbn; by_compute]].
    split_and!; [done..|]. exists x, sdk, binary, module, elapsed, result, d, gevs. split_and!; try done.
    + intros Hi. by eapply Fetch_verified.
    + intros Hp. apply andb_false_iff in Et as [?%Z.ltb_ge|?%Z.leb_gt]; lia.
  - cbn. destruct (we_deadline e); split_and!; try done; cbn; by_compute.
Qed.

(** No slot is free. *)
Definition full (l : executionLimiter) : bool := match lim_slots l with None => false | Some n => n <=? lim_used l end.

Lemma acquire_release l : 0 <= lim_used l ->
  match tryAcquire l with
  | (true, l') => full l = false /\ release l' = Some l
  | (false, l') => full l = true
  end.
Proof.
  destruct l as [[n|] u]; unfold tryAcquire, release, full; cbn; [|done]. intros Hu.
  destruct (Z.ltb_spec u n); cbn.
  - destruct (Z.leb_spec n u); [lia|]. destruct (Z.leb_spec (u + 1) 0); [lia|]. by rewrite Z.add_simpl_r.
  - destruct (Z.leb_spec n u); [done|lia].
Qed.

Lemma execute_outcome (wait : Z) (requestID : bytes) (appID : string) (inputData : bytes)
    (reqs : list SignedComputeRequest) (a : confidentialWorkflowsApp (RawFetcher := RawFetcher)) :
  fetcher_inv (fetcher a) -> 0 <= lim_used (limiter a) ->
  exists r evs a',
    Execute wait requestID appID inputData reqs a = Some (r, evs, a') /\
    limiter a' = limiter a /\ fetcher_inv (fetcher a') /\
    ((exists e, r = Err e /\ ee_Code e = StatusTooManyRequests) <-> full (limiter a) = true) /\
    forall out, r = Ok out ->
      exists x sdk binary module elapsed result d gevs,
        appID = AppIDConfidentialWorkflows /\ Unmarshal_execution inputData = Ok x /\ SdkExecuteRequest x = Some sdk /\
        sha256 binary = BinaryHash x /\ CheckRequirements (validTee tpe) (we_Requirements x) = true /\
        NewModule binary = (Ok module, elapsed) /\ (0 < executionTimeout a -> elapsed < executionTimeout a) /\
        run_guest module sdk (we_Restrictions x)
          (mkHelper requestID (WorkflowId x) (we_Owner x) (we_ExecutionId x) (we_OrgId x) reqs (app_dispatcher a))
          (if 0 <? executionTimeout a then executionTimeout a - elapsed else 0) = (Ok result, d, gevs) /\
        Marshal_response result = Ok out.
Proof.
  intros Hi Hu. pose proof (acquire_release (limiter a) Hu) as Hl. unfold Workflow.Execute.
  destruct (tryAcquire (limiter a)) as [[|] l]; cbn [negb].
  - destruct Hl as [Hf Hr]. pose proof (admitted_outcome wait requestID appID inputData reqs (set_limiter l a)) as Ho.
    destruct (execute_admitted wait requestID appID inputData reqs (set_limiter l a)) as [[r evs] a']. destruct Ho as (Hs & Hi' & Ho).
    assert (limiter a' = l) as Hl' by (rewrite Hs; done). rewrite Hl', Hr. cbn [fmap option_fmap option_map].
    exists r, evs, (set_limiter (limiter a) a'). split_and!; [done|done|by apply Hi'| |].
    + rewrite Hf. split; [|done]. intros (e & -> & He). rewrite He in Ho. exfalso. revert Ho. by_compute.
    + intros out ->. destruct Ho as (x & sdk & binary & module & elapsed & result & d & gevs & H1 & H2 & H3 & H4 & H5).
      exists x, sdk, binary, module, elapsed, result, d, gevs. split_and!; try done; [by apply H4|apply H5..].
  - eexists _, _, a. split_and!; [done|done|done| |done]. rewrite Hl. split; [done|]. intros _. by eexists.
Qed.

(** C20 An execution always ends and gives its slot back.  It is turned away with
    status 429 exactly when no slot is free; and when it succeeds, what ran is a
    binary with the SHA-256 the signed request names, compiled within the timeout, on
    an enclave that meets the workflow's requirements, under its restrictions and
    with the identity of the request. *)
Theorem workflow_runs_verified_code (wait : Z) (requestID : bytes) (appID : string) (inputData : bytes)
    (reqs : list SignedComputeRequest) (a : confidentialWorkflowsApp (RawFetcher := RawFetcher)) :
  fetcher_inv (fetcher a) -> 0 <= lim_used (limiter a) ->
  exists r evs a',
    Execute wait requestID appID inputData reqs a = Some (r, evs, a') /\
    limiter a' = limiter a /\ fetcher_inv (fetcher a') /\
    ((exists e, r = Err e /\ ee_Code e = StatusTooManyRequests) <-> full (limiter a) = true) /\
    forall out, r = Ok out ->
      exists x sdk binary module elapsed result d gevs,
        appID = AppIDConfidentialWorkflows /\ Unmarshal_execution inputData = Ok x /\ SdkExecuteRequest x = Some sdk /\
        sha256 binary = BinaryHash x /\ CheckRequirements (validTee tpe) (we_Requirements x) = true /\
        NewModule binary = (Ok module, elapsed) /\ (0 < executionTimeout a -> elapsed < executionTimeout a) /\
        run_guest module sdk (we_Restrictions x)
          (mkHelper requestID (WorkflowId x) (we_Owner x) (we_ExecutionId x) (we_OrgId x) reqs (app_dispatcher a))
          (if 0 <? executionTimeout a then executionTimeout a - elapsed else 0) = (Ok result, d, gevs) /\
        Marshal_response result = Ok out.
Proof. apply execute_outcome. Qed.

End Executions.
End Executions.

(** ** Capability calls *)

Module Capabilities.
Section Capabilities.
Variables (http_ClientID ConsensusID : string).
Variables (decode_http : bytes -> result string httpfetch.Request) (encode_http : httpfetch.Response -> result string bytes)
  (decode_consensus : bytes -> result string SimpleConsensusInputs) (encode_value : bytes -> result string bytes)
  (fetch_error_text : httpfetch.fetch_error -> string) (Quote : string -> string).

Abbreviation callCapability := (callCapability http_ClientID ConsensusID decode_http encode_http decode_consensus encode_value fetch_error_text Quote).
Abbreviation CallCapability := (CallCapability http_ClientID ConsensusID decode_http encode_http decode_consensus encode_value fetch_error_text Quote).

(** The calls answered inside the enclave. *)
Definition local (req : CapabilityRequest) : Prop :=
  cr_Id req = AppIDConfidentialWorkflows \/
  cr_Id req = http_ClientID /\ cr_Method req = "SendRequest"%string \/
  cr_Id req = ConsensusID /\ cr_Id req <> http_ClientID /\ cr_Method req = "Simple"%string.

(** HTTP requests, simple consensus and calls of the application itself never leave
    the enclave, whatever the dispatcher would answer, and every other call goes to
    the dispatcher and nowhere else. *)
Theorem local_calls_stay_local
    (fetch fetch' : option (httpfetch.Request -> result httpfetch.fetch_error httpfetch.Response))
    (remote remote' : option (CapabilityRequest -> result string CapabilityResponse)) (req : CapabilityRequest) :
  (local req -> callCapability fetch remote req = callCapability fetch remote' req) /\
  (~ local req -> callCapability fetch remote req = callCapability fetch' remote req /\
     forall call, remote = Some call -> callCapability fetch remote req = call req).
Proof.
  unfold local, Workflow.callCapability, call_remote. split; intros H.
  - repeat (case_bool_decide; try done); exfalso; tauto.
  - repeat case_bool_decide; try (exfalso; tauto); (split; [done|]); by intros call ->.
Qed.

(** How a call failed, if it did. *)
Definition failure (r : result string CapabilityResponse) : option string :=
  match r with
  | Err _ => Some "dispatch"%string
  | Ok resp => if bool_decide (GetError resp = ""%string) then None else Some "capability"%string
  end.

Section Reported.
Variables (fetch : option (httpfetch.Request -> result httpfetch.fetch_error httpfetch.Response))
  (remote : option (CapabilityRequest -> result string CapabilityResponse)).

Definition calls_events (calls : list (Z * CapabilityRequest)) : list event :=
  concat (map (fun c => (CallCapability fetch remote c.1 c.2).2) calls).

Lemma finished_reported d1 d2 (l : list (string * any)) success t :
  (list_to_map l : gmap string any) !! "success"%string = Some (ABool success) ->
  (success = false -> (list_to_map l : gmap string any) !! "error_type"%string = Some (AString t)) ->
  recordSubCapabilityFailures (Some AppIDConfidentialWorkflows)
    (map as_metric [("capability_started"%string, d1); ("capability_execution"%string, d2); ("capability_finished"%string, details l)]) =
  if success then [] else [normalizeSubCapabilityErrorType t].
Proof.
  intros Hs Ht. unfold recordSubCapabilityFailures. rewrite bool_decide_true by done. cbn [negb map as_metric fst snd omap list_omap Event Details].
  rewrite !(bool_decide_false (_ = _)) by done. rewrite bool_decide_true by done. cbn [negb].
  unfold details. rewrite !roundDurations_other by done. rewrite Hs. destruct success; [done|]. by rewrite (Ht eq_refl).
Qed.

Lemma call_reported d req :
  recordSubCapabilityFailures (Some AppIDConfidentialWorkflows) (map as_metric (CallCapability fetch remote d req).2) =
  match failure (callCapability fetch remote req) with Some t => [t] | None => [] end.
Proof.
  unfold Workflow.CallCapability, failure. destruct (callCapability fetch remote req) as [resp|e].
  - case_bool_decide; cbn [fst snd].
    + by apply (finished_reported _ _ _ true "").
    + by apply (finished_reported _ _ _ false "capability").
  - cbn [fst snd]. by apply (finished_reported _ _ _ false "dispatch").
Qed.

Lemma record_app appID l k :
  recordSubCapabilityFailures (Some appID) (l ++ k) = recordSubCapabilityFailures (Some appID) l ++ recordSubCapabilityFailures (Some appID) k.
Proof. unfold recordSubCapabilityFailures. destruct (negb _); [done|]. apply omap_app. Qed.

Lemma calls_reported calls :
  recordSubCapabilityFailures (Some AppIDConfidentialWorkflows) (map as_metric (calls_events calls)) =
  omap (fun c => failure (callCapability fetch remote c.2)) calls.
Proof.
  induction calls as [|[d req] calls IH]; [done|]. unfold calls_events in *. cbn [map concat fst snd].
  rewrite map_app, record_app, call_reported. unfold event in *. rewrite IH. cbn [omap list_omap snd]. by destruct (failure _).
Qed.

(** The host records every failed capability call of an execution exactly once, in
    order and with the right kind, and no call that succeeded: from the helper's
    events, through the enclave's emitter, to the host's metric. *)
Theorem failures_reach_host (now : Z) (calls : list (Z * CapabilityRequest)) :
  recordSubCapabilityFailures (Some AppIDConfidentialWorkflows)
    (GetMetricEvents (emit_all (NewResponseEmitter now) (calls_events calls))) =
  omap (fun c => failure (callCapability fetch remote c.2)) calls.
Proof.
  unfold GetMetricEvents, Snapshot. cbn [snd]. rewrite emit_all_events. cbn [NewResponseEmitter em_metrics app].
  exact (calls_reported calls).
Qed.

End Reported.
End Capabilities.
End Capabilities.

(** ** The application inside the enclave's server *)

Module Hosted.
Section Hosted.
Context `{HS : Sha256} `{HT : TDH2} {verified : bytes -> bytes -> bytes -> bool} `{HV : !SignatureVerifier verified}.
Context {RawFetcher Requirements Restrictions Module_ TeeType : Type} `{EqDecision TeeType}.
Variables (Unmarshal_execution : bytes -> result string (WorkflowExecution Requirements Restrictions))
  (FetchBinary : RawFetcher -> bytes -> option bytes)
  (CheckRequirements : (Tee TeeType -> bool) -> option Requirements -> bool)
  (tpe : TeeType)
  (NewModule : bytes -> result string Module_ * Z)
  (run_guest : Module_ -> bytes -> option Restrictions -> helper_identity -> Z -> result wasm_error bytes * Z * list event)
  (Marshal_response : bytes -> result string bytes)
  (fetch_text : fetch_error -> string) (requirements_text : option Requirements -> string)
  (storageFactory : bytes -> bool -> bytes -> Z -> Z -> option RawFetcher)
  (dispatcherFactory : option (GatewayConfig -> option dispatcher))
  (Unmarshal_settings : bytes -> option WorkflowSettings)
  (wait : Z) (Attest : bytes -> option bytes) (Open : bytes -> bytes -> bytes -> option bytes)
  (Marshal : ExecuteResponse -> option bytes) (text : server_error -> string).

(** The environment of a server that hosts the application. *)
Definition workflow_env : EnclaveEnv := {|
  World := confidentialWorkflowsApp (RawFetcher := RawFetcher);
  app_Execute := fun a requestID appID inputData _ reqs =>
    match Execute Unmarshal_execution FetchBinary CheckRequirements tpe NewModule run_guest Marshal_response fetch_text requirements_text
            wait requestID appID inputData reqs a with
    | Some (r, evs, a') => (a', evs, r)
    | None => (a, [], Err (mkExecuteError "" 0))
    end;
  app_OnConfigUpdate := Some (fun a c => OnConfigUpdate c a);
  app_InjectSettings := Some (fun a raw =>
    let '(r, a') := InjectSettings storageFactory dispatcherFactory Unmarshal_settings raw a in (a', is_ok r));
  CreateAttestation := fun a d => (a, Attest d);
  OpenAnonymous := Open;
  json_Marshal := Marshal;
  error_text := text;
|}.

(** What the application knows of the configuration. *)
Definition follows (c : EnclaveConfig) (set : bool) (a : confidentialWorkflowsApp (RawFetcher := RawFetcher)) : Prop :=
  (set = true -> haveConfig a = true /\ lastConfig a = c) /\
  (haveConfig a = true -> forall d, app_dispatcher a = Some d -> d_config d = lastConfig a).

Lemma follows_frame c set a a' :
  haveConfig a' = haveConfig a -> lastConfig a' = lastConfig a -> app_dispatcher a' = app_dispatcher a -> follows c set a -> follows c set a'.
Proof. unfold follows. by intros -> -> ->. Qed.

Lemma inject_follows c set raw a :
  follows c set a -> follows c set (InjectSettings storageFactory dispatcherFactory Unmarshal_settings raw a).2.
Proof.
  intros H. unfold InjectSettings. destruct (Unmarshal_settings raw) as [req|]; [|exact H].
  destruct (validate req); [|exact H]. destruct (storageFactory _ _ _ _ _) as [sf|]; [|by eapply follows_frame].
  set (a1 := set_storage (Some sf) (apply_tunables req a)). assert (follows c set a1) as H1 by (by eapply follows_frame).
  unfold ensure_dispatcher. destruct (app_dispatcher a1) as [d|] eqn:Ed; [exact H1|]. destruct dispatcherFactory as [factory|]; [|exact H1].
  destruct (factory _) as [d|]; [|exact H1]. destruct H1 as [H1 _]. split; [exact H1|]. cbn [snd set_dispatcher app_dispatcher haveConfig lastConfig].
  intros Hh d' [= <-]. subst a1. cbn in *. by rewrite Hh.
Qed.

Lemma execute_follows c set id app input reqs a r evs a' :
  Execute Unmarshal_execution FetchBinary CheckRequirements tpe NewModule run_guest Marshal_response fetch_text requirements_text
    wait id app input reqs a = Some (r, evs, a') -> follows c set a -> follows c set a'.
Proof.
  unfold Execute. destruct (tryAcquire (limiter a)) as [[|] l]; cbn [negb]; [|by intros [= _ _ <-]].
  pose proof (Executions.admitted_outcome Unmarshal_execution FetchBinary CheckRequirements tpe NewModule run_guest Marshal_response fetch_text
    requirements_text wait id app input reqs (set_limiter l a)) as Ho.
  destruct (execute_admitted _ _ _ _ _ _ _ _ _ _ _ _ _ _ _) as [[r0 evs0] a0]. destruct Ho as (Hs & _).
  destruct (release (limiter a0)) as [l'|]; [|done]. intros [= _ _ <-]. rewrite Hs. by apply follows_frame.
Qed.

#[local] Existing Instance workflow_env.

Lemma follows_kept : AppKeeps follows.
Proof.
  split.
  - intros c b a id app input secrets reqs H. cbn. destruct (Execute _ _ _ _ _ _ _ _ _ _ _ _ _ _ _) as [[[r evs] a']|] eqn:E; [|done].
    by eapply execute_follows.
  - done.
  - intros c b a inject raw [= <-] H. cbn. pose proof (inject_follows c b raw a H) as Hi.
    by destruct (InjectSettings storageFactory dispatcherFactory Unmarshal_settings raw a).
  - intros c b a c' [H1 H2]. unfold notified. cbn. unfold OnConfigUpdate. cbn.
    destruct (app_dispatcher a) as [d|] eqn:Ed; (split; [done|]); cbn; intros _ d'; [by intros [= <-]|by rewrite Ed].
Qed.

(** C21 The dispatcher decrypts under the enclave's current configuration.  Over any
    history of executions, configurations, votes and settings in any order, once a
    configuration was accepted, a dispatcher, whenever it was built, holds exactly
    the server's configuration: master key, threshold and signers never lag. *)
Theorem dispatcher_follows_server (http : httpfetch.Fetcher) (max : Z) (kc : boxKeychain) (cfg : EnclaveConfig) (reconfig : bool)
    (ops : list server_op) (d : dispatcher) :
  let s := (server_run (NewEnclaveServer (NewConfidentialWorkflowsApp http max) kc cfg reconfig) ops).1 in
  configSet s = true -> app_dispatcher (world s) = Some d -> d_config d = config s.
Proof.
  intros s Hs Hd. assert (ServerApp.holds follows s) as [H1 H2].
  { apply server_run_holds; [apply follows_kept|by split]. }
  destruct (H1 Hs) as [Hh Hl]. rewrite <- Hl. by apply H2.
Qed.

End Hosted.
End Hosted.

(** ** Settings *)

Module Settings.
Section Settings.
Context {RawFetcher : Type}.
Variables (storageFactory : bytes -> bool -> bytes -> Z -> Z -> option RawFetcher)
  (dispatcherFactory : option (GatewayConfig -> option dispatcher))
  (Unmarshal_settings : bytes -> option WorkflowSettings).

(** Accepted settings are complete and take effect: storage location and key,
    gateway and a non-negative number of compile slots were given, the storage fetcher
    is the one built from them, a dispatcher exists, and each tunable has the given
    value; but one that is left out keeps the value it had, also from an earlier
    injection, and not its default.  Settings that are incomplete change nothing. *)
Theorem settings_take_effect (raw : bytes) (a a' : confidentialWorkflowsApp (RawFetcher := RawFetcher)) (r : result settings_error unit) :
  InjectSettings storageFactory dispatcherFactory Unmarshal_settings raw a = (r, a') ->
  match Unmarshal_settings raw with
  | None => r = Err ParsingSettings /\ a' = a
  | Some req =>
      if decide (StorageKey req <> [] /\ StorageServiceURL req <> [] /\ GatewayURL req <> [] /\ 0 <= MaxConcurrentCompilations req) then
        (r = Ok tt ->
         storageFetcher a' = storageFactory (StorageServiceURL req) (StorageServiceTLS req) (StorageKey req) (MaxBinarySize req) (BinaryFetchTimeout req) /\
         storageFetcher a' <> None /\ (dispatcherFactory <> None -> app_dispatcher a' <> None)) /\
        executionTimeout a' = (if decide (0 < ExecutionTimeout req) then ExecutionTimeout req else executionTimeout a) /\
        gracePeriod a' = (if decide (WorkflowGracePeriod req = 0) then gracePeriod a else WorkflowGracePeriod req) /\
        compileSlots a' = (if decide (MaxConcurrentCompilations req = 0) then compileSlots a else MaxConcurrentCompilations req) /\
        httpfetch.defaultTimeout (httpFetcher a') = (if decide (0 < RequestTimeout req) then RequestTimeout req else httpfetch.defaultTimeout (httpFetcher a)) /\
        limiter a' = limiter a /\ lastConfig a' = lastConfig a
      else is_ok r = false /\ a' = a
  end.
Proof.
  unfold InjectSettings. destruct (Unmarshal_settings raw) as [req|]; [|by intros [= <- <-]].
  assert (if decide (StorageKey req <> [] /\ StorageServiceURL req <> [] /\ GatewayURL req <> [] /\ 0 <= MaxConcurrentCompilations req)
          then validate req = Ok tt else is_ok (validate req) = false) as Hv.
  { unfold validate. destruct (decide _) as [(H1 & H2 & H3 & H4)|Hn].
    - rewrite !bool_decide_false by done. destruct (Z.ltb_spec (MaxConcurrentCompilations req) 0); [lia|done].
    - destruct (Z.ltb_spec (MaxConcurrentCompilations req) 0); [done|]. repeat case_bool_decide; try done. exfalso. apply Hn. by split_and!. }
  destruct (decide _) as [(_ & _ & _ & Hc)|]; [|by destruct (validate req) as [[]|]; [|intros [= <- <-]]].
  rewrite Hv. intros H.
  assert (storageServiceURL (apply_tunables req a) = StorageServiceURL req /\ storageServiceTLS (apply_tunables req a) = StorageServiceTLS req) as [E1 E2] by done.
  rewrite E1, E2 in H. set (a1 := apply_tunables req a) in *.
  assert (forall x : confidentialWorkflowsApp (RawFetcher := RawFetcher),
    executionTimeout x = executionTimeout a1 -> gracePeriod x = gracePeriod a1 -> compileSlots x = compileSlots a1 -> httpFetcher x = httpFetcher a1 ->
    limiter x = limiter a1 -> lastConfig x = lastConfig a1 ->
    executionTimeout x = (if decide (0 < ExecutionTimeout req) then ExecutionTimeout req else executionTimeout a) /\
    gracePeriod x = (if decide (WorkflowGracePeriod req = 0) then gracePeriod a else WorkflowGracePeriod req) /\
    compileSlots x = (if decide (MaxConcurrentCompilations req = 0) then compileSlots a else MaxConcurrentCompilations req) /\
    httpfetch.defaultTimeout (httpFetcher x) = (if decide (0 < RequestTimeout req) then RequestTimeout req else httpfetch.defaultTimeout (httpFetcher a)) /\
    limiter x = limiter a /\ lastConfig x = lastConfig a) as Ht.
  { intros x -> -> -> -> -> ->. unfold a1, apply_tunables, httpfetch.SetDefaultTimeout. cbn. split_and!; try done.
    - destruct (Z.ltb_spec 0 (ExecutionTimeout req)), (decide (0 < ExecutionTimeout req)); done || lia.
    - destruct (Z.eqb_spec (WorkflowGracePeriod req) 0), (decide (WorkflowGracePeriod req = 0)); done || lia.
    - destruct (Z.ltb_spec 0 (MaxConcurrentCompilations req)), (decide (MaxConcurrentCompilations req = 0)); done || lia.
    - destruct (Z.leb_spec (RequestTimeout req) 0), (decide (0 < RequestTimeout req)); done || lia. }
  clearbody a1. destruct (storageFactory _ _ _ _ _) as [sf|] eqn:Es; [|injection H as <- <-; split; [done|by apply Ht]].
  unfold ensure_dispatcher in H. cbn [app_dispatcher set_storage] in H.
  destruct (app_dispatcher a1) as [d|] eqn:Ed; [injection H as <- <-|destruct dispatcherFactory as [factory|]; [destruct (factory _) as [d|]|]; injection H as <- <-];
    (split; [|by apply Ht]); try done; intros _; split_and!; try done; cbn; by rewrite Ed.
Qed.

End Settings.
End Settings.

(** ** Failures of the application, as the host sees them *)

Section AppFailures.
Context `{HS : Sha256} `{HE : EnclaveEnv} `{HT : TDH2}
  {verified : bytes -> bytes -> bytes -> bool} `{HV : !SignatureVerifier verified}.

Lemma run_app_code clk s cfg hash req reqs secrets em code e s' :
  run_app clk s cfg hash req reqs secrets em = (HttpError code e, s') -> code = StatusInternalServerError.
Proof.
  unfold run_app. destruct (app_Execute _ _ _ _ _ _) as [[w evs] [output|e0]]; [|by intros [= <- _ _]].
  destruct (attest _ _) as [[att|] s1]; [|by intros [= <- _ _]]. destruct (Snapshot _). destruct (json_Marshal _); [done|by intros [= <- _ _]].
Qed.

(** The enclave's server answers an execution with 400, 405, 409 or 500 only: it
    drops the status of the application's error.  An execution turned away at
    capacity, or one that ran into its deadline, is therefore counted by the host as
    another kind of failure, never as a capacity rejection or a timeout. *)
Theorem app_status_is_lost (clk : exec_clock) (s s' : enclaveServer) (method : string) (body : decoded (list SignedComputeRequest))
    (code : Z) (e : server_error * EnclaveErrorResponse) :
  handleExecute clk s method body = (HttpError code e, s') ->
  code ∈ [400; 405; 409; 500] /\
  executionFailureReasonForStatus code <> executionFailureCapacity /\ executionFailureReasonForStatus code <> executionFailureTimeout.
Proof.
  intros H. assert (code ∈ [400; 405; 409; 500]) as Hc.
  { unfold handleExecute, reject in H. destruct (negb _); [injection H as <- _ _; by_compute|].
    destruct body as [| |reqs]; [injection H as <- _ _; by_compute..|].
    destruct (check_signatures _ reqs) as [[[hash req] signers]|e0].
    2: { assert (code = StatusBadRequest) as -> by (destruct e0 as [| | | | | | | | | | | | | | | | |? []| | | | | | | | |]; by inversion H). by_compute. }
    destruct (negb (quorum _ _)); [injection H as <- _ _; by_compute|]. destruct (in_progress _ _ _); [injection H as <- _ _; by_compute|].
    unfold execute_marked, reject in H. destruct (replayed _ _ _); [injection H as <- _ _; by_compute|].
    unfold execute_fresh, reject in H. destruct (negb _); [injection H as <- _ _; by_compute|].
    repeat (destruct (decide _) in H; [injection H as <- _ _; by_compute|]).
    destruct (GetKeyPair _ _ _) as [kp|]; [|injection H as <- _ _; by_compute].
    destruct (combine_nodes _ _ _ _ _ _ _) as [secrets|[|]|]; try done; [|injection H as <- _ _; by_compute].
    match type of H with context [run_app ?a ?b ?c ?d ?e ?f ?g ?h] => destruct (run_app a b c d e f g h) as [out s1] eqn:Er end.
    injection H as -> _. apply run_app_code in Er as ->. by_compute. }
  split; [done|]. clear H. revert code Hc. apply Forall_forall. by_compute.
Qed.

End AppFailures.
