(* ===== verification/WorkflowExamples.v ===== *)
(** * WorkflowExamples: a small workflow application

    The theorems of [WorkflowSafety] and [Storage] on concrete inputs: an application
    whose storage holds one binary, and the toy enclave of [ServerToy]. *)

From S2P Require Import Prelude Codec Text Sha256 Types Cache Keychain Services Emitter Server ServerSafety ServerConfig ServerToy.
From S2P Require Import ServerApp Float Fetcher Resources HostMetrics Outbound Storage Workflow Guest WorkflowSafety.

(** ** Executions *)

Definition toy_execution_input : WorkflowExecution unit unit :=
  mkExecution unit unit "wf" (bs "https://s/artifacts/1/binary.wasm") (sha256 (bs "wasm")) (Some (bs "trigger")) "owner" "exec" "org" None None.
Definition toy_unmarshal (input : bytes) : result string (WorkflowExecution unit unit) := Ok toy_execution_input.
Definition toy_storage (sf : unit) (locator : bytes) : option bytes := Some (bs "wasm").
Definition toy_requirements (tee : Tee bool -> bool) (r : option unit) : bool := tee (TeeTypesAndRegions [(true, [])]).
Definition toy_module (binary : bytes) : result string bytes * Z := (Ok binary, 5).
(** The guest logs, calls a capability that is not there, and reports a metric. *)
Definition toy_calls : list guest_call :=
  [GuestLog "hello"; GuestCapability 1500000000 (mkCapRequest "cap@1.0.0" "Read" 4 []); GuestMetric (mkUserMetric "m" (float_of_int 2) "gauge" ∅)].
Definition toy_events (h : helper_identity) : list event :=
  guest_events "http-actions@1.0.0" "consensus@1.0.0" (fun _ => Err ""%string) (fun _ => Err ""%string) (fun _ => Err ""%string) (fun b => Ok b)
    (fun _ => ""%string) (fun s => s) None None (-32602) h toy_calls.
Definition toy_guest (m sdk : bytes) (r : option unit) (h : helper_identity) (t : Z) : result wasm_error bytes * Z * list event :=
  (Ok (m ++ sdk), 1, toy_events h).

Definition toy_http : httpfetch.Fetcher := httpfetch.NewFetcherWithClient httpfetch.DefaultPolicy.
Definition toy_app : confidentialWorkflowsApp (RawFetcher := unit) :=
  set_storage (Some tt) (NewConfidentialWorkflowsApp toy_http 1).

Lemma toy_app_inv : fetcher_inv (fetcher toy_app).
Proof. apply new_inv. Qed.

(** [workflow_runs_verified_code] at an execution that succeeds. *)
Lemma workflow_runs_verified_code_witness :
  exists evs a', Execute toy_unmarshal toy_storage toy_requirements true toy_module toy_guest (fun b => Ok b) (fun _ => ""%string) (fun _ => ""%string)
    0 zero32 AppIDConfidentialWorkflows [] [] toy_app = Some (Ok (bs "wasmtrigger"), evs, a') /\ fetcher_inv (fetcher a').
Proof.
  destruct (Executions.workflow_runs_verified_code toy_unmarshal toy_storage toy_requirements true toy_module toy_guest (fun b => Ok b)
    (fun _ => ""%string) (fun _ => ""%string) 0 zero32 AppIDConfidentialWorkflows [] [] toy_app toy_app_inv) as (r & evs & a' & H & _ & Hi & _).
  { vm_compute. discriminate. }
  exists evs, a'. split; [|exact Hi].
  assert (r = Ok (bs "wasmtrigger")) as ->; [|exact H].
  assert ((fun x : option (result ExecuteError bytes * list event * confidentialWorkflowsApp) => match x with Some (r, _, _) => Some r | None => None end)
    (Execute toy_unmarshal toy_storage toy_requirements true toy_module toy_guest (fun b => Ok b) (fun _ => ""%string) (fun _ => ""%string)
    0 zero32 AppIDConfidentialWorkflows [] [] toy_app) = Some (Ok (bs "wasmtrigger"))) as E by (vm_compute; reflexivity).
  rewrite H in E. by injection E.
Defined.

(** ** Settings *)

Definition toy_settings (t : Z) : WorkflowSettings := mkSettings (bs "k") (bs "s") false (bs "g") 0 0 0 0 0 0 0 t 0 0.
Definition toy_settings_of (raw : bytes) : option WorkflowSettings :=
  Some (toy_settings (if decide (raw = bs "first") then 90 else 0)).
Definition toy_factory (g : GatewayConfig) : option dispatcher := Some (mkDispatcher g zeroConfig).
Definition toy_inject (raw : bytes) (a : confidentialWorkflowsApp (RawFetcher := unit)) :=
  InjectSettings (fun _ _ _ _ _ => Some tt) (Some toy_factory) toy_settings_of raw a.

(** [settings_take_effect] at a second injection that leaves the execution timeout
    out: the first one's stays. *)
Lemma settings_take_effect_witness :
  executionTimeout (toy_inject (bs "second") (toy_inject (bs "first") toy_app).2).2 = 90.
Proof.
  pose proof (Settings.settings_take_effect (fun _ _ _ _ _ => Some tt) (Some toy_factory) toy_settings_of (bs "second")
    (toy_inject (bs "first") toy_app).2 (toy_inject (bs "second") (toy_inject (bs "first") toy_app).2).2
    (toy_inject (bs "second") (toy_inject (bs "first") toy_app).2).1) as H.
  destruct H as (_ & H & _); [apply surjective_pairing|]. rewrite H. vm_compute. reflexivity.
Defined.

(** ** Inside the server *)

Definition toy_workflow_env : EnclaveEnv :=
  Hosted.workflow_env toy_unmarshal toy_storage toy_requirements true toy_module toy_guest (fun b => Ok b) (fun _ => ""%string) (fun _ => ""%string)
    (fun _ _ _ _ _ => Some tt) (Some toy_factory) toy_settings_of 0 Some (fun _ _ _ => None) (fun _ => Some []) (fun _ => ""%string).

Definition toy_ops : list server_op :=
  [OpSettings "POST" (Some (bs "first")); OpSetConfig "POST" (Decoded (Some toy_config))].
Definition toy_hosted := (server_run (HE := toy_workflow_env)
  (NewEnclaveServer (HE := toy_workflow_env) (NewConfidentialWorkflowsApp toy_http 1) one_key zeroConfig false) toy_ops).1.

(** [dispatcher_follows_server] when the settings arrive before the configuration. *)
Lemma dispatcher_follows_server_witness : d_config (mkDispatcher (mkGatewayConfig (bs "g") 0 0 0) toy_config) = config toy_hosted.
Proof.
  unfold toy_hosted, toy_workflow_env.
  refine (Hosted.dispatcher_follows_server toy_unmarshal toy_storage toy_requirements true toy_module toy_guest (fun b => Ok b)
    (fun _ => ""%string) (fun _ => ""%string) (fun _ _ _ _ _ => Some tt) (Some toy_factory) toy_settings_of 0 Some (fun _ _ _ => None)
    (fun _ => Some []) (fun _ => ""%string) toy_http 1 one_key zeroConfig false toy_ops
    (mkDispatcher (mkGatewayConfig (bs "g") 0 0 0) toy_config) _ _).
  - vm_compute. reflexivity.
  - vm_compute. reflexivity.
Defined.

(** ** Failures *)

Definition full_env : EnclaveEnv := {|
  World := nat;
  app_Execute := fun w _ _ _ _ _ => (w, [], Err (mkExecuteError "enclave at capacity: too many concurrent executions" StatusTooManyRequests));
  app_OnConfigUpdate := None;
  app_InjectSettings := None;
  CreateAttestation := fun w d => (w, Some d);
  OpenAnonymous := toy_Open;
  json_Marshal := fun _ => Some [];
  error_text := fun _ => ""%string;
|}.
Definition full_server : enclaveServer (HE := full_env) :=
  (handleSetConfig (HE := full_env) (NewEnclaveServer (HE := full_env) 0%nat one_key zeroConfig false) "POST" (Decoded (Some toy_config))).2.

(** [app_status_is_lost] at an application that is full: its 429 reaches the host as
    500, an internal failure. *)
Lemma app_status_is_lost_witness :
  match handleExecute (HE := full_env) (clock_at 10) full_server "POST" (Decoded toy_batch) with
  | (HttpError code (AppFailed e, _), _) =>
      ee_Code e = 429 /\ code ∈ [400; 405; 409; 500] /\ executionFailureReasonForStatus code = "internal"%string
  | _ => False
  end.
Proof.
  pose proof (fun s' code e => app_status_is_lost (HE := full_env) (clock_at 10) full_server s' "POST" (Decoded toy_batch) code e) as H.
  assert (match handleExecute (HE := full_env) (clock_at 10) full_server "POST" (Decoded toy_batch) with
          | (HttpError code (AppFailed e, _), _) => ee_Code e = 429 /\ executionFailureReasonForStatus code = "internal"%string
          | _ => False
          end) as Hw by (vm_compute; by split).
  destruct (handleExecute (HE := full_env) (clock_at 10) full_server "POST" (Decoded toy_batch)) as [[code [e m]|code r|] s']; try done.
  destruct e; try done. destruct Hw as [H1 H2]. split; [exact H1|]. split; [|exact H2].
  exact (proj1 (H s' code _ eq_refl)).
Defined.

(** ** Storage *)

Definition toy_storage_fetcher : StorageFetcher := mkStorageFetcher (bs "s") false [] 3 1.
Definition toy_download (url : bytes) : httpfetch.http_response + error :=
  inl (httpfetch.mkHttpResponse 200 ∅ (b64_encode (bs "abcdef")) false).

(** [download_bounded] at a binary of twice the maximum, which is within the slack. *)
Lemma download_bounded_witness :
  download (fun _ => true) toy_download toy_storage_fetcher (bs "u") = Ok (bs "abcdef") /\ glen (bs "abcdef") <= maxBytes toy_storage_fetcher + 3.
Proof.
  assert (download (fun _ => true) toy_download toy_storage_fetcher (bs "u") = Ok (bs "abcdef")) as H by (vm_compute; reflexivity).
  split; [exact H|].
  exact (proj1 (proj1 (download_bounded (fun _ => true) toy_download toy_storage_fetcher (bs "u") (bs "abcdef") ltac:(by vm_compute)) H)).
Defined.

Definition toy_url_Path (u : bytes) : option bytes := Some (drop 12 u).

(** [artifact_of_locator] at a registry URL. *)
Lemma artifact_of_locator_witness : artifactID toy_url_Path (bs "https://host/artifacts/0a1b/binary.wasm") = bs "0a1b".
Proof.
  rewrite (artifact_of_locator toy_url_Path (bs "https://host/artifacts/0a1b/binary.wasm") (bs "0a1b") (bs "binary.wasm")).
  - vm_compute. reflexivity.
  - by_compute.
  - by_compute.
  - by vm_compute.
  - vm_compute. reflexivity.
Defined.
