(* ===== verification/Executor.v ===== *)
(** * Executor: the capability that drives an execution

    Models [src/capabilities/framework/executor.go] and
    [src/capabilities/framework/executor_request_timeout.go]: a node of the DON reads
    the registry, picks an enclave and its key, collects the encrypted secret
    shares from the vault, signs the request, sends it through the pool and
    accepts the answer only under the DON's own membership.

    Registry, vault, keystore, limits and rate limiter are other modules: their
    answers are arguments, grouped in one record per attempt.  What the network
    answers is an argument as in the pool.  An error is its constructor; logs are left
    out.  What an execution emits is returned in order with its outcome; the metrics of
    the refresh are left out.  One call runs at a time here. *)

From Stdlib Require Import SpecFloat.
From stdpp Require Import sorting pretty.
From S2P Require Import Prelude Float Codec Order Sha256 Types Cache Emitter Observability Selector Pool.

(** ** Errors, panics and state *)

(** [caperrors.Error]: who sees a capability's error, whose fault it is, and its code. *)
Inductive visibility := VisibilityPublic | VisibilityPrivate.
Inductive origin := OriginUser | OriginSystem.
Inductive error_code := InvalidArgument | DeadlineExceededCode | Internal | OtherCode (code : Z).
Record cap_error := mkCapError { ce_visibility : visibility; ce_origin : origin; ce_code : error_code }.

Definition NewPublicUserError : error_code -> cap_error := mkCapError VisibilityPublic OriginUser.

Inductive executor_error :=
| ConfigUnparsable
| RateLimiterRefused
| RateLimitExceeded
| AccountsUnavailable
| NoAccounts
| NoCapabilityAccount
| BadAPIKeyEncoding
| NoAPIKeyDecrypted
| LocalNodeFailed
| NoWorkflowDON
| CapabilityConfigFailed
| EnclavesUndecodable
| PoolFailed (e : pool_error)
| PoolNotCreated
| VaultUnavailable
| VaultInfoFailed
| SigningFailed
| NoEnclaveKeys
| MembersNotSet
| FTooSmall (have want : Z)
| SignersMismatch
| VaultNotInitialized
| VaultPayloadFailed
| BindingUnresolved
| VaultFailed (typed : option cap_error)
| VaultUndecodable
| BadVaultPublicKey
| VaultSystemError (index : nat)
| VaultUserError (index : nat) (msg : string)
| MissingSecretID (index : nat)
| DuplicateVaultResponse (index : nat)
| NoVaultResponse (key : string)
| NoSecretData
| BadCiphertextHex
| ShareSets (n : Z)
| BadShareHex
| NoShares
| TooFewShares (want have : Z)
| NilInput
| EnclaveQuorumTimeout (e : pool_error)
| RedirectNotAllowed
| EnclaveInvalidArgument (e : pool_error)
| WasmTimedOut (e : pool_error)
| ExecuteFailed (e : pool_error)
| NoConfigs
| ConfigsDisagree
| ConfigEncodingFailed
| BroadcastFailed.

(** The typed error [errors.As] finds in the chain; the vault's own may be one. *)
Definition typed_error (e : executor_error) : option cap_error :=
  match e with
  | VaultUserError _ _ | RedirectNotAllowed | EnclaveInvalidArgument _ => Some (NewPublicUserError InvalidArgument)
  | WasmTimedOut _ => Some (NewPublicUserError DeadlineExceededCode)
  | VaultFailed typed => typed
  | _ => None
  end.

Definition user_error (e : executor_error) : bool :=
  match typed_error e with
  | Some c => match ce_origin c with OriginUser => true | OriginSystem => false end
  | None => false
  end.

(** A computation on the state [S]: a value, an error or a panic. *)
Inductive answer (A : Type) := Ret (a : A) | Raise (e : executor_error) | Crash.
Arguments Ret {A} a.
Arguments Raise {A} e.
Arguments Crash {A}.

Definition M (S A : Type) : Type := S -> answer A * S.

Definition ret {S A} (a : A) : M S A := fun s => (Ret a, s).
Definition raise {S A} (e : executor_error) : M S A := fun s => (Raise e, s).
Definition crash {S A} : M S A := fun s => (Crash, s).
Definition bind {S A B} (m : M S A) (k : A -> M S B) : M S B := fun s =>
  match m s with
  | (Ret a, s) => k a s
  | (Raise e, s) => (Raise e, s)
  | (Crash, s) => (Crash, s)
  end.
Definition get {S} : M S S := fun s => (Ret s, s).
Definition modify {S} (f : S -> S) : M S unit := fun s => (Ret tt, f s).
Definition of_result {S A} (r : result executor_error A) : M S A :=
  match r with Ok a => ret a | Err e => raise e end.

(** Run [m] and hand its error to the continuation. *)
Definition catch {S A} (m : M S A) : M S (result executor_error A) := fun s =>
  match m s with
  | (Ret a, s) => (Ret (Ok a), s)
  | (Raise e, s) => (Ret (Err e), s)
  | (Crash, s) => (Crash, s)
  end.

Notation "'do' x <- m ';' k" := (bind m (fun x => k))
  (at level 10, x name, m at level 100, k at level 200, only parsing) : cc_scope.
Notation "'do!' m ';' k" := (bind m (fun _ : unit => k))
  (at level 10, m at level 100, k at level 200, only parsing) : cc_scope.

(** ** Configuration *)

Definition DefaultMaxRetries : Z := 3.
Definition DefaultRetryBackoffSeconds : Z := 2.
Definition DefaultEnclaveRefreshIntervalSeconds : Z := 10.
Definition DefaultEnclaveRequestTimeout : Z := 30 * second.
Definition DefaultEnableSecretsCache : bool := false.

(** The job-spec fields that are still read. *)
Record Config := mkJobConfig {
  EncryptedAPIKeys : string;
  EnclaveRequestTimeoutSeconds : option Z;
  PublicKeyRequestTimeoutSeconds : option Z;
}.

(** The rates feed only the rate limiter, another module's. *)
Record ParsedConfig := mkParsed {
  pc_Config : Config;
  MaxRetries : Z;
  RetryBackoffSeconds : Z;
  EnableSecretsCache : bool;
  EnclaveRequestTimeout : Z;
  PublicKeyRequestTimeout : Z;
  EnclaveRefreshInterval : Z;
  InsecureSkipTLSVerify : bool;
  PublicKeyRetriesMax : Z;
  PublicKeyRetriesBackoff : Z;
  pc_Cache : CacheConfig;
  pc_Session : SessionConfig;
}.

(** [ParseConfig] on the decoded job spec. *)
Definition ParseConfig (capConfig : option Config) : result executor_error ParsedConfig :=
  match capConfig with
  | None => Err ConfigUnparsable
  | Some c => Ok (mkParsed c DefaultMaxRetries DefaultRetryBackoffSeconds DefaultEnableSecretsCache
      DefaultEnclaveRequestTimeout DefaultPublicKeyRequestTimeout
      (DefaultEnclaveRefreshIntervalSeconds * second) false 0 0 DefaultCacheConfig DefaultSessionConfig)
  end.

(** What the limits framework resolves. *)
Record limit_settings := mkLimits {
  ls_MaxRetries : Z;
  ls_RetryBackoff : Z;
  ls_SecretsCacheEnabled : bool;
  ls_EnclaveRequestTimeout : Z;
  ls_PublicKeyRequestTimeout : Z;
  ls_InsecureSkipTLSVerify : bool;
  ls_EnclaveRefreshInterval : Z;
  ls_PublicKeyRetriesMax : Z;
  ls_PublicKeyRetriesBackoff : Z;
  ls_PublicKeyCache : CacheConfig;
  ls_Session : SessionConfig;
}.

Definition applyLimitSettings (l : limit_settings) (parsed : ParsedConfig) : ParsedConfig :=
  mkParsed (pc_Config parsed) (ls_MaxRetries l) (Z.quot (ls_RetryBackoff l) second) (ls_SecretsCacheEnabled l)
    (ls_EnclaveRequestTimeout l) (ls_PublicKeyRequestTimeout l) (ls_EnclaveRefreshInterval l)
    (ls_InsecureSkipTLSVerify l) (ls_PublicKeyRetriesMax l) (ls_PublicKeyRetriesBackoff l)
    (ls_PublicKeyCache l) (ls_Session l).

(** [resolveRequestTimeout]: [limit] is what the limits framework answers. *)
Definition resolveRequestTimeout (cfg : option ParsedConfig) (publicKey : bool) (limit : option Z) : option Z :=
  match limit with
  | None => None
  | Some timeout =>
      let override := match cfg with
                      | Some p => if publicKey then PublicKeyRequestTimeoutSeconds (pc_Config p)
                                  else EnclaveRequestTimeoutSeconds (pc_Config p)
                      | None => None
                      end in
      match override with
      | Some seconds => Some (i64 (seconds * second))
      | None =>
          if 0 <? timeout then Some timeout
          else Some (if publicKey then DefaultPublicKeyRequestTimeout else DefaultEnclaveRequestTimeout)
      end
  end.

(** ** The executor *)

Record cachedEDKS := mkCachedEDKS {
  encryptedSecret : bytes;
  encryptedDecryptionShares : list bytes;
  rawVaultPublicKey : bytes;
}.

Record RealExecutor := mkExecutor {
  capabilityID : string;
  confidentialComputeVersion : string;
  quorumTimeoutIsUserError : bool;
  shardIndex : Z;
  initialized : bool;
  capConfig : option ParsedConfig;
  poolConfig : ParsedConfig;           (* the configuration the pool was created with *)
  apiKey : string;
  nodeID : option bytes;
  enclaveClient : enclavePool;
  enclaves : list Enclave;
  secretsCache : Cache cachedEDKS;
  vaultCapability : bool;              (* the vault capability has been found *)
  CryptographyThreshold : Z;
  proposalInFlight : bool;
  donMembers : list bytes;
  donF : Z;
}.

Definition set_capConfig (p : ParsedConfig) (x : RealExecutor) : RealExecutor :=
  mkExecutor (capabilityID x) (confidentialComputeVersion x) (quorumTimeoutIsUserError x) (shardIndex x) (initialized x) (Some p)
    (poolConfig x) (apiKey x) (nodeID x) (enclaveClient x) (enclaves x) (secretsCache x) (vaultCapability x)
    (CryptographyThreshold x) (proposalInFlight x) (donMembers x) (donF x).
Definition set_apiKey (k : string) (x : RealExecutor) : RealExecutor :=
  mkExecutor (capabilityID x) (confidentialComputeVersion x) (quorumTimeoutIsUserError x) (shardIndex x) (initialized x) (capConfig x)
    (poolConfig x) k (nodeID x) (enclaveClient x) (enclaves x) (secretsCache x) (vaultCapability x)
    (CryptographyThreshold x) (proposalInFlight x) (donMembers x) (donF x).
Definition set_nodeID (i : bytes) (x : RealExecutor) : RealExecutor :=
  mkExecutor (capabilityID x) (confidentialComputeVersion x) (quorumTimeoutIsUserError x) (shardIndex x) (initialized x) (capConfig x)
    (poolConfig x) (apiKey x) (Some i) (enclaveClient x) (enclaves x) (secretsCache x) (vaultCapability x)
    (CryptographyThreshold x) (proposalInFlight x) (donMembers x) (donF x).
Definition set_pool (p : enclavePool) (x : RealExecutor) : RealExecutor :=
  mkExecutor (capabilityID x) (confidentialComputeVersion x) (quorumTimeoutIsUserError x) (shardIndex x) (initialized x) (capConfig x)
    (poolConfig x) (apiKey x) (nodeID x) p (enclaves x) (secretsCache x) (vaultCapability x)
    (CryptographyThreshold x) (proposalInFlight x) (donMembers x) (donF x).
Definition set_enclaves (l : list Enclave) (x : RealExecutor) : RealExecutor :=
  mkExecutor (capabilityID x) (confidentialComputeVersion x) (quorumTimeoutIsUserError x) (shardIndex x) (initialized x) (capConfig x)
    (poolConfig x) (apiKey x) (nodeID x) (enclaveClient x) l (secretsCache x) (vaultCapability x)
    (CryptographyThreshold x) (proposalInFlight x) (donMembers x) (donF x).
Definition set_secretsCache (c : Cache cachedEDKS) (x : RealExecutor) : RealExecutor :=
  mkExecutor (capabilityID x) (confidentialComputeVersion x) (quorumTimeoutIsUserError x) (shardIndex x) (initialized x) (capConfig x)
    (poolConfig x) (apiKey x) (nodeID x) (enclaveClient x) (enclaves x) c (vaultCapability x)
    (CryptographyThreshold x) (proposalInFlight x) (donMembers x) (donF x).
Definition set_threshold (n : Z) (x : RealExecutor) : RealExecutor :=
  mkExecutor (capabilityID x) (confidentialComputeVersion x) (quorumTimeoutIsUserError x) (shardIndex x) (initialized x) (capConfig x)
    (poolConfig x) (apiKey x) (nodeID x) (enclaveClient x) (enclaves x) (secretsCache x) (vaultCapability x)
    n (proposalInFlight x) (donMembers x) (donF x).
Definition set_proposal (b : bool) (x : RealExecutor) : RealExecutor :=
  mkExecutor (capabilityID x) (confidentialComputeVersion x) (quorumTimeoutIsUserError x) (shardIndex x) (initialized x) (capConfig x)
    (poolConfig x) (apiKey x) (nodeID x) (enclaveClient x) (enclaves x) (secretsCache x) (vaultCapability x)
    (CryptographyThreshold x) b (donMembers x) (donF x).
Definition setDONMembership (members : list bytes) (f : Z) (x : RealExecutor) : RealExecutor :=
  mkExecutor (capabilityID x) (confidentialComputeVersion x) (quorumTimeoutIsUserError x) (shardIndex x) (initialized x) (capConfig x)
    (poolConfig x) (apiKey x) (nodeID x) (enclaveClient x) (enclaves x) (secretsCache x) (vaultCapability x)
    (CryptographyThreshold x) (proposalInFlight x) members f.

(** The fields that [initLazily] sets together once everything has succeeded. *)
Definition install (pool : enclavePool) (ns : list Enclave) (p : ParsedConfig) (threshold : Z) (x : RealExecutor) : RealExecutor :=
  mkExecutor (capabilityID x) (confidentialComputeVersion x) (quorumTimeoutIsUserError x) (shardIndex x) (initialized x) (Some p)
    p (apiKey x) (nodeID x) pool ns (secretsCache x) true threshold (proposalInFlight x) (donMembers x) (donF x).
Definition set_initialized (x : RealExecutor) : RealExecutor :=
  mkExecutor (capabilityID x) (confidentialComputeVersion x) (quorumTimeoutIsUserError x) (shardIndex x) true (capConfig x)
    (poolConfig x) (apiKey x) (nodeID x) (enclaveClient x) (enclaves x) (secretsCache x) (vaultCapability x)
    (CryptographyThreshold x) (proposalInFlight x) (donMembers x) (donF x).

(** ** What the other modules answer *)

Record Node := mkNode {
  PeerID : option bytes;
  WorkflowDON_ID : Z;
  WorkflowDON_Members : list bytes;
  WorkflowDON_F : Z;
}.

(** The capabilities registry; a capability's configuration is read and then decoded. *)
Record registry := mkRegistry {
  reg_LocalNode : option Node;
  reg_NodeByPeerID : bytes -> option Node;
  reg_ConfigForCapability : string -> Z -> option (option (list Enclave));
  reg_Vault : bool;                      (* the vault capability is registered *)
  reg_VaultInfo : option (option Z);     (* its info: the F of its DON, if it has one *)
}.

Record keystore := mkKeystore {
  ks_Accounts : option (list string);
  ks_Sign : string -> bytes -> option bytes;
  ks_Decrypt : string -> bytes -> option bytes;
}.

(** What one call of [EnsureFreshEnclaves] meets. *)
Record refresh_env := mkRefreshEnv {
  re_registry : registry;
  re_order : list Enclave -> list Enclave;
  re_nodes : bytes -> key_call;                                         (* [UpdateNodes] *)
  re_configs : bytes -> key_call;                                       (* [GetConfigs] *)
  re_timeout : bool;
  re_marshals : bool;
  (* [UpdateConfig]: an enclave's answer to a configuration and its signature *)
  re_votes : EnclaveConfig -> bytes -> bytes -> option (http_response UpdateConfigResponse);
}.

(** The owner is not used: a secret is asked for under the owner of the workflow. *)
Record SecretIdentifier := mkSecretIdentifier { si_Key : string; si_Namespace : string; si_Owner : option string }.

Record SecretRequest := mkSecretRequest {
  sr_Key : string;
  sr_Namespace : string;
  sr_Owner : string;
  sr_EncryptionKey : bytes;
}.

Record SecretShares := mkSecretShares { BinaryShares : list bytes; HexShares : list bytes }.

Record SecretData := mkSecretData {
  EncryptedValue : bytes;
  EncryptedDecryptionKeyShares_ : list SecretShares;
}.

(** One response of the vault: its identifier's key if it has an identifier, the
    error text if it is an error, the data if it has any. *)
Record SecretResponse := mkSecretResponse {
  sp_Id : option string;
  sp_Error : string;
  sp_Data : option SecretData;
}.

Definition sp_Key (r : SecretResponse) : string := default ""%string (sp_Id r).

Record GetSecretsResponse := mkGetSecretsResponse {
  RawVaultPublicKey : bytes;
  Responses : list SecretResponse;
}.

(** What the vault call of one attempt meets: two readings of the clock, the
    settings, and the vault's answer to a request: an error, which may be typed, or a response,
    which can fail to decode. *)
Record vault_env := mkVaultEnv {
  ve_lookup : Z;
  ve_store : Z;
  ve_packs : bool;
  ve_propagateOrgID : bool;
  ve_binding : option bool;
  ve_localNode : option Node;
  ve_Execute : RequestMetadata -> list SecretRequest -> result (option cap_error) (option GetSecretsResponse);
}.

Definition ErrVaultSystemErrorFallback : string := "failed to handle get secret request".
Definition ErrQuorumTimeout : string := "quorum_timeout".
Definition ErrHTTPRedirectNotAllowed : string := "redirects are not allowed".
Definition ErrEncryptionRequestedNoKey : string := "encryption requested but no AES-GCM key in secrets".
Definition ErrKeyPresentNoEncryption : string := "AES-GCM key present but encryption not requested".
Definition ErrResponseBodyTooLarge : string := "response body exceeds maximum allowed size".
Definition ErrWasmExecutionTimeout : string := "wasm execution deadline exceeded".

(** [fmt.Sprintf(authHeaderTemplate, apiKey)]. *)
Definition auth_header (key : string) : string := String.append "x-api-key: " key.

(** ** Sorting *)

Definition sortedBytesCopy : list bytes -> list bytes := sort_bytes.
Definition peerIDsToSortedBytes : list bytes -> list bytes := sort_bytes.

(** Descending by ID.  The library's sort is not stable; enclaves with equal IDs
    keep their order here. *)
Definition id_ge (a b : Enclave) : Prop := bytes_le (EnclaveID b) (EnclaveID a).

#[export] Instance id_ge_dec : RelDecision id_ge.
Proof. intros a b. unfold id_ge. apply _. Defined.

Definition sortEnclaveNodes (ns : list Enclave) : list Enclave := merge_sort id_ge ns.

Definition getVaultDONThreshold (possiblyFaultyNodes : Z) : Z := 2 * possiblyFaultyNodes + 1.

Section Executor.
Context `{HS : Sha256}.
Variables (nitro : bytes -> bytes -> bytes -> bool) (url_ok : string -> bool) (out_of_range : Z).
Variables (StandardCapabilityAccount : string) (HexToAddress_String : string -> string).

(** ** Calls of the pool *)

Definition on_pool {A} (f : ParsedConfig -> enclavePool -> outcome A * enclavePool) : M RealExecutor A := fun x =>
  match f (poolConfig x) (enclaveClient x) with
  | (Returns (Ok a), p) => (Ret a, set_pool p x)
  | (Returns (Err e), p) => (Raise (PoolFailed e), set_pool p x)
  | (Panics, p) => (Crash, set_pool p x)
  end.

Definition pool_GetPublicKeys (now : Z) (requestID : bytes) (order : list Enclave -> list Enclave) (calls : bytes -> key_call)
    : M RealExecutor (list EnclavePublicKeyData) :=
  on_pool (fun p c => GetPublicKeys nitro url_ok (pc_Cache p) (pc_Session p) (PublicKeyRetriesMax p) out_of_range
                        now c requestID None order calls).
Definition pool_UpdateNodes (ns : list Enclave) (order : list Enclave -> list Enclave) (calls : bytes -> key_call)
    : M RealExecutor unit :=
  on_pool (fun p c => UpdateNodes nitro url_ok (pc_Cache p) (pc_Session p) (PublicKeyRetriesMax p) c ns order calls).
Definition pool_GetConfigs (calls : bytes -> key_call) : M RealExecutor (list EnclaveConfig) :=
  on_pool (fun p c => GetConfigs nitro url_ok (pc_Session p) (PublicKeyRetriesMax p) c calls).
Definition pool_ExecuteBatch (timeout_ok : bool) (reqs : list SignedComputeRequest) (eIDs : list bytes) (calls : nat -> exec_call)
    : M RealExecutor (list ExecuteResponse) :=
  on_pool (fun _ c => (ExecuteBatch nitro url_ok c timeout_ok reqs eIDs calls, c)).

(** ** Signing *)

Definition capability_account (ks : keystore) : result executor_error string :=
  match ks_Accounts ks with
  | None => Err AccountsUnavailable
  | Some accounts =>
      if glen accounts =? 0 then Err NoAccounts
      else match List.find (fun a => bool_decide (a = StandardCapabilityAccount)) accounts with
      | Some acct => if bool_decide (acct = ""%string) then Err NoCapabilityAccount else Ok acct
      | None => Err NoCapabilityAccount
      end
  end.

Definition signWithCapabilityAccount (ks : keystore) (prefixedPayload : bytes) : result executor_error bytes :=
  let? acct := capability_account ks in
  match ks_Sign ks acct prefixedPayload with Some sig => Ok sig | None => Err SigningFailed end.

Definition SignComputeRequest (ks : keystore) (computeRequest : ComputeRequest) : result executor_error SignedComputeRequest :=
  let hash := ComputeRequest_Hash computeRequest in
  let prefixedHash := MakePeerIDSignatureDomainSeparatedPayload GetConfidentialComputePayloadPrefix hash in
  let? sig := signWithCapabilityAccount ks prefixedHash in
  Ok (mkSigned computeRequest sig).

(** ** Membership of the DON *)

Definition validateEnclaveSigners (x : RealExecutor) (config : EnclaveConfig) : result executor_error unit :=
  if glen (donMembers x) =? 0 then Err MembersNotSet
  else if F config <? donF x then Err (FTooSmall (F config) (donF x))
  else if bool_decide (sortedBytesCopy (Signers config) = sortedBytesCopy (donMembers x)) then Ok tt
  else Err SignersMismatch.

(** The loop over the enclaves' configurations: whether all of them already have
    the new membership. *)
Fixpoint configs_match (currentConfig : EnclaveConfig) (newMembers : list bytes) (newF : Z)
    (configs : list EnclaveConfig) (configsMatch : bool) : result executor_error bool :=
  match configs with
  | [] => Ok configsMatch
  | enclaveConfig :: rest =>
      if negb (bool_decide (cfg_MasterPublicKey enclaveConfig = cfg_MasterPublicKey currentConfig)) ||
         negb (T enclaveConfig =? T currentConfig) then Err ConfigsDisagree
      else if negb (F enclaveConfig =? newF) ||
              negb (bool_decide (sortedBytesCopy (Signers enclaveConfig) = newMembers)) then Ok false
      else configs_match currentConfig newMembers newF rest true
  end.

Definition proposed_config (currentConfig : EnclaveConfig) (newMembers : list bytes) (newF : Z) : EnclaveConfig :=
  mkConfig newMembers (cfg_MasterPublicKey currentConfig) (T currentConfig) newF.

Definition broadcast_body (ks : keystore) (env : refresh_env) (members : list bytes) (newF : Z) : M RealExecutor unit :=
  let newMembers := sortedBytesCopy members in
  do enclaveConfigs <- pool_GetConfigs (re_configs env);
  match enclaveConfigs with
  | [] => raise NoConfigs
  | currentConfig :: _ =>
      do configsMatch <- of_result (configs_match currentConfig newMembers newF enclaveConfigs false);
      if configsMatch : bool then modify (setDONMembership newMembers newF)
      else
        let newConfig := proposed_config currentConfig newMembers newF in
        if negb (re_marshals env) then raise ConfigEncodingFailed
        else
          let prefixedHash := MakePeerIDSignatureDomainSeparatedPayload GetConfidentialComputeConfigUpdatePrefix
                                (EnclaveConfig_Hash newConfig) in
          do sig <- of_result (signWithCapabilityAccount ks prefixedHash);
          do x <- get;
          match UpdateConfig nitro url_ok (enclaveClient x) (re_timeout env) (re_votes env newConfig sig) with
          | Ok _ => ret tt
          | Err _ => raise BroadcastFailed
          end
  end.

(** [proposalInFlight] is taken with a compare-and-swap and released on every path. *)
Definition broadcastConfigUpdate (ks : keystore) (env : refresh_env) (members : list bytes) (newF : Z) : M RealExecutor unit := fun x =>
  if proposalInFlight x then (Ret tt, x)
  else
    let '(r, x) := broadcast_body ks env members newF (set_proposal true x) in
    (r, set_proposal false x).

(** A failed proposal is logged; the next refresh tries again. *)
Definition proposeConfigUpdateIfMembershipChanged (ks : keystore) (env : refresh_env) (newMembers : list bytes) (newF : Z)
    : M RealExecutor unit :=
  do x <- get;
  if (0 <? glen (donMembers x)) && (newF =? donF x) && bool_decide (newMembers = donMembers x) then ret tt
  else do _r <- catch (broadcastConfigUpdate ks env newMembers newF); ret tt.

(** ** Registry *)

(** The local node, as the registry knows it now if it can tell. *)
Definition local_node (reg : registry) : option Node :=
  match reg_LocalNode reg with
  | None => None
  | Some node => Some (match PeerID node with
                       | Some id => default node (reg_NodeByPeerID reg id)
                       | None => node
                       end)
  end.

Definition getLocalNodeAndCapConfig (reg : registry) : M RealExecutor (Node * option (list Enclave)) :=
  match local_node reg with
  | None => raise LocalNodeFailed
  | Some localNode =>
      if WorkflowDON_ID localNode =? 0 then raise NoWorkflowDON
      else
        do! modify (match PeerID localNode with Some id => set_nodeID id | None => fun x => x end);
        do x <- get;
        match reg_ConfigForCapability reg (capabilityID x) (WorkflowDON_ID localNode) with
        | None => raise CapabilityConfigFailed
        | Some cfg => ret (localNode, cfg)
        end
  end.

Definition with_auth (header : string) (e : Enclave) : Enclave :=
  mkEnclave (EnclaveID e) (EnclaveURL e) (TrustedValues e) (EnclaveType e) header (EnclaveExtraData e) (Region e).

Definition GetEnclaveNodes (cfg : option (list Enclave)) (key : string) : result executor_error (list Enclave) :=
  match cfg with
  | None => Err EnclavesUndecodable
  | Some ns => Ok (if bool_decide (key = ""%string) then ns else map (with_auth (auth_header key)) ns)
  end.

Definition getVaultDONPossibleFaultyNodes (reg : registry) (localF : Z) : result executor_error Z :=
  match reg_VaultInfo reg with
  | None => Err VaultInfoFailed
  | Some None => Ok localF
  | Some (Some f) => Ok f
  end.

(** A node update that fails leaves the old nodes in use. *)
Definition EnsureFreshEnclaves (ks : keystore) (env : refresh_env) : M RealExecutor unit :=
  do lc <- getLocalNodeAndCapConfig (re_registry env);
  do x <- get;
  do! (match capConfig x with None => crash | Some _ => ret tt end);      (* nil configuration *)
  do ns <- of_result (GetEnclaveNodes lc.2 (apiKey x));
  let ns := sortEnclaveNodes ns in
  do updated <- catch (pool_UpdateNodes ns (re_order env) (re_nodes env));
  do! modify (match updated with Ok _ => set_enclaves ns | Err _ => fun x => x end);
  do faulty <- of_result (getVaultDONPossibleFaultyNodes (re_registry env) (WorkflowDON_F lc.1));
  do! modify (set_threshold (getVaultDONThreshold faulty));
  proposeConfigUpdateIfMembershipChanged ks env (peerIDsToSortedBytes (WorkflowDON_Members lc.1)) (u32 (WorkflowDON_F lc.1)).

(** ** Initialisation *)

Record init_env := mkInitEnv {
  ie_config : option Config;
  ie_limits : limit_settings;
  ie_rateLimiter : bool;
  ie_now : Z;
  ie_order : list Enclave -> list Enclave;
  ie_warmup : bytes -> key_call;
  ie_refresh : refresh_env;
}.

(** The first of the comma-separated keys that decrypts. *)
Fixpoint decrypt_api_keys (ks : keystore) (acct : string) (keys : list bytes) : result executor_error string :=
  match keys with
  | [] => Err NoAPIKeyDecrypted
  | key :: rest =>
      match hex_decode key with
      | None => Err BadAPIKeyEncoding
      | Some keyCtxt =>
          match ks_Decrypt ks acct keyCtxt with
          | Some k => Ok (string_of k)
          | None => decrypt_api_keys ks acct rest
          end
      end
  end.

Definition load_api_key (ks : keystore) (encrypted : string) : M RealExecutor unit :=
  if bool_decide (encrypted = ""%string) then ret tt
  else
    do key <- of_result (let? acct := capability_account ks in
                         decrypt_api_keys ks acct (split_on (byte_of_Z 44) (bs encrypted)));
    modify (set_apiKey key).

Definition create_pool (env : init_env) (p : ParsedConfig) (ns : list Enclave) : M RealExecutor enclavePool :=
  match NewPoolWithConfig nitro url_ok (pc_Cache p) (pc_Session p) (PublicKeyRetriesMax p) out_of_range
          (ie_now env) ns true (ie_order env) (ie_warmup env) with
  | Some (Returns (Ok pool)) => ret pool
  | Some Panics => crash
  | _ => raise PoolNotCreated
  end.

Definition initLazily (ks : keystore) (env : init_env) : M RealExecutor unit :=
  do x <- get;
  if initialized x then ret tt
  else
    do parsed <- of_result (ParseConfig (ie_config env));
    let parsedConfig := applyLimitSettings (ie_limits env) parsed in
    if negb (ie_rateLimiter env) then raise RateLimiterRefused
    else
      do! load_api_key ks (EncryptedAPIKeys (pc_Config parsedConfig));
      let reg := re_registry (ie_refresh env) in
      do lc <- getLocalNodeAndCapConfig reg;
      do x <- get;
      do ns <- of_result (GetEnclaveNodes lc.2 (apiKey x));
      let ns := sortEnclaveNodes ns in
      do pool <- create_pool env parsedConfig ns;
      if negb (reg_Vault reg) then raise VaultUnavailable
      else
        do faulty <- of_result (getVaultDONPossibleFaultyNodes reg (WorkflowDON_F lc.1));
        do! modify (install pool ns parsedConfig (getVaultDONThreshold faulty));
        do! proposeConfigUpdateIfMembershipChanged ks (ie_refresh env)
              (peerIDsToSortedBytes (WorkflowDON_Members lc.1)) (u32 (WorkflowDON_F lc.1));
        modify set_initialized.

Definition refreshLimitSettings (l : limit_settings) (x : RealExecutor) : RealExecutor :=
  match capConfig x with None => x | Some cur => set_capConfig (applyLimitSettings l cur) x end.

(** ** Selecting the enclave key *)

Record EnclaveParams := mkParams {
  ep_EnclaveID : bytes;
  ep_EnclaveEphemeralPublicKey : bytes;
}.

(** The index of the latest creation time, in microseconds; the first key when
    none is after the epoch. *)
Fixpoint most_recent (times : list Z) (i best : nat) (bestTime : Z) : nat :=
  match times with
  | [] => best
  | t :: rest =>
      let micros := i64 (t / 1000) in
      if bestTime <? micros then most_recent rest (S i) i micros else most_recent rest (S i) best bestTime
  end.

Definition getEnclaveParams (now : Z) (reqID : bytes) (order : list Enclave -> list Enclave) (calls : bytes -> key_call)
    : M RealExecutor EnclaveParams :=
  do keys <- pool_GetPublicKeys now reqID order calls;
  match keys with
  | [] => raise NoEnclaveKeys
  | selected :: _ =>
      let resp := epk_Response selected in
      if glen (pkr_PublicKeys resp) =? 0 then raise NoEnclaveKeys
      else
        do x <- get;
        do! of_result (validateEnclaveSigners x (pkr_Config resp));
        match pkr_PublicKeys resp !! most_recent (pkr_CreationTimes resp) 0 0 0 with
        | None => crash                                        (* index out of range *)
        | Some key => ret (mkParams (epk_EnclaveID selected) key)
        end
  end.

(** ** Shares from the vault *)

(** [fmt.Sprintf("%x-%s-%s-%s", ...)]. *)
Definition cache_key_data (enclaveEphemeralPublicKey : bytes) (secret : SecretIdentifier) (workflowOwner : string) : bytes :=
  hex_encode enclaveEphemeralPublicKey ++ bs "-" ++ bs (si_Key secret) ++ bs "-" ++
  bs (si_Namespace secret) ++ bs "-" ++ bs workflowOwner.

Definition generateSecretCacheKey (enclaveEphemeralPublicKey : bytes) (secret : SecretIdentifier) (workflowOwner : string) : bytes :=
  sha256 (cache_key_data enclaveEphemeralPublicKey secret workflowOwner).

(** The cached entries of all the secrets, if each has one. *)
Fixpoint lookup_all (now : Z) (cache : Cache cachedEDKS) (key : bytes) (owner : string) (secrets : list SecretIdentifier)
    : option (list cachedEDKS) :=
  match secrets with
  | [] => Some []
  | s :: rest =>
      match Get now cache (generateSecretCacheKey key s owner) with
      | None => None
      | Some entry => (fun l => entry :: l) <$> lookup_all now cache key owner rest
      end
  end.

Definition cachedPublicKeysMatch (cached : list cachedEDKS) : bool :=
  match cached with
  | [] => true
  | c0 :: _ => forallb (fun entry => bool_decide (rawVaultPublicKey entry = rawVaultPublicKey c0)) cached
  end.

Definition shares_out : Type := list bytes * list (list bytes) * bytes.

(** A batch served from the cache. *)
Definition from_cache (now : Z) (cache : Cache cachedEDKS) (key : bytes) (owner : string) (secrets : list SecretIdentifier)
    : option shares_out :=
  match lookup_all now cache key owner secrets with
  | Some (c0 :: rest) =>
      let cached := c0 :: rest in
      if cachedPublicKeysMatch cached
      then Some (map encryptedSecret cached, map encryptedDecryptionShares cached, rawVaultPublicKey c0)
      else None
  | _ => None
  end.

Definition secret_requests (key : bytes) (owner : string) (secrets : list SecretIdentifier) : list SecretRequest :=
  map (fun s => mkSecretRequest (si_Key s) (si_Namespace s) owner (hex_encode key)) secrets.

Definition applyWorkflowDONBindingToVault (env : vault_env) (md : RequestMetadata) : result executor_error RequestMetadata :=
  match ve_binding env with
  | None => Err BindingUnresolved
  | Some false => Ok md
  | Some true =>
      match ve_localNode env with
      | None => Err LocalNodeFailed
      | Some node => Ok (mkMetadata (WorkflowID md) (WorkflowExecutionID md) (WorkflowOwner md) (ReferenceID md)
                           (OrgID md) (WorkflowDON_ID node) (WorkflowName md) (WorkflowRegistryAddress md)
                           (WorkflowRegistryChainSelector md) (EngineVersion md))
      end
  end.

Definition applyPropagatedOrgIDToVault (env : vault_env) (md : RequestMetadata) : RequestMetadata :=
  if ve_propagateOrgID env then md
  else mkMetadata (WorkflowID md) (WorkflowExecutionID md) (WorkflowOwner md) (ReferenceID md) "" (WorkflowDonID md)
         (WorkflowName md) (WorkflowRegistryAddress md) (WorkflowRegistryChainSelector md) (EngineVersion md).

(** The first pass over the vault's responses. *)
Fixpoint check_responses (responseIndex : nat) (seenKeys : list string) (responses : list SecretResponse)
    : result executor_error unit :=
  match responses with
  | [] => Ok tt
  | resp :: rest =>
      if negb (bool_decide (sp_Error resp = ""%string)) then
        Err (if bool_decide (sp_Error resp = ErrVaultSystemErrorFallback) then VaultSystemError responseIndex
             else VaultUserError responseIndex (sp_Error resp))
      else if bool_decide (sp_Key resp = ""%string) then Err (MissingSecretID responseIndex)
      else if bool_decide (sp_Key resp ∈ seenKeys) then Err (DuplicateVaultResponse responseIndex)
      else check_responses (S responseIndex) (seenKeys ++ [sp_Key resp]) rest
  end.

(** The responses in the order of the requests, matched by key. *)
Fixpoint order_responses (requests : list SecretRequest) (responses : list SecretResponse)
    : result executor_error (list SecretResponse) :=
  match requests with
  | [] => Ok []
  | req :: rest =>
      match List.find (fun resp => bool_decide (sp_Key resp = sr_Key req)) responses with
      | None => Err (NoVaultResponse (sr_Key req))
      | Some resp => let? l := order_responses rest responses in Ok (resp :: l)
      end
  end.

Fixpoint decode_shares (shares : list bytes) : result executor_error (list bytes) :=
  match shares with
  | [] => Ok []
  | s :: rest =>
      match hex_decode s with
      | None => Err BadShareHex
      | Some b => let? l := decode_shares rest in Ok (b :: l)
      end
  end.

(** Ciphertext and shares of one response. *)
Definition decode_secret (minimumSharesRequired : Z) (resp : SecretResponse) : result executor_error (bytes * list bytes) :=
  match sp_Data resp with
  | None => Err NoSecretData
  | Some data =>
      match hex_decode (EncryptedValue data) with
      | None => Err BadCiphertextHex
      | Some secret =>
          match EncryptedDecryptionKeyShares_ data with
          | [shares] =>
              let? l := (if 0 <? glen (BinaryShares shares) then Ok (BinaryShares shares)
                         else if 0 <? glen (HexShares shares) then decode_shares (HexShares shares)
                         else Err NoShares) in
              if glen l <? minimumSharesRequired then Err (TooFewShares minimumSharesRequired (glen l)) else Ok (secret, l)
          | l => Err (ShareSets (glen l))
          end
      end
  end.

Fixpoint decode_secrets (minimumSharesRequired : Z) (responses : list SecretResponse)
    : result executor_error (list (bytes * list bytes)) :=
  match responses with
  | [] => Ok []
  | resp :: rest =>
      let? s := decode_secret minimumSharesRequired resp in
      let? l := decode_secrets minimumSharesRequired rest in
      Ok (s :: l)
  end.

(** What is made of the vault's response. *)
Definition read_vault_response (threshold : Z) (requests : list SecretRequest) (out : GetSecretsResponse)
    : result executor_error (list (bytes * list bytes) * bytes) :=
  let? key := (if glen (RawVaultPublicKey out) =? 0 then Ok []
               else match hex_decode (RawVaultPublicKey out) with Some k => Ok k | None => Err BadVaultPublicKey end) in
  let? _ := check_responses 0 [] (Responses out) in
  let? ordered := order_responses requests (Responses out) in
  let? decoded := decode_secrets threshold ordered in
  Ok (decoded, key).

Definition store_all (now : Z) (key : bytes) (owner : string) (vaultKey : bytes)
    (entries : list (SecretIdentifier * (bytes * list bytes))) (cache : Cache cachedEDKS) : Cache cachedEDKS :=
  fold_left (fun cache e =>
    Set_ now cache (generateSecretCacheKey key e.1 owner) (mkCachedEDKS e.2.1 e.2.2 vaultKey) None) entries cache.

(** The call of the vault: the metadata and the requests it is given, and its answer. *)
Definition ask_vault (env : vault_env) (md : RequestMetadata) (requests : list SecretRequest)
    : result executor_error GetSecretsResponse :=
  if negb (ve_packs env) then Err VaultPayloadFailed
  else
    let? md := applyWorkflowDONBindingToVault env (applyPropagatedOrgIDToVault env md) in
    match ve_Execute env md requests with
    | Err typed => Err (VaultFailed typed)
    | Ok None => Err VaultUndecodable
    | Ok (Some out) => Ok out
    end.

(** A key of fewer than eight bytes makes the first log line slice out of range. *)
Definition GetEncryptedDecryptionShares (env : vault_env) (secrets : list SecretIdentifier) (key : bytes) (md : RequestMetadata)
    : M RealExecutor shares_out :=
  if glen key <? 8 then crash
  else if glen secrets =? 0 then ret ([], [], [])
  else
    do x <- get;
    if negb (vaultCapability x) then raise VaultNotInitialized
    else match capConfig x with
    | None => crash                                            (* nil configuration *)
    | Some cfg =>
        let owner := WorkflowOwner md in
        match (if EnableSecretsCache cfg then from_cache (ve_lookup env) (secretsCache x) key owner secrets else None) with
        | Some out => ret out
        | None =>
            let requests := secret_requests key (HexToAddress_String owner) secrets in
            do out <- of_result (ask_vault env md requests);
            do decoded <- of_result (read_vault_response (CryptographyThreshold x) requests out);
            do! modify (fun x => if EnableSecretsCache cfg
                 then set_secretsCache (store_all (ve_store env) key owner decoded.2 (zip secrets decoded.1) (secretsCache x)) x
                 else x);
            ret (map fst decoded.1, map snd decoded.1, decoded.2)
        end
    end.

(** ** Retries *)

Inductive retry_out :=
| Succeeded
| UserError (e : executor_error)
| ContextDone
| Exhausted (maxRetries : Z) (errs : list executor_error)
| Panicked.

(** [n] attempts left, the [i]-th is next; [cancelled i d] tells whether the context
    ends during the wait of [d] after attempt [i]. *)
Fixpoint retry_loop {S} (maxRetries : Z) (fn : nat -> M S unit) (cancelled : nat -> Z -> bool)
    (n i : nat) (backoff : Z) (errs : list executor_error) (s : S) : retry_out * S :=
  match n with
  | O => (Exhausted maxRetries errs, s)
  | Datatypes.S n' =>
      match fn i s with
      | (Ret _, s) => (Succeeded, s)
      | (Crash, s) => (Panicked, s)
      | (Raise e, s) =>
          if user_error e then (UserError e, s)
          else if cancelled i backoff then (ContextDone, s)
          else retry_loop maxRetries fn cancelled n' (Datatypes.S i) (i64 (2 * backoff)) (errs ++ [e]) s
      end
  end.

Definition retryWithBackoff {S} (cfg : ParsedConfig) (fn : nat -> M S unit) (cancelled : nat -> Z -> bool) (s : S) : retry_out * S :=
  retry_loop (MaxRetries cfg) fn cancelled (Z.to_nat (MaxRetries cfg)) 0 (i64 (RetryBackoffSeconds cfg * second)) [] s.

(** ** Execution *)

(** The parts of an attempt whose duration is measured. *)
Inductive stage := ParamsStage | VaultStage | ExecuteStage.

(** What one attempt meets; [ae_error_text] is the text of the error of the enclave
    call, if the call fails before the enclave answers with an error status;
    [ae_elapsed] is how long each part took. *)
Record attempt_env := mkAttemptEnv {
  ae_refresh : refresh_env;
  ae_now : Z;
  ae_order : list Enclave -> list Enclave;
  ae_keys : bytes -> key_call;
  ae_vault : vault_env;
  ae_timeout : bool;
  ae_exec : nat -> exec_call;
  ae_error_text : string;
  ae_elapsed : stage -> Z;
}.

(** The variables of [Execute] that its retried closure shares, and what has been
    emitted. *)
Record exec_run := mkRun {
  xr_executor : RealExecutor;
  xr_metadata : RequestMetadata;
  xr_retryIndex : Z;
  xr_vaultDONRequestSent : bool;
  xr_responses : list ExecuteResponse;
  xr_enclaveIDStr : string;
  xr_emitted : list emission;
}.

Definition on_executor {A} (m : M RealExecutor A) : M exec_run A := fun r =>
  let '(a, x) := m (xr_executor r) in
  (a, mkRun x (xr_metadata r) (xr_retryIndex r) (xr_vaultDONRequestSent r) (xr_responses r) (xr_enclaveIDStr r) (xr_emitted r)).

Definition set_reference (id : string) (md : RequestMetadata) : RequestMetadata :=
  mkMetadata (WorkflowID md) (WorkflowExecutionID md) (WorkflowOwner md) id (OrgID md) (WorkflowDonID md)
    (WorkflowName md) (WorkflowRegistryAddress md) (WorkflowRegistryChainSelector md) (EngineVersion md).

(** [fmt.Sprintf(retryTemplate, strconv.FormatInt(n, 10))]. *)
Definition retry_reference (n : Z) : string := String.append "confidential-retry-" (pretty n).

(** A new reference for the vault, if the last attempt has used the old one. *)
Definition next_reference (r : exec_run) : exec_run :=
  if xr_vaultDONRequestSent r
  then mkRun (xr_executor r) (set_reference (retry_reference (xr_retryIndex r + 1)) (xr_metadata r))
         (xr_retryIndex r + 1) false (xr_responses r) (xr_enclaveIDStr r) (xr_emitted r)
  else mkRun (xr_executor r) (xr_metadata r) (xr_retryIndex r) false (xr_responses r) (xr_enclaveIDStr r) (xr_emitted r).
Definition mark_sent (r : exec_run) : exec_run :=
  mkRun (xr_executor r) (xr_metadata r) (xr_retryIndex r) true (xr_responses r) (xr_enclaveIDStr r) (xr_emitted r).
Definition set_responses (l : list ExecuteResponse) (r : exec_run) : exec_run :=
  mkRun (xr_executor r) (xr_metadata r) (xr_retryIndex r) (xr_vaultDONRequestSent r) l (xr_enclaveIDStr r) (xr_emitted r).
Definition set_enclaveIDStr (id : string) (r : exec_run) : exec_run :=
  mkRun (xr_executor r) (xr_metadata r) (xr_retryIndex r) (xr_vaultDONRequestSent r) (xr_responses r) id (xr_emitted r).
Definition log (l : list emission) (r : exec_run) : exec_run :=
  mkRun (xr_executor r) (xr_metadata r) (xr_retryIndex r) (xr_vaultDONRequestSent r) (xr_responses r) (xr_enclaveIDStr r)
    (xr_emitted r ++ l).

(** ** What an execution emits *)

(** The defaults of every metric of a request. *)
Definition request_scope (md : RequestMetadata) : gmap string any :=
  list_to_map [("workflow.owner"%string, AString (WorkflowOwner md)); ("workflow.id"%string, AString (WorkflowID md));
               ("workflow.name"%string, AString (WorkflowName md)); ("org.id"%string, AString (OrgID md))].

Definition metric (md : RequestMetadata) (event : string) (l : list (string * any)) : emission :=
  Metric (scoped (request_scope md) event (list_to_map l)).

Definition elapsed (d : Z) : string * any := (duration_key, AFloat (seconds_of d)).

(** A computation that emits when it fails. *)
Definition observe {A} (failed : RequestMetadata -> executor_error -> list emission) (m : M exec_run A) : M exec_run A := fun r =>
  match m r with
  | (Raise e, r') => (Raise e, log (failed (xr_metadata r') e) r')
  | out => out
  end.

(** The cache events of [GetEncryptedDecryptionShares]. *)
Definition cache_events (env : vault_env) (secrets : list SecretIdentifier) (key : bytes) (md : RequestMetadata) (x : RealExecutor)
    : list emission :=
  match capConfig x with
  | Some cfg =>
      if (8 <=? glen key) && negb (glen secrets =? 0) && vaultCapability x && EnableSecretsCache cfg then
        match from_cache (ve_lookup env) (secretsCache x) key (WorkflowOwner md) secrets with
        | Some _ => [metric md "vault_don_cache_hit" []]
        | None => [metric md "vault_don_cache_miss" []]
        end
      else []
  | None => []
  end.

(** After a failed enclave call: nothing when the user is to blame. *)
Definition execute_error_events (enclaveID : bytes) (d : Z) (md : RequestMetadata) (e : executor_error) : list emission :=
  let enclave := ("enclave.id"%string, AString (string_of (b64_encode enclaveID))) in
  match e with
  | EnclaveQuorumTimeout _ => [metric md "quorum_timeout" [enclave; ("workflow.id"%string, AString (WorkflowID md)); elapsed d]]
  | RedirectNotAllowed | EnclaveInvalidArgument _ | WasmTimedOut _ => []
  | _ => [metric md "execute_error" [enclave; elapsed d]]
  end.

(** Classification of a failed enclave call by its text. *)
Definition classify (text : string) (e : pool_error) : executor_error :=
  if contains text ErrQuorumTimeout then EnclaveQuorumTimeout e
  else if contains text ErrHTTPRedirectNotAllowed then RedirectNotAllowed
  else if contains text ErrEncryptionRequestedNoKey || contains text ErrKeyPresentNoEncryption ||
          contains text ErrResponseBodyTooLarge then EnclaveInvalidArgument e
  else if contains text ErrWasmExecutionTimeout then WasmTimedOut e
  else ExecuteFailed e.

(** The text of the error of the enclave call: one request, one goroutine. *)
Definition call_text (env : attempt_env) (e : pool_error) : string :=
  match e with
  | RequestFailed _ => execute_failed_text (ec_body (ae_exec env 0%nat))
  | _ => ae_error_text env
  end.

Definition compute_request (x : RealExecutor) (md : RequestMetadata) (input : bytes) (secrets : list SecretIdentifier)
    (params : EnclaveParams) (out : shares_out) : ComputeRequest :=
  let '(encryptedSecrets, shares, vaultKey) := out in
  mkComputeRequest (sha256 (bs (WorkflowExecutionID md))) (WorkflowExecutionID md) input encryptedSecrets
    (map si_Key secrets) shares (ep_EnclaveEphemeralPublicKey params) vaultKey (capabilityID x) (confidentialComputeVersion x).

(** Sending the signed request, with the errors by their text. *)
Definition dispatch (env : attempt_env) (signed : SignedComputeRequest) (enclaveID : bytes) : M RealExecutor (list ExecuteResponse) :=
  do r <- catch (pool_ExecuteBatch (ae_timeout env) [signed] [enclaveID] (ae_exec env));
  match r with
  | Ok l => ret l
  | Err (PoolFailed e) => raise (classify (call_text env e) e)
  | Err e => raise e
  end.

(** What one call of [Execute] meets; [ee_mentions] tells whether the text of an
    error that is not the enclave call's mentions the quorum timeout; [ee_total] is
    how long the call takes, [ee_clock] the times of the forwarded events, [ee_range]
    the order in which a legacy map of metrics is visited. *)
Record execute_env := mkExecuteEnv {
  ee_keystore : keystore;
  ee_init : init_env;
  ee_limits : limit_settings;
  ee_allow : bool;
  ee_attempt : nat -> attempt_env;
  ee_cancelled : nat -> Z -> bool;
  ee_mentions : executor_error -> bool;
  ee_total : Z;
  ee_clock : nat -> string;
  ee_range : gmap string (gmap string any) -> list (string * gmap string any);
  ee_text : pool_error -> string;
  ee_proto : workflow_event -> bool;
}.

(** The metrics of the pool for the one enclave called. *)
Definition pool_events (env : execute_env) (aenv : attempt_env) (signed : SignedComputeRequest) (enclaveID : bytes) (x : RealExecutor)
    : list emission :=
  if negb (ae_timeout aenv) then []
  else match find_nodes (nodes (enclaveClient x)) [enclaveID] with
  | Ok [enclave] => map Metric (execute_one_events nitro url_ok (ee_range env) (ee_text env) enclave signed (ae_exec aenv 0%nat))
  | _ => []
  end.

(** The retried closure of [Execute]. *)
Definition execute_attempt (env : execute_env) (protoBytes : option bytes)
    (secrets : list SecretIdentifier) (aenv : attempt_env) : M exec_run unit :=
  do! modify next_reference;
  do! on_executor (EnsureFreshEnclaves (ee_keystore env) (ae_refresh aenv));
  do r <- get;
  let reqID := sha256 (bs (WorkflowExecutionID (xr_metadata r))) in
  do params <- observe (fun md _ => [metric md "enclave_params_error" [elapsed (ae_elapsed aenv ParamsStage)]])
    (on_executor (getEnclaveParams (ae_now aenv) reqID (ae_order aenv) (ae_keys aenv)));
  do! modify (set_enclaveIDStr (string_of (hex_encode (ep_EnclaveID params))));
  do! modify mark_sent;
  let key := ep_EnclaveEphemeralPublicKey params in
  do! modify (fun r => log (cache_events (ae_vault aenv) secrets key (xr_metadata r) (xr_executor r)) r);
  do out <- observe (fun md _ => [metric md "vault_don_error" [elapsed (ae_elapsed aenv VaultStage)]])
    (on_executor (GetEncryptedDecryptionShares (ae_vault aenv) secrets key (xr_metadata r)));
  match protoBytes with
  | None => raise NilInput
  | Some input =>
      do r <- get;
      let computeReq := compute_request (xr_executor r) (xr_metadata r) input secrets params out in
      do signed <- observe (fun md _ => [metric md "compute_request_signature_error" []])
        (of_result (SignComputeRequest (ee_keystore env) computeReq));
      do! modify (fun r => log (pool_events env aenv signed (ep_EnclaveID params) (xr_executor r)) r);
      do responses <- observe (execute_error_events (ep_EnclaveID params) (ae_elapsed aenv ExecuteStage))
        (on_executor (dispatch aenv signed (ep_EnclaveID params)));
      do! modify (set_responses responses);
      match responses with
      | [] => crash                                            (* index out of range *)
      | resp :: _ => do r <- get; of_result (validateEnclaveSigners (xr_executor r) (er_Config resp))
      end
  end.

Inductive execute_out :=
| Output (output : bytes)
| Failed (e : executor_error)
| RetriesExhausted (maxRetries : Z) (errs : list executor_error)
| QuorumTimedOutUser (errs : list executor_error)
| Cancelled
| ResponseCount (n : Z)
| ExecutePanicked.

Definition mentions_timeout (other : executor_error -> bool) (e : executor_error) : bool :=
  match e with
  | EnclaveQuorumTimeout _ => true
  | RedirectNotAllowed | EnclaveInvalidArgument _ | WasmTimedOut _ | ExecuteFailed _ => false
  | e => other e
  end.

(** The classification after the retries. *)
Definition finish (env : execute_env) (o : retry_out) (r : exec_run) : execute_out :=
  let timed_out errs := quorumTimeoutIsUserError (xr_executor r) && existsb (mentions_timeout (ee_mentions env)) errs in
  match o with
  | Succeeded => match xr_responses r with [resp] => Output (er_Output resp) | l => ResponseCount (glen l) end
  | UserError e => if timed_out [e] then QuorumTimedOutUser [e] else Failed e
  | ContextDone => Cancelled
  | Exhausted n errs => if timed_out errs then QuorumTimedOutUser errs else RetriesExhausted n errs
  | Panicked => ExecutePanicked
  end.

(** What the enclave reported with the accepted response, and the completion. *)
Definition completed_events (env : execute_env) (o : execute_out) (r : exec_run) : list emission :=
  match o, xr_responses r with
  | Output _, resp :: _ =>
      let scope := WithDefaults (request_scope (xr_metadata r))
        (list_to_map [("component"%string, AString "enclave"); ("enclave.id"%string, AString (xr_enclaveIDStr r))]) in
      forward_response out_of_range (ee_proto env) (xr_metadata r) (shardIndex (xr_executor r)) scope (ee_clock env) (ee_range env)
        (er_MetricEvents resp) (er_Metrics resp) ++
      [Metric (scoped scope "requests_completed_total" ∅)]
  | _, _ => []
  end.

(** The deferred metric; a panic has left the error nil. *)
Definition total_event (env : execute_env) (md : RequestMetadata) (enclaveIDStr : string) (o : execute_out) : emission :=
  let outcome := match o with Output _ | ExecutePanicked => "success" | _ => "error" end%string in
  metric md "execute_total"
    ([elapsed (ee_total env); ("outcome"%string, AString outcome)] ++
     (if bool_decide (enclaveIDStr = ""%string) then [] else [("enclave.id"%string, AString enclaveIDStr)])).

Definition Execute_observed (env : execute_env) (protoBytes : option bytes)
    (secrets : list SecretIdentifier) (metadata : RequestMetadata) (x : RealExecutor) : execute_out * RealExecutor * list emission :=
  match initLazily (ee_keystore env) (ee_init env) x with
  | (Raise e, x) => (Failed e, x, [])
  | (Crash, x) => (ExecutePanicked, x, [])
  | (Ret _, x) =>
      let x := refreshLimitSettings (ee_limits env) x in
      if negb (ee_allow env) then
        (Failed RateLimitExceeded, x, [metric metadata "rate_limit_exceeded" []; total_event env metadata "" (Failed RateLimitExceeded)])
      else
        let received := metric metadata "requests_received_total" [] in
        match capConfig x with
        | None => (ExecutePanicked, x, [received; total_event env metadata "" ExecutePanicked])
        | Some cfg =>
            let '(o, r) := retryWithBackoff cfg
              (fun i => execute_attempt env protoBytes secrets (ee_attempt env i))
              (ee_cancelled env) (mkRun x metadata 0 false [] "" [received]) in
            let out := finish env o r in
            (out, xr_executor r, xr_emitted r ++ completed_events env out r ++ [total_event env metadata (xr_enclaveIDStr r) out])
        end
  end.

(** The result alone. *)
Definition Execute (env : execute_env) (protoBytes : option bytes)
    (secrets : list SecretIdentifier) (metadata : RequestMetadata) (x : RealExecutor) : execute_out * RealExecutor :=
  let '(out, x, _) := Execute_observed env protoBytes secrets metadata x in (out, x).

End Executor.
