(* ===== verification/ExecutorSafety.v ===== *)
(** * ExecutorSafety: what a node of the DON accepts as the result of an execution

    Inversion and framing for the executor's state-and-error monad, and the
    acceptance theorem: an output reaches the workflow only with an attested
    response to the very request this node signed, under a configuration with the
    DON's members. *)

From stdpp Require Import sorting pretty.
From S2P Require Import Prelude Codec Order Sha256 Types Cache Emitter Observability Selector Pool PoolSafety Executor.

(** ** Inverting computations *)

Lemma bind_Ret {S A B} (m : M S A) (k : A -> M S B) s b s' :
  bind m k s = (Ret b, s') <-> exists a s1, m s = (Ret a, s1) /\ k a s1 = (Ret b, s').
Proof.
  unfold bind. split.
  - destruct (m s) as [[a| |] s1]; [eauto|done..].
  - by intros (a & s1 & -> & H).
Qed.

Lemma ret_Ret {S A} (a b : A) (s s' : S) : ret a s = (Ret b, s') <-> b = a /\ s' = s.
Proof. unfold ret. split; [by intros [= -> ->]|by intros [-> ->]]. Qed.

Lemma get_Ret {S} (s a s' : S) : get s = (Ret a, s') <-> a = s /\ s' = s.
Proof. unfold get. split; [by intros [= -> ->]|by intros [-> ->]]. Qed.

Lemma modify_Ret {S} (f : S -> S) s u s' : modify f s = (Ret u, s') <-> s' = f s.
Proof. unfold modify. split; [by intros [= _ ->]|intros ->; by destruct u]. Qed.

Lemma of_result_Ret {S A} (r : result executor_error A) (s : S) a s' :
  of_result r s = (Ret a, s') <-> r = Ok a /\ s' = s.
Proof. destruct r; cbn; unfold ret, raise; split; (try by intros [= -> ->]); by intros [[= ->] ->]. Qed.

Lemma catch_Ret {S A} (m : M S A) s r s' :
  catch m s = (Ret r, s') <->
  match r with Ok a => m s = (Ret a, s') | Err e => m s = (Raise e, s') end.
Proof.
  unfold catch. destruct (m s) as [[a|e|] s1]; destruct r; split; try done; congruence.
Qed.

Lemma on_pool_Ret {A} (f : ParsedConfig -> enclavePool -> outcome A * enclavePool) x a x' :
  on_pool f x = (Ret a, x') <->
  exists p, f (poolConfig x) (enclaveClient x) = (Returns (Ok a), p) /\ x' = set_pool p x.
Proof.
  unfold on_pool. destruct (f _ _) as [[[b|e]|] p]; split; (try by intros (? & [=] & _)); try done.
  - intros [= -> <-]. eauto.
  - by intros (? & [= -> ->] & ->).
Qed.

Lemma on_executor_Ret {A} (m : M RealExecutor A) r a r' :
  on_executor m r = (Ret a, r') <->
  exists x, m (xr_executor r) = (Ret a, x) /\
    r' = mkRun x (xr_metadata r) (xr_retryIndex r) (xr_vaultDONRequestSent r) (xr_responses r) (xr_enclaveIDStr r) (xr_emitted r).
Proof.
  unfold on_executor. destruct (m _) as [b x]. split.
  - intros [= -> <-]. eauto.
  - by intros (? & [= -> ->] & ->).
Qed.

Lemma observe_Ret {A} failed (m : M exec_run A) r a r' : observe failed m r = (Ret a, r') <-> m r = (Ret a, r').
Proof. unfold observe. by destruct (m r) as [[]]. Qed.

(** Decompose a successful computation into its steps. *)
Ltac steps :=
  repeat match goal with
  | H : bind _ _ _ = (Ret _, _) |- _ => apply bind_Ret in H as (? & ? & ? & H)
  | H : ret _ _ = (Ret _, _) |- _ => apply ret_Ret in H as [? ?]
  | H : get _ = (Ret _, _) |- _ => apply get_Ret in H as [? ?]
  | H : modify _ _ = (Ret _, _) |- _ => apply modify_Ret in H
  | H : of_result _ _ = (Ret _, _) |- _ => apply of_result_Ret in H as [? ?]
  | H : observe _ _ _ = (Ret _, _) |- _ => apply observe_Ret in H
  | H : on_executor _ _ = (Ret _, _) |- _ => apply on_executor_Ret in H as (? & H & ?)
  | H : raise _ _ = (Ret _, _) |- _ => discriminate H
  | H : crash _ = (Ret _, _) |- _ => discriminate H
  end; subst; cbn [xr_executor xr_metadata xr_retryIndex xr_vaultDONRequestSent xr_responses xr_enclaveIDStr xr_emitted log set_enclaveIDStr] in *.

(** ** Framing: what a computation leaves alone, whatever its outcome *)

Definition keeps {S A V} (f : S -> V) (m : M S A) : Prop := forall s, f (m s).2 = f s.

Create HintDb keeps.

Lemma keeps_eq {S A V} (f : S -> V) (m : M S A) s r s' : keeps f m -> m s = (r, s') -> f s' = f s.
Proof. intros H E. specialize (H s). by rewrite E in H. Qed.

Lemma keeps_bind {S A B V} (f : S -> V) (m : M S A) (k : A -> M S B) :
  keeps f m -> (forall a, keeps f (k a)) -> keeps f (bind m k).
Proof.
  intros Hm Hk s. unfold bind. specialize (Hm s). destruct (m s) as [[a| |] s1]; cbn [snd] in *; [|done..].
  by rewrite Hk.
Qed.

Lemma keeps_ret {S A V} (f : S -> V) (a : A) : keeps f (ret a).
Proof. done. Qed.
Lemma keeps_raise {S A V} (f : S -> V) e : keeps f (@raise S A e).
Proof. done. Qed.
Lemma keeps_crash {S A V} (f : S -> V) : keeps f (@crash S A).
Proof. done. Qed.
Lemma keeps_get {S V} (f : S -> V) : keeps f get.
Proof. done. Qed.
Lemma keeps_modify {S V} (f : S -> V) g : (forall s, f (g s) = f s) -> keeps f (modify g).
Proof. intros H s. apply H. Qed.
Lemma keeps_of_result {S A V} (f : S -> V) (r : result executor_error A) : keeps f (of_result r).
Proof. by destruct r. Qed.
Lemma keeps_catch {S A V} (f : S -> V) (m : M S A) : keeps f m -> keeps f (catch m).
Proof. intros H s. unfold catch. specialize (H s). by destruct (m s) as [[]]. Qed.
Lemma keeps_on_pool {A V} (f : RealExecutor -> V) (g : ParsedConfig -> enclavePool -> outcome A * enclavePool) :
  (forall p x, f (set_pool p x) = f x) -> keeps f (on_pool g).
Proof. intros H x. unfold on_pool. destruct (g _ _) as [[[]|] p]; apply H. Qed.
Lemma keeps_on_executor {A V} (f : RealExecutor -> V) (m : M RealExecutor A) :
  keeps f m -> keeps (fun r => f (xr_executor r)) (on_executor m).
Proof. intros H r. unfold on_executor. specialize (H (xr_executor r)). by destruct (m _). Qed.
Lemma keeps_metadata {A} (m : M RealExecutor A) : keeps xr_metadata (on_executor m).
Proof. intros r. unfold on_executor. by destruct (m _). Qed.

Lemma keeps_observe {A V} (f : exec_run -> V) failed (m : M exec_run A) :
  (forall l r, f (log l r) = f r) -> keeps f m -> keeps f (observe failed m).
Proof. intros Hl H r. unfold observe. specialize (H r). destruct (m r) as [[a|e|] r']; cbn [snd] in *; rewrite ?Hl; done. Qed.

#[export] Hint Resolve keeps_observe keeps_bind keeps_ret keeps_raise keeps_crash keeps_get keeps_modify keeps_of_result
  keeps_catch keeps_on_pool keeps_on_executor keeps_metadata : keeps.

(** Walk through a computation. *)
Ltac keeps_tac :=
  repeat first
    [ progress intros
    | match goal with
      | |- keeps _ (match ?b with _ => _ end) => destruct b
      | |- keeps _ (let '(_, _) := ?b in _) => destruct b
      end
    | apply keeps_bind
    | solve [eauto with keeps] ].

(** ** Retries *)

(** Success comes from one attempt, on a state with the invariant of the others. *)
Lemma retry_loop_success {S} (I : S -> Prop) mx (fn : nat -> M S unit) cancelled n :
  (forall i s, I s -> I (fn i s).2) ->
  forall i b errs s s', I s -> retry_loop mx fn cancelled n i b errs s = (Succeeded, s') ->
  exists j s1, I s1 /\ fn j s1 = (Ret tt, s').
Proof.
  intros Hpres. induction n as [|n IH]; intros i b errs s s' HI; cbn [retry_loop]; [done|].
  pose proof (Hpres i s HI) as HI'. destruct (fn i s) as [[[]|e|] s1] eqn:E; cbn [snd] in HI'.
  - intros [= <-]. eauto.
  - destruct (user_error e); [done|]. destruct (cancelled i b); [done|]. by apply IH.
  - done.
Qed.

Section ExecutorSafety.
Context `{HS : Sha256}.
Variables (nitro : bytes -> bytes -> bytes -> bool) (url_ok : string -> bool) (oor : Z).
Variables (acct : string) (eth : string -> string).
Implicit Types (x : RealExecutor) (ks : keystore) (env : attempt_env) (secrets : list SecretIdentifier).

Abbreviation attempt := (execute_attempt nitro url_ok oor acct eth).
Abbreviation execute := (Execute nitro url_ok oor acct eth).

(** ** The accepted response *)

Lemma validateEnclaveSigners_Ok x c u : validateEnclaveSigners x c = Ok u ->
  donMembers x <> [] /\ Signers c ≡ₚ donMembers x /\ donF x <= F c.
Proof.
  unfold validateEnclaveSigners. destruct (glen (donMembers x) =? 0) eqn:El; [done|].
  destruct (F c <? donF x) eqn:Ef; [done|]. case_bool_decide as Es; [|done]. intros _.
  apply Z.eqb_neq in El. apply Z.ltb_ge in Ef. split_and!; [|by apply sort_bytes_eq|done]. intros E. by rewrite E in El.
Qed.

Lemma signWithCapabilityAccount_Ok ks payload sig :
  signWithCapabilityAccount acct ks payload = Ok sig -> ks_Sign ks acct payload = Some sig.
Proof.
  unfold signWithCapabilityAccount, capability_account. destruct (ks_Accounts ks) as [accounts|]; [|done].
  destruct (glen accounts =? 0); [done|]. destruct (List.find _ accounts) as [a|] eqn:Ef; [|done].
  apply List.find_some in Ef as [_ ->%bool_decide_eq_true]. case_bool_decide; [done|]. cbn [rbind].
  destruct (ks_Sign _ _ _); [by intros [= ->]|done].
Qed.

(** What an execution with this identifier, input and secrets has signed. *)
Record own_request x ks (execID : string) (input : bytes) secrets (r : SignedComputeRequest) : Prop := {
  or_id : RequestID r = sha256 (bs execID);
  or_app_id : ApplicationRequestID r = execID;
  or_input : PublicData r = input;
  or_names : CiphertextNames r = map si_Key secrets;
  or_app : AppID r = capabilityID x;
  or_version : Version r = confidentialComputeVersion x;
  or_signed : ks_Sign ks acct (compute_payload (ComputeRequest_Hash r)) = Some (Signature r);
}.

(** [out] is a response that the enclave calls of [env] received. *)
Definition received env (out : ExecuteResponse) : Prop :=
  exists j resp, ec_do (ae_exec env j) = Some resp /\ hr_json resp = Some out.

(** What the node knows about a response it accepts. *)
Definition accepted_under_membership x (r : SignedComputeRequest) (out : ExecuteResponse) : Prop :=
  (exists e, e ∈ nodes (enclaveClient x) /\ accepted nitro e r out) /\
  donMembers x <> [] /\ Signers (er_Config out) ≡ₚ donMembers x /\ donF x <= F (er_Config out).

Lemma dispatch_Ret env signed id x l x' :
  dispatch nitro url_ok env signed id x = (Ret l, x') ->
  x' = x /\ exists out e, l = [out] /\ e ∈ nodes (enclaveClient x) /\ EnclaveID e = id /\ accepted nitro e signed out /\
    received env out.
Proof.
  unfold dispatch. intros H. steps. rename x0 into r, x1 into y. apply catch_Ret in H0.
  destruct r as [l'|[]]; steps; try done. unfold pool_ExecuteBatch in H0.
  apply on_pool_Ret in H0 as (p & [= H0 <-] & ->). pose proof (fun o => batch_received _ _ _ _ _ _ _ _ o H0) as Hrec.
  apply batch_accepted in H0 as [Hl Hall].
  destruct (Hall 0%nat id eq_refl) as (e & req & out & He & Hid & [= <-] & Ho & Ha).
  destruct l' as [|o [|]]; try done. injection Ho as ->. split; [by destruct x|].
  exists out, e. split_and!; try done. apply Hrec. by left.
Qed.

Lemma SignComputeRequest_Ok ks req signed :
  SignComputeRequest acct ks req = Ok signed ->
  signed = mkSigned req (Signature signed) /\
  ks_Sign ks acct (compute_payload (ComputeRequest_Hash req)) = Some (Signature signed).
Proof.
  unfold SignComputeRequest. intros (sig & Hs & [= <-])%rbind_Ok_inv.
  split; [done|]. by apply signWithCapabilityAccount_Ok.
Qed.

Lemma next_reference_id r : WorkflowExecutionID (xr_metadata (next_reference r)) = WorkflowExecutionID (xr_metadata r).
Proof. unfold next_reference. by destruct (xr_vaultDONRequestSent r). Qed.

Lemma attempt_Ret xenv protoBytes secrets env r r' :
  attempt xenv protoBytes secrets env r = (Ret tt, r') ->
  exists input signed out, protoBytes = Some input /\ xr_responses r' = [out] /\
    own_request (xr_executor r') (ee_keystore xenv) (WorkflowExecutionID (xr_metadata r)) input secrets signed /\
    accepted_under_membership (xr_executor r') signed out /\ received env out.
Proof.
  unfold execute_attempt. intros H. steps. destruct protoBytes as [input|]; [|steps]. steps.
  match goal with Hd : dispatch _ _ _ ?sg _ _ = _ |- _ =>
    apply dispatch_Ret in Hd as [-> (out & e & -> & He & _ & Ha & Hrec)]; rename sg into signed end.
  steps. match goal with Hs : SignComputeRequest _ _ _ = Ok _ |- _ => apply SignComputeRequest_Ok in Hs as [Hsg Hk] end.
  match goal with Hv : validateEnclaveSigners _ _ = Ok _ |- _ => apply validateEnclaveSigners_Ok in Hv end.
  exists input, signed, out. split_and!; [done|done| |split; [eauto|done]|done].
  unfold compute_request in *. match goal with o : shares_out |- _ => destruct o as [[cts shares] key] end.
  cbn [xr_metadata mark_sent set_enclaveIDStr log set_responses] in *. rewrite next_reference_id in *. rewrite Hsg. by constructor.
Qed.

Lemma keeps_execution_id_metadata {A} (m : M RealExecutor A) :
  keeps (fun r => WorkflowExecutionID (xr_metadata r)) (on_executor m).
Proof. intros r. by rewrite keeps_metadata. Qed.

Lemma attempt_keeps_id xenv protoBytes secrets env :
  keeps (fun r => WorkflowExecutionID (xr_metadata r)) (attempt xenv protoBytes secrets env).
Proof.
  unfold execute_attempt. pose proof @keeps_execution_id_metadata.
  keeps_tac; apply keeps_modify; auto using next_reference_id.
Qed.

Lemma execute_Output (env : execute_env) protoBytes secrets md x output x' :
  execute env protoBytes secrets md x = (Output output, x') ->
  exists input signed out j, protoBytes = Some input /\ er_Output out = output /\
    own_request x' (ee_keystore env) (WorkflowExecutionID md) input secrets signed /\
    accepted_under_membership x' signed out /\ received (ee_attempt env j) out.
Proof.
  unfold Execute, Execute_observed. destruct (initLazily _ _ _ _ _ _ _) as [[[]| |] x1]; [|done..].
  destruct (negb _); [done|]. destruct (capConfig _) as [cfg|]; [|done].
  destruct (retryWithBackoff _ _ _ _) as [o r] eqn:E. intros [= Hf <-].
  unfold finish in Hf. destruct o; try by repeat case_match.
  apply (retry_loop_success (fun r => WorkflowExecutionID (xr_metadata r) = WorkflowExecutionID md)) in E
    as (j & r1 & <- & Ha); [| |done].
  - apply attempt_Ret in Ha as (input & signed & out & Hp & Hr & Ho & Hm & Hrec).
    rewrite Hr in Hf. injection Hf as <-. exists input, signed, out, j. eauto 10.
  - intros i s <-. apply (attempt_keeps_id _ _ _ _ s).
Qed.

(** An output that the executor hands to the workflow is the output of a
    response whose attestation validates against a measurement that the node
    trusts for an enclave of its pool, that answers the very request this node
    signed (for this execution, this input and these secrets), and whose
    configuration lists exactly the members of the DON with at least its fault
    bound. *)
Theorem output_accepted_under_membership (env : execute_env) protoBytes secrets md x output x' :
  execute env protoBytes secrets md x = (Output output, x') ->
  exists input signed out, protoBytes = Some input /\ er_Output out = output /\
    own_request x' (ee_keystore env) (WorkflowExecutionID md) input secrets signed /\
    accepted_under_membership x' signed out.
Proof. intros (input & signed & out & _ & H1 & H2 & H3 & H4 & _)%execute_Output. by exists input, signed, out. Qed.

End ExecutorSafety.
