(* ===== verification/SecretShares.v ===== *)
(** * SecretShares: the shares an executor obtains for its secrets

    What the executor makes of the vault's answers, what its secrets cache can
    confuse, and that over any history of calls the shares of a batch belong to
    the secrets it was requested for. *)

From S2P Require Import Prelude Codec Order Sha256 Types Cache Pool Observability Executor ExecutorSafety.

Section SecretShares.
Context `{HS : Sha256}.
Variable eth : string -> string.
Implicit Types (x : RealExecutor) (secrets : list SecretIdentifier).

(** ** Shares from the vault *)

Lemma check_responses_Ok resps : forall i seen u, check_responses i seen resps = Ok u ->
  NoDup (map sp_Key resps) /\ (forall k, k ∈ map sp_Key resps -> k ∉ seen).
Proof.
  induction resps as [|r resps IH]; intros i seen u; cbn [check_responses map].
  - intros _. split; [constructor|]. by intros k ?%elem_of_nil.
  - destruct (negb _); [done|]. case_bool_decide; [done|]. case_bool_decide as Hs; [done|].
    intros [Hn Hall]%IH. split.
    + constructor; [|done]. intros Hin. apply (Hall _ Hin). set_solver.
    + intros k [->|Hk]%elem_of_cons; [done|]. specialize (Hall k Hk). set_solver.
Qed.

Lemma order_responses_Ok reqs resps l : order_responses reqs resps = Ok l ->
  Forall2 (fun req resp => resp ∈ resps /\ sp_Key resp = sr_Key req) reqs l.
Proof.
  revert l. induction reqs as [|req reqs IH]; intros l; cbn [order_responses]; [by intros [= <-]|].
  destruct (List.find _ resps) as [resp|] eqn:Ef; [|done].
  intros (l' & Hl & [= <-])%rbind_Ok_inv. apply List.find_some in Ef as [Hin Hk%bool_decide_eq_true].
  constructor; [split; [by apply list_elem_of_In|done]|by apply IH].
Qed.

Lemma decode_secrets_Ok thr resps l : decode_secrets thr resps = Ok l ->
  Forall2 (fun resp d => decode_secret thr resp = Ok d) resps l.
Proof.
  revert l. induction resps as [|r resps IH]; intros l; cbn [decode_secrets]; [by intros [= <-]|].
  intros (d & Hd & (l' & Hl & [= <-])%rbind_Ok_inv)%rbind_Ok_inv. constructor; [done|by apply IH].
Qed.

Lemma decode_secret_enough thr resp ct shares : decode_secret thr resp = Ok (ct, shares) -> thr <= glen shares.
Proof.
  unfold decode_secret. destruct (sp_Data resp) as [d|]; [|done]. destruct (hex_decode _); [|done].
  destruct (EncryptedDecryptionKeyShares_ d) as [|sh [|]]; try done. intros (sl & _ & H)%rbind_Ok_inv.
  destruct (glen sl <? thr) eqn:E; [done|]. injection H as _ ->. by apply Z.ltb_ge.
Qed.

(** The vault's answer for one request: the only response with its key. *)
Definition answered_by thr (out : GetSecretsResponse) (req : SecretRequest) (d : bytes * list bytes) : Prop :=
  (exists resp, resp ∈ Responses out /\ sp_Key resp = sr_Key req /\ decode_secret thr resp = Ok d /\
     forall r, r ∈ Responses out -> sp_Key r = sr_Key req -> r = resp) /\
  thr <= glen d.2.

Lemma NoDup_map_eq {A B} (f : A -> B) (l : list A) a b :
  NoDup (map f l) -> a ∈ l -> b ∈ l -> f a = f b -> a = b.
Proof.
  induction l as [|c l IH]; cbn [map]; [by intros _ ?%elem_of_nil|].
  intros [Hc Hn]%NoDup_cons [->|Ha]%elem_of_cons [->|Hb]%elem_of_cons E; [done|..|by apply IH];
    destruct Hc; [rewrite E|rewrite <- E]; by apply list_elem_of_fmap_2.
Qed.

(** The public key that the vault's answer carries, empty if it carries none. *)
Definition vault_key (out : GetSecretsResponse) (key : bytes) : Prop :=
  RawVaultPublicKey out = [] /\ key = [] \/ hex_decode (RawVaultPublicKey out) = Some key.

Lemma vault_key_Ok out key :
  (if glen (RawVaultPublicKey out) =? 0 then Ok []
   else match hex_decode (RawVaultPublicKey out) with Some k => Ok k | None => Err BadVaultPublicKey end) = Ok key ->
  vault_key out key.
Proof.
  unfold vault_key. destruct (RawVaultPublicKey out) as [|c l]; [intros [= <-]; by left|].
  cbn [glen length]. destruct (_ =? 0) eqn:E; [apply Z.eqb_eq in E; unfold glen in E; cbn in E; lia|].
  destruct (hex_decode _); [intros [= ->]; by right|done].
Qed.

Lemma read_vault_response_Ok thr reqs out decoded key :
  read_vault_response thr reqs out = Ok (decoded, key) ->
  Forall2 (answered_by thr out) reqs decoded /\ vault_key out key.
Proof.
  unfold read_vault_response. intros (k & Hk & H)%rbind_Ok_inv. apply rbind_Ok_inv in H as (u & [Hn _]%check_responses_Ok & H).
  apply rbind_Ok_inv in H as (l & Hl%order_responses_Ok & H). apply rbind_Ok_inv in H as (d & Hd%decode_secrets_Ok & [= <- <-]).
  split; [|by apply vault_key_Ok]. clear Hk.
  revert d Hd. induction Hl as [|req resp reqs l [Hin Hk] Hl IH]; intros d Hd; [by apply Forall2_nil_inv_l in Hd as ->|].
  apply Forall2_cons_inv_l in Hd as (d0 & d' & Hd0 & Hd' & ->). constructor; [|by apply IH].
  split; [|destruct d0; by eapply decode_secret_enough]. exists resp. split_and!; try done.
  intros r Hr Hkr. apply (NoDup_map_eq sp_Key (Responses out)); [done..|congruence].
Qed.

(** ** The secrets cache *)

Definition dash : byte := byte_of_Z 45.

(** Keys and namespaces that the cache key keeps apart. *)
Definition plain (s : SecretIdentifier) : Prop := (dash ∉ bs (si_Key s)) /\ (dash ∉ bs (si_Namespace s)).

(** Identifiers of one secret; the owner they name is not used. *)
Definition same_secret (s s' : SecretIdentifier) : Prop := si_Key s = si_Key s' /\ si_Namespace s = si_Namespace s'.

Lemma dash_parse (a b x y : bytes) : dash ∉ a -> dash ∉ b -> a ++ dash :: x = b ++ dash :: y -> a = b /\ x = y.
Proof.
  revert b. induction a as [|c a IH]; intros [|d b] Ha Hb; cbn [app].
  - by intros [= ->].
  - intros [= <- _]. destruct Hb. by left.
  - intros [= -> _]. destruct Ha. by left.
  - intros [= -> E]. apply IH in E as [-> ->]; [done|..]; intros H; [apply Ha|apply Hb]; by right.
Qed.

Lemma hex_encode_plain b : dash ∉ hex_encode b.
Proof.
  assert (forall n, 0 <= n < 16 -> hex_digit n <> dash) as Hd.
  { intros n Hn E. apply (f_equal Z_of_byte) in E. unfold hex_digit, dash in E. rewrite !Z_of_byte_of_Z in E.
    destruct (n <? 10) eqn:En; dlia. }
  induction b as [|c b IH]; cbn [hex_encode]; [apply not_elem_of_nil|].
  pose proof (Z_of_byte_range c). rewrite !not_elem_of_cons. split_and!; [apply not_eq_sym, Hd; dlia..|done].
Qed.

Lemma hex_encode_inj a b : hex_encode a = hex_encode b -> a = b.
Proof. intros E. apply (f_equal hex_decode) in E. rewrite !hex_decode_encode in E. by injection E. Qed.

Lemma cache_key_binds pk s owner pk' s' owner' :
  plain s -> plain s' -> generateSecretCacheKey pk s owner = generateSecretCacheKey pk' s' owner' ->
  (pk = pk' /\ same_secret s' s /\ owner = owner') \/ collision (cache_key_data pk s owner) (cache_key_data pk' s' owner').
Proof.
  intros [Hk Hn] [Hk' Hn'] [E|?]%sha256_eq_or_collision; [left|by right].
  unfold cache_key_data in E. change (bs "-") with [dash] in E. cbn [app] in E.
  apply dash_parse in E as [->%hex_encode_inj E]; [|apply hex_encode_plain..].
  apply dash_parse in E as [Ek E]; [|done..]. apply dash_parse in E as [En Eo]; [|done..].
  apply bs_inj in Ek, En, Eo. by unfold same_secret.
Qed.

Lemma setLocked_items {V} now (c : Cache V) key v ttl k it :
  items (setLocked now c key v ttl) !! k = Some it ->
  k = key /\ Value it = v \/ items c !! k = Some it.
Proof.
  unfold setLocked. destruct (_ && _); cbn [items with_entries]; [rewrite delete_all_lookup; destruct (decide _); [done|]|];
    intros [[<- <-]|[_ ?]]%lookup_insert_Some; auto.
Qed.

(** Every entry was stored for a plain secret and satisfies [P]. *)
Definition cache_from (P : bytes -> SecretIdentifier -> string -> cachedEDKS -> Prop) (c : Cache cachedEDKS) : Prop :=
  forall k it, items c !! k = Some it ->
    exists pk s owner, plain s /\ k = generateSecretCacheKey pk s owner /\ P pk s owner (Value it).

Section SecretsCache.
Variable P : bytes -> SecretIdentifier -> string -> cachedEDKS -> Prop.
Hypothesis P_same : forall pk s s' owner e, same_secret s s' -> P pk s owner e -> P pk s' owner e.

Lemma store_all_from now pk owner vk entries : forall c,
  cache_from P c ->
  Forall (fun e : SecretIdentifier * (bytes * list bytes) => plain e.1 /\ P pk e.1 owner (mkCachedEDKS e.2.1 e.2.2 vk)) entries ->
  cache_from P (store_all now pk owner vk entries c).
Proof.
  induction entries as [|e entries IH]; intros c Hc Hall; [done|].
  apply Forall_cons in Hall as [[Hp HP] Hall]. cbn [store_all fold_left]. apply IH; [|done].
  intros k it [[-> Hv]|Hi]%setLocked_items; [|by apply Hc]. rewrite Hv. eauto 10.
Qed.

(** The entry of a secret satisfies [P] for it, or two cache keys collide. *)
Definition entry_ok pk s owner (e : cachedEDKS) : Prop :=
  P pk s owner e \/
  exists pk' s' owner', P pk' s' owner' e /\ collision (cache_key_data pk s owner) (cache_key_data pk' s' owner').

Lemma lookup_all_ok now c pk owner secrets cached :
  cache_from P c -> Forall plain secrets -> lookup_all now c pk owner secrets = Some cached ->
  Forall2 (fun s e => entry_ok pk s owner e) secrets cached.
Proof.
  intros Hc. revert cached. induction secrets as [|s secrets IH]; intros cached Hp; cbn [lookup_all]; [by intros [= <-]|].
  apply Forall_cons in Hp as [Hs Hp]. destruct (Get now c _) as [e|] eqn:Eg; [|done].
  destruct (lookup_all _ _ _ _ _) as [l|]; [|done]. intros [= <-]. constructor; [|by apply IH].
  unfold Get in Eg. destruct (items c !! _) as [it|] eqn:Ei; [|done]. destruct (expired now it); [done|].
  injection Eg as <-. destruct (Hc _ _ Ei) as (pk' & s' & owner' & Hs' & Ek & HP).
  apply cache_key_binds in Ek as [(<- & Hs0 & <-)|]; [left; by eapply P_same|right; eauto 10|done..].
Qed.

Lemma cachedPublicKeysMatch_spec c0 cached :
  cachedPublicKeysMatch (c0 :: cached) = true -> Forall (fun e => rawVaultPublicKey e = rawVaultPublicKey c0) (c0 :: cached).
Proof.
  unfold cachedPublicKeysMatch. rewrite forallb_forall. intros H. apply Forall_forall. intros e He.
  eapply bool_decide_eq_true_1, H, list_elem_of_In, He.
Qed.

Lemma entries_Forall3 pk owner vk secrets cached :
  Forall2 (fun s e => entry_ok pk s owner e) secrets cached -> Forall (fun e => rawVaultPublicKey e = vk) cached ->
  Forall3 (fun s ct sh => entry_ok pk s owner (mkCachedEDKS ct sh vk)) secrets
    (map encryptedSecret cached) (map encryptedDecryptionShares cached).
Proof.
  induction 1 as [|s e ss es He H IH]; intros Hv; [constructor|]. apply Forall_cons in Hv as [<- Hv].
  constructor; [by destruct e|by apply IH].
Qed.

Lemma from_cache_ok now c pk owner secrets cts shares vk :
  cache_from P c -> Forall plain secrets -> from_cache now c pk owner secrets = Some (cts, shares, vk) ->
  Forall3 (fun s ct sh => entry_ok pk s owner (mkCachedEDKS ct sh vk)) secrets cts shares.
Proof.
  intros Hc Hp. unfold from_cache. destruct (lookup_all _ _ _ _ _) as [[|c0 cached]|] eqn:El; try done.
  destruct (cachedPublicKeysMatch _) eqn:Em; [|done]. intros [= <- <- <-].
  apply (entries_Forall3 pk owner (rawVaultPublicKey c0) secrets (c0 :: cached)).
  - by eapply lookup_all_ok.
  - by apply cachedPublicKeysMatch_spec.
Qed.

Lemma decoded_Forall3 pk owner vk secrets decoded :
  Forall2 (fun s d => P pk s owner (mkCachedEDKS d.1 d.2 vk)) secrets decoded ->
  Forall3 (fun s ct sh => entry_ok pk s owner (mkCachedEDKS ct sh vk)) secrets (map fst decoded) (map snd decoded).
Proof. induction 1; constructor; [by left|done]. Qed.

Lemma decoded_entries pk owner vk secrets decoded :
  Forall plain secrets -> Forall2 (fun s d => P pk s owner (mkCachedEDKS d.1 d.2 vk)) secrets decoded ->
  Forall (fun e : SecretIdentifier * (bytes * list bytes) => plain e.1 /\ P pk e.1 owner (mkCachedEDKS e.2.1 e.2.2 vk))
    (zip secrets decoded).
Proof.
  intros Hp. induction 1 as [|s d ss ds Hd H IH]; cbn; [constructor|].
  apply Forall_cons in Hp as [Hs Hp]. constructor; [done|by apply IH].
Qed.

(** One call: what it returns and what it leaves in the cache satisfy [P] if what
    the vault may answer does. *)
Lemma shares_call (env : vault_env) secrets pk md x r x' :
  cache_from P (secretsCache x) -> Forall plain secrets ->
  (forall reply decoded vk, ask_vault env md (secret_requests pk (eth (WorkflowOwner md)) secrets) = Ok reply ->
     read_vault_response (CryptographyThreshold x) (secret_requests pk (eth (WorkflowOwner md)) secrets) reply = Ok (decoded, vk) ->
     Forall2 (fun s d => P pk s (WorkflowOwner md) (mkCachedEDKS d.1 d.2 vk)) secrets decoded) ->
  GetEncryptedDecryptionShares eth env secrets pk md x = (r, x') ->
  cache_from P (secretsCache x') /\
  forall cts shares vk, r = Ret (cts, shares, vk) ->
  Forall3 (fun s ct sh => entry_ok pk s (WorkflowOwner md) (mkCachedEDKS ct sh vk)) secrets cts shares.
Proof.
  intros Hc Hp Hv. unfold GetEncryptedDecryptionShares. destruct (_ <? 8); [by intros [= <- <-]|].
  destruct (glen secrets =? 0) eqn:E0.
  { intros [= <- <-]. split; [done|]. intros ??? [= <- <- <-]. destruct secrets; [constructor|done]. }
  unfold bind at 1, get. destruct (negb _); [by intros [= <- <-]|]. destruct (capConfig x) as [cfg|]; [|by intros [= <- <-]].
  destruct (if EnableSecretsCache cfg then _ else _) as [[[cts shares] vk]|] eqn:Ef.
  { intros [= <- <-]. split; [done|]. intros ??? [= <- <- <-]. destruct (EnableSecretsCache cfg); [|done].
    by eapply from_cache_ok. }
  unfold bind. destruct (ask_vault _ _ _) as [reply|] eqn:Ea; [|by intros [= <- <-]]. cbn [of_result ret].
  destruct (read_vault_response _ _ _) as [[decoded vk]|] eqn:Er; [|by intros [= <- <-]]. cbn.
  specialize (Hv _ _ _ eq_refl Er). intros [= <- <-]. split.
  - destruct (EnableSecretsCache cfg); [|done]. by apply store_all_from, decoded_entries.
  - intros ??? [= <- <- <-]. by apply decoded_Forall3.
Qed.

End SecretsCache.

(** ** Histories of vault calls *)

(** A call, with the threshold in force when it is made. *)
Record vault_call := mkVaultCall {
  vc_env : vault_env;
  vc_secrets : list SecretIdentifier;
  vc_key : bytes;
  vc_md : RequestMetadata;
  vc_threshold : Z;
}.

Definition call_vault (c : vault_call) x : answer shares_out * RealExecutor :=
  GetEncryptedDecryptionShares eth (vc_env c) (vc_secrets c) (vc_key c) (vc_md c) (set_threshold (vc_threshold c) x).

Definition requests_of (c : vault_call) : list SecretRequest :=
  secret_requests (vc_key c) (eth (WorkflowOwner (vc_md c))) (vc_secrets c).

(** In one of the calls, for this enclave key, secret and owner, the vault has
    answered with this ciphertext, these shares and this public key. *)
Definition served (calls : list vault_call) pk s owner (e : cachedEDKS) : Prop :=
  exists c reply, c ∈ calls /\ vc_key c = pk /\ WorkflowOwner (vc_md c) = owner /\ (exists s', s' ∈ vc_secrets c /\ same_secret s' s) /\
    ask_vault (vc_env c) (vc_md c) (requests_of c) = Ok reply /\ vault_key reply (rawVaultPublicKey e) /\
    answered_by (vc_threshold c) reply (mkSecretRequest (si_Key s) (si_Namespace s) (eth owner) (hex_encode pk))
      (encryptedSecret e, encryptedDecryptionShares e).

Lemma served_same calls pk s s' owner e : same_secret s s' -> served calls pk s owner e -> served calls pk s' owner e.
Proof.
  intros [Hk Hn] (c & reply & Hc & Hpk & Ho & (s0 & Hs0 & Hk0 & Hn0) & Ha & Hv & Hans). exists c, reply. rewrite Hk, Hn in Hans. split_and!; try done.
  exists s0. split; [done|]. split; congruence.
Qed.

Lemma served_now calls c reply decoded vk :
  c ∈ calls -> ask_vault (vc_env c) (vc_md c) (requests_of c) = Ok reply ->
  read_vault_response (vc_threshold c) (requests_of c) reply = Ok (decoded, vk) ->
  Forall2 (fun s d => served calls (vc_key c) s (WorkflowOwner (vc_md c)) (mkCachedEDKS d.1 d.2 vk)) (vc_secrets c) decoded.
Proof.
  intros Hc Ha [Hall Hk]%read_vault_response_Ok. unfold requests_of, secret_requests in Hall.
  apply (Forall2_fmap_l _ (answered_by (vc_threshold c) reply) (vc_secrets c) decoded) in Hall.
  apply Forall2_same_length_lookup in Hall as [Hl Hall].
  apply Forall2_same_length_lookup. split; [exact Hl|]. intros i s d Hs Hd. specialize (Hall i s d Hs Hd).
  exists c, reply. split_and!; try done; [exists s; split; [by eapply list_elem_of_lookup_2|done]|by destruct d].
Qed.

Lemma call_vault_from calls c x r x' :
  c ∈ calls -> cache_from (served calls) (secretsCache x) -> Forall plain (vc_secrets c) ->
  call_vault c x = (r, x') ->
  cache_from (served calls) (secretsCache x') /\
  forall cts shares vk, r = Ret (cts, shares, vk) ->
  Forall3 (fun s ct sh => entry_ok (served calls) (vc_key c) s (WorkflowOwner (vc_md c)) (mkCachedEDKS ct sh vk))
    (vc_secrets c) cts shares.
Proof. intros Hc Hx Hp. apply shares_call; [by apply served_same|done|done|]. intros. by eapply served_now. Qed.

Lemma run_calls_from calls : forall todo x,
  todo ⊆ calls -> Forall (fun c => Forall plain (vc_secrets c)) todo ->
  cache_from (served calls) (secretsCache x) ->
  cache_from (served calls) (secretsCache (fold_left (fun x c => (call_vault c x).2) todo x)).
Proof.
  induction todo as [|c todo IH]; intros x Hsub Hp Hx; [done|]. apply Forall_cons in Hp as [Hc Hp]. cbn [fold_left].
  destruct (call_vault c x) as [r x'] eqn:E. apply IH; [set_solver|done|].
  apply (call_vault_from calls) in E as [? _]; [done|set_solver|done..].
Qed.

(** C9 Whatever calls went before, a batch of shares lines up with the secrets it
    was requested for: each ciphertext and its shares are what the vault answered,
    now or in an earlier call, for that secret, that owner and that enclave key,
    in the only response with the secret's key and with at least the threshold of
    shares, and one vault public key covers the batch.  Keys and namespaces must
    not contain a dash; the only other possibility is a SHA-256 collision of two
    cache keys. *)
Theorem shares_line_up calls c x cts shares vk x' :
  secretsCache x = NewCache None None ->
  Forall (fun c => Forall plain (vc_secrets c)) (calls ++ [c]) ->
  call_vault c (fold_left (fun x c => (call_vault c x).2) calls x) = (Ret (cts, shares, vk), x') ->
  Forall3 (fun s ct sh => entry_ok (served (calls ++ [c])) (vc_key c) s (WorkflowOwner (vc_md c)) (mkCachedEDKS ct sh vk))
    (vc_secrets c) cts shares.
Proof.
  intros Hx [Hp Hc]%Forall_app H. apply (call_vault_from (calls ++ [c])) in H as [_ H]; [by apply H| |..].
  - set_solver.
  - apply run_calls_from; [set_solver|done|]. rewrite Hx. intros k it. unfold NewCache. by rewrite New_lookup.
  - by apply Forall_cons in Hc as [? _].
Qed.

End SecretShares.
