(* ===== verification/Membership.v ===== *)
(** * Membership: how the nodes of a DON keep their enclaves configured

    Theorems about the configuration side of the executor: the membership against
    which a node checks responses is one that every enclave of its pool has
    attested; nodes that see the same DON propose the same configuration; and
    nodes that list the same enclaves order them alike, so that they pick the
    same one for a request. *)

From stdpp Require Import sorting.
From S2P Require Import Prelude Codec Order Sha256 Types Cache Selector Pool PoolSafety Observability Executor ExecutorSafety SecretShares.

Section Membership.
Context `{HS : Sha256}.
Variables (nitro : bytes -> bytes -> bytes -> bool) (url_ok : string -> bool) (acct : string).
Implicit Types (x : RealExecutor) (ks : keystore) (env : refresh_env).

(** ** Configurations read from the enclaves *)

Lemma get_configs_Ok sc retries l calls : forall c cfgs c',
  get_configs nitro url_ok sc retries c l calls = (Returns (Ok cfgs), c') ->
  Forall2 (fun e cfg => exists data, valid_keys nitro e data /\ pkr_Config (epk_Response data) = cfg) l cfgs /\
  nodes c' = nodes c.
Proof.
  induction l as [|e l IH]; intros c cfgs c'; cbn [get_configs]; [by intros [= <- <-]|].
  destruct (getSingleEnclavePublicKey _ _ _ _ _ _ _) as [[r|] c1] eqn:Ef; [|done].
  pose proof (fetch_frame _ _ _ _ _ _ _ _ _ Ef) as (Hn & _).
  destruct (get_configs _ _ _ _ c1 l calls) as [[rs|] c2] eqn:Eg; [|done].
  destruct r as [data|]; [|done]. cbn [rbind]. destruct rs as [cfgs'|]; [|done]. cbn [rbind]. intros [= <- <-].
  apply IH in Eg as [Hall Hn']. apply fetch_Ok in Ef. split; [|congruence]. constructor; eauto.
Qed.

Lemma configs_match_Ok cur members f cfgs : forall b, configs_match cur members f cfgs b = Ok true ->
  Forall (fun c => F c = f /\ sort_bytes (Signers c) = members) cfgs.
Proof.
  induction cfgs as [|c cfgs IH]; intros b; cbn [configs_match]; [constructor|].
  destruct (_ || _); [done|]. destruct (negb (F c =? f) || _) eqn:E; [done|].
  apply orb_false_iff in E as [Ef%negb_false_iff Es%negb_false_iff]. intros H%IH. constructor; [|done].
  apply Z.eqb_eq in Ef. by apply bool_decide_eq_true in Es.
Qed.

(** Every enclave of the pool has attested a configuration with this membership. *)
Definition attested_membership x (members : list bytes) (f : Z) : Prop :=
  nodes (enclaveClient x) <> [] /\
  forall e, e ∈ nodes (enclaveClient x) -> exists data, valid_keys nitro e data /\
    Signers (pkr_Config (epk_Response data)) ≡ₚ members /\ F (pkr_Config (epk_Response data)) = f.

Definition membership x : list bytes * Z := (donMembers x, donF x).

(** The membership is as it was, or it is [members] and [f] as every enclave has
    attested. *)
Definition baseline_step (members : list bytes) (f : Z) x x' : Prop :=
  membership x' = membership x \/
  membership x' = (sort_bytes members, f) /\ attested_membership x' members f.

Lemma broadcast_body_baseline ks env members f x r x' :
  broadcast_body nitro url_ok acct ks env members f x = (r, x') -> baseline_step members f x x'.
Proof.
  unfold broadcast_body. unfold bind at 1.
  destruct (pool_GetConfigs _ _ _ x) as [[cfgs|e|] x1] eqn:Eg.
  2, 3: intros [= <- <-]; left; eapply keeps_eq; [by apply keeps_on_pool|exact Eg].
  unfold pool_GetConfigs in Eg. apply on_pool_Ret in Eg as (p & Eg & ->). unfold GetConfigs in Eg. destruct (glen _ =? 0) eqn:El; [done|].
  apply get_configs_Ok in Eg as [Hall Hn]. destruct cfgs as [|cur cfgs]; [intros [= <- <-]; by left|].
  unfold bind at 1. destruct (configs_match _ _ _ _ _) as [[]|] eqn:Em; cbn [of_result ret].
  - intros [= <- <-]. right. split; [done|]. unfold attested_membership. cbn. rewrite Hn. split; [by intros E; rewrite E in El|].
    intros e He. apply configs_match_Ok in Em. apply list_elem_of_lookup in He as [i Hi].
    destruct (Forall2_lookup_l _ _ _ _ _ Hall Hi) as (c & Hc & data & Hv & <-).
    apply (Forall_lookup_1 _ _ _ _ Em) in Hc as [HF Hs]. exists data. split_and!; [done| |done]. by apply sort_bytes_eq.
  - intros H. left. destruct (negb _); [by injection H as _ <-|].
    destruct (signWithCapabilityAccount _ _ _); cbn in H; [|by injection H as _ <-].
    destruct (UpdateConfig _ _ _ _ _); by injection H as _ <-.
  - intros [= <- <-]. by left.
Qed.

Lemma broadcast_baseline ks env members f x r x' :
  broadcastConfigUpdate nitro url_ok acct ks env members f x = (r, x') -> baseline_step members f x x'.
Proof.
  unfold broadcastConfigUpdate. destruct (proposalInFlight x); [intros [= <- <-]; by left|].
  destruct (broadcast_body _ _ _ _ _ _ _ _) as [r1 x1] eqn:E. intros [= <- <-].
  by apply broadcast_body_baseline in E.
Qed.

Lemma propose_baseline ks env members f x r x' :
  proposeConfigUpdateIfMembershipChanged nitro url_ok acct ks env members f x = (r, x') -> baseline_step members f x x'.
Proof.
  unfold proposeConfigUpdateIfMembershipChanged. unfold bind, get, catch.
  destruct (_ && _); [intros [= <- <-]; by left|].
  destruct (broadcastConfigUpdate _ _ _ _ _ _ _ _) as [[] x1] eqn:E; intros [= <- <-]; by eapply broadcast_baseline.
Qed.

Lemma bind_cases {S A B} (m : M S A) (k : A -> M S B) s r s' :
  bind m k s = (r, s') -> (exists a s1, m s = (Ret a, s1) /\ k a s1 = (r, s')) \/ (m s).2 = s'.
Proof. unfold bind. destruct (m s) as [[a|e|] s1]; [eauto|intros [= _ <-]; by right..]. Qed.

(** A part that keeps the membership in front of the rest. *)
Lemma baseline_bind {A B} (m : M RealExecutor A) (k : A -> M RealExecutor B) members f x r x' :
  keeps membership m ->
  (forall a x1 r x', k a x1 = (r, x') -> baseline_step members f x1 x') ->
  bind m k x = (r, x') -> baseline_step members f x x'.
Proof.
  intros Hm Hk [(a & x1 & E & H)|<-]%bind_cases; [|left; apply Hm].
  apply (keeps_eq membership) in E; [|done]. unfold baseline_step. rewrite <- E. by eapply Hk.
Qed.

Lemma getLocal_keeps reg : keeps membership (getLocalNodeAndCapConfig reg).
Proof.
  unfold getLocalNodeAndCapConfig. destruct (local_node reg) as [n|]; [|done]. destruct (_ =? 0); [done|].
  apply keeps_bind; [apply keeps_modify; by destruct (PeerID n)|]. intros _. apply keeps_bind; [done|].
  intros x. by destruct (reg_ConfigForCapability _ _ _).
Qed.

Lemma getLocal_node reg x lc x' : getLocalNodeAndCapConfig reg x = (Ret lc, x') -> local_node reg = Some lc.1.
Proof.
  unfold getLocalNodeAndCapConfig. destruct (local_node reg) as [n|]; [|done]. destruct (_ =? 0); [done|].
  intros H. steps. destruct (reg_ConfigForCapability _ _ _); steps. done.
Qed.

(** C18 The membership that a node checks responses against changes only to the
    registry's current members and fault bound, and only when every enclave of the
    node's pool, at least one, has attested a configuration with exactly these
    signers and this bound; this holds on every path of a refresh, errors
    included. *)
Theorem baseline_attested ks env x r x' :
  EnsureFreshEnclaves nitro url_ok acct ks env x = (r, x') ->
  membership x' = membership x \/
  exists local, local_node (re_registry env) = Some local /\
    membership x' = (sort_bytes (WorkflowDON_Members local), u32 (WorkflowDON_F local)) /\
    attested_membership x' (WorkflowDON_Members local) (u32 (WorkflowDON_F local)).
Proof.
  unfold EnsureFreshEnclaves. intros [(lc & x1 & El & H)|<-]%bind_cases; [|left; apply getLocal_keeps].
  pose proof (keeps_eq membership _ _ _ _ (getLocal_keeps _) El) as E.
  apply getLocal_node in El. rewrite <- E. clear E.
  cut (baseline_step (WorkflowDON_Members lc.1) (u32 (WorkflowDON_F lc.1)) x1 x'); [intros [?|?]; eauto|].
  revert H. apply baseline_bind; [done|]. intros y x2 r2 x2'.
  apply baseline_bind; [by destruct (capConfig y)|]. intros [] x8 r8 x8'.
  apply baseline_bind; [apply keeps_of_result|]. intros ns x3 r3 x3'.
  apply baseline_bind; [by apply keeps_catch, keeps_on_pool|]. intros up x4 r4 x4'.
  apply baseline_bind; [by apply keeps_modify; destruct up|]. intros [] x5 r5 x5'.
  apply baseline_bind; [apply keeps_of_result|]. intros faulty x6 r6 x6'.
  apply baseline_bind; [by apply keeps_modify|]. intros [] x7 r7 x7' H.
  apply propose_baseline in H. unfold peerIDsToSortedBytes, baseline_step, attested_membership in *.
  rewrite sort_bytes_idemp in H. destruct H as [?|(? & ? & H)]; [by left|right].
  split_and!; try done. intros e He. destruct (H e He) as (data & ? & Hs & ?). exists data. by rewrite sort_bytes_perm in Hs.
Qed.

(** ** The order of the enclaves *)

#[local] Instance id_ge_total : Total id_ge.
Proof. intros a b. apply bytes_le_total. Qed.
#[local] Instance id_ge_trans : Transitive id_ge.
Proof. intros a b c Hab Hbc. unfold id_ge in *. by etrans. Qed.

Lemma sortEnclaveNodes_perm (ns : list Enclave) : sortEnclaveNodes ns ≡ₚ ns.
Proof. apply merge_sort_Permutation. Qed.

(** Enclaves with different IDs have one order. *)
Lemma sortEnclaveNodes_unique (ns ns' : list Enclave) :
  ns ≡ₚ ns' -> NoDup (map EnclaveID ns) -> sortEnclaveNodes ns = sortEnclaveNodes ns'.
Proof.
  intros Hp Hnd. apply (StronglySorted_unique_strong id_ge); [|apply (StronglySorted_merge_sort id_ge)..|].
  - intros a b Ha Hb Hab Hba. rewrite sortEnclaveNodes_perm in Ha. rewrite sortEnclaveNodes_perm, <- Hp in Hb.
    apply (NoDup_map_eq EnclaveID ns); [done..|]. by apply (anti_symm bytes_le).
  - by rewrite !sortEnclaveNodes_perm.
Qed.

(** C15 Nodes of a DON converge on one enclave per request: however two nodes'
    registries order the same enclaves, with distinct IDs, the enclave one node
    selects after sorting them is the enclave the other selects, if that node
    takes it for live and does not take for live what the first takes for dead. *)
Theorem nodes_pick_same_enclave (ns ns' : list Enclave) (dead dead' : gset bytes) (requestID : bytes)
    (check : option (Enclave -> bool)) (e : Enclave) :
  ns ≡ₚ ns' -> NoDup (map EnclaveID ns) ->
  SelectEnclaves dead (sortEnclaveNodes ns) requestID check = Ok [e] ->
  EnclaveID e ∉ dead' ->
  (forall o : Enclave, o ∈ ns -> EnclaveID o ∈ dead -> EnclaveID o ∈ dead') ->
  SelectEnclaves dead' (sortEnclaveNodes ns') requestID check = Ok [e].
Proof.
  intros Hp Hnd Hsel He Hsub. rewrite <- (sortEnclaveNodes_unique ns ns') by done.
  apply SelectEnclaves_Ok in Hsel as (e' & before & after & [= <-] & Hr & Hlive & Hb).
  apply SelectEnclaves_Ok. exists e, before, after. split_and!; [done..|].
  intros x Hx. apply Hsub; [|by apply Hb].
  rewrite <- (sortEnclaveNodes_perm ns). apply (matching_sub check).
  rewrite <- (rotate_perm (matching check _)), Hr. apply elem_of_app. by left.
Qed.

End Membership.
