(* ===== verification/Reconfiguration.v ===== *)
(** * Reconfiguration: a DON can move its enclaves to a new membership

    Executor and enclave together.  The executors of a DON build their proposals
    from the configuration the enclave reports and the members the registry lists,
    in whatever order; [handleUpdateConfig] of the enclave counts their votes. *)

From S2P Require Import Prelude Codec Order Sha256 Types Cache Keychain Services Emitter Server ServerSafety ServerConfig Pool Observability Executor.

Section Reconfiguration.
Context `{HS : Sha256} `{HE : EnclaveEnv} `{HT : TDH2}
  {verified : bytes -> bytes -> bytes -> bool} `{HV : !SignatureVerifier verified}.
Implicit Types (s : enclaveServer).

(** A node's vote: when it arrives, the members as the node lists them, its
    signature and its key. *)
Record member_vote := mkMemberVote {
  mv_now : Z;
  mv_members : list bytes;
  mv_signature : bytes;
  mv_signer : bytes;
}.

Definition cast (cfg : EnclaveConfig) (f : Z) s (v : member_vote) : enclaveServer :=
  (handleUpdateConfig (mv_now v) s
     (Decoded (Some (proposed_config cfg (sortedBytesCopy (mv_members v)) f), mv_signature v))).2.

(** Each vote comes within the lifetime of the one before. *)
Fixpoint spaced (t : Z) (votes : list member_vote) : Prop :=
  match votes with
  | [] => True
  | v :: rest => time_sub (mv_now v) t <= ConfigVoteTTL /\ spaced (mv_now v) rest
  end.

Lemma vote_counts now s c sig signer :
  configSet s = true ->
  VerifySignature (config_payload (EnclaveConfig_Hash c)) sig (Signers (config s)) = Ok signer ->
  EnclaveConfig_Hash c <> EnclaveConfig_Hash (config s) ->
  let s' := (handleUpdateConfig now s (Decoded (Some c, sig))).2 in
  let votes := votes_with now s (EnclaveConfig_Hash c) signer in
  configSet s' = true /\
  if Z.of_nat (size votes) <? F (config s) + 1
  then config s' = config s /\ pendingConfigVotes s' = Set_ now (pendingConfigVotes s) (EnclaveConfig_Hash c) votes None
  else config s' = c.
Proof.
  intros Hcs Hv Hne. unfold handleUpdateConfig. rewrite Hcs, Hv. cbn [negb]. rewrite decide_False by done.
  fold (votes_with now s (EnclaveConfig_Hash c) signer). destruct (_ <? _); [done|].
  match goal with |- context [notify_app ?s0 ?c] => destruct (notify_frame s0 c) as (_ & N1 & _ & N2 & _) end.
  match goal with |- context [attest ?s0 ?d] =>
    destruct (attest_frame s0 d) as (_ & H1 & _ & H2 & _); destruct (attest s0 d) as [[att|] s1] end;
    simpl in *; by rewrite H1, H2, N1, N2.
Qed.

(** Votes for the configuration in force leave it in force. *)
Lemma vote_for_current now s sig : config (handleUpdateConfig now s (Decoded (Some (config s), sig))).2 = config s.
Proof.
  destruct (handleUpdateConfig_cases now s (Decoded (Some (config s), sig))) as (_ & _ & [[H _]|(c & sg & sn & [= <- <-] & _ & _ & H)]);
    [done|]. by destruct H as [(_ & H & _)|(_ & H & _)].
Qed.

Section Votes.
Variables (cfg : EnclaveConfig) (f : Z) (members : list bytes).


Definition new_config : EnclaveConfig := proposed_config cfg (sortedBytesCopy members) f.

Lemma same_proposal (v : member_vote) : mv_members v ≡ₚ members ->
  proposed_config cfg (sortedBytesCopy (mv_members v)) f = new_config.
Proof. intros H. unfold new_config, sortedBytesCopy. by rewrite (sort_bytes_unique _ _ H). Qed.

Lemma votes_after (votes : list member_vote) : forall s,
  Forall (fun v => mv_members v ≡ₚ members) votes -> config s = new_config ->
  config (fold_left (cast cfg f) votes s) = new_config.
Proof.
  induction votes as [|v votes IH]; intros s Hall Hs; [done|]. apply Forall_cons in Hall as [Hv Hall].
  cbn [fold_left]. apply IH; [done|]. unfold cast. rewrite same_proposal, <- Hs by done. by rewrite vote_for_current.
Qed.

(** The votes of [done] are on record since [t]. *)
Definition recorded s (t : Z) (done : list bytes) : Prop :=
  done = [] \/ exists it, items (pendingConfigVotes s) !! EnclaveConfig_Hash new_config = Some it /\
    CreationTime it = t /\ TimeToLive it = ConfigVoteTTL /\ list_to_set (map sha256 done) ⊆ Value it.

Lemma recorded_votes now s t done signer :
  recorded s t done -> time_sub now t <= ConfigVoteTTL ->
  list_to_set (map sha256 (signer :: done)) ⊆ votes_with now s (EnclaveConfig_Hash new_config) signer.
Proof.
  unfold votes_with. intros [->|(it & Hi & Ht & Hl & Hsub)] Hnow; cbn [map list_to_set]; [set_solver|].
  unfold Get, expired. rewrite Hi, Ht, Hl. rewrite (proj2 (Z.ltb_ge _ _)) by done. cbn. set_solver.
Qed.

(** The enclave is still on [cfg] and counts votes. *)
Record counting s (t : Z) (done : list bytes) : Prop := {
  ct_config : config s = cfg;
  ct_set : configSet s = true;
  ct_cache : cache_inv (pendingConfigVotes s);
  ct_ttl : timeToLive (pendingConfigVotes s) = ConfigVoteTTL;
  ct_recorded : recorded s t done;
  ct_open : glen done < F cfg + 1;
}.

(** A valid vote of a member for the new configuration. *)
Definition valid_vote (v : member_vote) : Prop :=
  mv_members v ≡ₚ members /\
  VerifySignature (config_payload (EnclaveConfig_Hash new_config)) (mv_signature v) (Signers cfg) = Ok (mv_signer v).

Lemma one_vote s t done v :
  EnclaveConfig_Hash new_config <> EnclaveConfig_Hash cfg ->
  counting s t done -> time_sub (mv_now v) t <= ConfigVoteTTL -> valid_vote v -> NoDup (map sha256 (mv_signer v :: done)) ->
  config (cast cfg f s v) = new_config \/ counting (cast cfg f s v) (mv_now v) (mv_signer v :: done).
Proof.
  intros Hne [Hc Hcs Hinv Httl Hrec _] Hnow [Hm Hver] Hnd. unfold cast. rewrite same_proposal by done.
  pose proof (recorded_votes (mv_now v) s t done (mv_signer v) Hrec Hnow) as Hsub.
  destruct (vote_counts (mv_now v) s new_config (mv_signature v) (mv_signer v)) as [Hcs' H]; [done|by rewrite Hc|by rewrite Hc|].
  revert H Hsub. generalize (votes_with (mv_now v) s (EnclaveConfig_Hash new_config) (mv_signer v)) as votes. intros votes H Hsub.
  destruct (Z.ltb_spec (Z.of_nat (size votes)) (F (config s) + 1)) as [Hlt|]; [right|by left].
  destruct H as [Hcfg Hp]. pose proof (subseteq_size _ _ Hsub) as Hsize. rewrite size_list_to_set in Hsize by done.
  rewrite length_map in Hsize. rewrite Hc in *. split; rewrite ?Hp; [done|done|by apply setLocked_inv| | |unfold glen; lia].
  - unfold Set_. by rewrite setLocked_ttl.
  - right. rewrite Hp. unfold Set_. rewrite setLocked_lookup, decide_True by done. eexists. split; [done|]. by rewrite Httl.
Qed.

Lemma run_votes votes : forall s t done,
  EnclaveConfig_Hash new_config <> EnclaveConfig_Hash cfg ->
  counting s t done -> spaced t votes -> Forall valid_vote votes ->
  NoDup (map sha256 (rev (map mv_signer votes) ++ done)) -> F cfg + 1 <= glen done + glen votes ->
  config (fold_left (cast cfg f) votes s) = new_config.
Proof.
  induction votes as [|v votes IH]; intros s t done Hne Hcount Hsp Hall Hnd Hlen.
  { destruct Hcount. rewrite glen_nil in Hlen. lia. }
  destruct Hsp as [Hnow Hsp]. apply Forall_cons in Hall as [Hv Hall]. cbn [map rev] in Hnd. rewrite <- app_assoc in Hnd.
  cbn [fold_left]. destruct (one_vote s t done v) as [Hn|Hn]; try done.
  - rewrite map_app in Hnd. by apply NoDup_app in Hnd as (_ & _ & ?).
  - apply votes_after; [|done]. eapply Forall_impl; [exact Hall|]. by intros ? [? _].
  - eapply IH; try done. rewrite glen_cons in Hlen. rewrite glen_cons. lia.
Qed.

End Votes.

(** All votes come within the window that the first one opens. *)
Definition in_window (v0 : member_vote) (votes : list member_vote) : Prop :=
  Forall (fun v => mv_now v0 <= mv_now v <= mv_now v0 + ConfigVoteTTL) votes.

Lemma window_spaced v0 votes : in_window v0 votes -> forall t, mv_now v0 <= t -> spaced t votes.
Proof.
  unfold in_window. induction 1 as [|v votes Hv Hall IH]; intros t Ht; [done|]. split; [|apply IH; lia].
  unfold time_sub, min_duration, max_duration. assert (0 <= ConfigVoteTTL) by by_compute. lia.
Qed.

(** C25 A DON can reconfigure its enclave: once F+1 distinct signers of the
    configuration in force have each sent their vote for the new membership, all within
    the ten minutes that the first vote opens, the enclave runs the new
    configuration, although the nodes list the members in different orders and
    whatever votes were pending before; the exception is a SHA-256 collision of
    two signers' keys. *)
Theorem reconfiguration_completes s f members votes v0 :
  configSet s = true -> cache_inv (pendingConfigVotes s) -> timeToLive (pendingConfigVotes s) = ConfigVoteTTL ->
  0 <= F (config s) -> EnclaveConfig_Hash (new_config (config s) f members) <> EnclaveConfig_Hash (config s) ->
  Forall (valid_vote (config s) f members) (v0 :: votes) -> NoDup (map mv_signer (v0 :: votes)) -> in_window v0 votes ->
  F (config s) + 1 <= glen (v0 :: votes) ->
  config (fold_left (cast (config s) f) (v0 :: votes) s) = new_config (config s) f members \/
  exists p q, p ∈ map mv_signer (v0 :: votes) /\ q ∈ map mv_signer (v0 :: votes) /\ collision p q.
Proof.
  intros Hcs Hinv Httl HF Hne Hall Hnd Hwin Hlen. pose proof (window_spaced v0 votes Hwin (mv_now v0) (Z.le_refl _)) as Hsp.
  destruct (hashes_distinct (map mv_signer (v0 :: votes)) Hnd) as [?|Hh]; [by right|left].
  eapply (run_votes _ _ _ _ s (mv_now v0) []); try done.
  - split; try done; [by left|rewrite glen_nil; lia].
  - split; [|done]. unfold time_sub, ConfigVoteTTL. rewrite Z.sub_diag. by_compute.
  - rewrite app_nil_r, map_rev, <- Permutation_rev. done.
Qed.

End Reconfiguration.
