(* ===== verification/System.v ===== *)
(** * System: a DON and its enclaves together

    The executor of a node ([Executor]), the pool through which it reaches the
    enclaves ([Pool]) and the enclave server ([Server]) in one theorem: what the
    workflow receives was computed by the application inside an enclave, on the
    request this node signed, with the backing of an honest member of the DON. *)

From S2P Require Import Prelude Codec Order Sha256 Types Cache Keychain Services Emitter Server ServerSafety.
From S2P Require Import Selector Pool PoolSafety Observability Executor ExecutorSafety.

Section System.
Context `{HS : Sha256} `{HE : EnclaveEnv} `{HT : TDH2}
  {verified : bytes -> bytes -> bytes -> bool} `{HV : !SignatureVerifier verified}.
Variables (nitro : bytes -> bytes -> bytes -> bool) (url_ok : string -> bool) (oor : Z).
Variables (acct : string) (eth : string -> string).
Implicit Types (x : RealExecutor).

(** The states the servers of the enclaves can be in. *)
Variable running : enclaveServer -> Prop.

(** [r] is a response of the execute handler to a batch of well-formed requests. *)
Definition server_response (r : ExecuteResponse) : Prop :=
  exists clk s meth reqs code s', running s /\ handleExecute clk s meth (Decoded reqs) = (HttpOK code r, s') /\
    Forall (fun q : SignedComputeRequest => ComputeRequest_ok q) reqs.

(** Attestation: [genuine m v] says that an enclave with measurement [m] had [v]
    attested.  A document that validates carries such a value, and the enclaves
    run the server: the execution responses among these values are the execute
    handler's. *)
Variable genuine : bytes -> hashed -> Prop.
Hypothesis nitro_sound : forall att ud m,
  nitro att ud m = true -> exists v, genuine m v /\ id_ok v = true /\ hash_of v = ud.
Hypothesis enclaves_run_server : forall m er v, genuine m (HResponse er v) ->
  ExecuteResponse_ok er /\ exists r, server_response r /\ er_bound r = er_bound er.

(** The application of an enclave in state [s] has computed [output] on [req],
    the first of a batch that a quorum of its signers backs. *)
Definition computed (s : enclaveServer) (req : SignedComputeRequest) (output : bytes) : Prop :=
  running s /\ exists reqs secrets w, head reqs = Some req /\
    quorum_cert (verified := verified) (config s) (compute_payload (ComputeRequest_Hash req)) reqs /\
    app_result s req reqs secrets = (w, Ok output).

Lemma server_response_computed r : server_response r ->
  exists s req, computed s req (er_Output r) /\ ComputeRequest_ok (Request req) /\
    er_RequestHash r = ComputeRequest_Hash req /\ er_Config r = config s.
Proof.
  intros (clk & s & meth & reqs & code & s' & Hrun & H & Hok).
  apply execute_success in H as (reqs' & req & secrets & w & w' & [= <-] & Hh & _ & Hq & _ & Ha & _ & Hr & Hc & _).
  exists s, req. split_and!; [by split; [|exists reqs, secrets, w]| |done..].
  destruct reqs as [|q reqs]; [done|]. injection Hh as ->. by apply Forall_cons in Hok as [? _].
Qed.

(** A response that the node accepts under its membership was computed with the
    backing of a quorum, or what it received collides with what was attested. *)
Lemma accepted_computed x signed out :
  ExecuteResponse_ok out -> Forall (fun e => EnclaveType e <> EnclaveTypeFake) (nodes (enclaveClient x)) ->
  accepted_under_membership nitro x signed out ->
  (exists s req, computed s req (er_Output out) /\ ComputeRequest_ok (Request req) /\
     ComputeRequest_Hash req = ComputeRequest_Hash signed /\ config s = er_Config out) \/
  exists e, e ∈ nodes (enclaveClient x) /\ collides_with genuine e signed out.
Proof.
  intros Hok Hty [(e & He & Ha) _]. rewrite Forall_forall in Hty.
  destruct (accepted_produced nitro url_ok genuine nitro_sound) with (e := e) (req := signed) (out := out) as [Hp|Hc]; eauto.
  { intros m er v Hg. by apply enclaves_run_server in Hg as [? _]. }
  left. destruct Hp as (m & er & v & _ & Hg & Hb & Hh & _).
  apply enclaves_run_server in Hg as (_ & r & Hr & Hbr). apply server_response_computed in Hr as (s & req & Hcomp & Hrok & Hrh & Hcfg).
  unfold er_bound in *. assert (er_Output r = er_Output out) as <- by congruence.
  exists s, req. split_and!; [done..|congruence|congruence].
Qed.

(** A member of the DON that is not faulty has signed this payload. *)
Definition honest_signed x (faulty : gset bytes) (has_signed : bytes -> bytes -> Prop) (payload : bytes) : Prop :=
  exists p, p ∈ donMembers x /\ (p ∉ faulty) /\ has_signed p payload.

Lemma computed_honest x s req output faulty (has_signed : bytes -> bytes -> Prop) :
  Signers (config s) ≡ₚ donMembers x -> donF x <= F (config s) -> Z.of_nat (size faulty) <= donF x ->
  (forall p msg sig, p ∈ donMembers x -> p ∉ faulty -> verified p msg sig = true -> has_signed p msg) ->
  computed s req output -> honest_signed x faulty has_signed (compute_payload (ComputeRequest_Hash req)).
Proof.
  intros Hs HF Hsize Huf (_ & reqs & _ & _ & _ & (signers & Hnd & Hlen & Hmem) & _).
  destruct (exists_outside signers faulty Hnd) as (p & Hp & Hgood); [unfold glen in Hlen; lia|].
  destruct (Hmem p Hp) as (Hin & r & Hr & Hver). rewrite Hs in Hin. exists p. eauto.
Qed.

Lemma system_output (env : execute_env) (protoBytes : option bytes)
    (secrets : list SecretIdentifier) (md : RequestMetadata) x (output : bytes) x'
    (faulty : gset bytes) (has_signed : bytes -> bytes -> Prop) :
  Execute nitro url_ok oor acct eth env protoBytes secrets md x = (Output output, x') ->
  (forall j out, received (ee_attempt env j) out -> ExecuteResponse_ok out) ->
  Forall (fun e => EnclaveType e <> EnclaveTypeFake) (nodes (enclaveClient x')) ->
  Z.of_nat (size faulty) <= donF x' ->
  (forall p msg sig, p ∈ donMembers x' -> p ∉ faulty -> verified p msg sig = true -> has_signed p msg) ->
  exists input signed, protoBytes = Some input /\
    own_request acct x' (ee_keystore env) (WorkflowExecutionID md) input secrets signed /\
    ((exists s req, computed s req output /\ Signers (config s) ≡ₚ donMembers x' /\
        ComputeRequest_Hash req = ComputeRequest_Hash signed /\
        (ComputeRequest_ok (Request signed) ->
         covered req = covered signed \/ collision (ComputeRequest_writes req) (ComputeRequest_writes signed)) /\
        honest_signed x' faulty has_signed (compute_payload (ComputeRequest_Hash signed))) \/
     exists j e out, received (ee_attempt env j) out /\ e ∈ nodes (enclaveClient x') /\
       collides_with genuine e signed out).
Proof.
  intros H Hwf Hty Hsize Huf. apply execute_Output in H as (input & signed & out & j & Hp & <- & Hown & Hacc & Hrec).
  exists input, signed. split_and!; [done..|].
  destruct (accepted_computed x' signed out) as [(s & req & Hc & Hok & Hh & Hcfg)|(e & He & Hcol)]; eauto 10.
  left. destruct Hacc as (_ & _ & Hs & HF). rewrite <- Hcfg in Hs, HF.
  exists s, req. split_and!; [done..| |rewrite <- Hh; by eapply computed_honest].
  intros Hok'. apply sha256_eq_or_collision in Hh as [E|E]; [left|by right]. by apply ComputeRequest_writes_inj.
Qed.

(** C2 End to end, from the workflow to the application.  Suppose that attested
    execution responses come from enclaves that run the server, that at most the
    DON's fault bound of its members is faulty, and that a signature of the others
    verifies only on what they signed.  Then an output the executor hands to the
    workflow is what the application computed in an enclave, on a request with the
    hash of the request this node signed for this execution, input and secrets
    (the same request as far as the hash covers it), with a quorum of the DON's own
    members as signers, a member that is not faulty among them.  The exceptions are
    SHA-256 collisions between values that were received and attested. *)
Theorem output_computed_in_enclave (env : execute_env) (protoBytes : option bytes)
    (secrets : list SecretIdentifier) (md : RequestMetadata) x (output : bytes) x'
    (faulty : gset bytes) (has_signed : bytes -> bytes -> Prop) :
  Execute nitro url_ok oor acct eth env protoBytes secrets md x = (Output output, x') ->
  (forall j out, received (ee_attempt env j) out -> ExecuteResponse_ok out) ->
  Forall (fun e => EnclaveType e <> EnclaveTypeFake) (nodes (enclaveClient x')) ->
  Z.of_nat (size faulty) <= donF x' ->
  (forall p msg sig, p ∈ donMembers x' -> p ∉ faulty -> verified p msg sig = true -> has_signed p msg) ->
  exists input signed, protoBytes = Some input /\
    own_request acct x' (ee_keystore env) (WorkflowExecutionID md) input secrets signed /\
    ((exists s req, computed s req output /\ Signers (config s) ≡ₚ donMembers x' /\
        ComputeRequest_Hash req = ComputeRequest_Hash signed /\
        (ComputeRequest_ok (Request signed) ->
         covered req = covered signed \/ collision (ComputeRequest_writes req) (ComputeRequest_writes signed)) /\
        honest_signed x' faulty has_signed (compute_payload (ComputeRequest_Hash signed))) \/
     exists j e out, received (ee_attempt env j) out /\ e ∈ nodes (enclaveClient x') /\
       collides_with genuine e signed out).
Proof. apply system_output. Qed.

End System.
