(* ===== verification/Actions.v ===== *)
(** * Actions: the capabilities workflows call

    Models [src/capabilities/framework/base_action.go], [types.go],
    [src/enclave/apps/confidential-http/capability/action.go] and [validator.go], and
    [src/enclave/apps/confidential-workflows/capability/action.go]: what stands between
    the workflow engine and the executor.  The message encodings and the limiters are
    parameters. *)

From S2P Require Import Prelude Codec Text Sha256 Types EvmAddress Observability Executor Workflow.

(** What a capability answers: a response, a typed error, or a panic.  Before it is
    typed, an error is the typed one [errors.As] finds in it, if any. *)
Inductive action_out (A : Type) := Answer (a : A) | Refuse (e : cap_error) | Panic.
Arguments Answer {A} a.
Arguments Refuse {A} e.
Arguments Panic {A}.

(** [NewError(err, VisibilityPrivate, OriginSystem, Internal)]. *)
Definition internal_error : cap_error := mkCapError VisibilityPrivate OriginSystem Internal.

(** [errors.As] on the error of the executor; joined errors are searched in order. *)
Definition typed_out (o : execute_out) : option cap_error :=
  match o with
  | Failed e => typed_error e
  | QuorumTimedOutUser _ => Some (NewPublicUserError DeadlineExceededCode)
  | RetriesExhausted _ errs => find_some typed_error errs
  | Output _ | Cancelled | ResponseCount _ | ExecutePanicked => None
  end.

(** [TeeType]. *)
Inductive TeeType := TEE_TYPE_AWS_NITRO | TEE_TYPE_UNSPECIFIED.
#[export] Instance TeeType_eq_dec : EqDecision TeeType.
Proof. solve_decision. Defined.
#[export] Program Instance TeeType_countable : Countable TeeType :=
  inj_countable' (fun t => match t with TEE_TYPE_AWS_NITRO => true | TEE_TYPE_UNSPECIFIED => false end)
    (fun b : bool => if b then TEE_TYPE_AWS_NITRO else TEE_TYPE_UNSPECIFIED) _.
Next Obligation. by intros []. Qed.

Definition MapEnclaveType (et : string) : TeeType :=
  if bool_decide (et = "NITRO"%string) then TEE_TYPE_AWS_NITRO else TEE_TYPE_UNSPECIFIED.

Section Actions.
Context `{HS : Sha256}.
Variables (nitro : bytes -> bytes -> bytes -> bool) (url_ok : string -> bool) (out_of_range : Z).
Variables (StandardCapabilityAccount : string) (HexToAddress_String : string -> string).

Local Abbreviation executor_Execute := (Executor.Execute nitro url_ok out_of_range StandardCapabilityAccount HexToAddress_String).
Local Abbreviation initLazily := (Executor.initLazily nitro url_ok out_of_range StandardCapabilityAccount).

(** ** The base action *)

Section Base.
(** The input's message and the output's: [Marshal] fails, or yields bytes, nil for a
    nil message. *)
Context {Input Output_ : Type}.
Variables (Marshal : Input -> result unit (option bytes)) (Unmarshal : bytes -> option Output_).

Definition base_Execute (env : execute_env) (input : Input) (secrets : list SecretIdentifier) (metadata : RequestMetadata) (x : RealExecutor)
    : option (result (option cap_error) Output_) * RealExecutor :=
  match Marshal input with
  | Err _ => (Some (Err None), x)
  | Ok protoBytes =>
      let '(o, x) := executor_Execute env protoBytes secrets metadata x in
      (match o with
       | Output resultBytes => match Unmarshal resultBytes with Some out => Some (Ok out) | None => Some (Err None) end
       | ExecutePanicked => None
       | _ => Some (Err (typed_out o))
       end, x)
  end.

(** How both actions pass a result of the base action on. *)
Definition pass_on (r : option (result (option cap_error) Output_)) : action_out Output_ :=
  match r with
  | None => Panic
  | Some (Ok out) => Answer out
  | Some (Err (Some capErr)) => Refuse capErr
  | Some (Err None) => Refuse internal_error
  end.

End Base.

(** ** Whose error it is *)

Lemma retry_loop_exhausted {S} mx (fn : nat -> M S unit) cancelled n : forall i b errs s m errs' s',
  retry_loop mx fn cancelled n i b errs s = (Exhausted m errs', s') ->
  Forall (fun e => user_error e = false) errs -> Forall (fun e => user_error e = false) errs'.
Proof.
  induction n as [|n IH]; intros i b errs s m errs' s'; cbn [retry_loop]; [by intros [= _ <- _]|].
  destruct (fn i s) as [[u|e|] s1]; [done| |done]. destruct (user_error e) eqn:Eu; [done|]. destruct (cancelled i b); [done|].
  intros H Hn. apply IH in H; [done|]. apply Forall_app. auto.
Qed.

Lemma execute_exhausted env protoBytes secrets metadata x m errs x' :
  executor_Execute env protoBytes secrets metadata x = (RetriesExhausted m errs, x') -> Forall (fun e => user_error e = false) errs.
Proof.
  unfold Executor.Execute, Executor.Execute_observed. destruct (initLazily _ _ x) as [[u|e|] x1]; try done. destruct (negb _); [done|].
  destruct (capConfig _) as [cfg|]; [|done]. destruct (retryWithBackoff _ _ _ _) as [o r] eqn:E. intros [= H _].
  destruct o; cbn [finish] in H; try done; repeat case_match; try done.
  injection H as _ <-. by eapply retry_loop_exhausted.
Qed.

(** The type of an error tells the user's errors from the others. *)
Lemma typed_out_user env protoBytes secrets metadata x o x' :
  executor_Execute env protoBytes secrets metadata x = (o, x') ->
  ce_origin (default internal_error (typed_out o)) = OriginUser <->
  (exists err, o = Failed err /\ user_error err = true) \/ exists errs, o = QuorumTimedOutUser errs.
Proof.
  intros H. destruct o as [out|e|m errs|errs| |n|]; cbn [typed_out default from_option].
  all: try (split; [done | by intros [(? & ? & _)|[? ?]]]).
  - unfold user_error. split; [|intros [(? & [= <-] & E)|[? ?]]; [|done]].
    + intros E. left. exists e. by destruct (typed_error e) as [c|]; [cbn in E; rewrite E|].
    + destruct (typed_error e) as [c|]; [|done]. cbn. by destruct (ce_origin c).
  - apply execute_exhausted in H. split; [|by intros [(? & ? & _)|[? ?]]]. intros E. exfalso.
    destruct (find_some typed_error errs) as [c|] eqn:Ef; [|done]. apply find_some_spec in Ef as (l1 & e & l2 & -> & Hc & _).
    rewrite Forall_forall in H. specialize (H e ltac:(set_solver)). unfold user_error in H. rewrite Hc in H. cbn in E. by rewrite E in H.
  - split; eauto.
Qed.

(** ** Confidential HTTP *)

Section Http.
Context {HTTPRequest HTTPResponse : Type}.
Variables (Marshal : option HTTPRequest -> result unit (option bytes)) (Unmarshal : bytes -> option HTTPResponse).
(** The JSON form of a request, its timeout as a duration, and the limiters. *)
Variables (json : option HTTPRequest -> option bytes) (timeout_of : HTTPRequest -> option Z).

Record Validator := mkValidator {
  requestSizeLimiter : Z -> bool;
  responseSizeLimiter : Z -> bool;
  connectionTimeoutLimiter : Z -> bool;
}.

Record ConfidentialHTTPRequest := mkConfidentialHTTPRequest {
  ch_Request : option HTTPRequest;
  ch_VaultDonSecrets : list SecretIdentifier;
}.

Definition request_duration (input : ConfidentialHTTPRequest) : Z :=
  match ch_Request input with Some r => default 0 (timeout_of r) | None => 0 end.

Definition validateInputWithLimiters (v : Validator) (input : ConfidentialHTTPRequest) : bool :=
  match json (ch_Request input) with
  | None => false
  | Some marshaled => requestSizeLimiter v (glen marshaled) && connectionTimeoutLimiter v (request_duration input)
  end.

Definition ValidateRequest (v : Validator) (input : option ConfidentialHTTPRequest) : bool :=
  match input with None => false | Some input => validateInputWithLimiters v input end.

Definition ValidateResponseSize (v : Validator) (response : bytes) : bool := responseSizeLimiter v (glen response).

(** [GetVaultDonSecrets] copies the identifiers. *)
Definition GetVaultDonSecrets (input : ConfidentialHTTPRequest) : list SecretIdentifier :=
  map (fun s => mkSecretIdentifier (si_Key s) (si_Namespace s) (si_Owner s)) (ch_VaultDonSecrets input).

Definition SendRequest (env : execute_env) (validator : option Validator) (metadata : RequestMetadata) (input : option ConfidentialHTTPRequest)
    (x : RealExecutor) : action_out HTTPResponse * RealExecutor :=
  match validator with
  | None => (Refuse internal_error, x)
  | Some v =>
      match input with
      | Some i =>
          if negb (ValidateRequest v input) then (Refuse (NewPublicUserError InvalidArgument), x)
          else let '(r, x) := base_Execute Marshal Unmarshal env (ch_Request i) (GetVaultDonSecrets i) metadata x in
               (pass_on r, x)
      | None => (Refuse (NewPublicUserError InvalidArgument), x)
      end
  end.

(** The request is within the limits. *)
Definition within_limits (v : Validator) (input : option ConfidentialHTTPRequest) : Prop :=
  exists i marshaled, input = Some i /\ json (ch_Request i) = Some marshaled /\
    requestSizeLimiter v (glen marshaled) = true /\ connectionTimeoutLimiter v (request_duration i) = true.

Lemma ValidateRequest_iff v input : ValidateRequest v input = true <-> within_limits v input.
Proof.
  unfold ValidateRequest, validateInputWithLimiters, within_limits. destruct input as [i|]; [|naive_solver].
  destruct (json (ch_Request i)) as [m|] eqn:E; [|naive_solver]. rewrite andb_true_iff. naive_solver.
Qed.

(** The executor's answer to a request that was let through. *)
Definition executed (env : execute_env) (metadata : RequestMetadata) (i : ConfidentialHTTPRequest) (x : RealExecutor) (o : execute_out) (x' : RealExecutor) : Prop :=
  exists protoBytes, Marshal (ch_Request i) = Ok protoBytes /\ executor_Execute env protoBytes (GetVaultDonSecrets i) metadata x = (o, x').

Lemma SendRequest_cases env v metadata input x :
  (within_limits v input /\ exists i, input = Some i /\
     SendRequest env (Some v) metadata input x =
       (pass_on (base_Execute Marshal Unmarshal env (ch_Request i) (GetVaultDonSecrets i) metadata x).1,
        (base_Execute Marshal Unmarshal env (ch_Request i) (GetVaultDonSecrets i) metadata x).2)) \/
  (~ within_limits v input /\ SendRequest env (Some v) metadata input x = (Refuse (NewPublicUserError InvalidArgument), x)).
Proof.
  rewrite <- ValidateRequest_iff. unfold SendRequest. destruct input as [i|]; [|by right].
  destruct (ValidateRequest v (Some i)); cbn [negb]; [left | by right]. split; [done|]. exists i. by destruct (base_Execute _ _ _ _ _ _ _).
Qed.

(** C38 The HTTP capability asks the executor only for requests within the size and
    timeout limits; others are the caller's error and leave the executor as it was.
    An answer is the decoded output of the executor.  An error is the user's exactly
    when the request was outside the limits, the executor stopped on an error typed
    as the user's, or a quorum timeout counts as one: what is left after the retries
    ran out is never blamed on the user. *)
Theorem send_request_exact (env : execute_env) (v : Validator) (metadata : RequestMetadata) (input : option ConfidentialHTTPRequest)
    (x : RealExecutor) :
  match SendRequest env (Some v) metadata input x with
  | (Answer out, x') => within_limits v input /\
      exists i output, input = Some i /\ executed env metadata i x (Output output) x' /\ Unmarshal output = Some out
  | (Refuse e, x') => (~ within_limits v input -> x' = x) /\
      (ce_origin e = OriginUser <->
       (~ within_limits v input) \/
       exists i o, input = Some i /\ executed env metadata i x o x' /\
         ((exists err, o = Failed err /\ user_error err = true) \/ exists errs, o = QuorumTimedOutUser errs))
  | (Panic, x') => exists i, input = Some i /\ executed env metadata i x ExecutePanicked x'
  end.
Proof.
  destruct (SendRequest_cases env v metadata input x) as [(Hin & i & -> & ->)|[Hin ->]].
  2: { split; [done|]. cbn. split; [by left | done]. }
  unfold base_Execute, executed. destruct (Marshal (ch_Request i)) as [protoBytes|] eqn:Em.
  2: { cbn. split; [done|]. split; [done|]. intros [?|(? & ? & ? & (? & ? & _) & _)]; [done|congruence]. }
  destruct (executor_Execute env protoBytes (GetVaultDonSecrets i) metadata x) as [o x'] eqn:Ee.
  pose proof (typed_out_user _ _ _ _ _ _ _ Ee) as Hu.
  assert (forall o' x1, (exists p, Ok protoBytes = Ok (E := unit) p /\ executor_Execute env p (GetVaultDonSecrets i) metadata x = (o', x1)) <-> o' = o /\ x1 = x') as Hf.
  { intros o' x1. split; [intros (p & [= <-] & E); rewrite Ee in E; by injection E | intros [-> ->]; eauto]. }
  assert (ce_origin (default internal_error (typed_out o)) = OriginUser <->
    (~ within_limits v (Some i)) \/ exists i0 o0, Some i = Some i0 /\
      (exists p, Marshal (ch_Request i0) = Ok p /\ executor_Execute env p (GetVaultDonSecrets i0) metadata x = (o0, x')) /\
      ((exists err, o0 = Failed err /\ user_error err = true) \/ exists errs, o0 = QuorumTimedOutUser errs)) as Hu'.
  { rewrite Hu. split; [intros H; right; exists i, o; rewrite Em, Hf; auto|].
    intros [?|(i0 & o0 & [= <-] & Hx & H)]; [done|]. rewrite Em, Hf in Hx. destruct Hx as [-> _]. exact H. }
  destruct o; cbn [pass_on fst snd]; [destruct (Unmarshal output) eqn:Eu| | | | | |]; cbn [typed_out default from_option] in *.
  - split; [done|]. exists i, output. rewrite Em, Hf. auto.
  - split; [done|]. exact Hu'.
  - destruct (typed_error e); by split.
  - destruct (find_some typed_error errs); by split.
  - split; [done|]. exact Hu'.
  - split; [done|]. exact Hu'.
  - split; [done|]. exact Hu'.
  - exists i. rewrite Em, Hf. auto.
Qed.

End Http.

(** ** Confidential workflows *)

Section Workflows.
Context {Requirements Restrictions WorkflowResponse : Type}.
Implicit Types (execution : WorkflowExecution Requirements Restrictions).
Variables (Marshal : WorkflowExecution Requirements Restrictions -> result unit (option bytes))
  (Unmarshal : bytes -> option WorkflowResponse) (Quote : string -> string).

Definition validateExecutionIdentity (metadata : RequestMetadata) execution : string :=
  let mismatch field want got := (field ++ " mismatch: metadata " ++ Quote want ++ ", execution " ++ Quote got)%string in
  if negb (bool_decide (WorkflowId execution = WorkflowID metadata)) then mismatch "workflow_id"%string (WorkflowID metadata) (WorkflowId execution)
  else if negb (bool_decide (we_ExecutionId execution = WorkflowExecutionID metadata)) then
    mismatch "execution_id"%string (WorkflowExecutionID metadata) (we_ExecutionId execution)
  else if negb (bool_decide (HexToAddress (bs (we_Owner execution)) = HexToAddress (bs (WorkflowOwner metadata)))) then
    mismatch "owner"%string (WorkflowOwner metadata) (we_Owner execution)
  else if negb (bool_decide (we_OrgId execution = OrgID metadata)) then mismatch "org_id"%string (OrgID metadata) (we_OrgId execution)
  else ""%string.

Record ConfidentialWorkflowRequest := mkWorkflowRequest {
  wr_Execution : option (WorkflowExecution Requirements Restrictions);
  wr_VaultDonSecrets : list SecretIdentifier;
}.

Definition workflow_Execute (env : execute_env) (metadata : RequestMetadata) (input : ConfidentialWorkflowRequest) (x : RealExecutor)
    : action_out WorkflowResponse * RealExecutor :=
  let invalid := (Refuse (NewPublicUserError InvalidArgument), x) in
  match wr_Execution input with
  | None => invalid
  | Some execution =>
      if negb (bool_decide (validateExecutionIdentity metadata execution = ""%string)) then invalid
      else if 0 <? glen (wr_VaultDonSecrets input) then invalid
      else let '(r, x) := base_Execute Marshal Unmarshal env execution [] metadata x in (pass_on r, x)
  end.

(** [ProvidedTees]: the enclaves' types with their regions, as a map. *)
Definition group_tees (l : list Enclave) : gmap TeeType (list string) :=
  fold_left (fun grouped enc =>
    let teeType := MapEnclaveType (EnclaveType enc) in
    let grouped := match grouped !! teeType with None => <[teeType := []]> grouped | Some _ => grouped end in
    if bool_decide (Region enc = ""%string) then grouped
    else <[teeType := default [] (grouped !! teeType) ++ [Region enc]]> grouped) l ∅.

Definition ProvidedTees (ks : keystore) (ie : init_env) (x : RealExecutor) : action_out (gmap TeeType (list string)) * RealExecutor :=
  match initLazily ks ie x with
  | (Raise _, x) => (Refuse internal_error, x)
  | (Crash, x) => (Panic, x)
  | (Ret _, x) => (Answer (group_tees (enclaves x)), x)
  end.

(** ** What the guards let through *)

(** The identity in the payload is the one of the request's metadata; owners are
    compared as addresses. *)
Definition same_identity (metadata : RequestMetadata) execution : Prop :=
  WorkflowId execution = WorkflowID metadata /\ we_ExecutionId execution = WorkflowExecutionID metadata /\
  HexToAddress (bs (we_Owner execution)) = HexToAddress (bs (WorkflowOwner metadata)) /\ we_OrgId execution = OrgID metadata.

Lemma validateExecutionIdentity_iff metadata execution :
  validateExecutionIdentity metadata execution = ""%string <-> same_identity metadata execution.
Proof. unfold validateExecutionIdentity, same_identity. repeat case_bool_decide; cbn [negb];
    (split; [intros E; first [discriminate E | done] | by intros (? & ? & ? & ?)]). Qed.

Lemma workflow_Execute_cases env metadata input x :
  (exists execution, wr_Execution input = Some execution /\ same_identity metadata execution /\ wr_VaultDonSecrets input = [] /\
     workflow_Execute env metadata input x =
       (pass_on (base_Execute Marshal Unmarshal env execution [] metadata x).1, (base_Execute Marshal Unmarshal env execution [] metadata x).2)) \/
  workflow_Execute env metadata input x = (Refuse (NewPublicUserError InvalidArgument), x).
Proof.
  unfold workflow_Execute. destruct (wr_Execution input) as [execution|]; [|by right].
  case_bool_decide as Hid; cbn [negb]; [|by right]. apply validateExecutionIdentity_iff in Hid.
  destruct (wr_VaultDonSecrets input) as [|sec l] eqn:Es.
  - left. exists execution. cbn [glen]. by destruct (base_Execute _ _ _ _ _ _ _).
  - right. by rewrite (proj2 (Z.ltb_lt _ _)) by (rewrite glen_cons; pose proof (glen_nonneg l); lia).
Qed.

Lemma base_Execute_Ok env execution secrets metadata x out x' :
  base_Execute Marshal Unmarshal env execution secrets metadata x = (Some (Ok out), x') ->
  exists protoBytes output, Marshal execution = Ok protoBytes /\ Unmarshal output = Some out /\
    executor_Execute env protoBytes secrets metadata x = (Output output, x').
Proof.
  unfold base_Execute. destruct (Marshal execution) as [protoBytes|]; [|done]. intros H.
  destruct (executor_Execute env protoBytes secrets metadata x) as [o x1] eqn:E.
  destruct o; injection H as H <-; try done. destruct (Unmarshal output) as [r|] eqn:Eu; [|done]. injection H as <-. eauto.
Qed.

Lemma workflow_Execute_Answer env metadata input x answer x' :
  workflow_Execute env metadata input x = (Answer answer, x') ->
  exists execution protoBytes output, wr_Execution input = Some execution /\ same_identity metadata execution /\
    wr_VaultDonSecrets input = [] /\ Marshal execution = Ok protoBytes /\ Unmarshal output = Some answer /\
    executor_Execute env protoBytes [] metadata x = (Output output, x').
Proof.
  intros H. destruct (workflow_Execute_cases env metadata input x) as [(execution & ? & ? & ? & E)|E]; rewrite E in H; [|done].
  destruct (base_Execute Marshal Unmarshal env execution [] metadata x) as [[[out|[e|]]|] x1] eqn:Eb; try done.
  injection H as <- <-. apply base_Execute_Ok in Eb as (protoBytes & output & ? & ? & ?).
  exists execution, protoBytes, output. auto 8.
Qed.

(** ** The enclaves a workflow can ask for *)

Definition regions_of (t : TeeType) (l : list Enclave) : list string :=
  filter (fun r => r <> ""%string) (Region <$> filter (fun e => MapEnclaveType (EnclaveType e) = t) l).

(** One step of the loop, by key. *)
Lemma group_step_lookup (grouped : gmap TeeType (list string)) enc t :
  let teeType := MapEnclaveType (EnclaveType enc) in
  let grouped' := match grouped !! teeType with None => <[teeType := []]> grouped | Some _ => grouped end in
  (if bool_decide (Region enc = ""%string) then grouped' else <[teeType := default [] (grouped' !! teeType) ++ [Region enc]]> grouped') !! t =
  if decide (teeType = t) then Some (default [] (grouped !! t) ++ filter (fun r => r <> ""%string) [Region enc]) else grouped !! t.
Proof.
  cbn zeta. rewrite filter_cons, filter_nil. set (te := MapEnclaveType (EnclaveType enc)). destruct (decide (te = t)) as [<-|Hne].
  - destruct (grouped !! te) as [rs|] eqn:E; case_bool_decide as Hr.
    + rewrite decide_False by tauto. by rewrite E, app_nil_r.
    + rewrite decide_True by done. by rewrite lookup_insert_eq, E.
    + rewrite decide_False by tauto. by rewrite lookup_insert_eq.
    + rewrite decide_True by done. by rewrite !lookup_insert_eq.
  - destruct (grouped !! te) as [rs|] eqn:E; case_bool_decide; by rewrite ?lookup_insert_ne.
Qed.

Lemma filter_none {A} (P : A -> Prop) `{!forall x, Decision (P x)} l : Forall (fun x => ~ P x) l -> filter P l = [].
Proof. induction 1 as [|y l Hy _ IH]; [done|]. by rewrite filter_cons_False. Qed.

Lemma group_tees_lookup l t :
  group_tees l !! t = if decide (t ∈ (fun e => MapEnclaveType (EnclaveType e)) <$> l) then Some (regions_of t l) else None.
Proof.
  induction l as [|e l IH] using rev_ind; [done|].
  unfold group_tees in *. rewrite fold_left_app. cbn [fold_left]. set (m := fold_left _ l ∅) in *.
  rewrite group_step_lookup, IH. unfold regions_of.
  rewrite filter_app, !fmap_app, filter_app.
  destruct (decide (MapEnclaveType (EnclaveType e) = t)) as [<-|Hne].
  - rewrite (decide_True (P := _ ∈ _ ++ _)) by (cbn; apply elem_of_app; right; by apply list_elem_of_singleton).
    rewrite (filter_cons_True (fun e0 => MapEnclaveType (EnclaveType e0) = _) e) by done. destruct (decide _) as [|Hout]; [done|]. cbn [default from_option].
    rewrite (filter_none _ l); [done|]. apply Forall_forall. intros e' He' Heq. apply Hout, list_elem_of_fmap. by exists e'.
  - rewrite (filter_cons_False (fun e0 => MapEnclaveType (EnclaveType e0) = _) e) by done. cbn [fmap list_fmap]. rewrite filter_nil, app_nil_r.
    apply decide_ext. rewrite elem_of_app, list_elem_of_singleton. intuition congruence.
Qed.

(** [ProvidedTees] reports the executor's enclaves exactly, once the executor is
    set up: a type is listed if and only if an enclave of that type is in the
    configuration, with the non-empty regions of those enclaves, in order and with
    repetition; and if the setup fails it reports a system error, never an empty
    list. *)
Theorem provided_tees_exact (ks : keystore) (ie : init_env) (x : RealExecutor) :
  match ProvidedTees ks ie x with
  | (Answer tees, x') => (initLazily ks ie x).2 = x' /\
      forall t, tees !! t = if decide (t ∈ (fun e => MapEnclaveType (EnclaveType e)) <$> enclaves x') then Some (regions_of t (enclaves x')) else None
  | (Refuse e, x') => e = internal_error /\ exists err, initLazily ks ie x = (Raise err, x')
  | (Panic, x') => initLazily ks ie x = (Crash, x')
  end.
Proof.
  unfold ProvidedTees. destruct (initLazily ks ie x) as [[u|e|] x']; eauto.
  split; [done|]. intros t. apply group_tees_lookup.
Qed.

End Workflows.
End Actions.
