(* ===== verification/ActionLife.v ===== *)
(** * ActionLife: the life of a capability

    Models the constructors, [Initialise], [Start], [Close] and the small methods of
    [src/capabilities/framework/base_action.go], of
    [src/enclave/apps/confidential-http/capability/{action,validator}.go] and of
    [src/enclave/apps/confidential-workflows/capability/action.go], around the requests of
    [Actions].  A nil executor that is called panics.  The limiters and the executor are
    resources: the model records which of them are open. *)

From S2P Require Import Prelude Codec Text Sha256 Types EvmAddress Observability Executor Workflow Actions.

(** ** The base action *)

Record action_settings := mkActionSettings {
  as_name : string;
  as_description : string;
  as_capabilityID : string;
  as_version : string;
  as_quorumTimeoutIsUserError : bool;
}.

Definition ServiceConfidentialComputeVersion : string := "0.0.6".
Definition http_settings : action_settings :=
  mkActionSettings "ConfidentialHTTPCapabilityService" "Confidential HTTP Capability Service" "confidential-http@1.0.0-alpha"
    ServiceConfidentialComputeVersion true.
Definition workflow_settings : action_settings :=
  mkActionSettings "ConfidentialWorkflowsCapabilityService" "Confidential Workflows Capability Service" AppIDConfidentialWorkflows
    ServiceConfidentialComputeVersion false.

Section Life.
Context {Deps X : Type}.
(** [NewRealExecutor], and the executor's [Close] and [GetEnclaves]. *)
Variables (newExecutor : action_settings -> Deps -> X) (executor_Close : X -> result string unit * X) (executor_GetEnclaves : X -> list Enclave).

(** [baseConfidentialAction]: the executor, once initialised. *)
Record baseConfidentialAction := mkBaseAction { base_settings : action_settings; base_executor : option X }.

Definition NewConfidentialAction (s : action_settings) : baseConfidentialAction := mkBaseAction s None.

Definition base_Start (a : baseConfidentialAction) : result string unit := Ok tt.

Definition base_Initialise (d : Deps) (a : baseConfidentialAction) : result string unit * baseConfidentialAction :=
  let a := mkBaseAction (base_settings a) (Some (newExecutor (base_settings a) d)) in (base_Start a, a).

Definition base_Close (a : baseConfidentialAction) : result string unit * baseConfidentialAction :=
  match base_executor a with
  | None => (Ok tt, a)
  | Some x => let '(r, x) := executor_Close x in (r, mkBaseAction (base_settings a) (Some x))
  end.

Definition base_HealthReport (a : baseConfidentialAction) : list (string * option string) := [(as_name (base_settings a), None)].
Definition base_Ready (a : baseConfidentialAction) : result string unit := Ok tt.
Definition base_Name (a : baseConfidentialAction) : string := as_name (base_settings a).
Definition base_Description (a : baseConfidentialAction) : string := as_description (base_settings a).

(** [None] is the panic of a call on the nil executor. *)
Definition base_GetEnclaves (a : baseConfidentialAction) : option (list Enclave) := executor_GetEnclaves <$> base_executor a.
Definition base_run {A} (f : X -> A * X) (a : baseConfidentialAction) : option A * baseConfidentialAction :=
  match base_executor a with
  | None => (None, a)
  | Some x => let '(r, x) := f x in (Some r, mkBaseAction (base_settings a) (Some x))
  end.

(** ** Limiters *)

(** A limiter is named by the order of its creation. *)
Record limiter_store := mkStore { ls_next : nat; ls_open : gset nat }.

Definition MakeUpperBoundLimiter (fails : nat -> bool) (s : limiter_store) : option nat * limiter_store :=
  if fails (ls_next s) then (None, mkStore (S (ls_next s)) (ls_open s))
  else (Some (ls_next s), mkStore (S (ls_next s)) ({[ls_next s]} ∪ ls_open s)).

(** [fails] are the limiters whose [Close] reports an error. *)
Definition limiter_Close (fails : nat -> bool) (l : nat) (s : limiter_store) : result string unit * limiter_store :=
  if fails l then (Err "close failed"%string, s) else (Ok tt, mkStore (ls_next s) (ls_open s ∖ {[l]})).

Record http_validator := mkHttpValidator { v_response : nat; v_request : nat; v_timeout : nat }.

Definition NewValidator (fails : nat -> bool) (s : limiter_store) : result string http_validator * limiter_store :=
  match MakeUpperBoundLimiter fails s with
  | (None, s) => (Err "failed to create response size limiter"%string, s)
  | (Some response, s) =>
      match MakeUpperBoundLimiter fails s with
      | (None, s) => (Err "failed to create request size limiter"%string, s)
      | (Some request, s) =>
          match MakeUpperBoundLimiter fails s with
          | (None, s) => (Err "failed to create connection timeout limiter"%string, s)
          | (Some timeout, s) => (Ok (mkHttpValidator response request timeout), s)
          end
      end
  end.

(** The first error ends it. *)
Definition validator_Close (fails : nat -> bool) (v : http_validator) (s : limiter_store) : result string unit * limiter_store :=
  match limiter_Close fails (v_response v) s with
  | (Err e, s) => (Err e, s)
  | (Ok _, s) =>
      match limiter_Close fails (v_timeout v) s with
      | (Err e, s) => (Err e, s)
      | (Ok _, s) => limiter_Close fails (v_request v) s
      end
  end.

(** ** The HTTP action *)

Record ConfidentialHttpAction := mkHttpAction { ha_base : baseConfidentialAction; ha_validator : option http_validator; ha_store : limiter_store }.

Definition http_NewService : ConfidentialHttpAction := mkHttpAction (NewConfidentialAction http_settings) None (mkStore 0 ∅).

Definition http_Initialise (fails : nat -> bool) (d : Deps) (a : ConfidentialHttpAction) : result string unit * ConfidentialHttpAction :=
  match NewValidator fails (ha_store a) with
  | (Err e, s) => (Err e, mkHttpAction (ha_base a) (ha_validator a) s)
  | (Ok v, s) => let '(r, b) := base_Initialise d (ha_base a) in (r, mkHttpAction b (Some v) s)
  end.

(** An error of the validator is logged only. *)
Definition http_Close (fails : nat -> bool) (a : ConfidentialHttpAction) : result string unit * ConfidentialHttpAction :=
  let s := match ha_validator a with None => ha_store a | Some v => (validator_Close fails v (ha_store a)).2 end in
  let '(r, b) := base_Close (ha_base a) in (r, mkHttpAction b (ha_validator a) s).

(** [SendRequest]: [valid] is [ValidateRequest] on the request at hand, [execute] what the
    executor and the decoding make of it. *)
Definition http_SendRequest {A} (valid : http_validator -> bool) (execute : X -> action_out A * X) (a : ConfidentialHttpAction)
    : action_out A * ConfidentialHttpAction :=
  match ha_validator a with
  | None => (Refuse internal_error, a)
  | Some v =>
      if negb (valid v) then (Refuse (NewPublicUserError InvalidArgument), a)
      else match base_run execute (ha_base a) with
      | (None, b) => (Panic, mkHttpAction b (ha_validator a) (ha_store a))
      | (Some r, b) => (r, mkHttpAction b (ha_validator a) (ha_store a))
      end
  end.

(** ** The workflow action *)

Definition workflow_NewService : baseConfidentialAction := NewConfidentialAction workflow_settings.
Definition workflow_Initialise : Deps -> baseConfidentialAction -> result string unit * baseConfidentialAction := base_Initialise.

(** ** Histories *)

Inductive life_call :=
| CallInitialise (fails : nat -> bool) (d : Deps)
| CallSend {A} (valid : http_validator -> bool) (execute : X -> action_out A * X)
| CallClose (fails : nat -> bool).

Definition life_step (a : ConfidentialHttpAction) (c : life_call) : ConfidentialHttpAction :=
  match c with
  | CallInitialise fails d => (http_Initialise fails d a).2
  | CallSend valid execute => (http_SendRequest valid execute a).2
  | CallClose fails => (http_Close fails a).2
  end.

Definition life_run (a : ConfidentialHttpAction) (cs : list life_call) : ConfidentialHttpAction := fold_left life_step cs a.

(** ** What the history of calls makes of a service *)

(** Some [Initialise] of the history has succeeded. *)
Definition initialised (cs : list life_call) : Prop :=
  exists cs1 fails d cs2, cs = cs1 ++ CallInitialise fails d :: cs2 /\ (http_Initialise fails d (life_run http_NewService cs1)).1 = Ok tt.

(** A validator comes with an executor; [b]: there is one. *)
Definition life_inv (b : bool) (a : ConfidentialHttpAction) : Prop :=
  if b then is_Some (ha_validator a) /\ is_Some (base_executor (ha_base a)) else ha_validator a = None /\ base_executor (ha_base a) = None.

Definition succeeds (a : ConfidentialHttpAction) (c : life_call) : bool :=
  match c with CallInitialise fails d => is_ok (http_Initialise fails d a).1 | _ => false end.

Lemma action_inv_step b a c : life_inv b a -> life_inv (succeeds a c || b) (life_step a c).
Proof.
  destruct c as [fails d|A valid execute|fails]; cbn [life_step succeeds orb].
  - unfold http_Initialise, base_Initialise, base_Start. destruct (NewValidator fails (ha_store a)) as [[v|e] s]; cbn; [|done]. intros _. split; eauto.
  - unfold http_SendRequest, base_run. destruct b; cbn.
    + intros [[v Hv] [x Hx]]. rewrite Hv, Hx. destruct (negb (valid v)); [by split; eauto|]. destruct (execute x). cbn. split; eauto.
    + intros [Hv Hx]. rewrite Hv. done.
  - unfold http_Close, base_Close. destruct b; cbn.
    + intros [[v Hv] [x Hx]]. rewrite Hv, Hx. destruct (executor_Close x). cbn. split; eauto.
    + intros [Hv Hx]. rewrite Hv, Hx. done.
Qed.

Fixpoint ever (a : ConfidentialHttpAction) (cs : list life_call) : bool :=
  match cs with [] => false | c :: cs => succeeds a c || ever (life_step a c) cs end.

Lemma action_inv_run cs : forall b a, life_inv b a -> life_inv (ever a cs || b) (life_run a cs).
Proof.
  induction cs as [|c cs IH]; intros b a Hi; [done|]. cbn [ever]. change (life_run a (c :: cs)) with (life_run (life_step a c) cs).
  pose proof (IH _ _ (action_inv_step b a c Hi)) as H. by destruct (succeeds a c), (ever (life_step a c) cs), b.
Qed.

Lemma ever_iff cs : forall a, ever a cs = true <->
  exists cs1 fails d cs2, cs = cs1 ++ CallInitialise fails d :: cs2 /\ (http_Initialise fails d (life_run a cs1)).1 = Ok tt.
Proof.
  induction cs as [|c cs IH]; intros a; cbn [ever].
  - split; [done|]. intros ([|] & ? & ? & ? & ? & _); done.
  - rewrite orb_true_iff, IH. split.
    + intros [Hs|(cs1 & f & d & cs2 & -> & H)].
      * destruct c as [fails d| |]; try done. exists [], fails, d, cs. split; [done|]. cbn in Hs |- *. by destruct (http_Initialise fails d a).1 as [[]|].
      * exists (c :: cs1), f, d, cs2. done.
    + intros ([|c' cs1] & f & d & cs2 & E & H); injection E as -> E.
      * left. cbn in H |- *. by rewrite H.
      * right. exists cs1, f, d, cs2. done.
Qed.

(** The HTTP capability answers as its life so far says: before an [Initialise] has
    succeeded every request is refused with an internal error; from then on, through
    failed and repeated initialisations and closes, a request is refused as the user's
    error if it is not valid, else handed to an executor that exists.  It never panics
    on a missing executor. *)
Theorem http_service_ready (cs : list life_call) {A} (valid : http_validator -> bool) (execute : X -> action_out A * X) :
  let a := life_run http_NewService cs in
  (~ initialised cs -> http_SendRequest valid execute a = (Refuse internal_error, a)) /\
  (initialised cs -> exists v x, ha_validator a = Some v /\ base_executor (ha_base a) = Some x /\
     (http_SendRequest valid execute a).1 = if valid v then (execute x).1 else Refuse (NewPublicUserError InvalidArgument)).
Proof.
  intros a. pose proof (action_inv_run cs false http_NewService (conj eq_refl eq_refl)) as Hi. rewrite orb_false_r in Hi. fold a in Hi.
  unfold initialised. rewrite <- ever_iff. split.
  - intros Hn. apply not_true_is_false in Hn. rewrite Hn in Hi. destruct Hi as [Hv _]. unfold http_SendRequest. by rewrite Hv.
  - intros He. rewrite He in Hi. destruct Hi as [[v Hv] [x Hx]]. exists v, x. split_and!; [done..|].
    unfold http_SendRequest, base_run. rewrite Hv, Hx. destruct (valid v); [|done]. cbn. by destruct (execute x).
Qed.

(** One initialisation and one close, with limiters that open and close, leave no limiter
    open, whatever was sent in between. *)
Lemma close_releases_limiters d (cs : list life_call) fails :
  (forall c, c ∈ cs -> exists A valid execute, c = @CallSend A valid execute) -> (forall n, fails n = false) ->
  ls_open (ha_store (life_run http_NewService (CallInitialise fails d :: cs ++ [CallClose fails]))) = ∅.
Proof.
  intros Hcs Hf. unfold life_run. cbn [fold_left]. rewrite fold_left_app. cbn [fold_left].
  set (a := life_step http_NewService (CallInitialise fails d)).
  assert (forall a, ha_validator (fold_left life_step cs a) = ha_validator a /\ ha_store (fold_left life_step cs a) = ha_store a) as Hsend.
  { clear a. induction cs as [|c cs IH]; intros a; [done|]. cbn [fold_left]. destruct (Hcs c) as (A & valid & execute & ->); [set_solver|].
    destruct (IH (fun c' Hc' => Hcs c' (list_elem_of_further _ _ _ Hc')) (life_step a (CallSend valid execute))) as [-> ->].
    cbn. unfold http_SendRequest, base_run. repeat case_match; by simplify_eq/=. }
  destruct (Hsend a) as [Hv Hst]. cbn [life_step]. unfold http_Close. rewrite Hv, Hst. subst a. cbn [life_step].
  unfold http_Initialise, NewValidator, MakeUpperBoundLimiter. repeat (rewrite Hf; cbn).
  unfold validator_Close, limiter_Close. repeat (rewrite Hf; cbn). destruct (base_Close _). cbn. set_solver.
Qed.

End Life.
Arguments life_call : clear implicits.
Arguments ConfidentialHttpAction : clear implicits.
Arguments baseConfidentialAction : clear implicits.

(** A second initialisation forgets the first one's limiters: they stay open. *)
Example second_initialise_leaks :
  let none := fun _ : nat => false in
  let a := life_run (Deps := unit) (fun _ _ => tt) (fun x => (Ok tt, x)) http_NewService
    [CallInitialise none tt; CallInitialise none tt; CallClose none] in
  ls_open (ha_store a) = {[0; 1; 2]}%nat.
Proof. vm_compute. reflexivity. Qed.

(** A validator that cannot be built keeps the limiters it had built. *)
Example failed_validator_leaks :
  let '(r, s) := NewValidator (fun n => bool_decide (n = 2)%nat) (mkStore 0 ∅) in
  r = Err "failed to create connection timeout limiter"%string /\ ls_open s = {[0; 1]}%nat.
Proof. vm_compute. done. Qed.

(** The workflow capability has no such guard: called before it is initialised, it
    panics. *)
Example workflow_not_initialised : (base_run (X := unit) (fun x => (true, x)) workflow_NewService).1 = None.
Proof. reflexivity. Qed.

(** ** With the requests of [Actions] *)

Section WithActions.
Context `{HS : Sha256}.
Variables (nitro : bytes -> bytes -> bytes -> bool) (url_ok : string -> bool) (out_of_range : Z).
Variables (StandardCapabilityAccount : string) (HexToAddress_String : string -> string).
Context {Deps HTTPRequest HTTPResponse : Type}.
Variables (newExecutor : action_settings -> Deps -> RealExecutor) (executor_Close : RealExecutor -> result string unit * RealExecutor).
Variables (Marshal : option HTTPRequest -> result unit (option bytes)) (Unmarshal : bytes -> option HTTPResponse).
Variables (json : option HTTPRequest -> option bytes) (timeout_of : HTTPRequest -> option Z).
(** What a limiter lets through. *)
Variable lets : nat -> Z -> bool.

Definition limits_of (v : http_validator) : Validator := mkValidator (lets (v_request v)) (lets (v_response v)) (lets (v_timeout v)).

Local Abbreviation send := (SendRequest nitro url_ok out_of_range StandardCapabilityAccount HexToAddress_String Marshal Unmarshal json timeout_of).

(** The executor's part of [SendRequest] for one request. *)
Definition http_execute env metadata (i : ConfidentialHTTPRequest (HTTPRequest := HTTPRequest)) (x : RealExecutor) : action_out HTTPResponse * RealExecutor :=
  let '(r, x) := base_Execute nitro url_ok out_of_range StandardCapabilityAccount HexToAddress_String Marshal Unmarshal env (ch_Request i) (GetVaultDonSecrets i) metadata x in
  (pass_on r, x).

(** A service that was initialised answers a request as [SendRequest] of [Actions] does
    with the service's validator and executor. *)
Lemma service_sends cs env metadata (i : ConfidentialHTTPRequest) :
  let a := life_run newExecutor executor_Close http_NewService cs in
  initialised newExecutor executor_Close cs ->
  exists v x, ha_validator a = Some v /\ base_executor (ha_base a) = Some x /\
    (http_SendRequest (fun v => ValidateRequest json timeout_of (limits_of v) (Some i)) (http_execute env metadata i) a).1 =
    (send env (Some (limits_of v)) metadata (Some i) x).1.
Proof.
  intros a Hinit. destruct (http_service_ready newExecutor executor_Close cs (fun v => ValidateRequest json timeout_of (limits_of v) (Some i))
    (http_execute env metadata i)) as [_ H]. destruct (H Hinit) as (v & x & Hv & Hx & E). exists v, x. split_and!; [done..|].
  fold a in E. rewrite E. unfold SendRequest, http_execute. destruct (ValidateRequest json timeout_of (limits_of v) (Some i)); [|done]. cbn [negb].
  by destruct (base_Execute _ _ _ _ _ _ _ _ _ _ _ _).
Qed.

End WithActions.
