(* ===== verification/Support.v ===== *)
(** * Support: routes between the processes, collectors, and small helpers

    Models [Handler] of [src/enclave/server/server.go] with the calls that
    [src/enclave-client/pool.go], [src/enclave/config-tracker/config_tracker.go] and
    [src/enclave/nitro/host/{host,metrics}.go] make to the routes, the collector goroutine and
    [Stop] of [src/util/cache.go], [main] of [src/enclave/config-tracker/main.go],
    [SetNodeConfig] of [src/util/common.go], [GetRootCACertPEM] of [src/util/tls.go], [NewPool] of
    [src/enclave-client/pool.go], [sanitizeLogString] and [checkRequirements] of
    [src/capabilities/framework/executor.go]. Networks, JSON and the Ethereum client are
    parameters. *)

From stdpp Require Import pretty sorting.
From S2P Require Import Prelude Float Codec Text Order Sha256 Types Cache Services Server Host Selector Pool Tracker Resources HostMetrics HostMain Actions.

(** ** Log strings *)

(** The two [ReplaceAll] and the cut at 256 bytes. *)
Definition sanitizeLogString (s : bytes) : bytes :=
  let s := filter (fun c => c <> byte_of_Z 10) s in
  let s := filter (fun c => c <> byte_of_Z 13) s in
  if 256 <? glen s then take 256 s ++ bs "..." else s.

Definition breaks_line (c : byte) : Prop := c = byte_of_Z 10 \/ c = byte_of_Z 13.

Lemma filter_keeps_all {A} (P : A -> Prop) `{forall x, Decision (P x)} (l : list A) : Forall P l -> filter P l = l.
Proof. induction 1; [done|]. rewrite filter_cons_True by done. by f_equal. Qed.

(** A sanitized string stays on its line and is short; a short string without line
    breaks is left as it is. *)
Lemma sanitized_line s :
  Forall (fun c => ~ breaks_line c) (sanitizeLogString s) /\ glen (sanitizeLogString s) <= 259 /\
  (Forall (fun c => ~ breaks_line c) s -> glen s <= 256 -> sanitizeLogString s = s).
Proof.
  unfold sanitizeLogString. set (t := filter _ (filter _ s)).
  assert (Forall (fun c => ~ breaks_line c) t) as Ht.
  { apply Forall_forall. intros c. unfold t. rewrite !list_elem_of_filter. unfold breaks_line. naive_solver. }
  split_and!.
  - destruct (256 <? glen t); [|done]. apply Forall_app. split; [by apply Forall_take|]. unfold breaks_line. repeat constructor; intros [?|?]; done.
  - destruct (Z.ltb_spec 256 (glen t)); [|lia]. unfold glen. rewrite length_app, length_take. change (length (bs "...")) with 3%nat. lia.
  - intros Hs Hl. assert (t = s) as ->.
    { unfold t. rewrite (filter_keeps_all (fun c => c <> byte_of_Z 10) s), filter_keeps_all; [done|..];
        (eapply Forall_impl; [exact Hs|]); unfold breaks_line; intros c Hc E; apply Hc; auto. }
    destruct (Z.ltb_spec 256 (glen s)); [lia|done].
Qed.

(** ** Routes *)

(** The enclave's handlers: those the host proxies to, and the memory report. *)
Inductive enclave_endpoint := Proxied (e : endpoint) | handleMemory.

Definition MemoryPath : string := "/memory".

Definition enclave_Handler : list (route enclave_endpoint) :=
  [mkRoute None PublicKeyPath (Proxied handleGetPublicKeys);
   mkRoute (Some "POST"%string) SetConfigPath (Proxied handleSetConfig);
   mkRoute (Some "PATCH"%string) SetConfigPath (Proxied handleUpdateConfig);
   mkRoute (Some "POST"%string) SettingsPath (Proxied handleInjectSettings);
   mkRoute None ExecutePath (Proxied handleExecuteEndpoint);
   mkRoute (Some "GET"%string) MemoryPath handleMemory].

(** The method and the path of the request each of the host's handlers makes to the
    enclave ([http.NewRequest] in [handleGetPublicKeys], [proxyConfig], [handleInjectSettings] and
    [processBatch]). *)
Definition host_request (e : endpoint) : string * string :=
  match e with
  | handleGetPublicKeys => ("GET", PublicKeyPath)
  | handleSetConfig => ("POST", SetConfigPath)
  | handleUpdateConfig => ("PATCH", SetConfigPath)
  | handleInjectSettings => ("POST", SettingsPath)
  | handleExecuteEndpoint => ("POST", ExecutePath)
  end.

(** The calls of the nodes' pools ... *)
Inductive pool_call := ExecuteCall | UpdateConfigCall | PublicKeyCall.
Definition pool_request (c : pool_call) : string * string :=
  match c with
  | ExecuteCall => ("POST", ExecutePath)
  | UpdateConfigCall => ("PATCH", SetConfigPath)
  | PublicKeyCall => ("GET", PublicKeyPath)
  end.

(** ... and of the configuration tracker, to the public and to the configuration port. *)
Definition tracker_get : string * string := ("GET", PublicKeyPath)%string.
Definition tracker_post : string * string := ("POST", SetConfigPath)%string.

(** What the configuration port serves: its own mux, or the public one. *)
Definition config_port (f : flags) : list (route endpoint) := default (mainMux f) (configMux f).

Abbreviation at_mux mux request := (serve mux (fst request) (snd request)).

(** Every call of the three parties reaches the handler meant for it, and what that
    handler forwards reaches the handler of the same name in the enclave; with a
    port of its own, the configuration and the settings are out of reach of the
    public port, whatever is sent there. *)
Theorem calls_reach_handlers (f : flags) :
  at_mux (mainMux f) (pool_request ExecuteCall) = Served handleExecuteEndpoint /\
  at_mux (mainMux f) (pool_request UpdateConfigCall) = Served handleUpdateConfig /\
  at_mux (mainMux f) (pool_request PublicKeyCall) = Served handleGetPublicKeys /\
  at_mux (mainMux f) tracker_get = Served handleGetPublicKeys /\
  at_mux (config_port f) tracker_post = Served handleSetConfig /\
  (forall e, at_mux enclave_Handler (host_request e) = Served (Proxied e)) /\
  at_mux enclave_Handler ("GET"%string, MemoryPath) = Served handleMemory /\
  (configHttpPort f <> httpPort f -> forall method path e, serve (mainMux f) method path = Served e ->
     at_mux enclave_Handler (host_request e) <> Served (Proxied handleSetConfig) /\
     at_mux enclave_Handler (host_request e) <> Served (Proxied handleInjectSettings)).
Proof.
  assert (forall e, at_mux enclave_Handler (host_request e) = Served (Proxied e)) as Hf by (intros []; vm_compute; reflexivity).
  unfold config_port, configMux, mainMux.
  destruct (configHttpPort f =? httpPort f) eqn:Ep; (split_and!; [vm_compute; reflexivity..|exact Hf|vm_compute; reflexivity|]).
  all: intros Hne method path e He; rewrite Hf.
  - apply Z.eqb_eq in Ep. done.
  - destruct (privileged_not_public f method path e Hne) as [H1 H2]; [unfold mainMux; by rewrite Ep|]. split; congruence.
Qed.

(** ** The collector of a cache *)

Section Collector.
Context {V : Type}.

(** The cache, whether [stopGC] is closed, and whether the goroutine still runs. *)
Record cache_life := mkLife { lf_cache : Cache V; lf_closed : bool; lf_running : bool }.

Definition TimeToLive (c : Cache V) : Z := timeToLive c.

Definition started (c : Cache V) : cache_life := mkLife c false true.

(** [Stop]: closing a closed channel panics. *)
Definition Stop (l : cache_life) : option cache_life :=
  if lf_closed l then None else Some (mkLife (lf_cache l) true (lf_running l)).

(** What can happen: the callers' operations; a tick that the goroutine takes; the
    goroutine seeing the closed channel; [Stop]. A tick and the closed channel may both be ready:
    [select] takes either. *)
Inductive collector_event := Called (now : Z) (o : cache_op V) | Ticked (now : Z) | SeesStop | StopCalled.

Definition collector_step (l : cache_life) (e : collector_event) : option (cache_life * option (cache_out V)) :=
  match e with
  | Called now o =>
      let '(c, out) := cache_step (lf_cache l) (now, o) in Some (mkLife c (lf_closed l) (lf_running l), Some out)
  | Ticked now =>
      if lf_running l then Some (mkLife (garbageCollect now (lf_cache l)).2 (lf_closed l) true, None) else None
  | SeesStop => if lf_running l && lf_closed l then Some (mkLife (lf_cache l) true false, None) else None
  | StopCalled => (fun l => (l, None)) <$> Stop l
  end.

Fixpoint collector_run (l : cache_life) (es : list collector_event) : option (cache_life * list (cache_out V)) :=
  match es with
  | [] => Some (l, [])
  | e :: es =>
      match collector_step l e with
      | None => None
      | Some (l, out) => (fun r => (r.1, option_list out ++ r.2)) <$> collector_run l es
      end
  end.

Definition calls (es : list collector_event) : list (Z * cache_op V) :=
  omap (fun e => match e with Called now o => Some (now, o) | _ => None end) es.

(** The clock read by the callers and by the collector does not go back. *)
Fixpoint ordered (t : Z) (es : list collector_event) : Prop :=
  match es with
  | [] => True
  | (Called now _ | Ticked now) :: es => t <= now /\ ordered now es
  | _ :: es => ordered t es
  end.

Lemma collector_run_sim es : forall t l s l' outs, sim t (lf_cache l) s -> ordered t es -> collector_run l es = Some (l', outs) ->
  outs = spec_run s (calls es).
Proof.
  induction es as [|e es IH]; intros t l s l' outs Hs Ho Hr; [by injection Hr as <- <-|]. cbn [collector_run] in Hr.
  destruct (collector_step l e) as [[l1 out]|] eqn:Es; [|done].
  destruct (collector_run l1 es) as [[l2 outs']|] eqn:Er; [|done]. injection Hr as <- <-.
  destruct e as [now o|now| |]; cbn [collector_step] in Es.
  - destruct Ho as [Hle Ho]. destruct (sim_step t now o (lf_cache l) s Hle Hs) as [Hs' Hout]. cbn [calls omap list_omap spec_run].
    destruct (cache_step (lf_cache l) (now, o)) as [c r], (spec_step s (now, o)) as [s' r']. cbn in Hs', Hout. subst r'. injection Es as <- <-.
    cbn [option_list app]. f_equal. by apply (IH now (mkLife c (lf_closed l) (lf_running l)) s' l2).
  - destruct Ho as [Hle Ho], (lf_running l); [|done]. injection Es as <- <-.
    destruct (sim_step t now OCollect (lf_cache l) s Hle Hs) as [Hs' _]. destruct s as [d m].
    refine (IH now _ (d, m) _ _ _ Ho Er). exact Hs'.
  - destruct (lf_running l && lf_closed l); [|done]. injection Es as <- <-. refine (IH t _ s _ _ _ Ho Er). exact Hs.
  - unfold Stop in Es. destruct (lf_closed l); [done|]. injection Es as <- <-. refine (IH t _ s _ _ _ Ho Er). exact Hs.
Qed.

Lemma collector_run_stopped es : forall l l' outs, (lf_running l = false -> lf_closed l = true) -> collector_run l es = Some (l', outs) ->
  (lf_running l' = false -> lf_closed l' = true) /\ (lf_closed l' = true -> lf_closed l = true \/ StopCalled ∈ es).
Proof.
  induction es as [|e es IH]; intros l l' outs Hl Hr; [injection Hr as <- <-; auto|]. cbn [collector_run] in Hr.
  destruct (collector_step l e) as [[l1 out]|] eqn:Es; [|done].
  destruct (collector_run l1 es) as [[l2 outs']|] eqn:Er; [|done]. injection Hr as <- <-.
  assert ((lf_running l1 = false -> lf_closed l1 = true) /\ (lf_closed l1 = true -> lf_closed l = true \/ e = StopCalled)) as [H1 H2].
  { destruct e as [now o|now| |]; cbn [collector_step] in Es.
    - destruct (cache_step _ _). injection Es as <- <-. cbn. auto.
    - destruct (lf_running l); [|done]. injection Es as <- <-. cbn. auto.
    - destruct (lf_running l), (lf_closed l); try done. injection Es as <- <-. cbn. auto.
    - unfold Stop in Es. destruct (lf_closed l) eqn:Ec; [done|]. injection Es as <- <-. cbn. auto. }
  destruct (IH l1 l2 outs' H1 Er) as [H3 H4]. split; [done|]. intros Hc. rewrite elem_of_cons. destruct (H4 Hc) as [Hc'|?]; [|tauto]. destruct (H2 Hc'); auto.
Qed.

(** The collector is invisible: whenever its ticks come, also around [Stop], the
    callers of an unbounded cache get the answers of an expiring map, and the
    goroutine ends only after [Stop]. *)
Theorem collector_invisible ttl gc t es l outs :
  ordered t es -> collector_run (started (NewCache ttl gc)) es = Some (l, outs) ->
  outs = spec_run (default DefaultCacheTTL ttl, ∅) (calls es) /\ (lf_running l = false -> StopCalled ∈ es).
Proof.
  intros Ho Hr. split.
  - eapply collector_run_sim; [|exact Ho|exact Hr]. cbn [started lf_cache]. split; [apply New_inv|done|done|]. intros t' k _. unfold Get, spec_get. cbn. by rewrite !lookup_empty.
  - intros Hn. destruct (collector_run_stopped es (started (NewCache ttl gc)) l outs) as [H1 H2]; [done|done|]. by destruct (H2 (H1 Hn)).
Qed.

End Collector.

(** A tick, [Stop], one more tick before the goroutine sees it; a second [Stop] panics. *)
Lemma collector_invisible_witness :
  let es := [Called 0 (OSet (sample_key 1) 7 None); Ticked 5; Called 6 (OGet (sample_key 1)); StopCalled; Ticked 20; SeesStop;
             Called 20 (OGet (sample_key 1))] in
  (exists l, collector_run (started (NewCache (Some 10) None)) es = Some (l, spec_run (10, ∅) (calls es)) /\ Stop l = None) /\
  spec_run (10, ∅) (calls es) = [RNone; RGet (Some 7); RGet None].
Proof.
  intros es. destruct (collector_run (started (NewCache (Some 10) None)) es) as [[l outs]|] eqn:E; [|vm_compute in E; discriminate].
  destruct (collector_invisible (Some 10) None 0 es l outs) as [H _]; [cbn; lia|exact E|].
  split; [|vm_compute; reflexivity]. exists l. split; [by rewrite H|]. vm_compute in E. injection E as <- <-. vm_compute. reflexivity.
Defined.

(** ** The configuration tracker's process *)

Section TrackerMain.
Context {Address NodeConfig ChainCfg EvmClient Registry : Type}.
Variables (Getenv : string -> bytes) (ParseAddress : bytes -> option Address) (Unmarshal : bytes -> option (list NodeConfig)).
(** The Ethereum client: its configuration, the client of a chain, dialling it, and
    the binding of the registry's contract. *)
Variables (NewClientConfigs : list NodeConfig -> result string ChainCfg) (NewEvmClient : ChainCfg -> Z -> result string EvmClient)
  (Dial : EvmClient -> option string) (NewCapabilitiesRegistry : Address -> EvmClient -> result string Registry)
  (env_text : TrackerEnv.env_error -> string).

Definition refreshInterval : Z := 1 * minute.

Record tracker_process := mkProcess {
  tp_registry : Registry;
  tp_donID : Z;
  tp_hostPort : bytes;
  tp_configPort : bytes;
  tp_refreshInterval : Z;
  tp_tracker : configTracker;
}.

Definition NewConfigTracker (reg : Registry) (donID : Z) (hostPort configPort : bytes) (refresh T : Z) (masterPublicKey : bytes)
    (bft : bool) : tracker_process :=
  mkProcess reg donID hostPort configPort refresh (mkTracker T masterPublicKey bft).

(** How [main] goes: a panic without a logger, a fatal exit, or the tracker that is
    started, until a signal. *)
Inductive main_out := MainPanics (msg : string) | MainFatal (msg : string) | Starts (p : tracker_process).

Definition fatal {A} (prefix : string) (r : result string A) (k : A -> main_out) : main_out :=
  match r with Err e => MainFatal (prefix ++ e) | Ok a => k a end.

Definition tracker_main (logger : option string) : main_out :=
  match logger with
  | Some e => MainPanics ("Failed to create logger: " ++ e)
  | None =>
      match TrackerEnv.loadConfigFromEnv Getenv ParseAddress Unmarshal with
      | Err e => MainFatal ("Failed to load config from env: " ++ env_text e)
      | Ok env =>
          fatal "Failed to create client configs: " (NewClientConfigs (TrackerEnv.NODE_CONFIG env)) (fun cfg =>
          fatal "Failed to create EVM client: " (NewEvmClient cfg (TrackerEnv.CHAIN_ID env)) (fun client =>
          fatal "Failed to dial EVM client: " (match Dial client with Some e => Err e | None => Ok tt end) (fun _ =>
          fatal "Failed to create capabilities registry: " (NewCapabilitiesRegistry (TrackerEnv.CAP_REG_ADDR env) client) (fun reg =>
          let ct := TrackerEnv.env_tracker env in
          Starts (NewConfigTracker reg (TrackerEnv.DON_ID env) (TrackerEnv.HOST_PORT env) (TrackerEnv.CONFIG_PORT env) refreshInterval
                    (initialT ct) (initialMasterPublicKey ct) (requireBFTQuorum ct))))))
      end
  end.

(** A tracker that starts watches the registry at the address and on the chain of its
    environment, through a client that was dialled, and what it would install for a
    DON with faulty nodes is a complete configuration. *)
Lemma tracker_main_starts logger p :
  tracker_main logger = Starts p ->
  logger = None /\
  (exists env cfg client, TrackerEnv.loadConfigFromEnv Getenv ParseAddress Unmarshal = Ok env /\
    NewEvmClient cfg (TrackerEnv.CHAIN_ID env) = Ok client /\ Dial client = None /\
    NewCapabilitiesRegistry (TrackerEnv.CAP_REG_ADDR env) client = Ok (tp_registry p) /\ tp_donID p = TrackerEnv.DON_ID env) /\
  is_u32 (tp_donID p) /\ tp_hostPort p <> [] /\ tp_configPort p <> [] /\
  forall don c, 1 <= don_F don < 256 -> IsZero (target (tp_tracker p) don c) = false /\ T (target (tp_tracker p) don c) <> 0.
Proof.
  unfold tracker_main. destruct logger; [done|]. destruct (TrackerEnv.loadConfigFromEnv _ _ _) as [env|] eqn:Ee; [|done].
  destruct (TrackerEnv.tracker_env_complete _ _ _ env Ee) as (Hd & _ & _ & Hh & Hc & Ht).
  unfold fatal. destruct (NewClientConfigs _) as [cfg|]; [|done]. destruct (NewEvmClient _ _) as [client|] eqn:E1; [|done].
  destruct (Dial client) eqn:E2; [done|]. destruct (NewCapabilitiesRegistry _ _) as [reg|] eqn:E3; [|done]. intros [= <-].
  split; [done|]. split; [by exists env, cfg, client|]. split_and!; [done..|]. intros don c HF. cbn [NewConfigTracker tp_tracker].
  destruct (Ht don c HF) as (H1 & H2 & _). by destruct (TrackerEnv.env_tracker env).
Qed.

End TrackerMain.

(** ** Configuring a node directly *)

Section NodeConfig.
(** JSON, and [net/http]: the error of a URL no request can be made of; [Do] gives an
    error, or a response with its status and its body. *)
Context {Request Response : Type}.
Variables (Marshal : Request -> result string bytes) (NewRequest : string -> option string) (Decode : bytes -> result string Response).

Record http_answer := mkAnswer { ha_StatusCode : Z; ha_Body : bytes }.

Definition SetNodeConfig (Do : string -> bytes -> result string http_answer) (node : Enclave) (req : Request) : result string Response :=
  let fail {A} prefix (r : result string A) := match r with Err e => Err (prefix ++ e)%string | Ok a => Ok a end in
  let url := (EnclaveURL node ++ SetConfigPath)%string in
  let? body := fail "failed to marshal request: "%string (Marshal req) in
  let? _ := fail "failed to create request: "%string (match NewRequest url with Some e => Err e | None => Ok tt end) in
  let? resp := fail "failed to send request: "%string (Do url body) in
  if negb (ha_StatusCode resp =? 200) then
    Err ("request failed with status " ++ pretty (ha_StatusCode resp) ++ ": " ++ string_of (ha_Body resp))%string
  else fail "failed to decode response: "%string (Decode (ha_Body resp)).

End NodeConfig.

(** ** Certificates *)

(** [GetRootCACertPEM]: the chain a verified connection has, or an error; the last of it
    in PEM. *)
Definition GetRootCACertPEM {Cert Pem : Type} (tls_Dial : string -> result string (list Cert)) (EncodeToMemory : string -> Cert -> Pem)
    (host : string) : result string Pem :=
  match tls_Dial (host ++ ":443")%string with
  | Err e => Err ("failed to connect to " ++ host ++ ": " ++ e)%string
  | Ok certs =>
      match last certs with
      | None => Err ("no certificates returned by " ++ host)%string
      | Some rootCert => Ok (EncodeToMemory "CERTIFICATE"%string rootCert)
      end
  end.

(** ** Requirements on an enclave *)

Section Requirements.
(** The SDK's checker of requirements, given a test of the execution environments. *)
Context {Requirements SdkTee : Type}.
Variables (NewTeeProvider : TeeType -> list string -> SdkTee -> bool) (CheckRequirements : (SdkTee -> bool) -> Requirements -> bool).

Definition checkRequirements (req : option Requirements) : option (Enclave -> bool) :=
  match req with
  | None => None
  | Some req => Some (fun enc => CheckRequirements (NewTeeProvider (MapEnclaveType (EnclaveType enc)) [Region enc]) req)
  end.

(** The selected enclave meets the requirements; without any, every enclave may be
    selected. *)
Lemma selected_meets_requirements dead enclaves requestID req sel :
  SelectEnclaves dead enclaves requestID (checkRequirements req) = Ok sel ->
  exists e, sel = [e] /\ e ∈ enclaves /\
    forall r, req = Some r -> CheckRequirements (NewTeeProvider (MapEnclaveType (EnclaveType e)) [Region e]) r = true.
Proof.
  intros (e & before & after & -> & Hr & _)%SelectEnclaves_Ok. exists e. split; [done|].
  assert (e ∈ matching (checkRequirements req) enclaves) as He.
  { rewrite <- (rotate_perm (matching (checkRequirements req) enclaves)), Hr. apply elem_of_app. right. apply elem_of_cons. by left. }
  destruct req as [r|]; cbn [checkRequirements matching] in He; [|done].
  apply list_elem_of_In, filter_In in He as [He Hc]. split; [by apply list_elem_of_In|]. by intros r' [= <-].
Qed.

End Requirements.

(** ** A pool with the default configuration *)

(** It has no resolver of the request timeouts. *)
Definition NewPool `{HS : Sha256} (nitro : bytes -> bytes -> bytes -> bool) (url_ok : string -> bool) (out_of_range now : Z)
    (nodes : list Enclave) (order : list Enclave -> list Enclave) (answers : bytes -> key_call) : option (outcome enclavePool) :=
  NewPoolWithConfig nitro url_ok DefaultCacheConfig DefaultSessionConfig 0 out_of_range now nodes false order answers.

(** So it is never created. *)
Lemma default_pool_refused `{HS : Sha256} nitro url_ok oor now nodes order answers :
  NewPool nitro url_ok oor now nodes order answers = None.
Proof. reflexivity. Qed.

(** ** The loop that polls the enclave's resources *)

(** A turn of [select]: the context's end, or the timer, after which a poll takes its
    time and the context may have ended. *)
Record poll := mkPoll { took : Z; answer : poll_answer; ended : bool }.
Inductive wake := ContextDone | Fires (p : poll).

(** The polls as their start and end, the metrics, and whether the loop has returned.
    The timer is set anew after a poll. *)
Fixpoint monitorEnclaveMemory (interval t : Z) (ws : list wake) (m : hostMetrics) : list (Z * Z) * hostMetrics * bool :=
  match ws with
  | [] => ([], m, false)
  | ContextDone :: _ => ([], m, true)
  | Fires p :: ws =>
      let t' := t + took p in
      match monitor_round t' (answer p) (ended p) m with
      | None => ([(t, t')], (collectEnclaveMemory t' (answer p) m).2, true)
      | Some m =>
          let '(polls, m, returned) := monitorEnclaveMemory interval (t' + interval) ws m in ((t, t') :: polls, m, returned)
      end
  end.

(** The polls do not overlap: each starts the interval after the end of the last, and
    none is longer than its timeout. *)
Fixpoint spaced (interval timeout t : Z) (polls : list (Z * Z)) : Prop :=
  match polls with
  | [] => True
  | (start, stop) :: polls => start = t /\ start <= stop <= start + timeout /\ spaced interval timeout (stop + interval) polls
  end.

Definition in_timeout (timeout : Z) (w : wake) : Prop :=
  match w with ContextDone => True | Fires p => 0 <= took p <= timeout end.

Lemma polls_spaced interval timeout ws : forall t m, Forall (in_timeout timeout) ws ->
  spaced interval timeout t (monitorEnclaveMemory interval t ws m).1.1.
Proof.
  induction ws as [|[|p] ws IH]; intros t m Hw; [done|done|]. apply Forall_cons in Hw as [Hp Hw]. cbn [monitorEnclaveMemory].
  destruct (monitor_round _ _ _ m) as [m'|]; cbn in *; [|lia]. specialize (IH (t + took p + interval) m' Hw).
  destruct (monitorEnclaveMemory _ _ ws m') as [[polls m''] r]. cbn in *. split_and!; [done|lia|lia|done].
Qed.

(** An enclave that does not answer does not look healthy: while the loop runs, after a
    poll that failed no reading is left. *)
Lemma failed_poll_clears interval ws p : forall t m polls m',
  monitorEnclaveMemory interval t (ws ++ [Fires p]) m = (polls, m', false) ->
  (forall now m0, (collectEnclaveMemory now (answer p) m0).1 = false) ->
  Memory.memory (mem m') = None /\ CPU.guestCPUSample (cpu m') = None.
Proof.
  induction ws as [|[|q] ws IH]; intros t m polls m' Hr Hf; cbn [app monitorEnclaveMemory] in Hr; [|done|].
  - unfold monitor_round in Hr. specialize (Hf (t + took p) m). destruct (collectEnclaveMemory _ _ m) as [ok m1]. cbn in Hf. subst ok.
    destruct (ended p); [done|]. injection Hr as _ <-. done.
  - destruct (monitor_round _ _ _ m) as [m1|]; [|done].
    destruct (monitorEnclaveMemory interval _ (ws ++ [Fires p]) m1) as [[l m2] r] eqn:E. injection Hr as _ <- ->. by eapply IH.
Qed.

(** ** Readings of the process *)

(** [Getrusage]'s two times as seconds and microseconds, if it can be called. *)
Definition readProcessCPUSeconds (goos : string) (usage : option (Z * Z * (Z * Z))) : Z :=
  if negb (bool_decide (goos = "linux"%string)) then 0
  else match usage with None => 0 | Some ((us, uu), (ss, su)) => cpuSecondsFromRusage us uu ss su end.

(** A sample of [runtime/metrics]: an unsigned number, or another kind. *)
Definition readRuntimeMemoryBytes (sample : option Z) : Z := default 0 sample.

(** The combiner verifies shares when it aggregates them, and never alone. *)
Definition VerifyShare (ciphertext tdh2PublicKey share : bytes) : result string unit := Err "not implemented"%string.

(** The signers of a batch, for its log lines. *)
Definition signers (br : batchRequest) : list bytes := sort_bytes (elements (signersSeen br)).

(** They do not depend on the order of the map, and name each signer once. *)
Lemma signers_exact br : NoDup (signers br) /\ (forall k, k ∈ signers br <-> k ∈ signersSeen br) /\ Sorted bytes_le (signers br).
Proof.
  unfold signers, sort_bytes. split_and!.
  - rewrite merge_sort_Permutation. apply NoDup_elements.
  - intros k. rewrite merge_sort_Permutation. apply elem_of_elements.
  - apply Sorted_merge_sort. apply _.
Qed.
