(* ===== verification/EndToEnd.v ===== *)
(** * EndToEnd: a confidential workflow, from the engine to the guest

    The workflow capability ([Actions]), the executor ([Executor]), the enclave pool
    ([Pool]), the enclave server ([Server]) and the workflow application ([Workflow])
    in one theorem. *)

From S2P Require Import Prelude Codec Order Sha256 Types Cache Keychain Services Emitter Server ServerSafety ServerConfig ServerApp.
From S2P Require Import Selector Pool PoolSafety Fetcher Outbound Workflow WorkflowSafety.
From S2P Require Import Observability Executor ExecutorSafety System Actions.

Section EndToEnd.
Context `{HS : Sha256} `{HT : TDH2} {verified : bytes -> bytes -> bytes -> bool} `{HV : !SignatureVerifier verified}.
(** The node. *)
Variables (nitro : bytes -> bytes -> bytes -> bool) (url_ok : string -> bool) (oor : Z) (acct : string) (eth : string -> string).
(** The application and the server that hosts it. *)
Context {RawFetcher Requirements Restrictions Module_ TeeType : Type} `{EqDecision TeeType}.
Variables (Unmarshal_execution : bytes -> result string (WorkflowExecution Requirements Restrictions))
  (FetchBinary : RawFetcher -> bytes -> option bytes)
  (CheckRequirements : (Tee TeeType -> bool) -> option Requirements -> bool)
  (tpe : TeeType)
  (NewModule : bytes -> result string Module_ * Z)
  (run_guest : Module_ -> bytes -> option Restrictions -> helper_identity -> Z -> result wasm_error bytes * Z * list event)
  (Marshal_response : bytes -> result string bytes)
  (fetch_text : fetch_error -> string) (requirements_text : option Requirements -> string)
  (storageFactory : bytes -> bool -> bytes -> Z -> Z -> option RawFetcher)
  (dispatcherFactory : option (GatewayConfig -> option dispatcher))
  (Unmarshal_settings : bytes -> option WorkflowSettings)
  (wait : Z) (Attest : bytes -> option bytes) (Open : bytes -> bytes -> bytes -> option bytes)
  (Marshal_ : ExecuteResponse -> option bytes) (text : server_error -> string).
(** The encoding of the capability's messages. *)
Context {WorkflowResponse : Type}.
Variables (Marshal_execution : WorkflowExecution Requirements Restrictions -> result unit (option bytes))
  (Unmarshal_response : bytes -> option WorkflowResponse) (Quote : string -> string).
(** A message decodes to what was encoded. *)
Hypothesis execution_roundtrip : forall e b, Marshal_execution e = Ok (Some b) -> Unmarshal_execution b = Ok e.

Local Abbreviation env := (Hosted.workflow_env Unmarshal_execution FetchBinary CheckRequirements tpe NewModule run_guest Marshal_response
  fetch_text requirements_text storageFactory dispatcherFactory Unmarshal_settings wait Attest Open Marshal_ text).
#[local] Instance hosted_env : EnclaveEnv := env.

(** The enclaves run the server with the application from their start. *)
Definition hosting (s : enclaveServer) : Prop :=
  exists http max kc cfg reconfig ops, s = (server_run (NewEnclaveServer (NewConfidentialWorkflowsApp http max) kc cfg reconfig) ops).1.

Variable genuine : bytes -> hashed -> Prop.
Hypothesis nitro_sound : forall att ud m,
  nitro att ud m = true -> exists v, genuine m v /\ id_ok v = true /\ hash_of v = ud.
Hypothesis enclaves_run_server : forall m er v, genuine m (HResponse er v) ->
  ExecuteResponse_ok er /\ exists r, server_response (verified := verified) hosting r /\ er_bound r = er_bound er.

(** ** The application's state in a running server *)

Definition app_sound (_ : EnclaveConfig) (_ : bool) (a : confidentialWorkflowsApp (RawFetcher := RawFetcher)) : Prop :=
  fetcher_inv (fetcher a) /\ 0 <= lim_used (limiter a).

Lemma app_sound_kept : AppKeeps app_sound.
Proof.
  split.
  - intros c b a id app input secrets reqs [Hi Hu]. cbn.
    destruct (Executions.execute_outcome Unmarshal_execution FetchBinary CheckRequirements tpe NewModule run_guest Marshal_response
      fetch_text requirements_text wait id app input reqs a Hi Hu) as (r & evs & a' & -> & Hl & Hi' & _).
    split; cbn; [done|]. by rewrite Hl.
  - done.
  - intros c b a inject raw [= <-] [Hi Hu]. cbn. unfold InjectSettings, ensure_dispatcher.
    repeat case_match; simplify_eq; cbn; (split; [|done]); try done; by apply SetMax_inv.
  - intros c b a c' [Hi Hu]. unfold notified. cbn. unfold OnConfigUpdate. cbn. by destruct (app_dispatcher a).
Qed.

Lemma hosting_sound s : hosting s -> fetcher_inv (fetcher (world s)) /\ 0 <= lim_used (limiter (world s)).
Proof.
  intros (http & max & kc & cfg & reconfig & ops & ->).
  apply (server_run_holds (HE := hosted_env) app_sound (HK := app_sound_kept) ops). unfold ServerApp.holds.
  split; [apply new_inv|]. change (0 <= lim_used (newExecutionLimiter max)). unfold newExecutionLimiter. by destruct (max <=? 0).
Qed.

(** ** The theorem *)

Definition workflow_action (env : execute_env) := workflow_Execute nitro url_ok oor acct eth Marshal_execution Unmarshal_response Quote env.

(** The guest of [execution] ran in an enclave under the identity of [md], and its
    result became [output]. *)
Definition guest_ran (md : RequestMetadata) (execution : WorkflowExecution Requirements Restrictions) (output : bytes) : Prop :=
  exists sdk binary module budget result d evs reqs disp,
    SdkExecuteRequest execution = Some sdk /\ sha256 binary = BinaryHash execution /\
    CheckRequirements (validTee tpe) (we_Requirements execution) = true /\ (NewModule binary).1 = Ok module /\
    run_guest module sdk (we_Restrictions execution)
      (mkHelper (sha256 (bs (WorkflowExecutionID md))) (WorkflowID md) (we_Owner execution) (WorkflowExecutionID md) (OrgID md) reqs disp) budget
      = (Ok result, d, evs) /\
    Marshal_response result = Ok output.

(** What the server computed for a request of this execution is the guest's result. *)
Lemma computed_guest s (req : SignedComputeRequest) md execution b output :
  computed (verified := verified) hosting s req output ->
  Marshal_execution execution = Ok (Some b) -> same_identity md execution ->
  PublicData req = b -> RequestID req = sha256 (bs (WorkflowExecutionID md)) -> guest_ran md execution output.
Proof.
  intros (Hrun & reqs & secrets & w & _ & _ & Ha) Hb (Hw & He & _ & Ho) Hp Hid.
  destruct (hosting_sound s Hrun) as [Hi Hu]. unfold app_result in Ha. cbn in Ha.
  destruct (Executions.execute_outcome Unmarshal_execution FetchBinary CheckRequirements tpe NewModule run_guest Marshal_response
    fetch_text requirements_text wait (RequestID req) (AppID req) (PublicData req) reqs (world s) Hi Hu) as (r & evs & a' & E & _ & _ & _ & Hout).
  rewrite E in Ha. injection Ha as _ ->.
  destruct (Hout output eq_refl) as (x & sdk & binary & module & elapsed & result & d & gevs & _ & Hx & Hsdk & Hsha & Hreq & Hmod & _ & Hg & Hm).
  rewrite Hp, (execution_roundtrip execution b Hb) in Hx. injection Hx as <-.
  rewrite Hw, He, Ho, Hid in Hg.
  exists sdk, binary, module. eexists _, result, d, gevs, reqs, _. rewrite Hmod. split_and!; try done.
Qed.

(** C1 End to end for a confidential workflow.  Suppose that attested execution
    responses come from enclaves that run the server with the workflow application
    from their start, that at most the DON's fault bound of its members is faulty and
    that the others' signatures verify only on what they signed.  Then an answer the
    workflow engine receives is the decoded result of the guest: the binary with the
    SHA-256 the execution names, run on the execution's trigger under its
    restrictions in an enclave that meets its requirements, and acting under the
    identity in the metadata of the engine's request, not one the payload made up.  A
    member of the DON that is not faulty has signed the request.  The exceptions are
    SHA-256 collisions between values that were received, signed and attested. *)
Theorem workflow_end_to_end (xenv : execute_env) (md : RequestMetadata) (input : ConfidentialWorkflowRequest) (x : RealExecutor)
    (answer : WorkflowResponse) (x' : RealExecutor) (faulty : gset bytes) (has_signed : bytes -> bytes -> Prop) :
  workflow_action xenv md input x = (Answer answer, x') ->
  (forall j out, received (ee_attempt xenv j) out -> ExecuteResponse_ok out) ->
  Forall (fun e => EnclaveType e <> EnclaveTypeFake) (nodes (enclaveClient x')) ->
  Z.of_nat (size faulty) <= donF x' ->
  (forall p msg sig, p ∈ donMembers x' -> p ∉ faulty -> verified p msg sig = true -> has_signed p msg) ->
  exists execution b output (signed : SignedComputeRequest),
    wr_Execution input = Some execution /\ same_identity md execution /\ wr_VaultDonSecrets input = [] /\
    Unmarshal_response output = Some answer /\ own_request acct x' (ee_keystore xenv) (WorkflowExecutionID md) b [] signed /\
    ((exists s (req : SignedComputeRequest), computed (verified := verified) hosting s req output /\
        honest_signed x' faulty has_signed (compute_payload (ComputeRequest_Hash signed)) /\
        (ComputeRequest_ok (Request signed) ->
         guest_ran md execution output \/ collision (ComputeRequest_writes req) (ComputeRequest_writes signed))) \/
     exists j e out, received (ee_attempt xenv j) out /\ e ∈ nodes (enclaveClient x') /\ collides_with genuine e signed out).
Proof.
  intros H Hwf Hty Hsize Huf. apply workflow_Execute_Answer in H as (execution & pb & output & He & Hid & Hsec & Hm & Ho & Hx).
  destruct (system_output nitro url_ok oor acct eth hosting genuine nitro_sound enclaves_run_server xenv pb [] md x output x' faulty has_signed
    Hx Hwf Hty Hsize Huf) as (b & signed & -> & Hown & Hc).
  exists execution, b, output, signed. split_and!; [done..|]. destruct Hc as [(s & req & Hcomp & _ & _ & Hcov & Hh)|Hc]; [left|by right].
  exists s, req. split; [done|]. split; [done|]. intros Hok. destruct (Hcov Hok) as [E|Hcol]; [left|by right].
  destruct Hown as [Hrid _ Hpd _ _ _ _]. unfold covered in E. injection E as E1 E2 _ _ _ _ _ _.
  eapply computed_guest; [exact Hcomp|exact Hm|exact Hid|congruence|congruence].
Qed.

End EndToEnd.
