(* ===== verification/Reporting.v ===== *)
(** * Reporting: what a workflow's run shows to the DON

    Composes [Guest], [Server], [Observability] and [Executor]: the calls of a guest
    become events of the enclave's response, travel as JSON, and are re-emitted by the
    executor as metrics and as workflow events. *)

From Stdlib Require Import SpecFloat.
From S2P Require Import Prelude Float Codec Order Text Utf8 Sha256 Types Cache Keychain Services Emitter Server ServerSafety.
From S2P Require Import EvmAddress Relay Dispatcher Outbound Fetcher Workflow WorkflowSafety Guest Selector Pool PoolSafety Observability Executor ExecutorSafety.

(** ** Events of an execution *)

(** The labels the executor sets. *)
Definition scope_labels : list string :=
  ["component"; "enclave.id"; "workflow.owner"; "workflow.id"; "workflow.name"; "org.id"]%string.

(** The names of the events that become workflow events. *)
Definition workflow_event_names : list string := ["user_log"; "capability_started"; "capability_finished"]%string.

(** An event that sets no label of the executor. *)
Definition plain_details (d : gmap string any) : Prop := forall k, k ∈ scope_labels -> d !! k = None.
(** An event that is no workflow event either; its name is plain text. *)
Definition silent_name (n : string) : bool := bool_decide (n ∉ workflow_event_names) && bool_decide (json_string n = n).
Definition silent (ev : MetricEvent) : Prop := silent_name (Event ev) = true /\ plain_details (Details ev).

Lemma plain_round d : plain_details d -> plain_details (roundDurations d).
Proof.
  intros H k Hk. rewrite roundDurations_other; [by apply H|]. intros ->. revert Hk. by_compute.
Qed.

Lemma plain_list l : bool_decide (Forall (fun k => k ∉ scope_labels) (map fst l)) = true -> plain_details (list_to_map l).
Proof.
  intros H%bool_decide_eq_true k Hk. apply not_elem_of_list_to_map_1. intros Hin. rewrite Forall_forall in H.
  by destruct (H k Hin).
Qed.

Section ServerEvents.
Context `{HS : Sha256} `{HE : EnclaveEnv} `{HT : TDH2}
  {verified : bytes -> bytes -> bytes -> bool} `{HV : !SignatureVerifier verified}.

Lemma Emit_silent em name l :
  silent_name name = true -> bool_decide (Forall (fun k => k ∉ scope_labels) (map fst l)) = true ->
  Forall silent (em_metrics em) -> Forall silent (em_metrics (Emit em name (details l))).
Proof.
  intros Hn Hl Hem. cbn [Emit em_metrics]. apply Forall_app. split; [done|]. repeat constructor; [done|].
  apply plain_round, plain_list, Hl.
Qed.

(** A successful execution reports the application's events among its own, which are
    no workflow events and set no label. *)
Lemma execute_events clk (s : enclaveServer) m body s' (code : Z) (resp : ExecuteResponse) :
  handleExecute clk s m body = (HttpOK code resp, s') ->
  exists reqs req secrets w evs pre post,
    app_Execute (world s) (RequestID req) (AppID req) (PublicData req) secrets reqs = (w, evs, Ok (er_Output resp)) /\
    er_MetricEvents resp = pre ++ map as_metric evs ++ post /\ Forall silent pre /\ Forall silent post.
Proof.
  unfold handleExecute. set (em0 := Emit _ _ _). assert (Forall silent (em_metrics em0)) as H0 by (apply Emit_silent; [done|done|constructor]).
  clearbody em0. destruct (negb _); [done|]. destruct body as [| |reqs]; [done..|].
  destruct (check_signatures _ reqs) as [[[hash req] set]|[]]; [| repeat case_match; done..].
  set (em1 := Emit em0 _ _). assert (Forall silent (em_metrics em1)) as H1 by (apply Emit_silent; [done..|done]). clearbody em1.
  destruct (negb _); [done|]. destruct (in_progress _ _ _); [done|]. unfold execute_marked. destruct (replayed _ _ _); [done|].
  unfold execute_fresh. set (em2 := Emit em1 _ _). assert (Forall silent (em_metrics em2)) as H2 by (apply Emit_silent; [done..|done]). clearbody em2.
  destruct (negb _); [done|]. do 2 (destruct (decide _); [done|]). destruct (GetKeyPair _ _ _) as [kp|]; [|done].
  destruct (combine_nodes _ _ _ _ _ _ _) as [secrets|[]|]; [|done..].
  set (em3 := Emit em2 _ _). assert (Forall silent (em_metrics em3)) as H3 by (apply Emit_silent; [done..|done]). clearbody em3.
  unfold run_app, mark. cbn [world set_inProgress].
  destruct (app_Execute _ _ _ _ _ _) as [[w evs] [output|e]] eqn:Ea; [|done]. cbn [world set_world].
  unfold attest. cbn [world set_world]. destruct (CreateAttestation w _) as [w' [att|]]; [|done]. cbn [Snapshot fst snd].
  destruct (json_Marshal _); [|done]. intros [= <- <- <-]. cbn [er_Output er_MetricEvents].
  exists reqs, req, secrets, w, evs, (em_metrics em3).
  eexists [_; _]. split; [done|]. split; [|split; [done|repeat constructor]].
  - cbn [Emit em_metrics]. rewrite emit_all_events, <- !app_assoc. done.
  - done.
  - apply plain_round. by refine (plain_list [(_, _)] _).
  - done.
  - apply plain_round. by refine (plain_list [(_, _); (_, _); (_, _)] _).
Qed.

End ServerEvents.

(** ** Events of the workflow application *)

Section WorkflowEvents.
Context `{HS : Sha256} {RawFetcher Requirements Restrictions Module_ TeeType : Type} `{EqDecision TeeType}.
Variables (Unmarshal_execution : bytes -> result string (WorkflowExecution Requirements Restrictions))
  (FetchBinary : RawFetcher -> bytes -> option bytes)
  (CheckRequirements : (Tee TeeType -> bool) -> option Requirements -> bool)
  (tpe : TeeType)
  (NewModule : bytes -> result string Module_ * Z)
  (run_guest : Module_ -> bytes -> option Restrictions -> helper_identity -> Z -> result wasm_error bytes * Z * list event)
  (Marshal_response : bytes -> result string bytes)
  (fetch_text : fetch_error -> string) (requirements_text : option Requirements -> string).

Lemma silent_event name l :
  silent_name name = true -> bool_decide (Forall (fun k => k ∉ scope_labels) (map fst l)) = true -> silent (as_metric (name, details l)).
Proof. intros Hn Hl. split; [done|]. apply plain_round, plain_list, Hl. Qed.

(** A successful execution reports the guest's events among its own. *)
Lemma workflow_app_events wait requestID appID inputData reqs (a a' : confidentialWorkflowsApp (RawFetcher := RawFetcher)) out evs :
  Workflow.Execute Unmarshal_execution FetchBinary CheckRequirements tpe NewModule run_guest Marshal_response fetch_text requirements_text
    wait requestID appID inputData reqs a = Some (Ok out, evs, a') ->
  exists x module sdk budget result d gevs pre post,
    Unmarshal_execution inputData = Ok x /\
    run_guest module sdk (we_Restrictions x)
      (mkHelper requestID (WorkflowId x) (we_Owner x) (we_ExecutionId x) (we_OrgId x) reqs (app_dispatcher a)) budget = (Ok result, d, gevs) /\
    Marshal_response result = Ok out /\ evs = pre ++ gevs ++ post /\ Forall silent (map as_metric pre) /\ Forall silent (map as_metric post).
Proof.
  unfold Workflow.Execute. destruct (tryAcquire (limiter a)) as [[|] l]; cbn [negb]; [|done].
  unfold execute_admitted. case_bool_decide; cbn [negb]; [|by destruct (release _)].
  destruct (Unmarshal_execution inputData) as [x|] eqn:Ex; [|by destruct (release _)].
  repeat (case_bool_decide; [by destruct (release _)|]). destruct (glen (BinaryHash x) =? 0); [by destruct (release _)|].
  destruct (SdkExecuteRequest x) as [sdk|]; [|by destruct (release _)].
  destruct (Fetch _ _ _ _) as [[binary|] f']; [|by destruct (release _)].
  destruct (negb _); [by destruct (release _)|]. unfold executeWasm. destruct (NewModule binary) as [[module|] t];
    (destruct ((0 <? _) && _); [by destruct (release _)|]); [|by destruct (release _)].
  destruct (run_guest _ _ _ _ _) as [[[result|] d] gevs] eqn:Eg; [|by destruct (release _)].
  destruct (Marshal_response result) eqn:Em; [|by destruct (release _)]. destruct (release _); [|done]. intros [= <- <- _].
  exists x, module, sdk. eexists _, result, d, gevs, [_; _; _], [_]. split_and!; [done|exact Eg|done| | |].
  - cbn [app]. done.
  - apply Forall_cons_2; [refine (silent_event _ [(_, _)] _ _); reflexivity|].
    apply Forall_cons_2; [refine (silent_event _ [(_, _)] _ _); reflexivity|].
    apply Forall_cons_2; [refine (silent_event _ [(_, _); (_, _)] _ _); reflexivity|constructor].
  - apply Forall_cons_2; [refine (silent_event _ [(_, _); (_, _)] _ _); reflexivity|constructor].
Qed.

End WorkflowEvents.

(** ** Workflow events *)

(** A message without the time it was emitted at. *)
Definition untimed_coordinates (c : coordinates) : coordinates :=
  mkCoordinates (co_CreInfo c) (co_Workflow c) (co_WorkflowExecutionID c) "".
Definition untimed_event (ev : workflow_event) : workflow_event :=
  match ev with
  | WorkflowUserLog c msg => WorkflowUserLog (untimed_coordinates c) msg
  | CapabilityExecutionStarted c id step method => CapabilityExecutionStarted (untimed_coordinates c) id step method
  | CapabilityExecutionFinished c id step status err method => CapabilityExecutionFinished (untimed_coordinates c) id step status err method
  end.
Definition untimed (m : beholder_message) : beholder_message := mkMessage (bm_schema m) (bm_entity m) (untimed_event (bm_event m)).

(** The workflow events among what was emitted. *)
Definition beholders (l : list emission) : list beholder_message :=
  omap (fun e => match e with Beholder m => Some m | Metric _ => None end) l.

Lemma beholders_app l k : beholders (l ++ k) = beholders l ++ beholders k.
Proof. apply omap_app. Qed.
Lemma beholders_metrics l : beholders (map Metric l) = [].
Proof. by induction l. Qed.
Lemma beholders_map l : beholders (map Beholder l) = l.
Proof. induction l as [|m l IH]; [done|]. cbn. by f_equal. Qed.

Section Forwarded.
Variables (oor : Z) (Marshal : workflow_event -> bool) (meta : RequestMetadata) (shard : Z).
Hypothesis proto_ok : forall ev, Marshal ev = true.
Abbreviation events_at := (workflow_events oor Marshal meta shard).

Lemma events_untimed now ev : map untimed (events_at now ev) = events_at "" ev.
Proof.
  unfold workflow_events. repeat case_bool_decide; try done; [destruct (_ !! _) as [[]|]; try done| |];
    unfold emitUserLog, emitCapabilityStarted, emitCapabilityFinished, emitProtoEvent; by rewrite !proto_ok.
Qed.

Lemma forwarded_events scope clock evs : forall i,
  map untimed (beholders (forward_events oor Marshal meta shard scope clock i evs)) = concat (map (events_at "") evs).
Proof.
  induction evs as [|ev evs IH]; intros i; [done|]. cbn [forward_events map concat].
  change (beholders (Metric _ :: ?l)) with (beholders l). rewrite beholders_app, beholders_map, map_app, events_untimed. by rewrite IH.
Qed.

Lemma response_untimed scope clock order evs ms :
  map untimed (beholders (forward_response oor Marshal meta shard scope clock order evs ms)) = concat (map (events_at "") evs).
Proof.
  destruct evs as [|ev evs]; [|apply forwarded_events]. cbn [forward_response]. rewrite <- map_map with (g := Metric).
  by rewrite beholders_metrics.
Qed.

Lemma events_silent ev : silent ev -> events_at "" (json_event ev) = [].
Proof.
  intros [Hn _]. unfold silent_name in Hn. apply andb_true_iff in Hn as [Hn%bool_decide_eq_true Hj%bool_decide_eq_true].
  unfold workflow_events. cbn [Event json_event]. rewrite Hj. unfold workflow_event_names in Hn.
  rewrite !not_elem_of_cons in Hn. destruct Hn as (H1 & H2 & H3 & _). by rewrite !bool_decide_false.
Qed.

Lemma events_all_silent l : Forall silent l -> concat (map (events_at "") (map json_event l)) = [].
Proof. induction 1 as [|ev l Hev Hl IH]; [done|]. cbn [map concat]. by rewrite events_silent, IH. Qed.

(** ** What a guest's calls should show *)

Variables (http_ClientID ConsensusID : string).
Variables (decode_http : bytes -> result string httpfetch.Request) (encode_http : httpfetch.Response -> result string bytes)
  (decode_consensus : bytes -> result string SimpleConsensusInputs) (encode_value : bytes -> result string bytes)
  (fetch_error_text : httpfetch.fetch_error -> string) (Quote : string -> string).
Variables (fetch : option (httpfetch.Request -> result httpfetch.fetch_error httpfetch.Response))
  (remote : option (CapabilityRequest -> result string Workflow.CapabilityResponse)).
Variables (ErrInvalidParams : Z).
Abbreviation callCapability := (Workflow.callCapability http_ClientID ConsensusID decode_http encode_http decode_consensus encode_value fetch_error_text Quote fetch remote).
Abbreviation guest_events_of := (guest_events_of http_ClientID ConsensusID decode_http encode_http decode_consensus encode_value fetch_error_text Quote fetch remote ErrInvalidParams).
Abbreviation guest_events := (guest_events http_ClientID ConsensusID decode_http encode_http decode_consensus encode_value fetch_error_text Quote fetch remote ErrInvalidParams).

(** The error text of a call, empty for a success. *)
Definition call_error (req : CapabilityRequest) : string :=
  match callCapability req with Err e => e | Ok resp => GetError resp end.
Definition call_succeeded (req : CapabilityRequest) : bool :=
  match callCapability req with Err _ => false | Ok resp => bool_decide (GetError resp = ""%string) end.

Definition expected_of (c : guest_call) : list beholder_message :=
  let co := coordinates_at meta shard "" in
  match c with
  | GuestLog msg => [mkMessage "/cre-events-user-logs/v2" "workflows.v2.WorkflowUserLog" (WorkflowUserLog co (json_string msg))]
  | GuestCapability _ req =>
      let id := json_string (cr_Id req) in
      let method := json_string (cr_Method req) in
      [mkMessage "/cre-events-capability-started/v2" "workflows.v2.CapabilityExecutionStarted"
         (CapabilityExecutionStarted co id (cr_CallbackId req) method);
       mkMessage "/cre-events-capability-finished/v2" "workflows.v2.CapabilityExecutionFinished"
         (CapabilityExecutionFinished co id (cr_CallbackId req)
            (if call_succeeded req then EXECUTION_STATUS_SUCCEEDED else EXECUTION_STATUS_FAILED) (json_string (call_error req)) method)]
  | GuestSecrets _ _ _ | GuestMetric _ => []
  end.

(** The callback id is an [int32]. *)
Definition int32_call (c : guest_call) : Prop :=
  match c with GuestCapability _ req => - 2 ^ 31 <= cr_CallbackId req < 2 ^ 31 | _ => True end.

Lemma int32_of_json z : - 2 ^ 31 <= z < 2 ^ 31 -> int32_of_float oor (float_of_int z) = z.
Proof.
  intros H. unfold int32_of_float. rewrite float_of_int_trunc by lia.
  destruct (Z.leb_spec (- 2 ^ 31) z), (Z.ltb_spec z (2 ^ 31)); done || lia.
Qed.

Lemma json_details k d : k <> duration_key -> (json_value <$> roundDurations d) !! k = json_value <$> d !! k.
Proof. intros Hk. by rewrite lookup_fmap, roundDurations_other. Qed.

Lemma detail_string_json d k s : k <> duration_key -> d !! k = Some (AString s) -> detail_string (json_value <$> roundDurations d) k = json_string s.
Proof. intros Hk Hs. unfold detail_string. by rewrite json_details, Hs. Qed.
Lemma detail_string_none d k : k <> duration_key -> d !! k = None -> detail_string (json_value <$> roundDurations d) k = json_string "".
Proof. intros Hk Hs. unfold detail_string. by rewrite json_details, Hs. Qed.
Lemma detail_bool_json d k b : k <> duration_key -> d !! k = Some (ABool b) -> detail_bool (json_value <$> roundDurations d) k = b.
Proof. intros Hk Hs. unfold detail_bool. by rewrite json_details, Hs. Qed.
Lemma detail_int_json d k z : k <> duration_key -> d !! k = Some (AInt z) -> - 2 ^ 31 <= z < 2 ^ 31 ->
  detailInt32 oor (json_value <$> roundDurations d) k = z.
Proof. intros Hk Hs Hz. unfold detailInt32. rewrite json_details, Hs by done. by apply int32_of_json. Qed.

Lemma started_event d :
  events_at "" (json_event (as_metric ("capability_started"%string, d))) =
  let d := json_value <$> roundDurations d in
  [mkMessage "/cre-events-capability-started/v2" "workflows.v2.CapabilityExecutionStarted"
     (CapabilityExecutionStarted (coordinates_at meta shard "") (detail_string d "capability_id") (detailInt32 oor d "step_ref") (detail_string d "method"))].
Proof. transitivity (emitCapabilityStarted Marshal meta shard "" (detail_string (json_value <$> roundDurations d) "capability_id")
    (detail_string (json_value <$> roundDurations d) "method") (detailInt32 oor (json_value <$> roundDurations d) "step_ref")); [reflexivity|].
  unfold emitCapabilityStarted, emitProtoEvent. by rewrite proto_ok. Qed.

Lemma finished_event d :
  events_at "" (json_event (as_metric ("capability_finished"%string, d))) =
  let d := json_value <$> roundDurations d in
  [mkMessage "/cre-events-capability-finished/v2" "workflows.v2.CapabilityExecutionFinished"
     (CapabilityExecutionFinished (coordinates_at meta shard "") (detail_string d "capability_id") (detailInt32 oor d "step_ref")
        (if detail_bool d "success" then EXECUTION_STATUS_SUCCEEDED else EXECUTION_STATUS_FAILED) (detail_string d "error") (detail_string d "method"))].
Proof. transitivity (emitCapabilityFinished Marshal meta shard "" (detail_string (json_value <$> roundDurations d) "capability_id")
    (detail_string (json_value <$> roundDurations d) "method") (detailInt32 oor (json_value <$> roundDurations d) "step_ref")
    (detail_bool (json_value <$> roundDurations d) "success") (detail_string (json_value <$> roundDurations d) "error")); [reflexivity|].
  unfold emitCapabilityFinished, emitProtoEvent. by rewrite proto_ok. Qed.

Lemma execution_event d : events_at "" (json_event (as_metric ("capability_execution"%string, d))) = [].
Proof. reflexivity. Qed.

(** One call shows exactly what it should. *)
Lemma capability_reported h d req : int32_call (GuestCapability d req) ->
  concat (map (events_at "") (map json_event (map as_metric (guest_events_of h (GuestCapability d req))))) = expected_of (GuestCapability d req).
Proof.
  intros Hz. cbn [int32_call] in Hz. cbn [Guest.guest_events_of expected_of]. unfold Workflow.CallCapability, call_succeeded, call_error.
  destruct (callCapability req) as [resp|e]; [destruct (bool_decide (GetError resp = ""%string)) eqn:E|]; cbn [fst snd map concat app];
    rewrite started_event, execution_event, finished_event; cbn [app]; cbv zeta;
    repeat first [ rewrite (detail_string_json _ _ (cr_Id req)) by done | rewrite (detail_string_json _ _ (cr_Method req)) by done
                 | rewrite (detail_int_json _ _ (cr_CallbackId req)) by done ].
  - rewrite (detail_bool_json _ _ true), detail_string_none by done. apply bool_decide_eq_true in E. by rewrite E.
  - rewrite (detail_bool_json _ _ false), (detail_string_json _ _ (GetError resp)) by done. done.
  - rewrite (detail_bool_json _ _ false), (detail_string_json _ _ e) by done. done.
Qed.

Lemma call_report h c : int32_call c ->
  concat (map (events_at "") (map json_event (map as_metric (guest_events_of h c)))) = expected_of c.
Proof.
  destruct c as [d req|d n r|msg|m]; intros Hc; [by apply capability_reported|done| |done].
  cbn [Guest.guest_events_of map concat]. rewrite app_nil_r.
  transitivity (emitUserLog Marshal meta shard "" (json_string msg)); [reflexivity|]. unfold emitUserLog, emitProtoEvent. by rewrite proto_ok.
Qed.

Lemma run_reported h calls : Forall int32_call calls ->
  concat (map (events_at "") (map json_event (map as_metric (guest_events h calls)))) = concat (map expected_of calls).
Proof.
  induction 1 as [|c calls Hc Hcs IH]; [done|]. unfold Guest.guest_events in *. cbn [map concat].
  rewrite !map_app, concat_app, call_report by done. by f_equal.
Qed.

End Forwarded.

(** ** Metrics of a guest *)

Definition sample_key (sm : sample) : string := match sm with CounterAdd k _ _ | HistogramRecord k _ _ => k end.
Definition sample_attrs (sm : sample) : gmap string attribute := match sm with CounterAdd _ _ a | HistogramRecord _ _ a => a end.

Lemma samples_shape C H Sp base ev sm : sm ∈ samples_of C H Sp base ev ->
  sample_attrs sm = attributes Sp (Details ev) /\ exists name, sample_key sm = sanitizeName name.
Proof.
  unfold samples_of. case_bool_decide; [set_solver|]. rewrite elem_of_app. intros [Hs|Hs].
  - destruct (C _); [|set_solver]. apply list_elem_of_singleton in Hs as ->. by eauto.
  - destruct (duration_of _); [|set_solver]. cbn zeta in Hs. destruct (H _); [|set_solver]. apply list_elem_of_singleton in Hs as ->. by eauto.
Qed.

Lemma label_key_plain k : label_key k ∉ scope_labels.
Proof. unfold scope_labels. rewrite !not_elem_of_cons. unfold label_key. cbn. split_and!; try discriminate. set_solver. Qed.

Section Metrics.
Variables (http_ClientID ConsensusID : string).
Variables (decode_http : bytes -> result string httpfetch.Request) (encode_http : httpfetch.Response -> result string bytes)
  (decode_consensus : bytes -> result string SimpleConsensusInputs) (encode_value : bytes -> result string bytes)
  (fetch_error_text : httpfetch.fetch_error -> string) (Quote : string -> string).
Variables (fetch : option (httpfetch.Request -> result httpfetch.fetch_error httpfetch.Response))
  (remote : option (CapabilityRequest -> result string Workflow.CapabilityResponse)).
Variables (ErrInvalidParams : Z).
Abbreviation guest_events_of := (guest_events_of http_ClientID ConsensusID decode_http encode_http decode_consensus encode_value fetch_error_text Quote fetch remote ErrInvalidParams).
Abbreviation guest_events := (guest_events http_ClientID ConsensusID decode_http encode_http decode_consensus encode_value fetch_error_text Quote fetch remote ErrInvalidParams).

Lemma plain_labels (labels : list (string * string)) :
  plain_details (list_to_map (map (fun kv => (label_key kv.1, AString kv.2)) labels)).
Proof.
  intros k Hk. apply not_elem_of_list_to_map_1. rewrite map_map. intros (kv & -> & _)%list_elem_of_fmap. by apply label_key_plain in Hk.
Qed.

(** No call of a guest sets a label of the executor. *)
Lemma guest_call_plain h c : Forall (fun ev => plain_details ev.2) (guest_events_of h c).
Proof.
  destruct c as [d req|d n r|msg|m]; cbn [Guest.guest_events_of].
  - unfold CallCapability. destruct (callCapability _ _ _ _ _ _ _ _ _ _ _) as [resp|e]; [case_bool_decide|];
      repeat apply Forall_cons_2; try constructor; apply plain_list; reflexivity.
  - unfold get_secrets_event. repeat constructor. apply plain_list. by destruct (secrets_ok r).
  - repeat constructor. by apply plain_list.
  - repeat constructor. intros k Hk. cbn [EmitUserMetric snd]. apply lookup_union_None. split; [by apply plain_labels|]. by apply plain_list.
Qed.

Lemma guest_plain h calls : Forall (fun ev => plain_details ev.2) (guest_events h calls).
Proof. unfold Guest.guest_events. apply Forall_concat, Forall_fmap, Forall_forall. intros c _. apply guest_call_plain. Qed.

Lemma scoped_label scope ev k :
  plain_details ev.2 -> k ∈ scope_labels -> Details (scoped scope (Event (json_event (as_metric ev))) (Details (json_event (as_metric ev)))) !! k = scope !! k.
Proof.
  intros Hp Hk. cbn [scoped Details json_event]. rewrite lookup_union_r; [done|]. rewrite lookup_fmap.
  pose proof (plain_round _ Hp k Hk) as H. unfold as_metric. cbn [Details]. by rewrite H.
Qed.

(** A workflow's author cannot forge or flood the labels of the metrics.  Whatever
    a guest logs, calls, reads and measures, each of its events counts exactly once
    (and once more as a duration), however the instruments were cached; every sample
    has a legal name, only attributes of the allowlist, and for each label of the
    executor (component, enclave, owner, workflow, organisation) the executor's
    value: a user label never replaces it. *)
Theorem guest_metrics_confined (Int64Counter Float64Histogram : string -> bool) (Sprint : any -> string)
    (base : string) (scope : gmap string any) (h : helper_identity) (calls : list guest_call) :
  let evs := map (fun ev => scoped scope (Event ev) (Details ev)) (map json_event (map as_metric (guest_events h calls))) in
  let samples := (emit_events Int64Counter Float64Histogram Sprint (NewMetricsEmitter base) evs).2 in
  samples = concat (map (samples_of Int64Counter Float64Histogram Sprint base) evs) /\
  forall sm, sm ∈ samples ->
    Forall (fun c => legal_char c = true) (bs (sample_key sm)) /\
    (forall k, is_Some (sample_attrs sm !! k) -> k ∈ allowedMetricAttributes) /\
    (forall k, k ∈ scope_labels -> sample_attrs sm !! k = attribute_of Sprint <$> scope !! k).
Proof.
  intros evs samples.
  assert (samples = concat (map (samples_of Int64Counter Float64Histogram Sprint base) evs)) as Hs.
  { apply emit_events_exact. split; set_solver. }
  split; [done|]. intros sm. rewrite Hs. intros (l & Hl & Hsm)%list_elem_of_In%in_concat.
  apply list_elem_of_In, list_elem_of_fmap in Hl as (ev & -> & Hev). apply list_elem_of_In in Hsm.
  apply samples_shape in Hsm as [-> [name ->]]. split.
  { unfold sanitizeName. rewrite bs_string_of. apply sanitize_legal. }
  split; intros k; rewrite attributes_lookup.
  - case_bool_decide; [by intros []|]. unfold allowedAttribute. by case_bool_decide; intros [].
  - intros Hk. rewrite bool_decide_false by (intros ->; revert Hk; by_compute).
    replace (allowedAttribute k) with true by (symmetry; revert k Hk; apply Forall_forall; by_compute).
    unfold evs in Hev. rewrite !map_map in Hev. apply list_elem_of_fmap in Hev as (gev & -> & Hg).
    rewrite scoped_label; [done| |done]. pose proof (guest_plain h calls) as Hp. rewrite Forall_forall in Hp. by apply Hp.
Qed.

End Metrics.

(** ** What the executor emits *)

Section ExecutorEvents.
Context `{HS : Sha256}.
Variables (nitro : bytes -> bytes -> bytes -> bool) (url_ok : string -> bool) (oor : Z).
Variables (acct : string) (eth : string -> string).
Abbreviation attempt := (execute_attempt nitro url_ok oor acct eth).
Abbreviation execute := (Execute_observed nitro url_ok oor acct eth).

Definition shown (r : exec_run) : list beholder_message := beholders (xr_emitted r).

Lemma log_metrics l r : beholders l = [] -> shown (log l r) = shown r.
Proof. intros Hl. unfold shown. cbn [log xr_emitted]. by rewrite beholders_app, Hl, app_nil_r. Qed.

Lemma keeps_shown_executor {A} (m : M RealExecutor A) : keeps shown (on_executor m).
Proof. intros r. unfold on_executor. by destruct (m _). Qed.

Lemma keeps_shown_observe {A} failed (m : M exec_run A) :
  (forall md e, beholders (failed md e) = []) -> keeps shown m -> keeps shown (observe failed m).
Proof.
  intros Hf H r. unfold observe. specialize (H r). destruct (m r) as [[a|e|] r']; cbn [snd] in *; [done| |done]. by rewrite log_metrics.
Qed.

(** No attempt shows a workflow event, failed or not. *)
Lemma attempt_shows_nothing env protoBytes secrets aenv : keeps shown (attempt env protoBytes secrets aenv).
Proof.
  unfold execute_attempt. pose proof @keeps_shown_executor.
  assert (forall P : exec_run -> list emission, (forall r, beholders (P r) = []) -> keeps shown (modify (fun r => log (P r) r))) as Hlog.
  { intros P HP. apply keeps_modify. intros r. by rewrite log_metrics. }
  keeps_tac; try (apply keeps_shown_observe; [done|solve [eauto with keeps]]); try (by apply keeps_modify).
  - apply keeps_modify. intros r. unfold next_reference. by destruct (xr_vaultDONRequestSent r).
  - apply Hlog. intros r. unfold cache_events. by repeat case_match.
  - apply Hlog. intros r. unfold pool_events. repeat case_match; try done. apply beholders_metrics.
  - apply keeps_shown_observe; [|done]. intros md e. unfold execute_error_events. by destruct e.
Qed.

Lemma retry_shows_nothing mx (fn : nat -> M exec_run unit) cancelled n : (forall i, keeps shown (fn i)) ->
  forall i b errs r, shown (retry_loop mx fn cancelled n i b errs r).2 = shown r.
Proof.
  intros Hk. induction n as [|n IH]; intros i b errs r; cbn [retry_loop]; [done|]. specialize (Hk i r).
  destruct (fn i r) as [[u|e|] r']; cbn [snd] in Hk; [done| |done]. destruct (user_error e); [done|]. destruct (cancelled i b); [done|].
  by rewrite IH.
Qed.

(** Retries change nothing of the metadata but the reference. *)
Definition same_request (r : exec_run) : RequestMetadata := set_reference "" (xr_metadata r).

Lemma attempt_same_request env protoBytes secrets aenv : keeps same_request (attempt env protoBytes secrets aenv).
Proof.
  unfold execute_attempt.
  assert (forall A (m : M RealExecutor A), keeps same_request (on_executor m)) as He by (intros A m r; unfold on_executor; by destruct (m _)).
  keeps_tac; try (apply keeps_observe; [done|solve [eauto with keeps]]); apply keeps_modify; try done.
  intros r. unfold next_reference. by destruct (xr_vaultDONRequestSent r).
Qed.

Abbreviation forwarded env := (forward_response oor (ee_proto env)).

Lemma forward_reference env id md shard scope clock order evs ms :
  forwarded env (set_reference id md) shard scope clock order evs ms = forwarded env md shard scope clock order evs ms.
Proof. reflexivity. Qed.

(** An execution that gives no output shows no workflow event; one that does shows
    those of the response it accepted. *)
Lemma execute_shows env protoBytes secrets md x o x' l :
  execute env protoBytes secrets md x = (o, x', l) ->
  match o with
  | Output output =>
      exists out j scope, received (ee_attempt env j) out /\ er_Output out = output /\
        beholders l = beholders (forwarded env md (shardIndex x') scope (ee_clock env) (ee_range env) (er_MetricEvents out) (er_Metrics out))
  | _ => beholders l = []
  end.
Proof.
  unfold Execute_observed. destruct (initLazily _ _ _ _ _ _ _) as [[[]| |] x1]; [|by intros [= <- _ <-]..].
  destruct (negb _); [by intros [= <- _ <-]|]. destruct (capConfig _) as [cfg|]; [|by intros [= <- _ <-]].
  destruct (retryWithBackoff _ _ _ _) as [ro r] eqn:E. intros [= <- <- <-].
  unfold retryWithBackoff in E. match type of E with retry_loop ?mx ?fn ?c ?n ?i0 ?b ?errs ?r0 = _ =>
    pose proof (retry_shows_nothing mx fn c n (fun i => attempt_shows_nothing env protoBytes secrets (ee_attempt env i)) i0 b errs r0) as Hs end.
  rewrite E in Hs. cbn [snd] in Hs. unfold shown in Hs. cbn [xr_emitted] in Hs.
  change (beholders [metric md "requests_received_total" []]) with (@nil beholder_message) in Hs.
  assert (forall k, beholders (xr_emitted r ++ k ++ [total_event env md (xr_enclaveIDStr r) (finish env ro r)]) = beholders k) as Hb.
  { intros k. rewrite !beholders_app, Hs. cbn [app]. apply app_nil_r. }
  rewrite Hb. unfold finish, completed_events. destruct ro; try (by repeat case_match).
  apply (retry_loop_success (fun r => same_request r = set_reference "" md)) in E as (j & r1 & Hr1 & Ha); [| |done].
  - pose proof (attempt_same_request env protoBytes secrets (ee_attempt env j) r1) as Hsame. rewrite Ha in Hsame. cbn [snd] in Hsame.
    apply attempt_Ret in Ha as (input & signed & out & _ & Hresp & _ & _ & Hrec). rewrite Hresp.
    eexists out, j, _. split; [done|]. split; [done|]. rewrite beholders_app.
    rewrite <- (forward_reference env "" md), <- Hr1, <- Hsame. unfold same_request. rewrite forward_reference. cbn [app]. apply app_nil_r.
  - intros i s <-. apply (attempt_same_request _ _ _ _ s).
Qed.

(** What the workflow of a failed execution logged is not shown, whatever it was. *)
Theorem failed_execution_shows_nothing env protoBytes secrets md x o x' l :
  execute env protoBytes secrets md x = (o, x', l) -> (forall output, o <> Output output) -> beholders l = [].
Proof. intros H%execute_shows Hn. destruct o; try done. by destruct (Hn output). Qed.

End ExecutorEvents.

(** ** From the guest to the DON *)

Section Composed.
Context `{HS : Sha256} {RawFetcher Requirements Restrictions Module_ TeeType : Type} `{EqDecision TeeType}.
Context `{HT : TDH2} {verified : bytes -> bytes -> bytes -> bool} `{HV : !SignatureVerifier verified}.
(** The enclave. *)
Variables (Unmarshal_execution : bytes -> result string (WorkflowExecution Requirements Restrictions))
  (FetchBinary : RawFetcher -> bytes -> option bytes)
  (CheckRequirements : (Tee TeeType -> bool) -> option Requirements -> bool)
  (tpe : TeeType)
  (NewModule : bytes -> result string Module_ * Z)
  (run_guest : Module_ -> bytes -> option Restrictions -> helper_identity -> Z -> result wasm_error bytes * Z * list event)
  (Marshal_response : bytes -> result string bytes)
  (fetch_text : fetch_error -> string) (requirements_text : option Requirements -> string)
  (storageFactory : bytes -> bool -> bytes -> Z -> Z -> option RawFetcher)
  (dispatcherFactory : option (GatewayConfig -> option dispatcher))
  (Unmarshal_settings : bytes -> option WorkflowSettings) (wait : Z)
  (Attest : bytes -> option bytes) (Open : bytes -> bytes -> bytes -> option bytes)
  (Marshal : ExecuteResponse -> option bytes) (text : server_error -> string).
(** The capabilities of the guest. *)
Variables (http_ClientID ConsensusID : string).
Variables (decode_http : bytes -> result string httpfetch.Request) (encode_http : httpfetch.Response -> result string bytes)
  (decode_consensus : bytes -> result string SimpleConsensusInputs) (encode_value : bytes -> result string bytes)
  (fetch_error_text : httpfetch.fetch_error -> string) (Quote : string -> string).
Variables (fetch : option (httpfetch.Request -> result httpfetch.fetch_error httpfetch.Response))
  (remote : option (CapabilityRequest -> result string Workflow.CapabilityResponse)).
Variables (ErrInvalidParams : Z).
(** The node. *)
Variables (nitro : bytes -> bytes -> bytes -> bool) (url_ok : string -> bool) (oor : Z).
Variables (acct : string) (eth : string -> string).

(** The calls a run of the guest makes; its events are theirs. *)
Variable calls_of : Module_ -> bytes -> option Restrictions -> helper_identity -> Z -> list guest_call.
Hypothesis guest_run : forall module sdk restr h budget,
  (run_guest module sdk restr h budget).2 =
  guest_events http_ClientID ConsensusID decode_http encode_http decode_consensus encode_value fetch_error_text Quote fetch remote ErrInvalidParams h
    (calls_of module sdk restr h budget).
Hypothesis callbacks : forall module sdk restr h budget, Forall int32_call (calls_of module sdk restr h budget).

#[local] Instance hosted : EnclaveEnv :=
  Hosted.workflow_env Unmarshal_execution FetchBinary CheckRequirements tpe NewModule run_guest Marshal_response fetch_text requirements_text
    storageFactory dispatcherFactory Unmarshal_settings wait Attest Open Marshal text.

Abbreviation expected md shard :=
  (expected_of md shard http_ClientID ConsensusID decode_http encode_http decode_consensus encode_value fetch_error_text Quote fetch remote).

(** What the response of the enclave shows once forwarded. *)
Lemma response_shows clk (s : enclaveServer) m body code resp s' md shard Marshal_event :
  (forall ev, Marshal_event ev = true) ->
  handleExecute clk s m body = (HttpOK code resp, s') ->
  exists module sdk restr h budget result,
    (run_guest module sdk restr h budget).1.1 = Ok result /\ Marshal_response result = Ok (er_Output resp) /\
    concat (map (workflow_events oor Marshal_event md shard "") (map json_event (er_MetricEvents resp))) =
    concat (map (expected md shard) (calls_of module sdk restr h budget)).
Proof.
  intros Hp (reqs & req & secrets & w & evs & pre & post & Happ & Hevs & Hpre & Hpost)%execute_events.
  cbn in Happ. destruct (Workflow.Execute _ _ _ _ _ _ _ _ _ _ _ _ _ _ _) as [[[r evs0] a']|] eqn:Ex; [|done]. injection Happ as <- <- ->.
  apply workflow_app_events in Ex as (x & module & sdk & budget & result & d & gevs & pre2 & post2 & _ & Hg & Hm & -> & Hpre2 & Hpost2).
  exists module, sdk, (we_Restrictions x). eexists _, budget, result. rewrite Hg. split; [done|]. split; [done|].
  pose proof (guest_run module sdk (we_Restrictions x)
    (mkHelper (RequestID req) (WorkflowId x) (we_Owner x) (we_ExecutionId x) (we_OrgId x) reqs (app_dispatcher (world s))) budget) as Hr.
  rewrite Hg in Hr. cbn [snd] in Hr. rewrite Hevs.
  rewrite Hr, !map_app, !concat_app. rewrite (events_all_silent _ _ _ _ pre), (events_all_silent _ _ _ _ post), (events_all_silent _ _ _ _ (map as_metric pre2)), (events_all_silent _ _ _ _ (map as_metric post2)) by done.
  rewrite (run_reported oor Marshal_event md shard Hp) by apply callbacks.
  cbn [app]. by rewrite !app_nil_r.
Qed.

(** C16 What a workflow logs and calls reaches the DON when its execution succeeds.
    The guest's log lines and capability calls become events of the enclave's
    response; if the responses a node receives carry its output and those events (as
    JSON carries them), then an execution that returns an output returns that of the guest's
    run, and has emitted one user log per line and a started and a finished event per
    call, in the order of the guest's calls, with the call's identity, step and outcome, under the workflow,
    execution and shard of the request, and no other workflow event. *)
Theorem workflow_events_reach_don clk (s : enclaveServer) m body code resp s' env protoBytes secrets md x o x' l :
  handleExecute clk s m body = (HttpOK code resp, s') ->
  (forall j out, received (ee_attempt env j) out ->
     er_Output out = er_Output resp /\ er_MetricEvents out = map json_event (er_MetricEvents resp)) ->
  (forall ev, ee_proto env ev = true) ->
  Execute_observed nitro url_ok oor acct eth env protoBytes secrets md x = (Output o, x', l) ->
  exists module sdk restr h budget result,
    (run_guest module sdk restr h budget).1.1 = Ok result /\ Marshal_response result = Ok o /\
    map untimed (beholders l) = concat (map (expected md (shardIndex x')) (calls_of module sdk restr h budget)).
Proof.
  intros He Hr Hp (out & j & scope & Hrec & <- & ->)%execute_shows. destruct (Hr j out Hrec) as [-> Hev].
  destruct (response_shows clk s m body code resp s' md (shardIndex x') _ Hp He) as (module & sdk & restr & h & budget & result & H1 & H2 & H3).
  exists module, sdk, restr, h, budget, result. split; [done|]. split; [done|].
  rewrite response_untimed by done. by rewrite Hev.
Qed.

End Composed.
