(* ===== verification/ErrorPath.v ===== *)
(** * ErrorPath: a failure on its way to the node

    Composes [Server], [HostHttp], [Pool] and [Executor]: the error of an application
    becomes the enclave's JSON error, which the host decodes and relays under its own
    message, from whose text the executor decides whether the user is to blame. *)

From S2P Require Import Prelude Codec Text Utf8 Sha256 Types Cache Keychain Services Emitter Server ServerSafety.
From S2P Require Import Host HostMetrics Observability Pool WorkflowSafety HostHttp Executor.

(** ** Texts *)

Lemma prefix_split sub s : String.prefix sub s = true -> exists b, s = (sub ++ b)%string.
Proof.
  revert s. induction sub as [|c sub IH]; intros [|d s]; cbn; [by eexists..|done|].
  destruct (Ascii.ascii_dec c d) as [->|]; [|done]. intros (b & ->)%IH. by exists b.
Qed.

Lemma contains_String c s sub : contains (String c s) sub = String.prefix sub (String c s) || contains s sub.
Proof. unfold contains. cbn [String.index]. destruct sub as [|d sub]; [done|]. cbn [String.prefix]. repeat case_match; done. Qed.

Lemma contains_split s sub : contains s sub = true -> exists a b, s = (a ++ sub ++ b)%string.
Proof.
  induction s as [|c s IH].
  - unfold contains. destruct sub; [|done]. intros _. by exists ""%string, ""%string.
  - rewrite contains_String. intros [(b & ->)%prefix_split|(a & b & ->)%IH]%orb_true_iff; [by exists ""%string, b|by exists (String c a), b].
Qed.

Lemma prefix_app sub b : String.prefix sub (sub ++ b) = true.
Proof.
  induction sub as [|c sub IH]; [by destruct b|]. change (String c sub ++ b)%string with (String c (sub ++ b)).
  simpl. destruct (Ascii.ascii_dec c c); [exact IH|congruence].
Qed.

Lemma contains_prefix s sub : String.prefix sub s = true -> contains s sub = true.
Proof. destruct s as [|c s]; intros H; [by destruct sub|]. by rewrite contains_String, H. Qed.

Lemma contains_middle a sub b : contains (a ++ sub ++ b) sub = true.
Proof.
  induction a as [|c a IH]; [exact (contains_prefix _ _ (prefix_app sub b))|]. change (String c a ++ sub ++ b)%string with (String c (a ++ sub ++ b)).
  rewrite contains_String, IH. apply orb_true_r.
Qed.

Lemma append_assoc (a b c : string) : ((a ++ b) ++ c = a ++ b ++ c)%string.
Proof. induction a as [|x a IH]; [done|]. exact (f_equal (String x) IH). Qed.

Lemma append_nil (a : string) : (a ++ "" = a)%string.
Proof. induction a as [|x a IH]; [done|]. exact (f_equal (String x) IH). Qed.

Lemma contains_within a s b sub : contains s sub = true -> contains (a ++ s ++ b) sub = true.
Proof.
  intros (x & y & ->)%contains_split. rewrite <- (append_assoc a), <- !append_assoc, append_assoc, (append_assoc _ sub). apply contains_middle.
Qed.

Lemma string_of_append a b : string_of (a ++ b) = (string_of a ++ string_of b)%string.
Proof. apply bs_inj. by rewrite bs_append, !bs_string_of. Qed.

(** Plain text is found in what JSON makes of a string. *)
Definition plain_text (s : string) : Prop := s <> ""%string /\ Forall (fun c => Z_of_byte c < 128) (bs s).

Lemma contains_json s sub : plain_text sub -> contains s sub = true -> contains (json_string s) sub = true.
Proof.
  intros [Hne Ha] (a & b & ->)%contains_split. unfold json_string. rewrite !bs_append.
  assert (coerce_from 0 (bs a ++ bs sub ++ bs b) = coerce_from 0 (bs a) ++ bs sub ++ coerce_from 0 (bs b)) as ->.
  { rewrite <- (coerce_ascii_app (bs sub)) by done. destruct sub as [|c sub]; [done|]. cbn [bs app] in *. inversion Ha; subst. by apply coerce_app_ascii. }
  rewrite !string_of_append, string_of_bs. apply contains_middle.
Qed.

(** ** Hops *)

(** An error response after a hop as JSON; the names of the legacy map are plain. *)
Definition json_error (r : EnclaveErrorResponse) : EnclaveErrorResponse :=
  mkErrorResponse (json_string (eer_Error r)) ((fun d : gmap string any => json_value <$> d) <$> eer_Metrics r) (map json_event (eer_MetricEvents r)).

Section Path.
Context `{HS : Sha256} `{HE : EnclaveEnv} `{HT : TDH2}
  {verified : bytes -> bytes -> bytes -> bool} `{HV : !SignatureVerifier verified}.
(** The text of an encoded error response. *)
Variable Encode : EnclaveErrorResponse -> string.

(** The enclave's answer as the host reads it, and the host's as the node reads it. *)
Definition error_answer (code : Z) (Status : string) (resp : EnclaveErrorResponse) : enclave_answer :=
  Answered code Status (Some (mkErrorBody (Encode resp) (Some (json_error resp)))) (Err "").

Definition host_body (a : host_http) : error_body :=
  match a with
  | HttpText _ msg => mkErrorBody (msg ++ newline) None
  | HttpJSONError _ r => mkErrorBody (Encode r) (Some (json_error r))
  | _ => mkErrorBody "" None
  end.
Definition host_code (a : host_http) : Z :=
  match a with HttpText code _ | HttpJSONError code _ | HttpJSON code _ => code | HttpAborted => 0 end.
Definition host_call (a : host_http) (len : Z) : exec_call :=
  mkExecCall (Some (mkHttp (host_code a) (Some len) "" None)) (host_body a).

(** ** The enclave's message *)

Lemma rejected_text clk em code e code' e' resp (s s' : enclaveServer) :
  (reject clk em code e, s) = (HttpError code' (e', resp), s') ->
  eer_Error resp = error_message e' /\ eer_MetricEvents resp <> [].
Proof.
  unfold reject. intros [= _ <- <- _]. split; [done|]. cbn. intros H. apply (f_equal length) in H. rewrite length_app in H. cbn in H. lia.
Qed.

Lemma error_response_text clk (s : enclaveServer) m body s' code e resp :
  Server.handleExecute clk s m body = (HttpError code (e, resp), s') -> eer_Error resp = error_message e /\ eer_MetricEvents resp <> [].
Proof.
  unfold Server.handleExecute. destruct (negb _); [apply rejected_text|]. destruct body as [| |reqs]; [apply rejected_text..|].
  destruct (check_signatures _ reqs) as [[[hash req] set]|err]; [|by destruct err; try apply rejected_text; repeat case_match; try done; apply rejected_text].
  destruct (negb _); [apply rejected_text|]. destruct (in_progress _ _ _); [apply rejected_text|].
  unfold execute_marked. destruct (replayed _ _ _); [apply rejected_text|].
  unfold execute_fresh. destruct (negb _); [apply rejected_text|]. do 2 (destruct (decide _); [apply rejected_text|]).
  destruct (GetKeyPair _ _ _) as [kp|]; [|apply rejected_text]. destruct (combine_nodes _ _ _ _ _ _ _) as [secrets|[]|]; [|apply rejected_text|done..].
  unfold run_app. destruct (app_Execute _ _ _ _ _ _) as [[w evs] [output|ex]].
  - unfold attest. destruct (CreateAttestation _ _) as [w' [att|]]; [|apply rejected_text].
    destruct (Snapshot _). destruct (json_Marshal _); [done|apply rejected_text].
  - apply rejected_text.
Qed.

(** ** The node's verdict *)

(** The texts by which the executor knows that the user is to blame. *)
Definition user_markers : list string :=
  [ErrHTTPRedirectNotAllowed; ErrEncryptionRequestedNoKey; ErrKeyPresentNoEncryption; ErrResponseBodyTooLarge; ErrWasmExecutionTimeout].

Lemma markers_plain : Forall plain_text (ErrQuorumTimeout :: user_markers).
Proof. repeat constructor; (discriminate || by_compute). Qed.

Lemma classify_user text e marker : marker ∈ user_markers -> contains text marker = true -> contains text ErrQuorumTimeout = false ->
  user_error (classify text e) = true.
Proof.
  intros Hm Hc Hq. unfold classify. rewrite Hq.
  destruct (contains text ErrHTTPRedirectNotAllowed) eqn:E1; [done|].
  destruct (contains text ErrEncryptionRequestedNoKey) eqn:E2; [done|].
  destruct (contains text ErrKeyPresentNoEncryption) eqn:E3; [done|].
  destruct (contains text ErrResponseBodyTooLarge) eqn:E4; [done|]. cbn [orb].
  destruct (contains text ErrWasmExecutionTimeout) eqn:E5; [done|].
  unfold user_markers in Hm. rewrite !elem_of_cons in Hm. destruct Hm as [->|[->|[->|[->|[->|Hm]]]]]; [congruence..|set_solver].
Qed.

Section Node.
Variables (nitro : bytes -> bytes -> bytes -> bool) (url_ok : string -> bool).
Variables (env : attempt_env) (signed : SignedComputeRequest) (enclaveID : bytes) (x : RealExecutor) (enclave : Enclave).
(** The node can reach the enclave. *)
Hypothesis found : ae_timeout env = true /\ find_nodes (nodes (enclaveClient x)) [enclaveID] = Ok [enclave] /\
  url_ok (EnclaveURL enclave) = true /\ SetAuthHeader enclave = Ok tt.

Lemma dispatch_failed a len :
  ae_exec env 0%nat = host_call a len -> len <= MaxEnclaveResponseBodyBytes -> host_code a <> 200 ->
  (dispatch nitro url_ok env signed enclaveID x).1 =
  Raise (classify (execute_failed_text (host_body a)) (RequestFailed (host_code a))).
Proof.
  intros Ha Hl Hc. destruct found as (Ht & Hf & Hu & Hh).
  assert (execute_one nitro url_ok enclave signed (ae_exec env 0%nat) = Err (RequestFailed (host_code a))) as He.
  { unfold execute_one. rewrite Hu, Hh, Ha. cbn. destruct (Z.ltb_spec MaxEnclaveResponseBodyBytes len); [lia|].
    by rewrite (proj2 (Z.eqb_neq _ _) Hc). }
  unfold dispatch, bind, catch, pool_ExecuteBatch, on_pool, ExecuteBatch. rewrite Ht, Hf. cbn [negb execute_group].
  rewrite He. cbn [rbind]. unfold raise, call_text. by rewrite Ha.
Qed.

Lemma emitted_failed order text a len :
  ae_exec env 0%nat = host_call a len -> len <= MaxEnclaveResponseBodyBytes -> host_code a <> 200 ->
  execute_one_events nitro url_ok order text enclave signed (ae_exec env 0%nat) = error_events order (host_body a).
Proof.
  intros Ha Hl Hc. destruct found as (Ht & Hf & Hu & Hh). unfold execute_one_events, execute_one. rewrite Hu, Hh, Ha. cbn.
  destruct (Z.ltb_spec MaxEnclaveResponseBodyBytes len); [lia|]. by rewrite (proj2 (Z.eqb_neq _ _) Hc).
Qed.

(** A batch without a quorum is reported as such to the node. *)
Lemma quorum_timeout_reaches_node quorumTimeout (execReq : SignedComputeRequest) received threshold len :
  let a := answer_waiter quorumTimeout execReq (Some (Err (QuorumTimedOut received threshold))) in
  ae_exec env 0%nat = host_call a len -> len <= MaxEnclaveResponseBodyBytes ->
  (dispatch nitro url_ok env signed enclaveID x).1 = Raise (EnclaveQuorumTimeout (RequestFailed 500)).
Proof.
  intros a Ha Hl. rewrite (dispatch_failed a len) by done. cbn [a answer_waiter host_code host_body]. unfold execute_failed_text. cbn [eb_response eb_text].
  unfold classify. set (t := String.append _ _). assert (contains t ErrQuorumTimeout = true) as ->; [|done]. subst t.
  unfold batch_error_text, quorum_timeout_code. rewrite <- !append_assoc. rewrite !append_assoc.
  rewrite <- 3 append_assoc. apply contains_middle.
Qed.

(** The host's relay of an application's failure. *)
Lemma relayed_failure code Status e resp reqs quorumTimeout (execReq : SignedComputeRequest) :
  code <> 200 -> eer_Error resp = error_message (AppFailed e) ->
  exists pre, answer_waiter quorumTimeout execReq (Some (processBatch reqs (error_answer code Status resp)).1.1) =
    HttpJSONError 500 (mkErrorResponse (pre ++ json_string (error_message (AppFailed e)))
      (eer_Metrics (json_error resp)) (eer_MetricEvents (json_error resp))).
Proof.
  intros Hc He. cbn [processBatch error_answer]. rewrite (proj2 (Z.eqb_neq _ _) Hc). cbn [negb eb_response json_error eer_Error]. rewrite He.
  rewrite bool_decide_false.
  - cbn [negb fst answer_waiter batch_error_text eer_Metrics eer_MetricEvents]. eexists.
    rewrite <- !append_assoc. reflexivity.
  - intros Hn. assert (contains (json_string (error_message (AppFailed e))) "error" = true) as H.
    { apply contains_json; [split; [done|by_compute]|]. exact (contains_middle "" "error" _). }
    rewrite Hn in H. done.
Qed.

(** C17 An application's failure reaches the node as what it is.  When the application
    fails, the enclave's JSON error, decoded and relayed by the host under a message
    of its own, makes the node's call fail with an error whose text still contains
    every plain passage of the application's message; so a message with one of the
    texts that blame the user gives an error of the user, which is not retried (or,
    if the whole text mentions the quorum timeout, that error), and the node emits
    exactly the enclave's events, under the enclave's label. *)
Theorem app_failure_reaches_node clk (s : enclaveServer) m body s' code e resp Status reqs quorumTimeout (execReq : SignedComputeRequest) len order text :
  Server.handleExecute clk s m body = (HttpError code (AppFailed e, resp), s') ->
  let a := answer_waiter quorumTimeout execReq (Some (processBatch reqs (error_answer code Status resp)).1.1) in
  ae_exec env 0%nat = host_call a len -> len <= MaxEnclaveResponseBodyBytes ->
  exists t, (dispatch nitro url_ok env signed enclaveID x).1 = Raise (classify t (RequestFailed 500)) /\
    (forall sub, plain_text sub -> contains (ee_Error e) sub = true -> contains t sub = true) /\
    (forall marker, marker ∈ user_markers -> contains (ee_Error e) marker = true ->
       user_error (classify t (RequestFailed 500)) = true \/
       contains t ErrQuorumTimeout = true /\ classify t (RequestFailed 500) = EnclaveQuorumTimeout (RequestFailed 500)) /\
    execute_one_events nitro url_ok order text enclave signed (ae_exec env 0%nat) =
    map (fun ev => scoped enclave_scope (Event ev) (Details ev)) (map json_event (eer_MetricEvents resp)).
Proof.
  intros H a Ha Hl. destruct (app_status_is_lost clk s s' m body code _ H) as [Hcode _].
  apply error_response_text in H as [Htext Hevs]. assert (code <> 200) as Hc by (intros ->; revert Hcode; by_compute).
  destruct (relayed_failure code Status e resp reqs quorumTimeout execReq Hc Htext) as [pre Hr]. fold a in Hr.
  assert (host_code a = 500) as H5 by (by rewrite Hr). assert (host_code a <> 200) as H200 by (by rewrite H5).
  exists (execute_failed_text (host_body a)). rewrite (dispatch_failed a len), (emitted_failed order text a len) by done. rewrite H5.
  assert (forall sub, plain_text sub -> contains (ee_Error e) sub = true -> contains (execute_failed_text (host_body a)) sub = true) as Hcont.
  { intros sub Hs Hin. rewrite Hr. unfold execute_failed_text. cbn [host_body eb_response json_error eer_Error eb_text].
    assert (contains (json_string (pre ++ json_string (error_message (AppFailed e)))) sub = true) as Hj.
    { apply contains_json; [done|]. rewrite <- (append_nil (json_string (error_message _))). apply contains_within, contains_json; [done|].
      cbn [error_message]. exact (contains_within "error executing enclave app request: &{" (ee_Error e) _ sub Hin). }
    case_bool_decide as Hemp; [rewrite Hemp in Hj; by destruct sub; [destruct Hs|]|].
    rewrite <- (append_nil (json_string (pre ++ _))). by apply contains_within. }
  split; [done|]. split; [done|]. split.
  - intros marker Hm Hin. destruct (contains (execute_failed_text (host_body a)) ErrQuorumTimeout) eqn:Eq.
    + right. split; [done|]. unfold classify. by rewrite Eq.
    + left. eapply classify_user; [done| |done]. apply Hcont; [|done]. pose proof markers_plain as Hp. rewrite Forall_forall in Hp.
      apply Hp. by right.
  - rewrite Hr. unfold error_events. cbn [host_body eb_response json_error eer_MetricEvents].
    rewrite map_map. erewrite (map_ext _ json_event) by apply json_event_idemp.
    destruct (eer_MetricEvents resp) as [|ev evs]; [done|]. reflexivity.
Qed.

End Node.

End Path.
