(* ===== verification/ExecutorExamples.v ===== *)
(** * ExecutorExamples: a node and its enclave at concrete inputs

    One execution from the workflow's call to the answer of the enclave server,
    with the toy environment of [ServerToy]; witnesses for the theorems about the
    executor, the membership and the whole system; and the confusion of two
    secrets in the executor's cache. *)

From Stdlib Require Import SpecFloat.
From S2P Require Import Prelude Codec Order Sha256 Types Cache Keychain Services Emitter Server ServerSafety ServerConfig ServerToy.
From S2P Require Import Selector Pool PoolSafety PoolExamples Observability Executor ExecutorSafety SecretShares Membership Reconfiguration System.

(** ** The node *)

Definition account : string := "p2p_account".
Definition checksummed (owner : string) : string := owner.

(** Node [signer1]: its keystore knows one account and signs anything with it. *)
Definition keystore1 : keystore :=
  mkKeystore (Some ["other"; account]) (fun a _ => if bool_decide (a = account) then Some (toy_sig signer1) else None) (fun _ _ => None).

Definition enclave1 : Enclave := node_with (bs "new").

Definition local1 : Node := mkNode (Some signer1) 7 [signer3; signer1; signer2] 1.
Definition registry1 : registry :=
  mkRegistry (Some local1) (fun _ => None) (fun _ _ => Some (Some [enclave1])) true (Some (Some 0)).

Definition refresh1 : refresh_env :=
  mkRefreshEnv registry1 (fun l => l) (serving (bs "new")) (serving (bs "new")) true true (fun _ _ _ => None).

Definition limits1 (cache : bool) : limit_settings :=
  mkLimits 3 (2 * second) cache (30 * second) (5 * second) false (10 * second) 2 0 DefaultCacheConfig DefaultSessionConfig.

Definition init1 : init_env :=
  mkInitEnv (Some (mkJobConfig "" None None)) (limits1 true) true 0 (fun l => l) (serving (bs "new")) refresh1.

Definition secret_n1 : SecretIdentifier := mkSecretIdentifier "n1" "main" None.
Definition metadata1 : RequestMetadata := mkMetadata "wf" "exec-1" "0xowner" "ref" "org" 7 "name" "0xreg" "1" "v2".

(** The vault answers each request with the ciphertext "c" and one share. *)
Definition vault_reply (reqs : list SecretRequest) : GetSecretsResponse :=
  mkGetSecretsResponse [] (map (fun r => mkSecretResponse (Some (sr_Key r)) ""
    (Some (mkSecretData (hex_encode (bs "c")) [mkSecretShares [sample_key 1 ++ bs "1c"] []]))) reqs).
Definition vault1 (now : Z) : vault_env :=
  mkVaultEnv now now true true (Some false) None (fun _ reqs => Ok (Some (vault_reply reqs))).

Definition executor0 : RealExecutor :=
  mkExecutor "confidential-echo@1.0.0-alpha" "1.0.0" false 3 false None
    (mkParsed (mkJobConfig "" None None) 0 0 false 0 0 0 false 0 0 DefaultCacheConfig DefaultSessionConfig)
    "" None (new_pool DefaultCacheConfig []) [] (NewCache None None) false 0 false [] 0.

(** ** The enclave *)

(** The request that both nodes sign. *)
Definition request1 : ComputeRequest :=
  mkComputeRequest (sha256 (bs "exec-1")) "exec-1" (bs "data") [bs "c"] ["n1"] [[sample_key 1 ++ bs "1c"]]
    (sample_key 1) [] "confidential-echo@1.0.0-alpha" "1.0.0".
Definition batch1 : list SignedComputeRequest :=
  [mkSigned request1 (toy_sig signer1); mkSigned request1 (toy_sig signer2)].

Definition enclave_run : exec_response * enclaveServer :=
  handleExecute (clock_at 10) (configured false) "POST" (Decoded batch1).
Definition enclave_response : ExecuteResponse :=
  match enclave_run.1 with HttpOK _ resp => resp | _ => sample_response "" end.

(** What arrives: the document the platform makes of the user data, events as JSON. *)
Definition documented (r : ExecuteResponse) : ExecuteResponse :=
  mkExecuteResponse (er_RequestID r) (er_ApplicationRequestID r) (er_RequestHash r) (er_Output r) (er_Config r)
    (bs "new" ++ er_Attestation r) (er_Metrics r) (map json_event (er_MetricEvents r)).

(** ** The execution *)

Definition attempt1 : attempt_env :=
  mkAttemptEnv refresh1 10 (fun l => l) (serving (bs "new")) (vault1 10) true
    (fun _ => mkExecCall (Some (mkHttp 200 (Some 100) "" (Some (documented enclave_response)))) (mkErrorBody "" None)) "" (fun _ => 1000000).
Definition env1 : execute_env :=
  mkExecuteEnv keystore1 init1 (limits1 true) true (fun _ => attempt1) (fun _ _ => false) (fun _ => false)
    2000000 (fun _ => "12:00"%string) map_to_list (fun _ => ""%string) (fun _ => true).

Abbreviation toy_execute nitro := (Execute nitro any_url 0 account checksummed).

Definition run1 : execute_out * RealExecutor :=
  toy_execute toy_nitro env1 (Some (bs "data")) [secret_n1] metadata1 executor0.

Example run1_output : run1.1 = Output (bs "out").
Proof. vm_compute. reflexivity. Qed.

Lemma output_accepted_under_membership_witness :
  exists input signed out, Some (bs "data") = Some input /\ er_Output out = bs "out" /\
    own_request account run1.2 keystore1 "exec-1" input [secret_n1] signed /\
    accepted_under_membership toy_nitro run1.2 signed out.
Proof.
  apply (output_accepted_under_membership toy_nitro any_url 0 account checksummed env1
    (Some (bs "data")) [secret_n1] metadata1 executor0 (bs "out") run1.2).
  vm_compute. reflexivity.
Defined.

(** ** The whole system *)

(** Validation that accepts two documents: the enclave's keys and its response. *)
Definition system_nitro (att ud m : bytes) : bool :=
  toy_nitro att ud m && bool_decide (m = bs "new") &&
  (bool_decide (ud = hash_of (HPublicKeys (toy_keys (bs "new")))) ||
   bool_decide (ud = hash_of (HResponse enclave_response "1.0.0"))).

Definition system_genuine (m : bytes) (v : hashed) : Prop :=
  m = bs "new" /\ (v = HPublicKeys (toy_keys (bs "new")) \/ v = HResponse enclave_response "1.0.0").

Lemma system_nitro_sound att ud m : system_nitro att ud m = true ->
  exists v, system_genuine m v /\ id_ok v = true /\ hash_of v = ud.
Proof.
  intros [[_ Hm%bool_decide_eq_true]%andb_true_iff H]%andb_true_iff.
  apply orb_true_iff in H as [H%bool_decide_eq_true|H%bool_decide_eq_true].
  - exists (HPublicKeys (toy_keys (bs "new"))). split; [split; [exact Hm|by left]|split; [reflexivity|symmetry; exact H]].
  - exists (HResponse enclave_response "1.0.0"). split; [split; [exact Hm|by right]|split; [vm_compute; reflexivity|symmetry; exact H]].
Qed.

Lemma enclave_response_ok : ExecuteResponse_ok enclave_response.
Proof. split; try by_compute. split; by_compute. Qed.

Lemma documented_ok : ExecuteResponse_ok (documented enclave_response).
Proof. split; try by_compute. split; by_compute. Qed.

Lemma received_documented out : received attempt1 out -> out = documented enclave_response.
Proof.
  unfold received. cbn [ae_exec attempt1 ec_do]. generalize (documented enclave_response) as r.
  intros r (i & resp & [= <-] & [= <-]). reflexivity.
Qed.

Lemma request1_ok : ComputeRequest_ok request1.
Proof. split; by_compute. Qed.

Lemma enclave_responded : server_response (fun _ => True) enclave_response.
Proof.
  exists (clock_at 10), (configured false), "POST"%string, batch1, 200, enclave_run.2. split; [exact I|]. split.
  - vm_compute. reflexivity.
  - repeat constructor; apply request1_ok.
Qed.

Lemma genuine_response m er v : system_genuine m (HResponse er v) -> er = enclave_response.
Proof.
  unfold system_genuine. generalize enclave_response (toy_keys (bs "new")). intros r p [_ H].
  destruct H as [H|H]; [discriminate H|]. by injection H.
Qed.

Definition system_run : execute_out * RealExecutor :=
  toy_execute system_nitro env1 (Some (bs "data")) [secret_n1] metadata1 executor0.

(** One member is faulty; the others' signatures say that they signed. *)
Lemma output_computed_in_enclave_witness :
  exists input signed, Some (bs "data") = Some input /\
    own_request account system_run.2 keystore1 "exec-1" input [secret_n1] signed /\
    ((exists s req, computed (verified := toy_Verify) (fun _ => True) s req (bs "out") /\ Signers (config s) ≡ₚ donMembers system_run.2 /\
        ComputeRequest_Hash (Request req) = ComputeRequest_Hash (Request signed) /\
        (ComputeRequest_ok (Request signed) ->
         covered req = covered signed \/ collision (ComputeRequest_writes req) (ComputeRequest_writes signed)) /\
        honest_signed system_run.2 {[signer1]} (fun p msg => exists sig, toy_Verify p msg sig = true)
          (compute_payload (ComputeRequest_Hash (Request signed)))) \/
     exists j e out, received (ee_attempt env1 j) out /\ e ∈ nodes (enclaveClient system_run.2) /\
       collides_with system_genuine e signed out).
Proof.
  apply (output_computed_in_enclave system_nitro any_url 0 account checksummed (fun _ => True) system_genuine system_nitro_sound)
    with (env := env1) (md := metadata1) (x := executor0).
  - intros m er v H. rewrite (genuine_response m er v H). split; [exact enclave_response_ok|].
    exists enclave_response. split; [exact enclave_responded|reflexivity].
  - vm_compute. reflexivity.
  - intros j out H. rewrite (received_documented out H). apply documented_ok.
  - vm_compute. repeat constructor. discriminate.
  - vm_compute. discriminate.
  - intros p msg sig _ _ H. exists sig. exact H.
Defined.

(** ** Membership *)

(** A node that has not seen its members yet. *)
Definition newcomer : RealExecutor := setDONMembership [] 0 run1.2.
Definition refreshed : RealExecutor := (EnsureFreshEnclaves toy_nitro any_url account keystore1 refresh1 newcomer).2.

Lemma baseline_attested_witness :
  membership refreshed <> membership newcomer /\
  (membership refreshed = membership newcomer \/
   exists local, local_node (re_registry refresh1) = Some local /\
     membership refreshed = (sort_bytes (WorkflowDON_Members local), u32 (WorkflowDON_F local)) /\
     attested_membership toy_nitro refreshed (WorkflowDON_Members local) (u32 (WorkflowDON_F local))).
Proof.
  split; [vm_compute; discriminate|].
  apply (baseline_attested toy_nitro any_url account keystore1 refresh1 newcomer
    (EnsureFreshEnclaves toy_nitro any_url account keystore1 refresh1 newcomer).1).
  apply surjective_pairing.
Defined.

Lemma nodes_pick_same_enclave_witness :
  let a := sample_node (bs "a") "NITRO" in let b := sample_node (bs "b") "SGX" in let c := sample_node (bs "c") "NITRO" in
  SelectEnclaves {[bs "a"]} (sortEnclaveNodes [a; b; c]) [byte_of_Z 4] None =
  SelectEnclaves {[bs "a"]} (sortEnclaveNodes [c; a; b]) [byte_of_Z 4] None.
Proof.
  intros a b c. transitivity (Ok (E := select_error) [b]); [vm_compute; reflexivity|]. symmetry.
  apply (nodes_pick_same_enclave [a; b; c] [c; a; b] {[bs "a"]} {[bs "a"]} [byte_of_Z 4] None b).
  - exact (Permutation_app_comm [a; b] [c]).
  - by_compute.
  - vm_compute. reflexivity.
  - by_compute.
  - intros o _ H. exact H.
Defined.

(** ** Reconfiguration *)

(** Two members vote for the set with [signer4] in place of [signer3], half a
    minute apart and with the members in different orders. *)
Definition vote_of (signer : bytes) (now : Z) (members : list bytes) : member_vote :=
  mkMemberVote now members (toy_sig signer) signer.
Definition new_members : list bytes := [signer1; signer2; signer4].

Lemma reconfiguration_completes_witness :
  let s := configured true in
  let votes := [vote_of signer1 minute [signer4; signer1; signer2]; vote_of signer2 (90 * second) [signer2; signer1; signer4]] in
  config (fold_left (cast (config s) 1) votes s) = new_config (config s) 1 new_members \/
  exists p q, p ∈ map mv_signer votes /\ q ∈ map mv_signer votes /\ collision p q.
Proof.
  apply (reconfiguration_completes (configured true) 1 new_members [vote_of signer2 (90 * second) [signer2; signer1; signer4]]
    (vote_of signer1 minute [signer4; signer1; signer2])).
  - reflexivity.
  - apply New_inv.
  - reflexivity.
  - by_compute.
  - vm_compute. discriminate.
  - repeat constructor; by_compute.
  - by_compute.
  - by_compute.
  - by_compute.
Defined.

(** ** Secrets *)

(** A vault that keeps one value per key: the key itself. *)
Definition reply_by_key (reqs : list SecretRequest) : GetSecretsResponse :=
  mkGetSecretsResponse [] (map (fun r => mkSecretResponse (Some (sr_Key r)) ""
    (Some (mkSecretData (hex_encode (bs (sr_Key r))) [mkSecretShares [bs "share"] []]))) reqs).
Definition keyed_vault : vault_env :=
  mkVaultEnv 0 0 true true (Some false) None (fun _ reqs => Ok (Some (reply_by_key reqs))).

(** An initialised executor with the secrets cache on. *)
Definition caching : RealExecutor := set_secretsCache (NewCache None None) run1.2.
Definition call_for (key namespace : string) : vault_call :=
  mkVaultCall keyed_vault [mkSecretIdentifier key namespace None] (sample_key 1) metadata1 1.

Lemma shares_line_up_witness :
  let c := call_for "n1" "main" in
  Forall3 (fun s ct sh => entry_ok (served checksummed ([call_for "n1" "main"] ++ [c])) (vc_key c) s "0xowner" (mkCachedEDKS ct sh []))
    [secret_n1] [bs "n1"] [[bs "share"]].
Proof.
  apply (shares_line_up checksummed [call_for "n1" "main"] (call_for "n1" "main") caching [bs "n1"] [[bs "share"]] []
    (call_vault checksummed (call_for "n1" "main")
       (fold_left (fun x c => (call_vault checksummed c x).2) [call_for "n1" "main"] caching)).2).
  - reflexivity.
  - repeat constructor; by_compute.
  - vm_compute. reflexivity.
Defined.

(** Key "a-b" in namespace "c" and key "a" in namespace "b-c" share a cache entry:
    the second request is answered with the ciphertext of the first secret. *)
Theorem cache_confuses_secrets :
  let x1 := (call_vault checksummed (call_for "a-b" "c") caching).2 in
  (call_vault checksummed (call_for "a" "b-c") caching).1 = Ret ([bs "a"], [[bs "share"]], []) /\
  (call_vault checksummed (call_for "a" "b-c") x1).1 = Ret ([bs "a-b"], [[bs "share"]], []).
Proof. vm_compute. split; reflexivity. Qed.

(** The vault's responses are told apart by key alone: a request for one key in
    two namespaces fails, here with a vault that answers both. *)
Example same_key_two_namespaces :
  (call_vault checksummed
     (mkVaultCall keyed_vault [mkSecretIdentifier "k" "a" None; mkSecretIdentifier "k" "b" None] (sample_key 1) metadata1 1) caching).1 =
  Raise (DuplicateVaultResponse 1).
Proof. vm_compute. reflexivity. Qed.
