(* ===== verification/ErrorPathExamples.v ===== *)
(** * ErrorPathExamples: a guest that runs out of time

    Witness for [ErrorPath]: the deadline of a guest, seen by the node that asked. *)

From S2P Require Import Prelude Codec Sha256 Types Cache Keychain Services Emitter Server ServerSafety ServerToy Host Selector Pool PoolExamples HostHttp Workflow Executor ExecutorExamples ErrorPath.

Definition late_env : EnclaveEnv := {|
  World := nat;
  app_Execute := fun w _ _ _ _ _ => (w, [("guest_started"%string, ∅)], Err (mkExecuteError ErrWasmExecutionTimeout StatusGatewayTimeout));
  app_OnConfigUpdate := None;
  app_InjectSettings := None;
  CreateAttestation := fun w d => (w, Some d);
  OpenAnonymous := toy_Open;
  json_Marshal := fun _ => Some [];
  error_text := fun _ => ""%string;
|}.
Definition late_server : enclaveServer (HE := late_env) :=
  (handleSetConfig (HE := late_env) (NewEnclaveServer (HE := late_env) 0%nat one_key zeroConfig false) "POST" (Decoded (Some toy_config))).2.
Definition late_run := Server.handleExecute (HE := late_env) (clock_at 10) late_server "POST" (Decoded toy_batch).
Definition late_error : EnclaveErrorResponse := match late_run.1 with HttpError _ (_, resp) => resp | _ => mkErrorResponse "" ∅ [] end.

(** The text the host answers with is its error and nothing else. *)
Definition toy_Encode (r : EnclaveErrorResponse) : string := eer_Error r.
Definition late_answer : host_http :=
  answer_waiter QuorumTimeout toy_signed (Some (processBatch toy_batch (error_answer toy_Encode 500 "500 Internal Server Error" late_error)).1.1).
Definition late_attempt : attempt_env :=
  mkAttemptEnv refresh1 10 (fun l => l) (serving (bs "new")) (vault1 10) true (fun _ => host_call toy_Encode late_answer 100) "" (fun _ => 1000000).

Lemma late_run_failed :
  late_run = (HttpError 500 (AppFailed (mkExecuteError ErrWasmExecutionTimeout StatusGatewayTimeout), late_error), late_run.2).
Proof.
  assert (match late_run.1 with HttpError code (AppFailed e, _) => code = 500 /\ e = mkExecuteError ErrWasmExecutionTimeout StatusGatewayTimeout | _ => False end) as H
    by (vm_compute; by split).
  unfold late_error. destruct late_run as [[code [e resp]|code r|] s']; cbn in *; [|done..]. destruct e; try done. by destruct H as [-> ->].
Qed.

Example late_blames_user :
  user_error match (dispatch toy_nitro any_url late_attempt toy_signed (sample_key 5) run1.2).1 with Raise e => e | _ => ConfigUnparsable end = true.
Proof. vm_compute. reflexivity. Qed.

Lemma app_failure_reaches_node_witness :
  exists t, (dispatch toy_nitro any_url late_attempt toy_signed (sample_key 5) run1.2).1 = Raise (classify t (RequestFailed 500)) /\
    contains t ErrWasmExecutionTimeout = true.
Proof.
  assert (ae_timeout late_attempt = true /\ find_nodes (nodes (enclaveClient run1.2)) [sample_key 5] = Ok [enclave1] /\
    any_url (EnclaveURL enclave1) = true /\ SetAuthHeader enclave1 = Ok tt) as Hfound.
  { split; [reflexivity|]. split; [vm_compute; reflexivity|]. split; vm_compute; reflexivity. }
  destruct (app_failure_reaches_node (HE := late_env) (HV := toy_verifier) toy_Encode toy_nitro any_url late_attempt toy_signed (sample_key 5) run1.2 enclave1 Hfound
    (clock_at 10) late_server "POST" (Decoded toy_batch) late_run.2 500 (mkExecuteError ErrWasmExecutionTimeout StatusGatewayTimeout) late_error
    "500 Internal Server Error" toy_batch QuorumTimeout toy_signed 100 map_to_list (fun _ => ""%string) late_run_failed eq_refl) as (t & Ht & Hc & _).
  { vm_compute. discriminate. }
  exists t. split; [exact Ht|]. apply Hc; [|vm_compute; reflexivity]. split; [discriminate|by_compute].
Defined.
