(* ===== verification/EndToEndExamples.v ===== *)
(** * EndToEndExamples: one workflow from the engine to the guest and back

    The node of [ExecutorExamples] and an enclave that hosts the application of
    [WorkflowExamples]. *)

From S2P Require Import Prelude Codec Order Sha256 Types Cache Keychain Services Emitter Server ServerSafety ServerConfig ServerToy.
From S2P Require Import Selector Pool PoolSafety PoolExamples Fetcher Outbound Workflow WorkflowSafety WorkflowExamples.
From S2P Require Import Observability Executor ExecutorSafety System ExecutorExamples Actions EndToEnd.

#[local] Instance execution_eq_dec : EqDecision (WorkflowExecution unit unit).
Proof. solve_decision. Defined.

(** Messages: one execution has an encoding. *)
Definition toy_marshal (e : WorkflowExecution unit unit) : result unit (option bytes) :=
  if bool_decide (e = toy_execution_input) then Ok (Some (bs "execution")) else Err tt.

Lemma toy_marshal_roundtrip e b : toy_marshal e = Ok (Some b) -> toy_unmarshal b = Ok e.
Proof. unfold toy_marshal. case_bool_decide as E; [|done]. by rewrite E. Qed.

(** ** The enclave *)

Definition workflow_hosting_env : EnclaveEnv :=
  Hosted.workflow_env toy_unmarshal toy_storage toy_requirements true toy_module toy_guest (fun b => Ok b) (fun _ => ""%string) (fun _ => ""%string)
    (fun _ _ _ _ _ => Some tt) (Some toy_factory) toy_settings_of 0 Some toy_Open (fun _ => Some []) (fun _ => ""%string).

Definition workflow_server : enclaveServer (HE := workflow_hosting_env) :=
  (server_run (HE := workflow_hosting_env)
    (NewEnclaveServer (HE := workflow_hosting_env) (NewConfidentialWorkflowsApp toy_http 1) one_key zeroConfig false) toy_ops).1.

Definition workflow_request : ComputeRequest :=
  mkComputeRequest (sha256 (bs "exec")) "exec" (bs "execution") [] [] [] (sample_key 1) [] AppIDConfidentialWorkflows "1.0.0".
Definition workflow_batch : list SignedComputeRequest :=
  [mkSigned workflow_request (toy_sig signer1); mkSigned workflow_request (toy_sig signer2)].

Definition workflow_run : exec_response * enclaveServer (HE := workflow_hosting_env) :=
  handleExecute (HE := workflow_hosting_env) (clock_at 10) workflow_server "POST" (Decoded workflow_batch).
Definition workflow_response : ExecuteResponse :=
  match workflow_run.1 with HttpOK _ resp => resp | _ => sample_response "" end.

Example workflow_response_output : er_Output workflow_response = bs "wasmtrigger".
Proof. vm_compute. reflexivity. Qed.

(** ** The node *)

Definition workflow_metadata : RequestMetadata := mkMetadata "wf" "exec" "owner" "ref" "org" 7 "name" "0xreg" "1" "v2".
Definition workflow_executor : RealExecutor :=
  mkExecutor AppIDConfidentialWorkflows "1.0.0" false 3 false None
    (mkParsed (mkJobConfig "" None None) 0 0 false 0 0 0 false 0 0 DefaultCacheConfig DefaultSessionConfig)
    "" None (new_pool DefaultCacheConfig []) [] (NewCache None None) false 0 false [] 0.
Definition workflow_attempt : attempt_env :=
  mkAttemptEnv refresh1 10 (fun l => l) (serving (bs "new")) (vault1 10) true
    (fun _ => mkExecCall (Some (mkHttp 200 (Some 100) "" (Some (documented workflow_response)))) (mkErrorBody "" None)) "" (fun _ => 1000000).
Definition workflow_xenv : execute_env :=
  mkExecuteEnv keystore1 init1 (limits1 true) true (fun _ => workflow_attempt) (fun _ _ => false) (fun _ => false)
    2000000 (fun _ => "12:00"%string) map_to_list (fun _ => ""%string) (fun _ => true).

(** Validation that accepts two documents: the enclave's keys and its response. *)
Definition workflow_nitro (att ud m : bytes) : bool :=
  toy_nitro att ud m && bool_decide (m = bs "new") &&
  (bool_decide (ud = hash_of (HPublicKeys (toy_keys (bs "new")))) ||
   bool_decide (ud = hash_of (HResponse workflow_response "1.0.0"))).
Definition workflow_genuine (m : bytes) (v : hashed) : Prop :=
  m = bs "new" /\ (v = HPublicKeys (toy_keys (bs "new")) \/ v = HResponse workflow_response "1.0.0").

Definition workflow_input : ConfidentialWorkflowRequest := mkWorkflowRequest (Some toy_execution_input) [].
Definition workflow_answer : action_out bytes * RealExecutor :=
  workflow_action workflow_nitro any_url 0 account checksummed toy_marshal Some (fun s => s) workflow_xenv workflow_metadata workflow_input workflow_executor.

Example workflow_answered : workflow_answer.1 = Answer (bs "wasmtrigger").
Proof. vm_compute. reflexivity. Qed.

(** ** The assumptions hold *)

Lemma workflow_nitro_sound att ud m : workflow_nitro att ud m = true ->
  exists v, workflow_genuine m v /\ id_ok v = true /\ hash_of v = ud.
Proof.
  intros [[_ Hm%bool_decide_eq_true]%andb_true_iff H]%andb_true_iff.
  apply orb_true_iff in H as [H%bool_decide_eq_true|H%bool_decide_eq_true].
  - exists (HPublicKeys (toy_keys (bs "new"))). split; [split; [exact Hm|by left]|split; [reflexivity|symmetry; exact H]].
  - exists (HResponse workflow_response "1.0.0"). split; [split; [exact Hm|by right]|split; [vm_compute; reflexivity|symmetry; exact H]].
Qed.

Lemma workflow_response_ok : ExecuteResponse_ok workflow_response.
Proof. split; try by_compute. split; by_compute. Qed.

Lemma workflow_documented_ok : ExecuteResponse_ok (documented workflow_response).
Proof. split; try by_compute. split; by_compute. Qed.

Lemma workflow_received out : received workflow_attempt out -> out = documented workflow_response.
Proof.
  unfold received. cbn [ae_exec workflow_attempt ec_do]. generalize (documented workflow_response) as r.
  intros r (i & resp & [= <-] & [= <-]). reflexivity.
Qed.

Lemma workflow_genuine_response m er v : workflow_genuine m (HResponse er v) -> er = workflow_response.
Proof.
  unfold workflow_genuine. generalize workflow_response (toy_keys (bs "new")). intros r p [_ H].
  destruct H as [H|H]; [discriminate H|]. by injection H.
Qed.

Definition workflow_hosting : enclaveServer (HE := workflow_hosting_env) -> Prop :=
  hosting (verified := toy_Verify) toy_unmarshal toy_storage toy_requirements true toy_module toy_guest (fun b => Ok b) (fun _ => ""%string) (fun _ => ""%string)
    (fun _ _ _ _ _ => Some tt) (Some toy_factory) toy_settings_of 0 Some toy_Open (fun _ => Some []) (fun _ => ""%string).

Lemma workflow_run_ok : workflow_run.1 = HttpOK 200 workflow_response.
Proof. vm_compute. reflexivity. Qed.

Lemma workflow_responded : server_response (HE := workflow_hosting_env) (verified := toy_Verify) workflow_hosting workflow_response.
Proof.
  exists (clock_at 10), workflow_server, "POST"%string, workflow_batch, 200, workflow_run.2. split.
  { exists toy_http, 1, one_key, zeroConfig, false, toy_ops. reflexivity. }
  split; [rewrite <- workflow_run_ok; apply surjective_pairing|].
  assert (ComputeRequest_ok workflow_request) as H by (split; by_compute). by repeat constructor.
Qed.

Lemma workflow_enclaves m er v : workflow_genuine m (HResponse er v) ->
  ExecuteResponse_ok er /\
  exists r, server_response (HE := workflow_hosting_env) (verified := toy_Verify) workflow_hosting r /\ er_bound r = er_bound er.
Proof.
  intros H. rewrite (workflow_genuine_response m er v H). split; [exact workflow_response_ok|].
  exists workflow_response. split; [exact workflow_responded|reflexivity].
Qed.

(** The state the node is left in. *)
Lemma workflow_answer_eq :
  workflow_action workflow_nitro any_url 0 account checksummed toy_marshal Some (fun s => s) workflow_xenv workflow_metadata workflow_input workflow_executor
  = (Answer (bs "wasmtrigger"), workflow_answer.2).
Proof. rewrite <- workflow_answered. unfold workflow_answer. apply surjective_pairing. Qed.

Lemma workflow_nodes_real : Forall (fun e => EnclaveType e <> EnclaveTypeFake) (nodes (enclaveClient workflow_answer.2)).
Proof. vm_compute. repeat constructor. discriminate. Qed.

Lemma workflow_fault_bound : Z.of_nat (size ({[signer1]} : gset bytes)) <= donF workflow_answer.2.
Proof. vm_compute. discriminate. Qed.

(** One member is faulty; the others' signatures say that they signed. *)
Lemma workflow_end_to_end_witness :
  exists execution output, wr_Execution workflow_input = Some execution /\ same_identity workflow_metadata execution /\
    Some output = Some (bs "wasmtrigger").
Proof.
  destruct (workflow_end_to_end workflow_nitro any_url 0 account checksummed toy_unmarshal toy_storage toy_requirements true toy_module toy_guest
    (fun b => Ok b) (fun _ => ""%string) (fun _ => ""%string) (fun _ _ _ _ _ => Some tt) (Some toy_factory) toy_settings_of 0 Some toy_Open
    (fun _ => Some []) (fun _ => ""%string) toy_marshal Some (fun s => s) toy_marshal_roundtrip workflow_genuine workflow_nitro_sound
    workflow_enclaves workflow_xenv workflow_metadata workflow_input workflow_executor (bs "wasmtrigger") workflow_answer.2 {[signer1]}
    (fun p msg => exists sig, toy_Verify p msg sig = true) workflow_answer_eq
    (fun j out H => eq_ind_r ExecuteResponse_ok workflow_documented_ok (workflow_received out H)) workflow_nodes_real workflow_fault_bound
    (fun p msg sig _ _ H => ex_intro _ sig H)) as (execution & b & output & signed & H1 & H2 & _ & H3 & _).
  exists execution, output. auto.
Defined.
