(* ===== verification/ReportingExamples.v ===== *)
(** * ReportingExamples: what the workflow of [EndToEndExamples] shows *)

From S2P Require Import Prelude Float Codec Sha256 Types Keychain Services Emitter Server ServerSafety ServerToy Observability Fetcher Outbound Workflow Guest.
From S2P Require Import WorkflowSafety WorkflowExamples Pool PoolSafety PoolExamples Executor ExecutorSafety ExecutorExamples EndToEndExamples Reporting.

Definition workflow_observed : execute_out * RealExecutor * list emission :=
  Execute_observed workflow_nitro any_url 0 account checksummed workflow_xenv (Some (bs "execution")) [] workflow_metadata workflow_executor.

Lemma workflow_observed_output : workflow_observed.1.1 = Output (bs "wasmtrigger").
Proof. vm_compute. reflexivity. Qed.

Lemma workflow_observed_eq :
  Execute_observed workflow_nitro any_url 0 account checksummed workflow_xenv (Some (bs "execution")) [] workflow_metadata workflow_executor
  = (Output (bs "wasmtrigger"), workflow_observed.1.2, workflow_observed.2).
Proof.
  rewrite <- workflow_observed_output. unfold workflow_observed. destruct (Execute_observed _ _ _ _ _ _ _ _ _ _) as [[o x] l]. reflexivity.
Qed.

Lemma toy_callbacks (m sdk : bytes) (r : option unit) (h : helper_identity) (t : Z) : Forall int32_call toy_calls.
Proof. repeat constructor; cbn; lia. Qed.

Lemma workflow_events_carried j out :
  received (ee_attempt workflow_xenv j) out ->
  er_Output out = er_Output workflow_response /\ er_MetricEvents out = map json_event (er_MetricEvents workflow_response).
Proof. intros H%workflow_received. by rewrite H. Qed.

(** [workflow_events_reach_don]: the line, the call and its failure. *)
Lemma workflow_events_reach_don_witness :
  map bm_event (map untimed (beholders workflow_observed.2)) =
  let co := coordinates_at workflow_metadata 3 "" in
  [WorkflowUserLog co "hello"; CapabilityExecutionStarted co "cap@1.0.0" 4 "Read";
   CapabilityExecutionFinished co "cap@1.0.0" 4 EXECUTION_STATUS_FAILED 
     "failed to call capability cap@1.0.0, remote capability calls are not supported" "Read"].
Proof.
  pose proof (workflow_events_reach_don (HV := toy_verifier) toy_unmarshal toy_storage toy_requirements true toy_module toy_guest
    (fun b => Ok b) (fun _ => ""%string) (fun _ => ""%string) (fun _ _ _ _ _ => Some tt) (Some toy_factory) toy_settings_of 0 Some toy_Open
    (fun _ => Some []) (fun _ => ""%string) "http-actions@1.0.0" "consensus@1.0.0" (fun _ => Err ""%string) (fun _ => Err ""%string)
    (fun _ => Err ""%string) (fun b => Ok b) (fun _ => ""%string) (fun s => s) None None (-32602) workflow_nitro any_url 0 account checksummed
    (fun _ _ _ _ _ => toy_calls) (fun _ _ _ _ _ => eq_refl) toy_callbacks
    (clock_at 10) workflow_server "POST" (Decoded workflow_batch) 200 workflow_response workflow_run.2
    workflow_xenv (Some (bs "execution")) [] workflow_metadata workflow_executor (bs "wasmtrigger") workflow_observed.1.2 workflow_observed.2) as H.
  destruct H as (? & ? & ? & ? & ? & ? & _ & _ & H).
  - transitivity (workflow_run.1, workflow_run.2); [apply surjective_pairing|]. by rewrite workflow_run_ok.
  - exact workflow_events_carried.
  - reflexivity.
  - exact workflow_observed_eq.
  - rewrite H. vm_compute. reflexivity.
Defined.
